(* ===== verification/_CoqProject ===== *)
-Q . S2P
Prelude.v
Exceptions.v
Domain.v
Retry.v
Text.v
Json.v
Sql.v
Registration.v
Outbox.v
Effects.v
Invariants.v
Raises.v
Accounts.v
Idempotency.v
Database.v
RegisterFlow.v
Relay.v
Kafka.v
CircuitBreaker.v
Coordinator.v
HotStore.v
Decimals.v
Fingerprint.v
Tokens.v
Sessions.v
AuthFlow.v
Refresh.v
Schema.v
Profile.v
RequestId.v
ErrorResponses.v
Endpoints.v
AccessTokens.v
ReplayProtection.v
OpenApi.v
Reconciler.v
Metrics.v
ProfileFirst.v
Frames.v
Service.v
Passwords.v
Documented.v
Settings.v
Container.v
Wiring.v
Logging.v
Workers.v
HttpApp.v
