(* ===== verification/Prelude.v ===== *)
(** * Andruha identity service: verification library (root file)

    A model of the identity service under [src/src/app] and the theorems that say it
    does its work: registering users with a profile in another service, signing in and
    out, rotating refresh tokens under an idempotency fence, and publishing events
    through a transactional outbox.  Every definition is translated from the
    Python source and can be evaluated; every property of the manifest is a theorem
    about those definitions, and those with hypotheses are applied to a concrete
    input by a lemma of the same name that ends in [_witness].

    ** Parts and files

    Python paths are below [src/src/app]; a file opens with what it models.

    - Foundations.  [Prelude] (this file): results, aware and naive datetimes, list and
      map lemmas, the rewriting database [identity_rw] and its tactics.
      [Exceptions]: the exception classes of [domain/exceptions] and
      [application/exceptions], their bases, [isinstance] and [except].  [Text],
      [Json]: UUIDs, hexadecimal, UTF-8, [isoformat] and [json.dumps] with a reader
      of what it prints.  [Sql]: single-row updates, ordered selections with
      limits and skipped locks, CHECK constraints over maps from primary keys.
    - Domain.  [Domain]: [domain/base.py], the entities, aggregates, value objects and
      policies (user, authentication session, refresh token).
    - Storage and effects.  [Effects]: the unit of work
      ([infrastructure/database/uow.py]), the translation of driver errors and the
      monads in which handlers are written.  [Invariants]: the judgement that a
      handler keeps a predicate of the trace and the database.  [Raises]: the judgement
      of what classes a handler can raise.  [Accounts],
      [Sessions]: the user and session repositories.  [Registration], [Outbox],
      [Idempotency]: the durable tables with their repositories, validators and
      constraints.  [Database]: all tables in one record.  [Schema]: the ORM's tables and
      the migrations of [src/alembic], with their CHECK constraints as text that is
      parsed and evaluated.
    - Registration.  [RegisterFlow]: the handlers of [application/use_cases/register],
      [resume_registration], [redrive_registration] and one round of
      [application/registration/reconciler.py].  [Reconciler]: its loop.
      [ProfileFirst]: the order of the profile service and the database.  [Profile]:
      [infrastructure/http/profile_provisioner.py].  [Retry]: the back-off policies,
      in binary64, and [timedelta].
    - Events.  [Relay]: [application/outbox/relay.py].  [Kafka]: the broker adapter
      [infrastructure/messaging/kafka_publisher.py].
    - Idempotency.  [Coordinator]: [application/idempotency/coordinator.py] around the
      durable path of [Idempotency].  [HotStore]: the Valkey store, its Lua scripts and
      the circuit-breaking wrapper.  [CircuitBreaker]:
      [infrastructure/resilience/circuit_breaker.py].  [Fingerprint], [Decimals]:
      [application/idempotency/fingerprint.py].
    - Sessions.  [Tokens]: token pairs and opaque refresh tokens.  [AuthFlow]: sign-in,
      sign-out and the current user.  [Refresh]: [use_cases/refresh/handler.py].
      [AccessTokens], [ReplayProtection], [Passwords]: the adapters of
      [infrastructure/security].
    - HTTP.  [RequestId]: the request id middleware, its life-cycle observer and the log
      lines it writes.
      [ErrorResponses]: the public errors and the handler table.  [Endpoints]:
      [routers/v1/auth.py].  [HttpApp]: [http/main.py], the routers and the health
      checks.  [OpenApi]: the responses each route declares; [Documented]: that the
      answers of the endpoints are among them.
    - Processes.  [Settings], [Wiring]: [core/settings] and what the providers of
      [infrastructure/di] build from them.  [Container]: the graph of all providers.
      [Workers]: the two worker entry points.  [Logging]: [core/logging.py].
      [Metrics]: the adapters of [infrastructure/observability] over the counters of a
      metrics library.
    - The whole.  [Service]: all entry points as steps on one database.  [Frames]: which
      tables the handlers of sessions leave alone.

    ** How parts interact

    A component that another one calls through a protocol is a class ([PasswordHasher],
    [ProfileProvisioner], [BrokerPublisher], [AccessTokenIssuer], [AccessTokenVerifier],
    [ReplayProtector]): the caller's theorems hold for every instance, and the
    adapters' files model the real ones ([Passwords], [Profile], [Kafka],
    [AccessTokens], [ReplayProtection]).  The coordinator's hot store answers as the
    environment likes; [HotStore] shows what the real one answers.  [Kafka.kafka_delivery]
    is the relay's decision with the Kafka adapter in place; the endpoints' theorems
    run the handlers, the database and the response table together; [Wiring] and
    [HttpApp] show that validated settings give components that are built, and
    [Container] that each is given the others it asks for.

    Handlers, relay and sessions all run on the one [Database.database].  [Service]
    composes them: a step is a whole run of an entry point, among interference that
    may do what such runs are shown to do, and its invariant follows from the theorems
    of the parts by what each leaves alone ([RegisterFlow] and [ProfileFirst] for
    registrations, [AuthFlow] and [Refresh] for sessions, [Relay] for the outbox).

    ** State, failures and schedules

    A run is a function of an environment ([Effects.env]) and a world: the database, a
    tick that every effect advances and the trace of external calls.  The environment
    decides, per tick, what clocks read, which UUIDs and jitter are drawn, what
    other transactions commit before a statement, which rows they hold locked,
    which statements and commits fail and, when a commit fails, whether it had been
    applied.  A theorem quantified over environments therefore speaks of every
    failure and of every interleaving with other processes; what is assumed of the
    other processes (that they run this code too) is stated in a record such as
    [relay_env] or [good_env].  Statements are atomic; a row locked FOR UPDATE is
    not changed by others until the transaction ends.  The workers, the password
    pool, the circuit breaker and the request middleware are step functions or step
    relations of their own, over explicit schedules.

    ** What the theorems show

    - The service: in every state its entry points can reach, each user is the account
      of one completed registration whose profile was acknowledged, sessions and
      tokens belong to users, an event announces one account, and SUCCESS means the
      broker has the message; no account is created before its profile.
    - Endpoints: what each answer of register, login and refresh rests on and what it does
      to cookies; one valid request id and one response per request; public errors
      are unambiguous; every answer is one the API description declares.
    - Sessions: a refresh rotates the presented token once or is refused; a reused token
      revokes its session; a session never has two unused tokens; login does the
      same expensive work for unknown accounts; a session that is signed out stays
      revoked; issued access tokens verify, and
      only tokens with the required claims do; protected replay results open under
      the keys and context they were sealed with and are otherwise refused.
    - Idempotency: the operation of a key is committed at most once and with its record;
      the coordinator refines that durable fence whatever the hot store answers; the
      scripts refine an abstract lease protocol; fingerprints agree exactly on
      semantically equal payloads, up to collisions of the hash and, for decimals, to
      the 28 digits of the default context.
    - Registration: reachable rows are well-formed, a stale claim changes nothing, every
      completed operation has its user; what a failed attempt schedules; the reconciler's rounds end.
    - Tables: the CHECK constraints of the ORM accept exactly the rows the repositories'
      validators accept; what the code writes fits the columns; migrating an empty
      database gives the ORM's schema, from any revision of it.
    - Outbox: no message is lost, messages of a key leave in order, a queue whose messages
      are due yields one to the next claim; SUCCESS only after an acknowledgement.
    - Resources: one probe of a half-open breaker; bounded profile requests; a bounded
      password pool; worker processes that leave nothing behind; log lines that
      say nothing of an exception's message; counters that add up to what a
      registration worker did; settings that validate configure components that start;
      a provider graph that is well-typed, with one session per transaction, whose
      HTTP process leaves the engine and the cache client open.

    ** Bounds and fuel

    Loops that run until they are stopped ([Relay.run_loop], [Reconciler.reconcile_loop])
    take fuel, one unit per round, and answer [None] when it is used up; safety is
    proved for every amount, and [Reconciler.reconciler_runs] shows that the number of
    ticks before the stop is enough.  [Logging.walk] has one unit more than there
    are exceptions, [Exceptions.ancestors] more than the class hierarchy is deep,
    [Json.decimal] at least one per decimal digit; each is proved, or computed, to
    be enough.  Integers are unbounded, as in Python; floats are binary64
    ([SpecFloat]); datetimes are microseconds with an optional offset.

    ** Not modelled

    - Values: exception messages; overflow of datetimes; PostgreSQL's integers and
      column lengths outside [Schema]; the errors of assigning to frozen models.  Text is over code
      points below 256; JSON and the payloads of fingerprints have no
      floats (Python's shortest text of one has no reading here).
    - Databases: statements are atomic (no re-evaluation of a condition after a lock
      wait), the ORM's identity map is not kept, and isolation is that of single
      statements.
    - Scheduling: the streams of one relay round and the operations of one reconciler
      round run one after the other, the rest being the environment's
      interference; waiting takes a tick, not a duration; heartbeats are written down
      after the call they accompany.
    - Libraries are parameters, with their documented behaviour as laws where it is
      needed: SHA-256, the JSON parser and pydantic's lenient readers, the C library's
      [pow], e-mail syntax, Argon2, PyJWT, RSA and PEM, AES-GCM, random sources, the
      HTTP client, the Kafka client, the metrics client, structlog, Starlette's
      headers and choice of exception handlers, pydantic's float constraints on NaN.
    - Not translated: the container itself (a library), structlog's own processors and
      renderers, the reading of the environment's text into typed settings, the
      connection of alembic's [env.py], which indexes a migration leaves, and the
      protocols of repositories and the unit of work: each has one implementation,
      which is the model.  The other protocols are classes. *)

From stdpp Require Export base option list gmap sets strings sorting numbers.
From Stdlib Require Export Strings.Byte.

#[global] Open Scope Z_scope.

(** ** Results: a value or a raised exception *)

Inductive result (E A : Type) : Type :=
| Ok (a : A)
| Err (e : E).
Arguments Ok {E A} a.
Arguments Err {E A} e.

#[global] Instance result_ret E : MRet (result E) := fun A a => Ok a.
#[global] Instance result_bind E : MBind (result E) :=
  fun A B f m => match m with Ok a => f a | Err e => Err e end.
#[global] Instance result_eq_dec E A `{EqDecision E, EqDecision A} :
  EqDecision (result E A).
Proof. solve_decision. Defined.

Definition is_ok {E A} (r : result E A) : bool :=
  match r with Ok _ => true | Err _ => false end.

Lemma bind_ok_inv {E A B} (m : result E A) (f : A -> result E B) b :
  m ≫= f = Ok b -> exists a, m = Ok a /\ f a = Ok b.
Proof. destruct m; [eauto | discriminate]. Qed.

Lemma bind_ok_intro {E A B} (m : result E A) (f : A -> result E B) a b :
  m = Ok a -> f a = Ok b -> m ≫= f = Ok b.
Proof. by intros ->. Qed.

Lemma bind_err_inv {E A B} (m : result E A) (f : A -> result E B) e :
  m ≫= f = Err e -> m = Err e \/ exists a, m = Ok a /\ f a = Err e.
Proof. destruct m as [a|e']; cbn; [eauto | intros [= ->]; auto]. Qed.

(** ** Bytes *)

Abbreviation bytes := (list byte).

#[global] Instance byte_eq_dec : EqDecision byte := Byte.byte_eq_dec.
#[global] Program Instance byte_countable : Countable byte :=
  inj_countable Byte.to_N Byte.of_N _.
Next Obligation. intros b. apply Byte.of_to_N. Qed.

(** ** UUIDs, instants and durations

    A UUID is its 128-bit integer value: equality and order of [uuid.UUID] (and
    of the PostgreSQL type) are those of the integer.

    A [datetime] keeps the instant it denotes in microseconds since the epoch
    and its UTC offset in seconds; a naive datetime has no offset.  Comparing
    two aware datetimes compares the instants. *)

Abbreviation uuid := Z (only parsing).

Record datetime := Datetime { dt_us : Z; dt_offset : option Z }.

#[global] Instance datetime_eq_dec : EqDecision datetime.
Proof. solve_decision. Defined.

Definition utc (us : Z) : datetime := Datetime us (Some 0).
Definition is_aware (d : datetime) : bool :=
  match dt_offset d with Some _ => true | None => false end.

Definition dt_ltb (a b : datetime) : bool := dt_us a <? dt_us b.
Definition dt_leb (a b : datetime) : bool := dt_us a <=? dt_us b.
Definition dt_eqb (a b : datetime) : bool := dt_us a =? dt_us b.

(** [d + timedelta]: a duration is its number of microseconds. *)
Definition dt_add (d : datetime) (delta : Z) : datetime :=
  Datetime (dt_us d + delta) (dt_offset d).

Lemma dt_add_us d k : dt_us (dt_add d k) = dt_us d + k.
Proof. reflexivity. Qed.

Lemma dt_add_aware d k : is_aware (dt_add d k) = is_aware d.
Proof. reflexivity. Qed.

Lemma dt_ltb_lt a b : dt_ltb a b = true <-> dt_us a < dt_us b.
Proof. apply Z.ltb_lt. Qed.
Lemma dt_ltb_ge a b : dt_ltb a b = false <-> dt_us b <= dt_us a.
Proof. apply Z.ltb_ge. Qed.
Lemma dt_leb_le a b : dt_leb a b = true <-> dt_us a <= dt_us b.
Proof. apply Z.leb_le. Qed.
Lemma dt_leb_gt a b : dt_leb a b = false <-> dt_us b < dt_us a.
Proof. apply Z.leb_gt. Qed.

(** ** Options *)

Definition is_some {A} (o : option A) : bool :=
  match o with Some _ => true | None => false end.
Definition is_none {A} (o : option A) : bool := negb (is_some o).

(** [value is None or check(value)] *)
Definition on_some {E A} (o : option A) (f : A -> result E unit) : result E unit :=
  match o with Some a => f a | None => Ok tt end.

Lemma is_some_true {A} (o : option A) : is_some o = true <-> is_Some o.
Proof. destruct o; cbn; split; try done; intros [? ?]; done. Qed.

(** ** Automation shared by the components *)

Create HintDb identity discriminated.
Create Rewrite HintDb identity_rw.
#[export] Hint Rewrite dt_ltb_lt dt_ltb_ge dt_leb_le dt_leb_gt : identity_rw.
#[export] Hint Rewrite dt_add_us dt_add_aware : identity_rw.
#[export] Hint Rewrite andb_true_iff orb_true_iff andb_false_iff orb_false_iff
  negb_true_iff negb_false_iff Z.ltb_lt Z.ltb_ge Z.leb_le Z.leb_gt : identity_rw.

(** Case analysis on the first stuck [if] or [match] of the goal. *)
Ltac case_step :=
  match goal with
  | |- context [if ?b then _ else _] => let H := fresh "Hc" in destruct b eqn:H
  | |- context [match ?b with _ => _ end] => let H := fresh "Hc" in destruct b eqn:H
  end.

(** Turn boolean tests into propositions everywhere. *)
Ltac bools := autorewrite with identity_rw in *.
