(* ===== verification/Exceptions.v ===== *)
(** * Exception classes of the service and their hierarchy

    One inductive type per module of [domain/exceptions] and
    [application/exceptions], injected into the type [exn] of everything a
    Python call may raise.  [bases] is the class statement's base list and
    [isinstance] the subclass test [except] clauses and handler lookups use. *)

From S2P Require Import Prelude.

Inductive domain_error : Set :=
| DomainError
| InvalidDomainStateError
| InvalidEmailError
| InvalidPasswordHashError
| InvalidPasswordError
| InvalidTimestampError
| InvalidSessionLifetimeError
| InvalidCredentialsError
| UserAlreadyExistsError
| UserNotFoundError
| InvalidRefreshTokenError
| AuthSessionInactiveError
| RefreshTokenReuseError.

Inductive idempotency_error : Set :=
| IdempotencyError
| IdempotencyStorageUnavailableError
| IdempotencyKeyConflictError
| IdempotencyRequestInProgressError
| RefreshReplayUnavailableError.

Inductive outbox_error : Set :=
| OutboxError
| PublishError
| TransientPublishError
| PermanentPublishError
| RetryExhaustedError.

Inductive persistence_error : Set :=
| PersistenceError
| PersistenceUnavailableError
| TransactionConflictError
| PersistenceIntegrityError
| StoredStateError
| EntityNotFoundError.

Inductive profile_error : Set :=
| ProfileProvisioningUnavailableError
| ProfileProvisioningRejectedError.

Inductive security_error : Set :=
| SecurityError
| InvalidTokenError
| InvalidTokenDataError
| TokenExpiredError
| TokenMalformedError
| TokenIssuanceError
| InvalidTokenConfigurationError
| InvalidTokenSigningKeyError
| PasswordHashingError.

(** The driver and pool failures the unit of work translates: the built-in
    connection and timeout errors, SQLAlchemy's [DBAPIError] (with the SQLSTATE
    of the driver exception, whether it is an [IntegrityError], and whether the
    connection was invalidated), its pool timeout and disconnection errors, and
    any other [SQLAlchemyError]. *)
Inductive db_error : Set :=
| ConnectionError
| TimeoutError
| DBAPIError (integrity : bool) (sqlstate pgcode : option string)
    (connection_invalidated : bool)
| PoolTimeoutError
| DisconnectionError
| OtherSQLAlchemyError.

Inductive exn : Set :=
| EException
| EValueError
| EValidationError
| ERuntimeError
| ETypeError
| EOverflowError
| EKeyError
| ECancelled
| EDomain (e : domain_error)
| EInvalidCommand
| EIdempotency (e : idempotency_error)
| EOutbox (e : outbox_error)
| EPersistence (e : persistence_error)
| EProfile (e : profile_error)
| ESecurity (e : security_error)
| EDatabase (e : db_error)
| EConcurrentWinnerCommitted
| ELostRegistrationClaim
| ERegistrationFinalizationConflict
| EOSError
| ERequestValidation.

Coercion EDomain : domain_error >-> exn.
Coercion EIdempotency : idempotency_error >-> exn.
Coercion EOutbox : outbox_error >-> exn.
Coercion EPersistence : persistence_error >-> exn.
Coercion EProfile : profile_error >-> exn.
Coercion ESecurity : security_error >-> exn.
Coercion EDatabase : db_error >-> exn.

#[global] Instance domain_error_eq_dec : EqDecision domain_error.
Proof. solve_decision. Defined.
#[global] Instance idempotency_error_eq_dec : EqDecision idempotency_error.
Proof. solve_decision. Defined.
#[global] Instance outbox_error_eq_dec : EqDecision outbox_error.
Proof. solve_decision. Defined.
#[global] Instance persistence_error_eq_dec : EqDecision persistence_error.
Proof. solve_decision. Defined.
#[global] Instance profile_error_eq_dec : EqDecision profile_error.
Proof. solve_decision. Defined.
#[global] Instance security_error_eq_dec : EqDecision security_error.
Proof. solve_decision. Defined.
#[global] Instance db_error_eq_dec : EqDecision db_error.
Proof. solve_decision. Defined.
#[global] Instance exn_eq_dec : EqDecision exn.
Proof. solve_decision. Defined.

(** ** Base classes *)

Definition domain_bases (e : domain_error) : exn :=
  match e with
  | DomainError => EException
  | InvalidDomainStateError | InvalidCredentialsError | UserAlreadyExistsError
  | UserNotFoundError | InvalidRefreshTokenError => DomainError
  | InvalidEmailError | InvalidPasswordHashError | InvalidPasswordError
  | InvalidTimestampError | InvalidSessionLifetimeError => InvalidDomainStateError
  | AuthSessionInactiveError | RefreshTokenReuseError => InvalidRefreshTokenError
  end.

Definition security_bases (e : security_error) : list exn :=
  match e with
  | SecurityError => [EException]
  | InvalidTokenError | TokenIssuanceError | PasswordHashingError =>
      [SecurityError : exn]
  | InvalidTokenDataError | TokenExpiredError | TokenMalformedError =>
      [InvalidTokenError : exn]
  | InvalidTokenConfigurationError => [SecurityError : exn; ERuntimeError]
  | InvalidTokenSigningKeyError => [InvalidTokenConfigurationError : exn]
  end.

Definition bases (e : exn) : list exn :=
  match e with
  | EException | ECancelled => []
  | EDomain d => [domain_bases d]
  | EIdempotency IdempotencyError => [EException]
  | EIdempotency _ => [IdempotencyError : exn]
  | EOutbox OutboxError => [EException]
  | EOutbox PublishError => [OutboxError : exn]
  | EOutbox (TransientPublishError | PermanentPublishError) => [PublishError : exn]
  | EOutbox RetryExhaustedError => [PermanentPublishError : exn]
  | EPersistence PersistenceError => [EException]
  | EPersistence _ => [PersistenceError : exn]
  | EProfile ProfileProvisioningUnavailableError => [EException]
  | EProfile ProfileProvisioningRejectedError =>
      [ProfileProvisioningUnavailableError : exn]
  | ESecurity s => security_bases s
  | EValidationError => [EValueError]
  | EDatabase (ConnectionError | TimeoutError) => [EOSError]
  | _ => [EException]
  end.

(** The linearised ancestors of a class, itself first: no class of the service
    is more than five steps below [Exception], and a class met on two paths is
    kept at its last position, as Python's linearisation does here. *)
Fixpoint ancestors (fuel : nat) (e : exn) : list exn :=
  e :: match fuel with O => [] | S n => bases e ≫= ancestors n end.

Fixpoint keep_last (l : list exn) : list exn :=
  match l with
  | [] => []
  | x :: l => if decide (x ∈ l) then keep_last l else x :: keep_last l
  end.

Definition mro (e : exn) : list exn := keep_last (ancestors 6 e).

(** [isinstance(e, c)] *)
Definition isinstance (e c : exn) : bool := bool_decide (c ∈ mro e).

(** [except Exception] does not catch [asyncio.CancelledError]. *)
Definition is_exception (e : exn) : bool := isinstance e EException.

(** [type(error).__name__] for the classes the service records. *)
Definition class_name (e : exn) : string :=
  match e with
  | EException => "Exception"
  | EValueError => "ValueError"
  | EValidationError => "ValidationError"
  | ERuntimeError => "RuntimeError"
  | ETypeError => "TypeError"
  | EOverflowError => "OverflowError"
  | EKeyError => "KeyError"
  | ECancelled => "CancelledError"
  | EDomain e =>
      match e with
      | DomainError => "DomainError"
      | InvalidDomainStateError => "InvalidDomainStateError"
      | InvalidEmailError => "InvalidEmailError"
      | InvalidPasswordHashError => "InvalidPasswordHashError"
      | InvalidPasswordError => "InvalidPasswordError"
      | InvalidTimestampError => "InvalidTimestampError"
      | InvalidSessionLifetimeError => "InvalidSessionLifetimeError"
      | InvalidCredentialsError => "InvalidCredentialsError"
      | UserAlreadyExistsError => "UserAlreadyExistsError"
      | UserNotFoundError => "UserNotFoundError"
      | InvalidRefreshTokenError => "InvalidRefreshTokenError"
      | AuthSessionInactiveError => "AuthSessionInactiveError"
      | RefreshTokenReuseError => "RefreshTokenReuseError"
      end
  | EInvalidCommand => "InvalidCommandError"
  | EIdempotency e =>
      match e with
      | IdempotencyError => "IdempotencyError"
      | IdempotencyStorageUnavailableError => "IdempotencyStorageUnavailableError"
      | IdempotencyKeyConflictError => "IdempotencyKeyConflictError"
      | IdempotencyRequestInProgressError => "IdempotencyRequestInProgressError"
      | RefreshReplayUnavailableError => "RefreshReplayUnavailableError"
      end
  | EOutbox e =>
      match e with
      | OutboxError => "OutboxError"
      | PublishError => "PublishError"
      | TransientPublishError => "TransientPublishError"
      | PermanentPublishError => "PermanentPublishError"
      | RetryExhaustedError => "RetryExhaustedError"
      end
  | EPersistence e =>
      match e with
      | PersistenceError => "PersistenceError"
      | PersistenceUnavailableError => "PersistenceUnavailableError"
      | TransactionConflictError => "TransactionConflictError"
      | PersistenceIntegrityError => "PersistenceIntegrityError"
      | StoredStateError => "StoredStateError"
      | EntityNotFoundError => "EntityNotFoundError"
      end
  | EProfile e =>
      match e with
      | ProfileProvisioningUnavailableError => "ProfileProvisioningUnavailableError"
      | ProfileProvisioningRejectedError => "ProfileProvisioningRejectedError"
      end
  | ESecurity e =>
      match e with
      | SecurityError => "SecurityError"
      | InvalidTokenError => "InvalidTokenError"
      | InvalidTokenDataError => "InvalidTokenDataError"
      | TokenExpiredError => "TokenExpiredError"
      | TokenMalformedError => "TokenMalformedError"
      | TokenIssuanceError => "TokenIssuanceError"
      | InvalidTokenConfigurationError => "InvalidTokenConfigurationError"
      | InvalidTokenSigningKeyError => "InvalidTokenSigningKeyError"
      | PasswordHashingError => "PasswordHashingError"
      end
  | EDatabase _ => "DBAPIError"
  | EConcurrentWinnerCommitted => "_ConcurrentWinnerCommitted"
  | ELostRegistrationClaim => "_LostRegistrationClaim"
  | ERegistrationFinalizationConflict => "_RegistrationFinalizationConflict"
  | EOSError => "OSError"
  | ERequestValidation => "RequestValidationError"
  end.

(** ** Raising *)

Abbreviation res := (result exn).

Definition raise {A} (e : exn) : res A := Err e.
Arguments raise {A} e /.

(** [if b: raise e] and [if not b: raise e] *)
Definition raise_if (b : bool) (e : exn) : res unit :=
  if b then Err e else Ok tt.
Definition raise_unless (b : bool) (e : exn) : res unit :=
  if b then Ok tt else Err e.

Lemma raise_if_ok b e x : raise_if b e = Ok x <-> b = false.
Proof. destruct b, x; cbn; split; congruence. Qed.

Lemma raise_unless_ok b e x : raise_unless b e = Ok x <-> b = true.
Proof. destruct b, x; cbn; split; congruence. Qed.

(** [if value.utcoffset() is None: raise e] *)
Definition require_offset (d : datetime) (e : exn) : res unit :=
  raise_unless (is_aware d) e.

#[export] Hint Rewrite raise_if_ok raise_unless_ok : identity_rw.

(** Split a successful computation into its successful steps. *)
Ltac ok_inv :=
  repeat match goal with
  | H : _ ≫= _ = Ok _ |- _ =>
      let a := fresh "a" in let Ha := fresh "Hok" in
      apply bind_ok_inv in H as (a & Ha & H)
  | H : mret _ = Ok _ |- _ => injection H as H
  | H : Ok _ = Ok _ |- _ => injection H as H
  | H : Err _ = Ok _ |- _ => discriminate H
  | H : raise _ = Ok _ |- _ => discriminate H
  | H : raise_if _ _ = Ok _ |- _ => apply raise_if_ok in H
  | H : raise_unless _ _ = Ok _ |- _ => apply raise_unless_ok in H
  | H : (match ?p with (_, _) => _ end) = Ok _ |- _ =>
      let x := fresh "x" in let y := fresh "y" in destruct p as [x y]
  | x : unit |- _ => destruct x
  end.

(** Case analysis on the class of an exception, then evaluation. *)
Ltac by_class error :=
  destruct error as [| | | | | | | |[]| |[]|[]|[]|[]|[]|[]| | | | |]; vm_compute; congruence.

Lemma rejected_class error :
  isinstance error ProfileProvisioningRejectedError = true ->
  error = ProfileProvisioningRejectedError.
Proof. by_class error. Qed.
