(* ===== verification/Domain.v ===== *)
(** * Domain model: entities, aggregates and their transitions

    [domain/base.py], [domain/entities], [domain/aggregates],
    [domain/value_objects] and [domain/policies].  A pydantic model is a record;
    [X_validate] runs the field constraints and then the [mode="after"]
    validators, base classes first, as pydantic does.  A method that mutates
    [self] returns the new record; when it raises, the caller keeps the old one,
    which is what [_change_state] guarantees by validating a candidate before it
    writes.  Identifiers taken from [uuid7()] are arguments. *)

From S2P Require Import Prelude Exceptions.

(** ** domain/base.py *)

Definition require_aware (value : datetime) : res unit :=
  raise_if (negb (is_aware value)) InvalidTimestampError.

Definition validate_created_at (created_at : datetime) : res unit :=
  require_aware created_at.

Definition validate_updated_at (created_at : datetime)
    (updated_at : option datetime) : res unit :=
  on_some updated_at (fun u =>
    require_aware u;;
    raise_if (dt_ltb u created_at) InvalidTimestampError).

(** The guard of [MutableEntity._change_at]. *)
Definition change_at_guard (created_at : datetime)
    (updated_at : option datetime) (now : datetime) : res unit :=
  require_aware now;;
  raise_if (dt_ltb now (default created_at updated_at)) InvalidTimestampError.

(** ** Value objects and policies *)

(** Strings are sequences of code points below 256; these are the ones
    [str.strip] removes. *)
Definition is_space (c : Ascii.ascii) : bool :=
  bool_decide (Ascii.nat_of_ascii c ∈
    [9; 10; 11; 12; 13; 28; 29; 30; 31; 32; 133; 160]%nat).

(** [not value.strip()] *)
Definition is_blank (s : string) : bool :=
  forallb is_space (String.list_ascii_of_string s).

Definition PasswordHash_new (value : string) : res string :=
  if is_blank value then raise InvalidPasswordHashError else Ok value.

(** pydantic's [EmailStr] validator (the e-mail syntax is decided by the
    third-party validator) and Unicode case folding. *)
Class EmailSyntax := {
  email_str : string -> option string;
  casefold : string -> string
}.

Definition NormalizedEmail_new `{EmailSyntax} (value : string) : res string :=
  match email_str value with
  | Some v => Ok (casefold v)
  | None => raise InvalidEmailError
  end.

(** What the service relies on: a normalised address normalises to itself. *)
Class EmailLaws `{EmailSyntax} : Prop := normalized_stable v n :
  NormalizedEmail_new v = Ok n -> NormalizedEmail_new n = Ok n.

Definition validate_registration_password (password : string) : res string :=
  if (8 <=? Z.of_nat (String.length password))
     && (Z.of_nat (String.length password) <=? 128)
  then Ok password else raise InvalidPasswordError.

(** ** domain/entities/refresh_token.py *)

Record RefreshToken := {
  rt_id : uuid;
  rt_created_at : datetime;
  rt_session_id : uuid;
  rt_token_hash : bytes;
  rt_used_at : option datetime
}.

#[global] Instance RefreshToken_eq_dec : EqDecision RefreshToken.
Proof. solve_decision. Defined.

Definition validate_used_at (t : RefreshToken) : res unit :=
  on_some (rt_used_at t) (fun u =>
    require_aware u;;
    raise_if (dt_ltb u (rt_created_at t)) InvalidTimestampError).

Definition RefreshToken_validate (t : RefreshToken) : res RefreshToken :=
  raise_unless (Nat.eqb (length (rt_token_hash t)) 32) InvalidDomainStateError;;
  validate_created_at (rt_created_at t);;
  validate_used_at t;;
  mret t.

Definition is_used (t : RefreshToken) : bool := is_some (rt_used_at t).

Definition consumed (t : RefreshToken) (now : datetime) : res RefreshToken :=
  raise_if (is_used t) RefreshTokenReuseError;;
  RefreshToken_validate
    {| rt_id := rt_id t; rt_created_at := rt_created_at t;
       rt_session_id := rt_session_id t; rt_token_hash := rt_token_hash t;
       rt_used_at := Some now |}.

(** ** domain/aggregates/user.py *)

Inductive UserStatus : Set := ACTIVE | DISABLED.
Inductive UserRole : Set := USER | ADMIN.

#[global] Instance UserStatus_eq_dec : EqDecision UserStatus.
Proof. solve_decision. Defined.
#[global] Instance UserRole_eq_dec : EqDecision UserRole.
Proof. solve_decision. Defined.

Record User := {
  u_id : uuid;
  u_created_at : datetime;
  u_updated_at : option datetime;
  u_email : string;
  u_password_hash : string;
  u_role : UserRole;
  u_status : UserStatus
}.

#[global] Instance User_eq_dec : EqDecision User.
Proof. solve_decision. Defined.

Definition User_validate `{EmailSyntax} (u : User) : res User :=
  email ← NormalizedEmail_new (u_email u);
  password_hash ← PasswordHash_new (u_password_hash u);
  validate_created_at (u_created_at u);;
  validate_updated_at (u_created_at u) (u_updated_at u);;
  mret {| u_id := u_id u; u_created_at := u_created_at u;
          u_updated_at := u_updated_at u; u_email := email;
          u_password_hash := password_hash; u_role := u_role u;
          u_status := u_status u |}.

Definition can_authenticate (u : User) : bool :=
  bool_decide (u_status u = ACTIVE).

(** [User.disable], through [_change_at] and [_change_state]. *)
Definition disable `{EmailSyntax} (u : User) (now : datetime) : res User :=
  if bool_decide (u_status u = DISABLED) then Ok u else
  change_at_guard (u_created_at u) (u_updated_at u) now;;
  User_validate
    {| u_id := u_id u; u_created_at := u_created_at u;
       u_updated_at := Some now; u_email := u_email u;
       u_password_hash := u_password_hash u; u_role := u_role u;
       u_status := DISABLED |}.

(** ** domain/aggregates/auth_session.py *)

Record AuthSession := {
  as_id : uuid;
  as_created_at : datetime;
  as_user_id : uuid;
  as_idle_expires_at : datetime;
  as_revoked_at : option datetime;
  as_refresh_token : option RefreshToken;
  as_replacement_token : option RefreshToken
}.

#[global] Instance AuthSession_eq_dec : EqDecision AuthSession.
Proof. solve_decision. Defined.

(** One turn of the loop over the session's tokens. *)
Definition check_owned_token (s : AuthSession) (t : RefreshToken) : res unit :=
  raise_if (negb (rt_session_id t =? as_id s)
            || dt_ltb (rt_created_at t) (as_created_at s))
    InvalidDomainStateError.

(** The last check of [validate_lifecycle]: the condition under which a
    replacement token is refused. *)
Definition bad_replacement (s : AuthSession) (r : RefreshToken) : bool :=
  match as_refresh_token s with
  | None => true
  | Some t =>
      negb (is_used t) || is_used r || (rt_id r =? rt_id t)
      || bool_decide (rt_token_hash r = rt_token_hash t)
  end.

Definition validate_lifecycle (s : AuthSession) : res unit :=
  require_aware (as_idle_expires_at s);;
  raise_if (dt_leb (as_idle_expires_at s) (as_created_at s)) InvalidTimestampError;;
  on_some (as_revoked_at s) (fun r =>
    require_aware r;;
    raise_if (dt_ltb r (as_created_at s)) InvalidTimestampError);;
  on_some (as_refresh_token s) (check_owned_token s);;
  on_some (as_replacement_token s) (check_owned_token s);;
  on_some (as_replacement_token s) (fun r =>
    raise_if (bad_replacement s r) InvalidDomainStateError).

(** Token fields hold instances, which pydantic does not revalidate beyond
    their own [mode="after"] validators. *)
Definition AuthSession_validate (s : AuthSession) : res AuthSession :=
  validate_created_at (as_created_at s);;
  validate_lifecycle s;;
  mret s.

Definition validate_ttl (idle_ttl : Z) : res unit :=
  raise_if (idle_ttl <=? 0) InvalidSessionLifetimeError.

Definition start (session_id token_id user_id : uuid) (token_hash : bytes)
    (now : datetime) (idle_ttl : Z) : res AuthSession :=
  validate_ttl idle_ttl;;
  token ← RefreshToken_validate
    {| rt_id := token_id; rt_created_at := now; rt_session_id := session_id;
       rt_token_hash := token_hash; rt_used_at := None |};
  AuthSession_validate
    {| as_id := session_id; as_created_at := now; as_user_id := user_id;
       as_idle_expires_at := dt_add now idle_ttl; as_revoked_at := None;
       as_refresh_token := Some token; as_replacement_token := None |}.

Definition is_active (s : AuthSession) (now : datetime) : res bool :=
  require_aware now;;
  mret (negb (is_some (as_revoked_at s))
        && dt_leb (as_created_at s) now && dt_ltb now (as_idle_expires_at s)).

Definition require_token (s : AuthSession) : res RefreshToken :=
  match as_refresh_token s with
  | None => raise InvalidRefreshTokenError
  | Some t => Ok t
  end.

Definition with_revoked_at (s : AuthSession) (now : datetime) : AuthSession :=
  {| as_id := as_id s; as_created_at := as_created_at s;
     as_user_id := as_user_id s; as_idle_expires_at := as_idle_expires_at s;
     as_revoked_at := Some now; as_refresh_token := as_refresh_token s;
     as_replacement_token := as_replacement_token s |}.

Definition revoke (s : AuthSession) (now : datetime) : res AuthSession :=
  match as_revoked_at s with
  | None => AuthSession_validate (with_revoked_at s now)
  | Some _ => Ok s
  end.

(** The answer and the session after the call. *)
Definition accepts_refresh (s : AuthSession) (now : datetime)
    (user_can_authenticate : bool) : res (bool * AuthSession) :=
  token ← require_token s;
  if is_used token then s' ← revoke s now; mret (false, s') else
  active ← is_active s now;
  raise_unless active AuthSessionInactiveError;;
  if negb user_can_authenticate then s' ← revoke s now; mret (false, s')
  else mret (true, s).

Definition with_rotation (s : AuthSession) (old new : RefreshToken)
    (idle_expires_at : datetime) : AuthSession :=
  {| as_id := as_id s; as_created_at := as_created_at s;
     as_user_id := as_user_id s; as_idle_expires_at := idle_expires_at;
     as_revoked_at := as_revoked_at s; as_refresh_token := Some old;
     as_replacement_token := Some new |}.

(** The session after the rotation and the replacement token. *)
Definition rotate (s : AuthSession) (new_id : uuid) (now : datetime)
    (idle_ttl : Z) (token_hash : bytes) : res (AuthSession * RefreshToken) :=
  validate_ttl idle_ttl;;
  active ← is_active s now;
  raise_unless active AuthSessionInactiveError;;
  token ← require_token s;
  raise_if (is_used token) RefreshTokenReuseError;;
  replacement ← RefreshToken_validate
    {| rt_id := new_id; rt_created_at := now; rt_session_id := as_id s;
       rt_token_hash := token_hash; rt_used_at := None |};
  old ← consumed token now;
  s' ← AuthSession_validate
    (with_rotation s old replacement (dt_add now idle_ttl));
  mret (s', replacement).

Definition can_replay (s : AuthSession) (now : datetime) : res bool :=
  token ← require_token s;
  if is_used token then mret false else is_active s now.

(** ** Specification of well-formed states *)

Record RefreshToken_inv (t : RefreshToken) : Prop := {
  rti_hash : length (rt_token_hash t) = 32%nat;
  rti_created : is_aware (rt_created_at t) = true;
  rti_used : forall u, rt_used_at t = Some u ->
    is_aware u = true /\ dt_us (rt_created_at t) <= dt_us u
}.

Definition owned_token (s : AuthSession) (t : RefreshToken) : Prop :=
  rt_session_id t = as_id s /\ dt_us (as_created_at s) <= dt_us (rt_created_at t).

(** The presented token was consumed and the replacement is a different,
    unused credential. *)
Definition replaces (t r : RefreshToken) : Prop :=
  is_used t = true /\ is_used r = false /\ rt_id r <> rt_id t /\
  rt_token_hash r <> rt_token_hash t.

Record AuthSession_inv (s : AuthSession) : Prop := {
  asi_created : is_aware (as_created_at s) = true;
  asi_idle : is_aware (as_idle_expires_at s) = true;
  asi_window : dt_us (as_created_at s) < dt_us (as_idle_expires_at s);
  asi_revoked : forall r, as_revoked_at s = Some r ->
    is_aware r = true /\ dt_us (as_created_at s) <= dt_us r;
  asi_token : forall t, as_refresh_token s = Some t -> owned_token s t;
  asi_replacement : forall r, as_replacement_token s = Some r ->
    owned_token s r /\ exists t, as_refresh_token s = Some t /\ replaces t r
}.

(** What the program holds: a valid session with valid tokens. *)
Record session_ok (s : AuthSession) : Prop := {
  so_session : AuthSession_inv s;
  so_token : forall t, as_refresh_token s = Some t -> RefreshToken_inv t;
  so_replacement : forall r, as_replacement_token s = Some r -> RefreshToken_inv r
}.

(** The session is live at [now]. *)
Definition live (s : AuthSession) (now : datetime) : Prop :=
  as_revoked_at s = None /\
  dt_us (as_created_at s) <= dt_us now < dt_us (as_idle_expires_at s).

(** One public operation of the aggregate, by any caller at any time. *)
Inductive session_step (s : AuthSession) : AuthSession -> Prop :=
| step_revoke now s' :
    revoke s now = Ok s' -> session_step s s'
| step_accepts now auth ans s' :
    accepts_refresh s now auth = Ok (ans, s') -> session_step s s'
| step_rotate new_id now ttl h s' r :
    rotate s new_id now ttl h = Ok (s', r) -> session_step s s'.

(** ** Validators decide the specification *)

Lemma require_aware_ok d x : require_aware d = Ok x <-> is_aware d = true.
Proof. unfold require_aware. rewrite raise_if_ok, negb_false_iff. done. Qed.

#[export] Hint Rewrite require_aware_ok : identity_rw.

Lemma bind_unit_ok {A} (m : res unit) (k : res A) a :
  (m;; k) = Ok a <-> m = Ok tt /\ k = Ok a.
Proof. destruct m as [[]|]; cbn; [tauto|]. split; [done|intros [? _]; done]. Qed.

#[export] Hint Rewrite @bind_unit_ok : identity_rw.

Lemma on_some_ok {A} (o : option A) (f : A -> res unit) x :
  on_some o f = Ok x <-> forall a, o = Some a -> f a = Ok tt.
Proof.
  destruct o as [a|], x; cbn; split; try done.
  - by intros H ? [= <-].
  - intros H. by apply H.
Qed.

Lemma ok_tt_eq {A} (a b : A) : @Ok exn A a = Ok b <-> a = b.
Proof. split; [by intros [= ->]|by intros ->]. Qed.

#[export] Hint Rewrite @on_some_ok @ok_tt_eq : identity_rw.

Lemma RefreshToken_validate_iff t t' :
  RefreshToken_validate t = Ok t' <-> t' = t /\ RefreshToken_inv t.
Proof.
  unfold RefreshToken_validate, validate_created_at, validate_used_at.
  autorewrite with identity_rw. rewrite Nat.eqb_eq. unfold mret, result_ret.
  split.
  - intros (Hl & Hc & Hu & [= ->]). split; [done|]. constructor; [done..|].
    intros u Hu'. specialize (Hu u Hu'). autorewrite with identity_rw in Hu. done.
  - intros [-> [Hl Hc Hu]]. repeat split; try done.
    intros u Hu'. specialize (Hu u Hu'). autorewrite with identity_rw. done.
Qed.

Lemma check_owned_token_ok s t x :
  check_owned_token s t = Ok x <-> owned_token s t.
Proof.
  unfold check_owned_token, owned_token. autorewrite with identity_rw.
  rewrite Z.eqb_eq. done.
Qed.

Lemma bad_replacement_false s r :
  bad_replacement s r = false <->
  exists t, as_refresh_token s = Some t /\ replaces t r.
Proof.
  unfold bad_replacement, replaces. destruct (as_refresh_token s) as [t|].
  - autorewrite with identity_rw. rewrite Z.eqb_neq, bool_decide_eq_false.
    split; [intros; exists t; naive_solver | naive_solver].
  - split; [done | naive_solver].
Qed.

Lemma AuthSession_validate_iff s s' :
  AuthSession_validate s = Ok s' <-> s' = s /\ AuthSession_inv s.
Proof.
  unfold AuthSession_validate, validate_lifecycle, validate_created_at.
  autorewrite with identity_rw. unfold mret, result_ret.
  setoid_rewrite check_owned_token_ok. setoid_rewrite raise_if_ok.
  setoid_rewrite bad_replacement_false. setoid_rewrite bind_unit_ok.
  setoid_rewrite require_aware_ok. setoid_rewrite raise_if_ok.
  setoid_rewrite dt_ltb_ge.
  split.
  - intros (Hc & (Hi & Hw & Hr & Ht & Hp & Hb) & [= ->]). split; [done|].
    constructor; try done. intros r Hr'. split; [by apply Hp | by apply Hb].
  - intros [-> [Hc Hi Hw Hr Ht Hp]]. repeat split; try done.
    + by apply Hr.
    + by apply Hr.
    + by apply Ht.
    + by apply Ht.
    + by apply Hp.
    + by apply Hp.
    + intros r Hr'. by apply Hp.
Qed.

Lemma is_active_ok s now b :
  is_active s now = Ok b <->
  is_aware now = true /\ (b = true <-> live s now).
Proof.
  unfold is_active, live. autorewrite with identity_rw. unfold mret, result_ret.
  split.
  - intros [Ha [= <-]]. split; [done|]. bools.
    destruct (as_revoked_at s); cbn; naive_solver.
  - intros [Ha Hb]. split; [done|]. f_equal. apply eq_true_iff_eq.
    rewrite Hb. bools. destruct (as_revoked_at s); cbn; naive_solver.
Qed.

(** The record [consumed] builds, and the one [rotate] creates. *)
Definition mark_used (t : RefreshToken) (now : datetime) : RefreshToken :=
  {| rt_id := rt_id t; rt_created_at := rt_created_at t;
     rt_session_id := rt_session_id t; rt_token_hash := rt_token_hash t;
     rt_used_at := Some now |}.

Definition fresh_token (s : AuthSession) (new_id : uuid) (now : datetime)
    (h : bytes) : RefreshToken :=
  {| rt_id := new_id; rt_created_at := now; rt_session_id := as_id s;
     rt_token_hash := h; rt_used_at := None |}.

Lemma consumed_ok t now t' :
  RefreshToken_inv t ->
  consumed t now = Ok t' <->
  is_used t = false /\ is_aware now = true /\
  dt_us (rt_created_at t) <= dt_us now /\ t' = mark_used t now.
Proof.
  intros [Hl Hc _]. unfold consumed. autorewrite with identity_rw.
  rewrite RefreshToken_validate_iff. split.
  - intros (Hu & -> & [_ _ H]). destruct (H now eq_refl). done.
  - intros (Hu & Ha & Hle & ->). split; [done|]. split; [done|].
    constructor; cbn; [done..|]. by intros u [= <-].
Qed.

Lemma require_token_ok s t :
  require_token s = Ok t <-> as_refresh_token s = Some t.
Proof. unfold require_token. destruct (as_refresh_token s); naive_solver. Qed.

Lemma mark_used_inv t now :
  RefreshToken_inv t -> is_aware now = true ->
  dt_us (rt_created_at t) <= dt_us now -> RefreshToken_inv (mark_used t now).
Proof. intros [Hl Hc _] Ha Hle. constructor; cbn; [done..|]. by intros u [= <-]. Qed.

Lemma fresh_token_inv s new_id now h :
  is_aware now = true -> length h = 32%nat ->
  RefreshToken_inv (fresh_token s new_id now h).
Proof. intros. by constructor. Qed.

Lemma rotation_inv s t new_id now ttl h :
  AuthSession_inv s -> as_refresh_token s = Some t -> live s now ->
  is_aware now = true -> 0 < ttl -> new_id <> rt_id t -> h <> rt_token_hash t ->
  AuthSession_inv (with_rotation s (mark_used t now)
    (fresh_token s new_id now h) (dt_add now ttl)).
Proof.
  intros [Hc Hi Hw Hr Ht Hp] Es [_ [Hn _]] Ha Htl Hid Hh. constructor; cbn; try done.
  - lia.
  - intros ? [= <-]. destruct (Ht _ Es). by split.
  - intros ? [= <-]. split; [by split|]. exists (mark_used t now). by repeat split.
Qed.

(** Rotation as a relation: everything that must hold for it to succeed and
    everything it returns. *)
Definition rotates (s : AuthSession) (new_id : uuid) (now : datetime) (ttl : Z)
    (h : bytes) (s' : AuthSession) (r : RefreshToken) : Prop :=
  exists t,
    as_refresh_token s = Some t /\ is_used t = false /\
    0 < ttl /\ is_aware now = true /\ live s now /\
    length h = 32%nat /\ dt_us (rt_created_at t) <= dt_us now /\
    new_id <> rt_id t /\ h <> rt_token_hash t /\
    r = fresh_token s new_id now h /\
    s' = with_rotation s (mark_used t now) r (dt_add now ttl).

Lemma rotate_rotates s new_id now ttl h s' r :
  session_ok s ->
  rotate s new_id now ttl h = Ok (s', r) <-> rotates s new_id now ttl h s' r.
Proof.
  intros [Hs Ht _]. unfold rotate, rotates, validate_ttl. split.
  - intros H. ok_inv. subst. rename a2 into t.
    apply require_token_ok in Hok2 as Et. specialize (Ht _ Et).
    apply is_active_ok in Hok0 as [Ha Hl].
    apply RefreshToken_validate_iff in Hok4 as [-> [Hlen _ _]].
    apply consumed_ok in Hok5 as (Hu & _ & Hle & ->); [|done].
    apply AuthSession_validate_iff in Hok6 as [-> Hinv].
    destruct (asi_replacement _ Hinv _ eq_refl) as [_ (t' & [= <-] & _ & _ & Hid & Hh)].
    exists t. bools. naive_solver.
  - intros (t & Et & Hu & Httl & Ha & Hl & Hlen & Hle & Hid & Hh & -> & ->).
    specialize (Ht _ Et).
    apply bind_unit_ok; split; [by apply raise_if_ok, Z.leb_gt|].
    apply (bind_ok_intro _ _ true); [by apply is_active_ok|].
    apply bind_unit_ok; split; [done|].
    eapply bind_ok_intro; [by apply require_token_ok|].
    apply bind_unit_ok; split; [by apply raise_if_ok|].
    eapply bind_ok_intro;
      [apply RefreshToken_validate_iff; split; [done|by apply fresh_token_inv]|].
    eapply bind_ok_intro; [by apply (consumed_ok t now)|].
    eapply bind_ok_intro;
      [apply AuthSession_validate_iff; split; [done|by apply rotation_inv]|].
    done.
Qed.

(** Refresh-token rotation: on a well-formed session [AuthSession.rotate]
    succeeds exactly when the lifetime is positive, the session is live and
    holds an unused token issued no later than [now], and the new hash and id
    are a 32-byte hash and an id different from the presented token's; it then
    marks the presented token used at [now], adds an unused replacement and
    moves the idle deadline to [now + idle_ttl], and changes nothing else. *)
Theorem rotate_iff s new_id now ttl h s' r :
  session_ok s ->
  rotate s new_id now ttl h = Ok (s', r) <-> rotates s new_id now ttl h s' r.
Proof. apply rotate_rotates. Qed.

Definition demo_hash (b : byte) : bytes := repeat b 32.

Definition demo_session : AuthSession :=
  {| as_id := 7; as_created_at := utc 1000; as_user_id := 3;
     as_idle_expires_at := utc 9000; as_revoked_at := None;
     as_refresh_token := Some
       {| rt_id := 11; rt_created_at := utc 1000; rt_session_id := 7;
          rt_token_hash := demo_hash x01; rt_used_at := None |};
     as_replacement_token := None |}.

Lemma demo_session_ok : session_ok demo_session.
Proof.
  split.
  - constructor; cbn; try done. intros ? [= <-]. by split.
  - intros ? [= <-]. by constructor.
  - done.
Qed.

Lemma rotate_iff_witness :
  session_ok demo_session /\
  exists s' r, rotate demo_session 12 (utc 5000) 4000 (demo_hash x02) = Ok (s', r) /\
    rotates demo_session 12 (utc 5000) 4000 (demo_hash x02) s' r.
Proof.
  split; [exact demo_session_ok|]. do 2 eexists. split; [vm_compute; reflexivity|].
  apply (rotate_iff demo_session _ _ _ _ _ _ demo_session_ok). vm_compute. reflexivity.
Defined.

Lemma revoke_ok s now s' :
  AuthSession_inv s -> revoke s now = Ok s' ->
  AuthSession_inv s' /\
  s' = match as_revoked_at s with Some _ => s | None => with_revoked_at s now end /\
  as_revoked_at s' <> None.
Proof.
  unfold revoke. destruct (as_revoked_at s) eqn:E.
  - intros ? [= <-]. rewrite E. done.
  - intros _ [-> H]%AuthSession_validate_iff. done.
Qed.

Lemma revoke_session_ok s now s' :
  session_ok s -> revoke s now = Ok s' -> session_ok s'.
Proof.
  intros [Hs Ht Hr] H. apply revoke_ok in H as (H & -> & _); [|done].
  destruct (as_revoked_at s); by constructor.
Qed.

Lemma accepts_refresh_cases s now auth ans s' :
  accepts_refresh s now auth = Ok (ans, s') ->
  (ans = true /\ s' = s /\ auth = true /\ live s now) \/
  (ans = false /\ revoke s now = Ok s').
Proof.
  unfold accepts_refresh. intros H. ok_inv. destruct (is_used a).
  - ok_inv. simplify_eq. by right.
  - ok_inv. subst. apply is_active_ok in Hok0 as [_ Ha].
    destruct auth; cbn in H; ok_inv; simplify_eq; [left; naive_solver|by right].
Qed.

Lemma rotates_session_ok s new_id now ttl h s' r :
  session_ok s -> rotates s new_id now ttl h s' r -> session_ok s'.
Proof.
  intros [Hs Ht _] (t & Et & Hu & Httl & Ha & Hl & Hlen & Hle & Hid & Hh & -> & ->).
  constructor.
  - by apply rotation_inv.
  - intros ? [= <-]. by apply mark_used_inv; [apply Ht|..].
  - intros ? [= <-]. by apply fresh_token_inv.
Qed.

Lemma session_step_ok s s' : session_ok s -> session_step s s' -> session_ok s'.
Proof.
  intros Hs [now s1 H|now auth ans s1 H|new_id now ttl h s1 r H].
  - by eapply revoke_session_ok.
  - apply accepts_refresh_cases in H as [(_ & -> & _)|[_ H]]; [done|].
    by eapply revoke_session_ok.
  - apply rotate_rotates in H; [|done]. by eapply rotates_session_ok.
Qed.

(** What no operation of the aggregate may change. *)
Definition same_root (s s' : AuthSession) : Prop :=
  as_id s' = as_id s /\ as_user_id s' = as_user_id s /\
  as_created_at s' = as_created_at s /\
  (forall r, as_revoked_at s = Some r -> s' = s).

Lemma same_root_refl s : same_root s s.
Proof. done. Qed.

#[export] Hint Resolve same_root_refl : identity.

Lemma session_step_same_root s s' :
  session_ok s -> session_step s s' -> same_root s s'.
Proof.
  intros Hs Hstep.
  assert (Hrev : forall now s1, revoke s now = Ok s1 -> same_root s s1).
  { intros now s1 H. apply revoke_ok in H as (_ & -> & _); [|apply Hs].
    unfold same_root. destruct (as_revoked_at s); naive_solver. }
  destruct Hstep as [now s1 H|now auth ans s1 H|new_id now ttl h s1 r H].
  - eauto.
  - apply accepts_refresh_cases in H as [(_ & -> & _)|[_ H]]; [done|eauto].
  - apply rotate_rotates in H as (t & _ & _ & _ & _ & [Hn _] & _ & _ & _ & _ & _ & ->);
      [|done]. unfold same_root. rewrite Hn. done.
Qed.

Lemma start_ok sid tid uid h now ttl s :
  start sid tid uid h now ttl = Ok s ->
  session_ok s /\ as_revoked_at s = None /\ 0 < ttl /\
  as_id s = sid /\ as_user_id s = uid /\ as_created_at s = now.
Proof.
  unfold start. intros H. ok_inv.
  apply RefreshToken_validate_iff in Hok0 as [-> Ht].
  apply AuthSession_validate_iff in H as [-> Hs].
  apply raise_if_ok, Z.leb_gt in Hok.
  split; [constructor; [done| |done]|done]. by intros ? [= <-].
Qed.

(** Session lifecycle: every session the program can obtain from
    [AuthSession.start] by any sequence of [revoke], [accepts_refresh] and
    [rotate] calls, at any instants and with any arguments, satisfies the
    aggregate's and its tokens' invariants and keeps its identity, owner and
    creation instant; and once some reachable state is revoked, every later
    state is that same state, so a revoked session never becomes active. *)
Theorem reachable_session_safe sid tid uid h now ttl s0 s s' :
  start sid tid uid h now ttl = Ok s0 ->
  rtc session_step s0 s -> rtc session_step s s' ->
  session_ok s' /\ as_id s' = sid /\ as_user_id s' = uid /\
  as_created_at s' = now /\
  (as_revoked_at s <> None ->
     s' = s /\ forall t b, is_active s' t = Ok b -> b = false).
Proof.
  intros H0 H1 H2. apply start_ok in H0 as (Hok & _ & _ & Hid & Huid & Hnow).
  assert (Hind : forall a b, session_ok a -> rtc session_step a b ->
    session_ok b /\ same_root a b).
  { intros a b Ha Hab. induction Hab as [a|a c b Hac Hcb IH]; [auto with identity|].
    destruct IH as [Hb Hs]; [by eapply session_step_ok|]. split; [done|].
    pose proof (session_step_same_root _ _ Ha Hac) as Hs'.
    destruct Hs as (?&?&?&Hr), Hs' as (?&?&?&Hr').
    repeat split; try congruence. intros r E. pose proof (Hr' r E) as ->. eauto. }
  destruct (Hind s0 s Hok H1) as [Hs Hroot1], (Hind s s' Hs H2) as [Hs' Hroot2].
  destruct Hroot1 as (?&?&?&_), Hroot2 as (?&?&?&Hr).
  split; [done|]. do 3 (split; [congruence|]). intros Hrev.
  destruct (as_revoked_at s) as [r|] eqn:E; [|done].
  specialize (Hr r eq_refl) as ->. split; [done|].
  intros t b [_ Hb]%is_active_ok. unfold live in Hb. destruct b; naive_solver.
Qed.

Lemma reachable_session_safe_witness :
  let s1 := with_revoked_at demo_session (utc 2000) in
  start 7 11 3 (demo_hash x01) (utc 1000) 8000 = Ok demo_session /\
  rtc session_step demo_session s1 /\ as_revoked_at s1 <> None /\
  (session_ok s1 /\ as_id s1 = 7 /\ as_user_id s1 = 3 /\
   as_created_at s1 = utc 1000 /\
   (as_revoked_at s1 <> None ->
     s1 = s1 /\ forall t b, is_active s1 t = Ok b -> b = false)).
Proof.
  intros s1.
  assert (H0 : start 7 11 3 (demo_hash x01) (utc 1000) 8000 = Ok demo_session)
    by (vm_compute; reflexivity).
  assert (H1 : rtc session_step demo_session s1).
  { apply rtc_once, (step_revoke _ (utc 2000)). vm_compute. reflexivity. }
  split; [exact H0|]. split; [exact H1|]. split; [discriminate|].
  exact (reachable_session_safe _ _ _ _ _ _ _ _ _ H0 H1 (rtc_refl _ _)).
Defined.

(** A refresh token is single-use: after a successful rotation the presented
    token can never be rotated again (while the session is live the attempt
    raises [RefreshTokenReuseError]), and presenting it once more to
    [accepts_refresh] at any later instant refuses the refresh and revokes the
    session, whatever the account's state. *)
Theorem rotated_token_single_use s new_id now ttl h s' r :
  session_ok s -> rotate s new_id now ttl h = Ok (s', r) ->
  (forall id2 now2 ttl2 h2, 0 < ttl2 -> is_aware now2 = true -> live s' now2 ->
     rotate s' id2 now2 ttl2 h2 = Err (EDomain RefreshTokenReuseError)) /\
  (forall now2 auth, is_aware now2 = true -> dt_us (as_created_at s) <= dt_us now2 ->
     accepts_refresh s' now2 auth = Ok (false, with_revoked_at s' now2)).
Proof.
  intros Hs H. apply rotate_rotates in H; [|done].
  pose proof (rotates_session_ok _ _ _ _ _ _ _ Hs H) as [[Hc Hi Hw Hr Ht Hp] _ _].
  destruct H as (t & Et & Hu & Httl & Ha & [Hn Hl] & Hlen & Hle & Hid & Hh & -> & ->).
  split.
  - intros id2 now2 ttl2 h2 Httl2 Ha2 Hl2. unfold rotate, validate_ttl.
    rewrite (proj2 (raise_if_ok (ttl2 <=? 0) _ tt)) by (apply Z.leb_gt; lia).
    rewrite (proj2 (is_active_ok _ now2 true)) by done. reflexivity.
  - intros now2 auth Ha2 Hle2. unfold accepts_refresh, revoke. cbn. rewrite Hn.
    apply (bind_ok_intro _ _
      (with_revoked_at (with_rotation s (mark_used t now)
         (fresh_token s new_id now h) (dt_add now ttl)) now2)); [|done].
    apply AuthSession_validate_iff. split; [done|].
    constructor; cbn; try done. by intros ? [= <-].
Qed.

Lemma rotated_token_single_use_witness :
  exists s' r,
    rotate demo_session 12 (utc 5000) 4000 (demo_hash x02) = Ok (s', r) /\
    rotate s' 13 (utc 6000) 4000 (demo_hash x03) = Err (EDomain RefreshTokenReuseError).
Proof.
  do 2 eexists. split; [vm_compute; reflexivity|].
  eapply (rotated_token_single_use demo_session 12 (utc 5000) 4000 (demo_hash x02));
    [exact demo_session_ok|vm_compute; reflexivity|lia|reflexivity|].
  split; [reflexivity|cbn; lia].
Defined.

Lemma User_validate_idem `{EmailSyntax} u u' :
  User_validate u = Ok u' ->
  is_aware (u_created_at u) = true /\
  u_created_at u' = u_created_at u /\ u_updated_at u' = u_updated_at u /\
  u_id u' = u_id u /\ u_role u' = u_role u /\ u_status u' = u_status u /\
  NormalizedEmail_new (u_email u) = Ok (u_email u') /\
  u_password_hash u' = u_password_hash u /\ is_blank (u_password_hash u) = false.
Proof.
  unfold User_validate. intros Hv. ok_inv. subst. cbn.
  unfold validate_created_at, PasswordHash_new in *.
  apply require_aware_ok in Hok1. destruct (is_blank _); [done|]. by ok_inv.
Qed.

(** Disabling an account: on a stored (already validated) user,
    [User.disable] is a no-op when the account is disabled; otherwise it
    succeeds exactly when [now] is timezone-aware and not earlier than the last
    change, and then only the status and [updated_at] change, after which the
    account cannot authenticate. *)
Theorem disable_iff `{EmailSyntax} u now u' :
  User_validate u = Ok u ->
  disable u now = Ok u' <->
  (u_status u = DISABLED /\ u' = u) \/
  (u_status u = ACTIVE /\ is_aware now = true /\
   dt_us (default (u_created_at u) (u_updated_at u)) <= dt_us now /\
   can_authenticate u' = false /\
   u' = {| u_id := u_id u; u_created_at := u_created_at u;
           u_updated_at := Some now; u_email := u_email u;
           u_password_hash := u_password_hash u; u_role := u_role u;
           u_status := DISABLED |}).
Proof.
  intros Hv. pose proof Hv as (Ha & _ & _ & _ & _ & _ & He & _ & Hb)%User_validate_idem.
  unfold disable, can_authenticate. destruct (u_status u) eqn:Es.
  2: { rewrite bool_decide_true by done. naive_solver. }
  rewrite bool_decide_false by done. unfold change_at_guard, User_validate in *.
  cbn [u_email u_password_hash u_created_at u_updated_at u_id u_role u_status].
  unfold PasswordHash_new in *. rewrite He, Hb in *. cbn [mbind result_bind] in *.
  unfold validate_created_at, validate_updated_at in *.
  autorewrite with identity_rw in *. unfold mret, result_ret. cbn [on_some].
  destruct Hv as (_ & Hu & _).
  assert (dt_us (u_created_at u) <= dt_us (default (u_created_at u) (u_updated_at u))).
  { destruct (u_updated_at u) as [d|]; cbn; [|lia].
    specialize (Hu _ eq_refl). autorewrite with identity_rw in Hu. naive_solver. }
  split.
  - intros [[Hn Hle] Hx]. autorewrite with identity_rw in Hx. right.
    destruct Hx as (_ & _ & Hx). naive_solver.
  - intros [[? _]|(_ & Hn & Hle & _ & ->)]; [done|]. split; [done|].
    autorewrite with identity_rw. repeat split; try done.
    intros ? [= <-]. autorewrite with identity_rw. split; [done|lia].
Qed.

(** A concrete e-mail syntax for the witnesses: one ['@'], folded to lower case. *)
Definition lower_ascii (c : Ascii.ascii) : Ascii.ascii :=
  let n := Ascii.nat_of_ascii c in
  if (Nat.leb 65 n && Nat.leb n 90)%bool then Ascii.ascii_of_nat (n + 32) else c.

Definition at_sign : Ascii.ascii := Ascii.ascii_of_nat 64.

Definition demo_email_syntax : EmailSyntax := {|
  email_str s :=
    if existsb (Ascii.eqb at_sign) (String.list_ascii_of_string s) then Some s else None;
  casefold s := String.string_of_list_ascii
    (map lower_ascii (String.list_ascii_of_string s))
|}.

Lemma lower_ascii_idem c : lower_ascii (lower_ascii c) = lower_ascii c.
Proof. by destruct c as [[] [] [] [] [] [] [] []]. Qed.

Lemma lower_ascii_at c : Ascii.eqb at_sign (lower_ascii c) = Ascii.eqb at_sign c.
Proof. by destruct c as [[] [] [] [] [] [] [] []]. Qed.

Lemma has_at_lower l :
  existsb (Ascii.eqb at_sign) (map lower_ascii l) = existsb (Ascii.eqb at_sign) l.
Proof.
  induction l as [|c l IH]; [done|]. change (map lower_ascii (c :: l)) with
    (lower_ascii c :: map lower_ascii l). cbn [existsb]. by rewrite lower_ascii_at, IH.
Qed.

#[global] Instance demo_email_laws : @EmailLaws demo_email_syntax.
Proof.
  intros v n. unfold NormalizedEmail_new. cbn.
  destruct (existsb _ _) eqn:E; [|done]. intros [= <-].
  rewrite String.list_ascii_of_string_of_list_ascii.
  rewrite has_at_lower, E. cbn. rewrite String.list_ascii_of_string_of_list_ascii, map_map.
  do 2 f_equal. apply map_ext, lower_ascii_idem.
Qed.

Definition demo_user : User :=
  {| u_id := 3; u_created_at := utc 10; u_updated_at := None;
     u_email := "ann@example.org"; u_password_hash := "argon2"; u_role := USER;
     u_status := ACTIVE |}.

Lemma disable_iff_witness :
  exists u', @disable demo_email_syntax demo_user (utc 20) = Ok u' /\
    can_authenticate u' = false.
Proof.
  eexists. split; [vm_compute; reflexivity|].
  destruct (proj1 (@disable_iff demo_email_syntax demo_user (utc 20) _
    ltac:(vm_compute; reflexivity)) ltac:(vm_compute; reflexivity))
    as [[H _]|(_ & _ & _ & H & _)]; [discriminate H|exact H].
Defined.
