(* ===== verification/Retry.v ===== *)
(** * Retry policies and durations

    [application/policies/outbox_retry.py] and [registration_retry.py]: the
    capped exponential back-off with jitter.  A Python float is an IEEE-754
    binary64 value, here [spec_float] with the rounding of [SpecFloat];
    [float_pow] is the C library's [pow], whose rounding is the platform's, and
    which raises [OverflowError] when the result is out of range ([None]). *)

From S2P Require Import Prelude Exceptions.
From Stdlib Require Import SpecFloat.

Abbreviation float := spec_float.

Definition prec : Z := 53.
Definition emax : Z := 1024.

Definition fmul (x y : float) : float := SFmul prec emax x y.
Definition fadd (x y : float) : float := SFadd prec emax x y.
(** [a < b], false when either is a NaN. *)
Definition flt (x y : float) : bool := SFltb x y.
Definition fle (x y : float) : bool := SFleb x y.

(** Python's [min(a, b)] and [max(a, b)]: the first argument unless the second
    is strictly smaller (greater). *)
Definition fmin (a b : float) : float := if flt b a then b else a.
Definition fmax (a b : float) : float := if flt a b then b else a.

Definition of_Z (n : Z) : float := binary_normalize prec emax n 0 false.
(** The literals [0.1], [0.2], [0.0] and [1.0]. *)
Definition f0_1 : float := S754_finite false 7205759403792794 (-56).
Definition f0_2 : float := S754_finite false 7205759403792794 (-55).
Definition f0 : float := S754_zero false.
Definition f1 : float := of_Z 1.

Class FloatPow := float_pow : float -> Z -> option float.

Record RetryPolicy := {
  initial_seconds : float;
  max_seconds : float;
  exponent : float;
  jitter_ratio : float;
  max_attempts : Z
}.

(** [registration_retry.py] declares the same fields, defaults, checks and
    [delay_seconds] under another class name. *)
Definition RegistrationRetryPolicy : Set := RetryPolicy.

(** The dataclass defaults. *)
Definition default_policy : RetryPolicy :=
  {| initial_seconds := f1; max_seconds := of_Z 60; exponent := of_Z 2;
     jitter_ratio := f0_2; max_attempts := 10 |}.

Definition post_init (p : RetryPolicy) : res RetryPolicy :=
  raise_if (fle (initial_seconds p) f0) EValueError;;
  raise_if (flt (max_seconds p) (initial_seconds p)) EValueError;;
  raise_if (flt (exponent p) f1) EValueError;;
  raise_unless (fle f0 (jitter_ratio p) && fle (jitter_ratio p) f1) EValueError;;
  raise_if (max_attempts p <=? 0) EValueError;;
  mret p.

Definition delay_seconds `{FloatPow} (p : RetryPolicy) (attempt : Z)
    (jitter_sample : float) : res float :=
  let growth_steps := Z.max 0 (attempt - 1) in
  match float_pow (exponent p) growth_steps with
  | None => raise EOverflowError
  | Some factor =>
      let capped := fmin (max_seconds p) (fmul (initial_seconds p) factor) in
      let jittered :=
        fmul capped (fadd f1 (fmul (jitter_ratio p) jitter_sample)) in
      mret (fmin (max_seconds p) (fmax f0_1 jittered))
  end.

(** ** [timedelta(seconds=x)] for a float [x], in microseconds

    CPython splits [x] into integral and fractional parts, multiplies the
    fractional part by [1e6] as a float and rounds it half to even. *)

Definition ratio_of (m : positive) (e : Z) : Z * Z :=
  if e <? 0 then (Zpos m, 2 ^ (- e)) else (Zpos m * 2 ^ e, 1).

Definition round_half_even (num den : Z) : Z :=
  let q := num / den in
  match 2 * (num mod den) ?= den with
  | Lt => q
  | Gt => q + 1
  | Eq => if Z.even q then q else q + 1
  end.

Definition sf_round (f : float) : Z :=
  match f with
  | S754_finite s m e =>
      let '(n, d) := ratio_of m e in
      let r := round_half_even n d in if s then - r else r
  | _ => 0
  end.

(** |days| is at most 999999999. *)
Definition timedelta_limit : Z := 999999999 * 86400000000.

Definition timedelta_seconds (x : float) : res Z :=
  match x with
  | S754_nan => raise EValueError
  | S754_infinity _ => raise EOverflowError
  | S754_zero _ => mret 0
  | S754_finite s m e =>
      let '(n, d) := ratio_of m e in
      let int_part := n / d in
      let frac := binary_normalize prec emax (n mod d) (Z.min 0 e) false in
      let us := int_part * 1000000 + sf_round (fmul frac (of_Z 1000000)) in
      if timedelta_limit <? us then raise EOverflowError
      else mret (if s then - us else us)
  end.

(** ** Theorems *)

Lemma fmin_cases a b : fmin a b = a \/ (fmin a b = b /\ flt b a = true).
Proof. unfold fmin. destruct (flt b a) eqn:E; auto. Qed.

Lemma fmax_cases a b : fmax a b = a \/ (fmax a b = b /\ flt a b = true).
Proof. unfold fmax. destruct (flt a b) eqn:E; auto. Qed.

(** Back-off bounds: for every policy, attempt number and jitter sample
    (NaN and out-of-range samples included), [delay_seconds] raises
    [OverflowError] exactly when the exponentiation overflows; otherwise the
    delay it returns never exceeds [max_seconds] and is at least [0.1] unless it
    is [max_seconds] itself. *)
Theorem delay_seconds_bounds `{FloatPow} p attempt jitter :
  match delay_seconds p attempt jitter with
  | Ok d =>
      is_Some (float_pow (exponent p) (Z.max 0 (attempt - 1))) /\
      (d = max_seconds p \/ flt d (max_seconds p) = true) /\
      (d = max_seconds p \/ d = f0_1 \/ flt f0_1 d = true)
  | Err e =>
      e = EOverflowError /\
      float_pow (exponent p) (Z.max 0 (attempt - 1)) = None
  end.
Proof.
  unfold delay_seconds.
  destruct (float_pow _ _) as [factor|] eqn:E; cbn; [|done]. split; [done|].
  set (j := fmul _ _).
  destruct (fmin_cases (max_seconds p) (fmax f0_1 j)) as [->|[-> Hlt]]; [auto|].
  split; [auto|]. destruct (fmax_cases f0_1 j) as [->|[-> Hgt]]; auto.
Qed.

(** A power function for concrete runs: repeated multiplication. *)
Definition demo_pow : FloatPow := fun x n =>
  match Nat.iter (Z.to_nat n) (fmul x) f1 with
  | S754_infinity _ => None
  | y => Some y
  end.
