(* ===== verification/Text.v ===== *)
(** * Text the standard library produces

    [str(uuid.UUID)], [datetime.isoformat()] and the values [json] documents are
    made of.  These are the Python standard library's documented formats; the
    service stores and compares the strings. *)

From S2P Require Import Prelude.

(** ** JSON documents *)

Inductive json : Set :=
| JNull
| JBool (b : bool)
| JInt (n : Z)
| JString (s : string)
| JList (l : list json)
| JObject (l : list (string * json)).

(** ** Digits *)

Definition digit (d : Z) : Ascii.ascii :=
  if d <? 10 then Ascii.ascii_of_nat (48 + Z.to_nat d)
  else Ascii.ascii_of_nat (87 + Z.to_nat d).

(** [n] digits of [v], most significant first. *)
Fixpoint digits (base : Z) (n : nat) (v : Z) : list Ascii.ascii :=
  match n with
  | O => []
  | S n => digits base n (v / base) ++ [digit (v mod base)]
  end.

Definition str (l : list Ascii.ascii) : string := String.string_of_list_ascii l.
Definition chars (s : string) : list Ascii.ascii := String.list_ascii_of_string s.

(** [str(uuid)]: [8-4-4-4-12] lower-case hexadecimal digits. *)
Definition uuid_chars (u : uuid) : list Ascii.ascii :=
  let h := digits 16 32 u in
  take 8 h ++ chars "-" ++ take 4 (drop 8 h) ++ chars "-" ++ take 4 (drop 12 h) ++
  chars "-" ++ take 4 (drop 16 h) ++ chars "-" ++ drop 20 h.

Definition uuid_str (u : uuid) : string := str (uuid_chars u).

(** ** [bytes.hex()] and [bytes.fromhex()] *)

Definition byte_value (b : byte) : Z := Z.of_N (Byte.to_N b).

Definition hex_chars (l : bytes) : list Ascii.ascii :=
  l ≫= (fun b => digits 16 2 (byte_value b)).

Definition hex (l : bytes) : string := str (hex_chars l).

(** ASCII white space and the value of a hexadecimal digit of either case. *)
Definition is_space (c : Ascii.ascii) : bool :=
  let n := Ascii.nat_of_ascii c in (n =? 32)%nat || ((9 <=? n)%nat && (n <=? 13)%nat).

Definition hex_value (c : Ascii.ascii) : option Z :=
  let n := Z.of_nat (Ascii.nat_of_ascii c) in
  if (48 <=? n) && (n <=? 57) then Some (n - 48)
  else if (97 <=? n) && (n <=? 102) then Some (n - 87)
  else if (65 <=? n) && (n <=? 70) then Some (n - 55)
  else None.

(** White space is skipped between bytes; anything else malformed is refused. *)
Fixpoint fromhex_chars (l : list Ascii.ascii) : option bytes :=
  match l with
  | [] => Some []
  | c :: l =>
      if is_space c then fromhex_chars l else
      match l with
      | [] => None
      | d :: l =>
          high ← hex_value c;
          low ← hex_value d;
          b ← Byte.of_N (Z.to_N (16 * high + low));
          rest ← fromhex_chars l;
          Some (b :: rest)
      end
  end.

Definition fromhex (s : string) : option bytes := fromhex_chars (chars s).

(** ** [str.encode("utf-8")], for code points below 256 *)

Definition byte_of (v : Z) : byte := default x00 (Byte.of_N (Z.to_N v)).

Definition utf8_char (c : Ascii.ascii) : bytes :=
  let n := Z.of_nat (Ascii.nat_of_ascii c) in
  if n <? 128 then [byte_of n] else [byte_of (192 + n / 64); byte_of (128 + n mod 64)].

Definition utf8 (s : string) : bytes := chars s ≫= utf8_char.

(** [hashlib.sha256(data).digest()] *)
Class Sha256 := sha256 : bytes -> bytes.

(** ** [datetime.isoformat()] *)

(** The proleptic Gregorian date of a day counted from 1970-01-01. *)
Definition civil_from_days (days : Z) : Z * Z * Z :=
  let z := days + 719468 in
  let era := z / 146097 in
  let doe := z mod 146097 in
  let yoe := (doe - doe / 1460 + doe / 36524 - doe / 146096) / 365 in
  let doy := doe - (365 * yoe + yoe / 4 - yoe / 100) in
  let mp := (5 * doy + 2) / 153 in
  let d := doy - (153 * mp + 2) / 5 + 1 in
  let m := if mp <? 10 then mp + 3 else mp - 9 in
  let y := yoe + era * 400 + (if m <=? 2 then 1 else 0) in
  (y, m, d).

Definition offset_chars (offset : Z) : list Ascii.ascii :=
  let a := Z.abs offset in
  chars (if offset <? 0 then "-" else "+") ++ digits 10 2 (a / 3600) ++ chars ":" ++
  digits 10 2 (a / 60 mod 60) ++
  (if a mod 60 =? 0 then [] else chars ":" ++ digits 10 2 (a mod 60)).

Definition isoformat (t : datetime) : string :=
  let local := dt_us t + default 0 (dt_offset t) * 1000000 in
  let day := local / 86400000000 in
  let us := local mod 86400000000 in
  let '(y, m, d) := civil_from_days day in
  let s := us / 1000000 in
  str (digits 10 4 y ++ chars "-" ++ digits 10 2 m ++ chars "-" ++ digits 10 2 d ++
       chars "T" ++ digits 10 2 (s / 3600) ++ chars ":" ++ digits 10 2 (s / 60 mod 60) ++
       chars ":" ++ digits 10 2 (s mod 60) ++
       (if us mod 1000000 =? 0 then [] else chars "." ++ digits 10 6 (us mod 1000000)) ++
       match dt_offset t with Some o => offset_chars o | None => [] end).

(** ** Lemmas *)

Example uuid_str_example :
  uuid_str 0x0192f3c08d2a7b31a4e5f60718293a4b = "0192f3c0-8d2a-7b31-a4e5-f60718293a4b"%string.
Proof. reflexivity. Qed.

Example isoformat_example :
  isoformat (utc 1709210096000123) = "2024-02-29T12:34:56.000123+00:00"%string.
Proof. reflexivity. Qed.

Lemma digit_inj a b : 0 <= a < 16 -> 0 <= b < 16 -> digit a = digit b -> a = b.
Proof.
  intros Ha Hb.
  assert (forallb (fun x => forallb (fun y => implb (Ascii.eqb (digit x) (digit y)) (x =? y))
    (seqZ 0 16)) (seqZ 0 16) = true) as H by (vm_compute; reflexivity).
  rewrite forallb_forall in H. specialize (H a).
  rewrite <- list_elem_of_In, elem_of_seqZ in H. specialize (H ltac:(lia)).
  rewrite forallb_forall in H. specialize (H b).
  rewrite <- list_elem_of_In, elem_of_seqZ in H. specialize (H ltac:(lia)).
  intros E. rewrite E, Ascii.eqb_refl in H. by apply Z.eqb_eq in H.
Qed.

Lemma digits_length base n v : length (digits base n v) = n.
Proof.
  revert v. induction n as [|n IH]; intros v; [done|].
  cbn. rewrite length_app, IH. cbn. lia.
Qed.

Lemma digits_inj base n u v :
  1 < base <= 16 -> 0 <= u < base ^ Z.of_nat n -> 0 <= v < base ^ Z.of_nat n ->
  digits base n u = digits base n v -> u = v.
Proof.
  intros Hb. revert u v. induction n as [|n IH]; intros u v Hu Hv; [cbn in *; lia|].
  rewrite Nat2Z.inj_succ, Z.pow_succ_r in Hu, Hv by lia. cbn.
  intros [Hq Hd]%app_inj_tail.
  pose proof (Z.mod_pos_bound u base). pose proof (Z.mod_pos_bound v base).
  apply digit_inj in Hd; [|lia..].
  apply IH in Hq; [rewrite (Z_div_mod_eq_full u base), (Z_div_mod_eq_full v base); congruence|..];
    split; first [apply Z.div_pos; lia|apply Z.div_lt_upper_bound; lia].
Qed.

Lemma str_inj a b : str a = str b -> a = b.
Proof.
  intros H. apply (f_equal String.list_ascii_of_string) in H.
  unfold str in H. by rewrite !String.list_ascii_of_string_of_list_ascii in H.
Qed.

Lemma app_inj_same_length {A} (a b c d : list A) :
  length a = length b -> a ++ c = b ++ d -> a = b /\ c = d.
Proof. intros. by apply app_inj_1. Qed.

(** Different UUIDs print differently. *)
Lemma uuid_str_inj u v :
  0 <= u < 2 ^ 128 -> 0 <= v < 2 ^ 128 -> uuid_str u = uuid_str v -> u = v.
Proof.
  intros Hu Hv H. apply str_inj in H. apply (digits_inj 16 32); [lia| | |]; [done..|].
  unfold uuid_chars in H.
  pose proof (digits_length 16 32 u) as Lu. pose proof (digits_length 16 32 v) as Lv.
  revert H Lu Lv. generalize (digits 16 32 u) (digits 16 32 v). intros a b H La Lb.
  do 32 (destruct a as [|? a]; [done|]; destruct b as [|? b]; [done|]).
  destruct a; [|done]. destruct b; [|done]. cbn in H. congruence.
Qed.

(** ** Hexadecimal round trip *)

Lemma hex_byte b :
  is_space (digit (byte_value b / 16 mod 16)) = false /\
  hex_value (digit (byte_value b / 16 mod 16)) = Some (byte_value b / 16) /\
  hex_value (digit (byte_value b mod 16)) = Some (byte_value b mod 16) /\
  Byte.of_N (Z.to_N (16 * (byte_value b / 16) + byte_value b mod 16)) = Some b.
Proof. destruct b; repeat split; vm_compute; reflexivity. Qed.

Lemma chars_str l : chars (str l) = l.
Proof. apply String.list_ascii_of_string_of_list_ascii. Qed.

Lemma fromhex_hex l : fromhex (hex l) = Some l.
Proof.
  unfold fromhex, hex. rewrite chars_str. unfold hex_chars.
  induction l as [|b l IH]; [done|].
  destruct (hex_byte b) as (Hs & Hh & Hl & Hb).
  rewrite bind_cons. revert IH. generalize (l ≫= (fun b => digits 16 2 (byte_value b))).
  intros rest IH. cbn [digits app fromhex_chars].
  rewrite Hs, Hh, Hl. cbn [mbind option_bind]. rewrite Hb. cbn [option_bind]. by rewrite IH.
Qed.

Lemma hex_inj a b : hex a = hex b -> a = b.
Proof. intros E%(f_equal fromhex). rewrite !fromhex_hex in E. by injection E. Qed.

(** ** UTF-8 round trip *)

Fixpoint of_utf8 (l : bytes) : list Ascii.ascii :=
  match l with
  | [] => []
  | b :: l =>
      if byte_value b <? 128 then Ascii.ascii_of_nat (Z.to_nat (byte_value b)) :: of_utf8 l
      else match l with
           | [] => []
           | c :: l =>
               Ascii.ascii_of_nat
                 (Z.to_nat (64 * (byte_value b - 192) + (byte_value c - 128))) :: of_utf8 l
           end
  end.

Lemma of_utf8_char c l : of_utf8 (utf8_char c ++ l) = c :: of_utf8 l.
Proof. by destruct c as [[] [] [] [] [] [] [] []]. Qed.

Lemma of_utf8_utf8 s : of_utf8 (utf8 s) = chars s.
Proof.
  unfold utf8. induction (chars s) as [|c l IH]; [done|].
  by rewrite bind_cons, of_utf8_char, IH.
Qed.

Lemma utf8_inj a b : utf8 a = utf8 b -> a = b.
Proof.
  intros E%(f_equal of_utf8). rewrite !of_utf8_utf8 in E.
  apply (f_equal str) in E. unfold str, chars in E.
  by rewrite !String.string_of_list_ascii_of_string in E.
Qed.
