(* ===== verification/Json.v ===== *)
(** * JSON text

    [json.dumps(value, ensure_ascii=False, separators=(",", ":"), sort_keys=True)]
    of the standard library, which fingerprints, replay protection and the hot
    store are built on, and a reader of what it writes. *)

From S2P Require Import Prelude Text.

(** The character with a code. *)
Definition ch (n : nat) : Ascii.ascii := Ascii.ascii_of_nat n.

(** ** Integers *)

Fixpoint decimal_go (fuel : nat) (v : Z) (acc : list Ascii.ascii) : list Ascii.ascii :=
  match fuel with
  | O => acc
  | S fuel =>
      if v <? 10 then digit v :: acc
      else decimal_go fuel (v / 10) (digit (v mod 10) :: acc)
  end.

(** [str(n)]: a number has at most as many decimal as binary digits. *)
Definition decimal (v : Z) : list Ascii.ascii := decimal_go (S (Z.to_nat (Z.log2 v))) v [].

Definition int_chars (n : Z) : list Ascii.ascii :=
  if n <? 0 then chars "-" ++ decimal (- n) else decimal n.

(** ** Strings *)

Definition escape (c : Ascii.ascii) : list Ascii.ascii :=
  let n := Ascii.nat_of_ascii c in
  if (n =? 34)%nat then [ch 92; ch 34]
  else if (n =? 92)%nat then [ch 92; ch 92]
  else if (n =? 10)%nat then chars "\n"
  else if (n =? 13)%nat then chars "\r"
  else if (n =? 9)%nat then chars "\t"
  else if (n =? 12)%nat then chars "\f"
  else if (n =? 8)%nat then chars "\b"
  else if (n <? 32)%nat then chars "\u" ++ digits 16 4 (Z.of_nat n)
  else [c].

Definition string_chars (s : string) : list Ascii.ascii :=
  [ch 34] ++ (chars s ≫= escape) ++ [ch 34].

(** ** Documents *)

(** Sorting the items of a dict, whose keys are distinct, by key. *)
Fixpoint insert_key {A} (kv : string * A) (l : list (string * A)) : list (string * A) :=
  match l with
  | [] => [kv]
  | x :: l' => if String.leb kv.1 x.1 then kv :: l else x :: insert_key kv l'
  end.

Definition sort_keys {A} (l : list (string * A)) : list (string * A) := foldr insert_key [] l.

Fixpoint join (l : list (list Ascii.ascii)) : list Ascii.ascii :=
  match l with
  | [] => []
  | [x] => x
  | x :: l => x ++ chars "," ++ join l
  end.

Definition item (kv : string * list Ascii.ascii) : list Ascii.ascii :=
  string_chars kv.1 ++ chars ":" ++ kv.2.

Fixpoint dumps_chars (v : json) : list Ascii.ascii :=
  match v with
  | JNull => chars "null"
  | JBool true => chars "true"
  | JBool false => chars "false"
  | JInt n => int_chars n
  | JString s => string_chars s
  | JList l => chars "[" ++ join (map dumps_chars l) ++ chars "]"
  | JObject l =>
      chars "{" ++ join (map item (sort_keys (map (fun kv => (kv.1, dumps_chars kv.2)) l)))
      ++ chars "}"
  end.

Definition dumps (v : json) : string := str (dumps_chars v).

(** [ensure_ascii=True], the default: every character from DEL on is escaped.  They
    occur inside strings only, and escaping them last is the same. *)
Definition ascii_only (c : Ascii.ascii) : list Ascii.ascii :=
  let n := Ascii.nat_of_ascii c in
  if (n <? 127)%nat then [c] else chars "\u" ++ digits 16 4 (Z.of_nat n).

Definition dumps_ascii (v : json) : string := str (dumps_chars v ≫= ascii_only).

(** The document with the keys of every dict in order: what the text says. *)
Fixpoint sort_json (v : json) : json :=
  match v with
  | JList l => JList (map sort_json l)
  | JObject l => JObject (sort_keys (map (fun kv => (kv.1, sort_json kv.2)) l))
  | _ => v
  end.

Example dumps_example :
  dumps (JObject [("b", JList [JInt (-12); JNull]); ("a", JString "x")]) =
    str ([ch 123] ++ string_chars "a" ++ chars ":" ++ string_chars "x" ++ chars "," ++
         string_chars "b" ++ chars ":[-12,null]}").
Proof. reflexivity. Qed.

(** ** Reading it back *)

Definition digit_value (c : Ascii.ascii) : option Z :=
  let n := Z.of_nat (Ascii.nat_of_ascii c) in
  if (48 <=? n) && (n <=? 57) then Some (n - 48) else None.

Fixpoint read_digits (l : list Ascii.ascii) (acc : Z) : Z * list Ascii.ascii :=
  match l with
  | c :: l' => match digit_value c with
               | Some d => read_digits l' (10 * acc + d)
               | None => (acc, l)
               end
  | [] => (acc, [])
  end.

Definition read_int (l : list Ascii.ascii) : Z * list Ascii.ascii :=
  match l with
  | c :: l' => if Ascii.eqb c (ch 45) then let '(n, r) := read_digits l' 0 in (- n, r)
               else read_digits l 0
  | [] => (0, [])
  end.

Definition unescape (c : Ascii.ascii) : Ascii.ascii :=
  let n := Ascii.nat_of_ascii c in
  if (n =? 110)%nat then ch 10
  else if (n =? 114)%nat then ch 13
  else if (n =? 116)%nat then ch 9
  else if (n =? 102)%nat then ch 12
  else if (n =? 98)%nat then ch 8
  else c.

Fixpoint read_string (l : list Ascii.ascii) : option (list Ascii.ascii * list Ascii.ascii) :=
  match l with
  | [] => None
  | c :: l =>
      if Ascii.eqb c (ch 34) then Some ([], l)
      else if Ascii.eqb c (ch 92) then
        match l with
        | c :: l =>
            if Ascii.eqb c (ch 117) then
              match l with
              | _ :: _ :: h :: k :: l =>
                  a ← hex_value h; b ← hex_value k;
                  '(s, r) ← read_string l;
                  Some (Ascii.ascii_of_nat (Z.to_nat (16 * a + b)) :: s, r)
              | _ => None
              end
            else '(s, r) ← read_string l; Some (unescape c :: s, r)
        | [] => None
        end
      else '(s, r) ← read_string l; Some (c :: s, r)
  end.

Fixpoint read_value (fuel : nat) (l : list Ascii.ascii) : option (json * list Ascii.ascii) :=
  match fuel, l with
  | S fuel, c :: l' =>
      if Ascii.eqb c (ch 110) then Some (JNull, drop 3 l')
      else if Ascii.eqb c (ch 116) then Some (JBool true, drop 3 l')
      else if Ascii.eqb c (ch 102) then Some (JBool false, drop 4 l')
      else if Ascii.eqb c (ch 34) then '(s, r) ← read_string l'; Some (JString (str s), r)
      else if Ascii.eqb c (ch 91) then
        match l' with
        | d :: l'' => if Ascii.eqb d (ch 93) then Some (JList [], l'')
                      else '(vs, r) ← read_elements fuel l'; Some (JList vs, r)
        | [] => None
        end
      else if Ascii.eqb c (ch 123) then
        match l' with
        | d :: l'' => if Ascii.eqb d (ch 125) then Some (JObject [], l'')
                      else '(vs, r) ← read_members fuel l'; Some (JObject vs, r)
        | [] => None
        end
      else let '(n, r) := read_int l in Some (JInt n, r)
  | _, _ => None
  end
with read_elements (fuel : nat) (l : list Ascii.ascii) :
    option (list json * list Ascii.ascii) :=
  match fuel with
  | O => None
  | S fuel =>
      '(v, r) ← read_value fuel l;
      match r with
      | c :: r => if Ascii.eqb c (ch 44) then '(vs, r) ← read_elements fuel r; Some (v :: vs, r)
                  else Some ([v], r)
      | [] => None
      end
  end
with read_members (fuel : nat) (l : list Ascii.ascii) :
    option (list (string * json) * list Ascii.ascii) :=
  match fuel with
  | O => None
  | S fuel =>
      '(k, r) ← read_string (tail l);
      '(v, r) ← read_value fuel (tail r);
      match r with
      | c :: r => if Ascii.eqb c (ch 44)
                  then '(vs, r) ← read_members fuel r; Some ((str k, v) :: vs, r)
                  else Some ([(str k, v)], r)
      | [] => None
      end
  end.

(** As many steps as characters are enough. *)
Definition read_json (s : string) : option json :=
  match read_value (S (String.length s)) (chars s) with
  | Some (v, []) => Some v
  | _ => None
  end.

(** ** What is written can be read *)

Section json_ind.
Context (P : json -> Prop).
Context (Hnull : P JNull) (Hbool : forall b, P (JBool b)) (Hint : forall n, P (JInt n)).
Context (Hstring : forall s, P (JString s)).
Context (Hlist : forall l, Forall P l -> P (JList l)).
Context (Hobject : forall l, Forall (fun kv => P kv.2) l -> P (JObject l)).

Fixpoint json_nested_ind (v : json) : P v :=
  match v with
  | JNull => Hnull
  | JBool b => Hbool b
  | JInt n => Hint n
  | JString s => Hstring s
  | JList l => Hlist l ((fix go (l : list json) : Forall P l :=
      match l with
      | [] => List.Forall_nil P
      | x :: l => List.Forall_cons P x l (json_nested_ind x) (go l)
      end) l)
  | JObject l => Hobject l ((fix go (l : list (string * json)) : Forall (fun kv => P kv.2) l :=
      match l with
      | [] => List.Forall_nil _
      | x :: l => List.Forall_cons (fun kv => P kv.2) x l (json_nested_ind x.2) (go l)
      end) l)
  end.
End json_ind.

(** The text of a document whose keys are already in order. *)
Fixpoint print (v : json) : list Ascii.ascii :=
  match v with
  | JNull => chars "null"
  | JBool true => chars "true"
  | JBool false => chars "false"
  | JInt n => int_chars n
  | JString s => string_chars s
  | JList l => chars "[" ++ join (map print l) ++ chars "]"
  | JObject l =>
      chars "{" ++ join (map (fun kv => item (kv.1, print kv.2)) l) ++ chars "}"
  end.

Lemma insert_key_map {A B} (f : A -> B) kv l :
  insert_key (kv.1, f kv.2) (map (fun x => (x.1, f x.2)) l) =
    map (fun x => (x.1, f x.2)) (insert_key kv l).
Proof.
  induction l as [|x l IH]; [done|]. cbn. destruct (String.leb _ _); [done|].
  cbn. by rewrite IH.
Qed.

Lemma sort_keys_map {A B} (f : A -> B) l :
  sort_keys (map (fun x => (x.1, f x.2)) l) = map (fun x => (x.1, f x.2)) (sort_keys l).
Proof.
  unfold sort_keys. induction l as [|x l IH]; [done|]. cbn [map foldr].
  rewrite IH. apply (insert_key_map f x).
Qed.

Lemma map_Forall_ext {A B} (f g : A -> B) l :
  Forall (fun x => f x = g x) l -> map f l = map g l.
Proof. induction 1; cbn; congruence. Qed.

Lemma dumps_print v : dumps_chars v = print (sort_json v).
Proof.
  induction v as [|[|]| | |l IH|l IH] using json_nested_ind; try done; cbn [dumps_chars sort_json print].
  - rewrite map_map. by rewrite (map_Forall_ext _ _ _ IH).
  - rewrite (map_Forall_ext (fun kv => (kv.1, dumps_chars kv.2))
      (fun kv => (kv.1, print (sort_json kv.2))) l).
    2: { eapply List.Forall_impl; [|exact IH]. cbn. by intros kv ->. }
    rewrite (sort_keys_map (fun v => print (sort_json v))), (sort_keys_map sort_json), !map_map.
    done.
Qed.

(** Text that cannot continue a number. *)
Definition stops (l : list Ascii.ascii) : Prop :=
  match l with c :: _ => digit_value c = None | [] => True end.

Lemma digit_value_digit d : 0 <= d < 10 -> digit_value (digit d) = Some d.
Proof.
  intros Hd.
  assert (forallb (fun d => bool_decide (digit_value (digit d) = Some d)) (seqZ 0 10) = true)
    as H by (vm_compute; reflexivity).
  rewrite forallb_forall in H. specialize (H d).
  rewrite <- list_elem_of_In, elem_of_seqZ in H. specialize (H ltac:(lia)).
  by apply bool_decide_eq_true in H.
Qed.

Lemma read_digits_stop l n : stops l -> read_digits l n = (n, l).
Proof. destruct l as [|c l]; [done|]. cbn. by intros ->. Qed.

Lemma read_digits_go fuel v acc l :
  0 <= v < 2 ^ Z.of_nat fuel ->
  read_digits (decimal_go fuel v acc ++ l) 0 = read_digits (acc ++ l) v.
Proof.
  revert v acc. induction fuel as [|fuel IH]; intros v acc Hv.
  { cbn in Hv. assert (v = 0) as -> by lia. done. }
  rewrite Nat2Z.inj_succ, Z.pow_succ_r in Hv by lia. cbn [decimal_go].
  destruct (Z.ltb_spec v 10).
  - cbn [app read_digits]. rewrite digit_value_digit by lia. done.
  - rewrite IH.
    2: { split; [by apply Z.div_pos; lia|]. apply Z.div_lt_upper_bound; lia. }
    cbn [app read_digits]. rewrite digit_value_digit by (apply Z.mod_pos_bound; lia).
    by rewrite <- (Z_div_mod_eq_full v 10).
Qed.

Lemma read_decimal v l : 0 <= v -> stops l -> read_digits (decimal v ++ l) 0 = (v, l).
Proof.
  intros Hv Hl. unfold decimal. rewrite read_digits_go; [by apply read_digits_stop|].
  split; [done|]. rewrite Nat2Z.inj_succ, Z2Nat.id by apply Z.log2_nonneg.
  destruct (Z.eq_dec v 0) as [->|]; [done|]. apply Z.log2_spec. lia.
Qed.

Lemma decimal_go_head fuel v acc :
  0 <= v < 2 ^ Z.of_nat (S fuel) ->
  exists d l, 0 <= d < 10 /\ decimal_go (S fuel) v acc = digit d :: l.
Proof.
  revert v acc. induction fuel as [|fuel IH]; intros v acc Hv; cbn [decimal_go].
  - cbn in Hv. rewrite (proj2 (Z.ltb_lt v 10)) by lia. exists v, acc. split; [lia|done].
  - destruct (Z.ltb_spec v 10); [exists v, acc; split; [lia|done]|].
    apply IH. rewrite Nat2Z.inj_succ, Z.pow_succ_r in Hv by lia.
    split; [by apply Z.div_pos; lia|]. apply Z.div_lt_upper_bound; lia.
Qed.

Lemma decimal_head v : 0 <= v -> exists d l, 0 <= d < 10 /\ decimal v = digit d :: l.
Proof.
  intros Hv. apply decimal_go_head. split; [done|].
  rewrite Nat2Z.inj_succ, Z2Nat.id by apply Z.log2_nonneg.
  destruct (Z.eq_dec v 0) as [->|]; [done|]. apply Z.log2_spec. lia.
Qed.

(** The characters the reader tells the kinds of values apart by. *)
Definition marks : list Ascii.ascii := ch <$> [110; 116; 102; 34; 91; 123; 93; 125; 44; 45]%nat.

Lemma digit_not_mark d : 0 <= d < 10 -> forallb (fun c => negb (Ascii.eqb (digit d) c)) marks = true.
Proof.
  intros Hd.
  assert (forallb (fun d => forallb (fun c => negb (Ascii.eqb (digit d) c)) marks)
    (seqZ 0 10) = true) as H by (vm_compute; reflexivity).
  rewrite forallb_forall in H. apply H. apply list_elem_of_In, elem_of_seqZ. lia.
Qed.

Lemma read_int_chars n l : stops l -> read_int (int_chars n ++ l) = (n, l).
Proof.
  intros Hl. unfold int_chars. destruct (Z.ltb_spec n 0).
  - cbn [chars String.list_ascii_of_string app read_int]. change (Ascii.eqb _ _) with true.
    cbv iota. rewrite read_decimal by (done || lia). f_equal. lia.
  - destruct (decimal_head n) as (d & r & Hd & E); [done|].
    pose proof (read_decimal n l ltac:(done) Hl) as Hr. rewrite E in *. cbn [app read_int].
    pose proof (digit_not_mark d Hd) as Hm. cbn [forallb marks fmap list_fmap] in Hm.
    rewrite !andb_true_iff, !negb_true_iff in Hm. by destruct Hm as (_&_&_&_&_&_&_&_&_&->&_).
Qed.

Lemma read_escape c l :
  read_string (escape c ++ l) = '(s, r) ← read_string l; Some (c :: s, r).
Proof. by destruct c as [[] [] [] [] [] [] [] []]. Qed.

Lemma read_string_chars s l :
  read_string ((chars s ≫= escape) ++ ch 34 :: l) = Some (chars s, l).
Proof.
  induction (chars s) as [|c cs IH]; [done|].
  rewrite bind_cons, <- app_assoc, read_escape, IH. done.
Qed.

Lemma str_chars s : str (chars s) = s.
Proof. apply String.string_of_list_ascii_of_string. Qed.

Definition reads (v : json) : Prop := forall fuel rest,
  (length (print v) <= fuel)%nat -> stops rest -> read_value fuel (print v ++ rest) = Some (v, rest).

Lemma digit_first n :
  exists c l, int_chars n = c :: l /\
    forallb (fun m => negb (Ascii.eqb c m)) (take 9 marks) = true.
Proof.
  unfold int_chars. destruct (Z.ltb_spec n 0); [by eexists _, _|].
  destruct (decimal_head n) as (d & l & Hd & ->); [done|]. exists (digit d), l. split; [done|].
  pose proof (digit_not_mark d Hd) as Hm. cbn [forallb marks fmap list_fmap] in Hm.
  cbn [forallb marks fmap list_fmap take]. rewrite !andb_true_iff in *. tauto.
Qed.

Lemma print_head v : exists c l, print v = c :: l /\ Ascii.eqb c (ch 93) = false.
Proof.
  destruct v as [|[|]|n|s|l|l]; try (by eexists _, _).
  destruct (digit_first n) as (c & l & E & Hm). exists c, l. split; [exact E|].
  cbn [forallb marks fmap list_fmap take] in Hm. rewrite !andb_true_iff, !negb_true_iff in Hm.
  tauto.
Qed.

Lemma join_cons x l : l <> [] -> join (x :: l) = x ++ chars "," ++ join l.
Proof. by destruct l. Qed.

Lemma join_length x l :
  l <> [] -> length (join (x :: l)) = (length x + 1 + length (join l))%nat.
Proof. intros Hl. rewrite join_cons, !length_app by done. cbn [length chars String.list_ascii_of_string]. lia. Qed.

Lemma read_elements_join l :
  l <> [] -> Forall reads l -> forall fuel rest,
  (length (join (map print l)) < fuel)%nat ->
  read_elements fuel (join (map print l) ++ ch 93 :: rest) = Some (l, rest).
Proof.
  intros Hl HF. induction HF as [|v l Hv HF IH]; [done|]. intros [|fuel] rest Hf; [lia|].
  destruct l as [|v' l'].
  - cbn [map join read_elements] in *. rewrite Hv by (done || lia). done.
  - cbn [map] in *. rewrite join_length in Hf by done. rewrite join_cons by done.
    cbn [read_elements]. rewrite <- !app_assoc. rewrite Hv by (done || lia).
    cbn [mbind option_bind chars String.list_ascii_of_string app].
    change (Ascii.eqb _ _) with true. cbv iota. rewrite IH; [done|done|lia].
Qed.

Lemma item_chars k t : item (k, t) = ch 34 :: (chars k ≫= escape) ++ ch 34 :: ch 58 :: t.
Proof. unfold item, string_chars. cbn [fst snd]. by rewrite <- !app_assoc. Qed.

Lemma read_members_join l :
  l <> [] -> Forall (fun kv => reads kv.2) l -> forall fuel rest,
  (length (join (map (fun kv => item (kv.1, print kv.2)) l)) < fuel)%nat ->
  read_members fuel (join (map (fun kv => item (kv.1, print kv.2)) l) ++ ch 125 :: rest) =
    Some (l, rest).
Proof.
  intros Hl HF. induction HF as [|[k v] l Hv HF IH]; [done|]. intros [|fuel] rest Hf; [lia|].
  cbn [snd] in Hv. destruct l as [|kv' l'].
  - cbn [map join fst snd] in *. rewrite item_chars in *. cbn [length] in Hf.
    rewrite length_app in Hf. cbn in Hf. cbn [read_members app tail].
    rewrite <- app_assoc. cbn [app]. rewrite read_string_chars. cbn [mbind option_bind tail].
    rewrite Hv by (done || lia). cbn. by rewrite str_chars.
  - cbn [map fst snd] in *. rewrite join_length in Hf by done. rewrite join_cons by done.
    rewrite (item_chars k (print v)) in *. cbn [length] in Hf. rewrite length_app in Hf. cbn [length] in Hf.
    cbn [read_members app tail]. rewrite <- !app_assoc. cbn [app].
    rewrite read_string_chars. cbn [mbind option_bind tail].
    rewrite Hv by (done || lia).
    cbn [mbind option_bind chars String.list_ascii_of_string app].
    change (Ascii.eqb _ _) with true. cbv iota. rewrite IH; [|done|lia].
    cbn. by rewrite str_chars.
Qed.

Lemma print_nonempty v : (1 <= length (print v))%nat.
Proof. destruct (print_head v) as (c & l & -> & _). cbn. lia. Qed.

(** Entering a list or a dict that is not empty. *)
Lemma read_list fuel l c r :
  Ascii.eqb c (ch 93) = false ->
  read_value (S fuel) (ch 91 :: c :: l) =
    ('(vs, r) ← read_elements fuel (c :: l); Some (JList vs, r)) /\
  read_value (S fuel) (ch 123 :: ch 34 :: r) =
    ('(vs, r) ← read_members fuel (ch 34 :: r); Some (JObject vs, r)).
Proof. intros Hc. cbn [read_value]. split; [|done]. cbn. by rewrite Hc. Qed.

Lemma read_print v : reads v.
Proof.
  induction v as [|b|n|s|l IH|l IH] using json_nested_ind; intros [|fuel] rest Hf Hr;
    try (match goal with H : (length (print ?v) <= 0)%nat |- _ =>
           pose proof (print_nonempty v); lia end).
  - done.
  - by destruct b.
  - pose proof (read_int_chars n rest Hr) as Hi. cbn [print].
    destruct (digit_first n) as (c & l & E & Hm). rewrite E in *. cbn [app read_value].
    cbn [forallb marks fmap list_fmap take] in Hm. rewrite !andb_true_iff, !negb_true_iff in Hm.
    destruct Hm as (-> & -> & -> & -> & -> & -> & _). cbn [app] in Hi. by rewrite Hi.
  - cbn [print]. unfold string_chars. rewrite <- !app_assoc. cbn [app read_value].
    change (Ascii.eqb (ch 34) _) with false at 1 2 3. cbv iota.
    change (Ascii.eqb (ch 34) (ch 34)) with true. cbv iota. rewrite read_string_chars.
    cbn. by rewrite str_chars.
  - destruct l as [|v l]; [done|].
    assert (Hlen : (length (join (map print (v :: l))) < fuel)%nat).
    { cbn [print] in Hf. rewrite !length_app in Hf.
      cbn [length chars String.list_ascii_of_string] in Hf. lia. }
    pose proof (read_elements_join (v :: l) ltac:(done) IH fuel rest Hlen) as He.
    assert (exists c t, join (map print (v :: l)) = c :: t /\ Ascii.eqb c (ch 93) = false)
      as (c & t & Ej & Hc).
    { destruct (print_head v) as (c & r & Ev & Hc). cbn [map].
      destruct l; cbn [map join]; rewrite Ev; by eexists _, _. }
    cbn [print]. rewrite Ej in *. rewrite <- !app_assoc.
    change (chars "[" ++ (c :: t) ++ chars "]" ++ rest)
      with (ch 91 :: c :: (t ++ ch 93 :: rest)).
    rewrite (proj1 (read_list fuel _ c [] Hc)).
    change (c :: t ++ ch 93 :: rest) with ((c :: t) ++ ch 93 :: rest). by rewrite He.
  - destruct l as [|[k v] l]; [done|].
    set (m := map (fun kv => item (kv.1, print kv.2)) ((k, v) :: l)) in *.
    assert (Hlen : (length (join m) < fuel)%nat).
    { cbn [print] in Hf. fold m in Hf. rewrite !length_app in Hf.
      cbn [length chars String.list_ascii_of_string] in Hf. lia. }
    pose proof (read_members_join ((k, v) :: l) ltac:(done) IH fuel rest Hlen) as He.
    fold m in He.
    assert (exists t, join m = ch 34 :: t) as [t Ej].
    { unfold m. cbn [map fst snd]. rewrite item_chars. destruct l; cbn [map join]; by eexists. }
    cbn [print]. fold m. rewrite Ej in *. rewrite <- !app_assoc.
    change (chars "{" ++ (ch 34 :: t) ++ chars "}" ++ rest)
      with (ch 123 :: ch 34 :: (t ++ ch 125 :: rest)).
    rewrite (proj2 (read_list fuel [] (ch 34) _ eq_refl)).
    change (ch 34 :: t ++ ch 125 :: rest) with ((ch 34 :: t) ++ ch 125 :: rest). by rewrite He.
Qed.

Lemma read_dumps_chars v : read_json (dumps v) = Some (sort_json v).
Proof.
  unfold read_json, dumps. rewrite chars_str, dumps_print.
  pose proof (read_print (sort_json v) (S (String.length (str (print (sort_json v))))) [])
    as Hr. rewrite app_nil_r in Hr. rewrite Hr; [done| |done].
  assert (Hl : forall l, String.length (str l) = length l)
    by (induction l as [|c l IH]; [done|cbn; by rewrite <- IH]).
  rewrite Hl. lia.
Qed.

(** The canonical text determines the document: reading back what
    [json.dumps] writes gives the document with the keys of every dict in order,
    so two documents have the same text only if they are equal up to the order of
    their keys. *)
Theorem dumps_determines u v :
  read_json (dumps v) = Some (sort_json v) /\ (dumps u = dumps v <-> sort_json u = sort_json v).
Proof.
  split; [apply read_dumps_chars|]. split.
  - intros E%(f_equal read_json). rewrite !read_dumps_chars in E. by injection E.
  - intros E. unfold dumps. by rewrite !dumps_print, E.
Qed.
