(* ===== verification/Sql.v ===== *)
(** * The fragment of SQL the repositories use

    A table is a finite map from primary keys to rows.  [UPDATE ... WHERE ...
    RETURNING] rewrites every matching row and returns the new rows; a row that
    violates the table's CHECK constraints aborts the statement with an
    [IntegrityError].  [ORDER BY ... LIMIT] sorts by a key of integers, compared
    lexicographically, and takes a prefix. *)

From S2P Require Import Prelude Exceptions.

(** SQLSTATE 23514 (check violation) and 23505 (unique violation). *)
Definition CheckViolation : exn := DBAPIError true (Some "23514"%string) None false.
Definition UniqueViolation : exn := DBAPIError true (Some "23505"%string) None false.

(** ** Ordering *)

Fixpoint lex_leb (a b : list Z) : bool :=
  match a, b with
  | [], _ => true
  | _ :: _, [] => false
  | x :: a, y :: b => (x <? y) || ((x =? y) && lex_leb a b)
  end.

Section ordering.
Context {A : Type} (key : A -> list Z).

Definition key_le (x y : A) : Prop := lex_leb (key x) (key y) = true.

#[global] Instance key_le_dec x y : Decision (key_le x y) :=
  decide (lex_leb (key x) (key y) = true).

(** [ORDER BY key] *)
Definition order_by (l : list A) : list A := merge_sort key_le l.

(** [ORDER BY key LIMIT n]; Python's [list.sort(key=...)] is [order_by]. *)
Definition order_limit (n : Z) (l : list A) : list A :=
  take (Z.to_nat n) (order_by l).
End ordering.

(** ** Statements *)

Section statements.
Context {R : Type} (ck : R -> bool).

Definition rows (t : gmap Z R) : list R := (map_to_list t).*2.

(** [SELECT * FROM t WHERE pred] *)
Definition select (pred : R -> bool) (t : gmap Z R) : list R :=
  rows (filter (fun kv => pred kv.2 = true) t).

(** [UPDATE t SET f WHERE pred RETURNING *] *)
Definition sql_update (pred : R -> bool) (f : R -> R) (t : gmap Z R) :
    res (list R * gmap Z R) :=
  let updated := f <$> select pred t in
  if forallb ck updated
  then Ok (updated, (fun r => if pred r then f r else r) <$> t)
  else raise CheckViolation.

(** [DELETE FROM t WHERE pred RETURNING *] *)
Definition sql_delete (pred : R -> bool) (t : gmap Z R) : list R * gmap Z R :=
  (select pred t, filter (fun kv => pred kv.2 = false) t).

(** [Result.scalar_one_or_none()] *)
Definition one_or_none {A} (l : list A) : res (option A) :=
  match l with
  | [] => Ok None
  | [a] => Ok (Some a)
  | _ => raise OtherSQLAlchemyError
  end.

(** [UPDATE t SET f WHERE pk = i AND cond RETURNING pk], then
    [scalar_one_or_none() is not None]. *)
Definition update_one (pk : R -> Z) (i : Z) (cond : R -> bool) (f : R -> R)
    (t : gmap Z R) : res (bool * gmap Z R) :=
  '(updated, t') ← sql_update (fun r => (pk r =? i) && cond r) f t;
  row ← one_or_none updated;
  mret (is_some row, t').

(** What such a statement means: the named row changes iff it satisfies the
    condition, and the answer says which. *)
Definition updated_one (i : Z) (cond : R -> bool) (f : R -> R) (t : gmap Z R) :
    res (bool * gmap Z R) :=
  match t !! i with
  | Some r => if cond r then Ok (true, <[i := f r]> t) else Ok (false, t)
  | None => Ok (false, t)
  end.
End statements.

(** ** Ordering lemmas *)

Lemma lex_leb_refl a : lex_leb a a = true.
Proof. induction a as [|x a IH]; [done|]. cbn. rewrite Z.eqb_refl, IH. apply orb_true_r. Qed.

Lemma lex_leb_total a b : lex_leb a b = true \/ lex_leb b a = true.
Proof.
  revert b. induction a as [|x a IH]; intros [|y b]; cbn; auto.
  destruct (Z.ltb_spec x y), (Z.ltb_spec y x); cbn; auto.
  assert (x = y) as -> by lia. rewrite Z.eqb_refl. apply IH.
Qed.

Lemma lex_leb_trans a b c :
  lex_leb a b = true -> lex_leb b c = true -> lex_leb a c = true.
Proof.
  revert b c. induction a as [|x a IH]; intros [|y b] [|z c]; cbn; try done.
  rewrite !orb_true_iff, !andb_true_iff, !Z.ltb_lt, !Z.eqb_eq.
  intros [?|[-> ?]] [?|[-> ?]]; [left; lia..|]. right. eauto.
Qed.

#[global] Instance key_le_total {A} (key : A -> list Z) : Total (key_le key).
Proof. intros x y. apply lex_leb_total. Qed.
#[global] Instance key_le_trans {A} (key : A -> list Z) : Transitive (key_le key).
Proof. intros x y z. apply lex_leb_trans. Qed.

Lemma order_by_perm {A} key (l : list A) : order_by key l ≡ₚ l.
Proof. apply merge_sort_Permutation. Qed.

Lemma order_by_sorted {A} key (l : list A) : StronglySorted (key_le key) (order_by key l).
Proof. apply StronglySorted_merge_sort; apply _. Qed.

Lemma elem_of_order_by {A} key (l : list A) x : x ∈ order_by key l <-> x ∈ l.
Proof. by rewrite order_by_perm. Qed.

Lemma elem_of_order_limit {A} key n (l : list A) x : x ∈ order_limit key n l -> x ∈ l.
Proof.
  unfold order_limit. intros H. rewrite <- (elem_of_order_by key).
  rewrite <- (take_drop (Z.to_nat n) (order_by key l)). set_solver.
Qed.

Lemma order_limit_length {A} key n (l : list A) :
  0 <= n -> Z.of_nat (length (order_limit key n l)) <= n.
Proof. intros. unfold order_limit. rewrite length_take. lia. Qed.

(** A row left out while the limit was reached or not: everything selected
    comes before it. *)
Lemma order_limit_first {A} key n (l : list A) x y :
  x ∈ order_limit key n l -> y ∈ l -> y ∉ order_limit key n l -> key_le key x y.
Proof.
  unfold order_limit. intros Hx Hy Hn.
  pose proof (order_by_sorted key l) as Hs.
  rewrite <- (elem_of_order_by key) in Hy.
  rewrite <- (take_drop (Z.to_nat n) (order_by key l)) in Hs, Hy.
  apply elem_of_app in Hy as [Hy|Hy]; [done|].
  by eapply (StronglySorted_app_1_elem_of (key_le key)).
Qed.

(** ** Statement lemmas *)

Section table_lemmas.
Context {R : Type}.
Implicit Types (t : gmap Z R) (pred : R -> bool).

Lemma elem_of_rows t r : r ∈ rows t <-> exists i, t !! i = Some r.
Proof.
  unfold rows. rewrite list_elem_of_fmap. split.
  - intros ([i x] & -> & H). exists i. by apply elem_of_map_to_list.
  - intros [i H]. exists (i, r). by rewrite elem_of_map_to_list.
Qed.

Lemma elem_of_select pred t r :
  r ∈ select pred t <-> (exists i, t !! i = Some r) /\ pred r = true.
Proof.
  unfold select. rewrite elem_of_rows. setoid_rewrite map_lookup_filter_Some. naive_solver.
Qed.

(** Rows sit under their own primary key. *)
Definition keyed (pk : R -> Z) (t : gmap Z R) : Prop :=
  forall i r, t !! i = Some r -> pk r = i.

Lemma select_by_id pk i q t :
  keyed pk t ->
  select (fun r => (pk r =? i) && q r) t =
    match t !! i with Some r => if q r then [r] else [] | None => [] end.
Proof.
  intros Hk. unfold select.
  assert (filter (fun kv : Z * R => (pk kv.2 =? i) && q kv.2 = true) t =
    match t !! i with Some r => if q r then {[ i := r ]} else ∅ | None => ∅ end) as ->.
  { apply map_eq. intros j. apply option_eq. intros r.
    rewrite map_lookup_filter_Some. cbn. rewrite andb_true_iff, Z.eqb_eq.
    destruct (t !! i) as [x|] eqn:Ei; [destruct (q x) eqn:Eq|].
    - rewrite lookup_singleton_Some. split.
      + intros (Hj & Hid & Hq). rewrite (Hk _ _ Hj) in Hid. subst j. split; congruence.
      + intros [<- <-]. rewrite (Hk _ _ Ei). done.
    - rewrite lookup_empty. split; [|done]. intros (Hj & Hid & Hq).
      rewrite (Hk _ _ Hj) in Hid. subst j. congruence.
    - rewrite lookup_empty. split; [|done]. intros (Hj & Hid & Hq).
      rewrite (Hk _ _ Hj) in Hid. subst. naive_solver. }
  unfold rows. destruct (t !! i) as [x|]; [destruct (q x)|];
    by rewrite ?map_to_list_singleton, ?map_to_list_empty.
Qed.

Lemma keyed_update pk f pred t :
  keyed pk t -> (forall r, pk (f r) = pk r) ->
  keyed pk ((fun r => if pred r then f r else r) <$> t).
Proof.
  intros Hk Hf i r. rewrite lookup_fmap, fmap_Some. intros (x & Hx & ->).
  destruct (pred x); rewrite ?Hf; eauto.
Qed.
Lemma rows_pk pk t : keyed pk t -> pk <$> rows t = (map_to_list t).*1.
Proof.
  intros Hk. unfold rows. rewrite <- list_fmap_compose.
  apply list_fmap_ext. intros n [i r] Hl. cbn. apply Hk.
  apply elem_of_map_to_list, list_elem_of_lookup. eauto.
Qed.

Lemma keyed_filter pk pred t :
  keyed pk t -> keyed pk (filter (fun kv => pred kv.2 = true) t).
Proof. intros Hk i r [Hl _]%map_lookup_filter_Some. eauto. Qed.

Lemma select_NoDup_pk pk pred t : keyed pk t -> NoDup (pk <$> select pred t).
Proof.
  intros Hk. unfold select. rewrite rows_pk by by apply keyed_filter.
  apply NoDup_fst_map_to_list.
Qed.

Lemma select_NoDup pk pred t : keyed pk t -> NoDup (select pred t).
Proof. intros Hk. eapply NoDup_fmap_1, select_NoDup_pk, Hk. Qed.
End table_lemmas.

Lemma order_limit_NoDup {A} key n (l : list A) : NoDup l -> NoDup (order_limit key n l).
Proof.
  intros Hn. rewrite <- (order_by_perm key l) in Hn.
  unfold order_limit. rewrite <- (take_drop (Z.to_nat n) (order_by key l)) in Hn.
  by apply list.NoDup_app in Hn as [Hn _].
Qed.

Lemma order_limit_full {A} key n (l : list A) y :
  0 <= n -> y ∈ l -> y ∉ order_limit key n l ->
  Z.of_nat (length (order_limit key n l)) = n.
Proof.
  unfold order_limit. intros Hn Hy Hny. rewrite length_take.
  destruct (decide (length (order_by key l) <= Z.to_nat n)%nat); [|lia].
  rewrite take_ge in Hny by done. by rewrite elem_of_order_by in Hny.
Qed.

Lemma order_limit_sorted {A} key n (l : list A) :
  StronglySorted (key_le key) (order_limit key n l).
Proof.
  unfold order_limit. pose proof (order_by_sorted key l) as H.
  rewrite <- (take_drop (Z.to_nat n) (order_by key l)) in H.
  by apply StronglySorted_app_1_l in H.
Qed.

(** Reading back rows that are valid. *)
Lemma mapM_ok {A} (f : A -> res A) l :
  (forall x, x ∈ l -> f x = Ok x) -> mapM f l = Ok l.
Proof.
  induction l as [|x l IH]; intros H; [done|]. cbn.
  rewrite H by set_solver. cbn. rewrite IH by set_solver. done.
Qed.

Section update_lemmas.
Context {R : Type} (ck : R -> bool).
Implicit Types (t : gmap Z R) (pred : R -> bool).

Lemma sql_update_ok pred f t l t' :
  sql_update ck pred f t = Ok (l, t') ->
  l = f <$> select pred t /\ t' = (fun r => if pred r then f r else r) <$> t /\
  forall r, r ∈ l -> ck r = true.
Proof.
  unfold sql_update. destruct (forallb _ _) eqn:E; [|done]. intros [= <- <-].
  split; [done|]. split; [done|]. intros r Hr.
  rewrite forallb_forall in E. apply E. by apply list_elem_of_In.
Qed.

Lemma sql_update_total pred f t :
  (forall r i, t !! i = Some r -> pred r = true -> ck (f r) = true) ->
  sql_update ck pred f t =
    Ok (f <$> select pred t, (fun r => if pred r then f r else r) <$> t).
Proof.
  intros H. unfold sql_update.
  assert (forallb ck (f <$> select pred t) = true) as ->; [|done].
  apply forallb_forall. intros r Hr. apply list_elem_of_In in Hr.
  apply list_elem_of_fmap in Hr as (x & -> & Hx).
  apply elem_of_select in Hx as [[i Hi] Hp]. eauto.
Qed.

(** An [UPDATE] that names the primary key touches at most that row. *)
Lemma sql_update_by_id pk i q f t :
  keyed pk t ->
  sql_update ck (fun r => (pk r =? i) && q r) f t =
    match t !! i with
    | Some r =>
        if q r then if ck (f r) then Ok ([f r], <[i := f r]> t) else raise CheckViolation
        else Ok ([], t)
    | None => Ok ([], t)
    end.
Proof.
  intros Hk. unfold sql_update. rewrite (select_by_id _ _ _ _ Hk).
  assert (Hm : forall (b : bool),
    (forall r, t !! i = Some r -> q r = b) ->
    (fun r => if (pk r =? i) && q r then f r else r) <$> t =
    match t !! i with Some r => if b then <[i := f r]> t else t | None => t end).
  { intros b Hb. apply map_eq. intros j. rewrite lookup_fmap.
    destruct (decide (i = j)) as [<-|Hne].
    - destruct (t !! i) as [r|] eqn:Ei; cbn; [|by rewrite Ei].
      rewrite (Hk _ _ Ei), Z.eqb_refl, (Hb _ eq_refl). cbn.
      destruct b; by rewrite ?lookup_insert_eq, ?Ei.
    - assert ((fun r => if (pk r =? i) && q r then f r else r) <$> t !! j = t !! j) as ->.
      { destruct (t !! j) as [r|] eqn:Ej; cbn; [|done].
        rewrite (Hk _ _ Ej). by rewrite (proj2 (Z.eqb_neq j i)) by lia. }
      destruct (t !! i); [destruct b|]; by rewrite ?lookup_insert_ne. }
  destruct (t !! i) as [r|] eqn:Ei.
  - rewrite (Hm (q r)) by naive_solver. destruct (q r); cbn; [|done].
    by destruct (ck (f r)).
  - rewrite (Hm true) by done. done.
Qed.

Lemma update_one_ok pk i cond f t b t' :
  update_one ck pk i cond f t = Ok (b, t') ->
  exists l, sql_update ck (fun r => (pk r =? i) && cond r) f t = Ok (l, t').
Proof. unfold update_one. intros Hu. ok_inv. simplify_eq. eauto. Qed.

Lemma update_one_inv pk i cond f t b t' :
  keyed pk t -> update_one ck pk i cond f t = Ok (b, t') ->
  (b = true /\ exists r, t !! i = Some r /\ cond r = true /\ ck (f r) = true /\
     t' = <[i := f r]> t) \/ (b = false /\ t' = t).
Proof.
  intros Hk. unfold update_one. rewrite (sql_update_by_id _ _ _ _ _ Hk).
  destruct (t !! i) as [r|]; [|intros [= <- <-]; by right].
  destruct (cond r) eqn:Ec; [|intros [= <- <-]; by right].
  destruct (ck (f r)) eqn:Ek; cbn; [|discriminate].
  intros [= <- <-]. left. split; [reflexivity|]. exists r.
  split; [reflexivity|]. split; [exact Ec|]. split; [exact Ek|reflexivity].
Qed.

Lemma update_one_spec pk i cond f t :
  keyed pk t ->
  (forall r, t !! i = Some r -> cond r = true -> ck (f r) = true) ->
  update_one ck pk i cond f t = updated_one i cond f t.
Proof.
  intros Hk Hck. unfold update_one, updated_one.
  rewrite (sql_update_by_id _ _ _ _ _ Hk).
  destruct (t !! i) as [r|] eqn:E; [|done]. destruct (cond r) eqn:Ec; [|done].
  by rewrite Hck.
Qed.

Lemma update_one_inert pk i cond f t :
  keyed pk t -> (forall r, t !! i = Some r -> cond r = false) ->
  update_one ck pk i cond f t = Ok (false, t).
Proof.
  intros Hk Hc. unfold update_one. rewrite (sql_update_by_id _ _ _ _ _ Hk).
  destruct (t !! i) as [r|] eqn:E; [|done]. by rewrite Hc.
Qed.
End update_lemmas.

Lemma one_or_none_some {A} (l : list A) a : one_or_none l = Ok (Some a) -> l = [a].
Proof. destruct l as [|x [|y l]]; cbn; naive_solver. Qed.

(** A claim: the rows [FOR UPDATE SKIP LOCKED] picked are updated by identifier. *)
Section claims.
Context {R : Type} (pk : R -> Z) (key : R -> list Z).
Implicit Types (t : gmap Z R) (pred : R -> bool).

(** [SELECT pk FROM t WHERE pred ORDER BY key LIMIT n FOR UPDATE SKIP LOCKED] *)
Definition pick (locked : gset Z) (pred : R -> bool) (n : Z) (t : gmap Z R) : list R :=
  order_limit key n (select (fun r => pred r && bool_decide (pk r ∉ locked)) t).

Lemma elem_of_pick locked pred n t r :
  r ∈ pick locked pred n t ->
  (exists i, t !! i = Some r) /\ pred r = true /\ pk r ∉ locked.
Proof.
  unfold pick. intros Hr%elem_of_order_limit. apply elem_of_select in Hr as [? Hp].
  rewrite andb_true_iff, bool_decide_eq_true in Hp. naive_solver.
Qed.

Lemma pick_id_inv locked pred n t i r :
  keyed pk t -> t !! i = Some r ->
  pk r ∈ pk <$> pick locked pred n t -> r ∈ pick locked pred n t.
Proof.
  intros Hk Hl Hi. apply list_elem_of_fmap in Hi as (x & Hx & Hin).
  pose proof Hin as ([j Hj] & _)%elem_of_pick.
  rewrite (Hk _ _ Hl), (Hk _ _ Hj) in Hx. naive_solver.
Qed.

Lemma pick_id_iff locked pred n t i r :
  keyed pk t -> t !! i = Some r ->
  bool_decide (pk r ∈ pk <$> pick locked pred n t) = true <->
  r ∈ pick locked pred n t.
Proof.
  intros Hk Hl. rewrite bool_decide_eq_true. split; [by eapply pick_id_inv|].
  intros Hin. apply list_elem_of_fmap. eauto.
Qed.

Lemma pick_NoDup locked pred n t : keyed pk t -> NoDup (pick locked pred n t).
Proof. intros. by eapply order_limit_NoDup, select_NoDup. Qed.

(** The rows with a picked identifier are the picked rows. *)
Lemma select_picked locked pred n t :
  keyed pk t ->
  select (fun r => bool_decide (pk r ∈ pk <$> pick locked pred n t)) t
    ≡ₚ pick locked pred n t.
Proof.
  intros Hk. apply NoDup_Permutation; [by eapply select_NoDup|by apply pick_NoDup|].
  intros r. rewrite elem_of_select. split.
  - intros [[i Hl] Hp]. by eapply pick_id_iff.
  - intros Hin. pose proof Hin as ([i Hl] & _)%elem_of_pick.
    split; [by exists i|]. by eapply pick_id_iff.
Qed.

Lemma pick_length locked pred n t :
  0 <= n -> Z.of_nat (length (pick locked pred n t)) <= n.
Proof. apply order_limit_length. Qed.

(** A row that qualifies is left out only when the limit is reached and the
    picked rows come first. *)
Lemma pick_left_out locked pred n t (i : Z) (r : R) :
  0 <= n -> t !! i = Some r -> pred r = true -> pk r ∉ locked ->
  r ∉ pick locked pred n t ->
  Z.of_nat (length (pick locked pred n t)) = n /\
  forall x, x ∈ pick locked pred n t -> key_le key x r.
Proof.
  intros Hn Hl Hp Hlk Hnl.
  assert (Hin : r ∈ select (fun r => pred r && bool_decide (pk r ∉ locked)) t).
  { rewrite elem_of_select. split; [by exists i|]. by rewrite Hp, bool_decide_true. }
  split; [by eapply order_limit_full|]. intros x Hx. by eapply order_limit_first.
Qed.

(** The table after the update. *)
Definition set_picked (f : R -> R) (l : list R) (t : gmap Z R) : gmap Z R :=
  (fun r => if bool_decide (pk r ∈ pk <$> l) then f r else r) <$> t.

Lemma lookup_set_picked f l t i :
  set_picked f l t !! i =
    (fun r => if bool_decide (pk r ∈ pk <$> l) then f r else r) <$> t !! i.
Proof. apply lookup_fmap. Qed.

Lemma update_picked (ck : R -> bool) f locked pred n t :
  keyed pk t ->
  (forall r i, t !! i = Some r -> pred r = true -> ck (f r) = true) ->
  exists l,
    sql_update ck (fun r => bool_decide (pk r ∈ pk <$> pick locked pred n t)) f t =
      Ok (l, set_picked f (pick locked pred n t) t) /\
    l ≡ₚ f <$> pick locked pred n t.
Proof.
  intros Hk Hck. rewrite sql_update_total.
  - eexists. split; [done|]. apply fmap_Permutation, (select_picked _ _ _ _ Hk).
  - intros r i Hl Hp. eapply pick_id_iff in Hp as (_ & Hp & _)%elem_of_pick; eauto.
Qed.
End claims.
