(* ===== verification/Registration.v ===== *)
(** * Registration operations: the durable state machine

    [application/ports/dto/registration.py] (the DTO and its validator),
    [infrastructure/database/models/registration_operations.py] (the CHECK
    constraints), [registration_operation_repository.py] (the statements that
    create, claim, complete, retry, block and redrive an operation) and
    [application/registration/results.py].

    The table is a map from primary keys; a row is the DTO record, which has the
    ORM's columns.  [now ()] of the transaction, which [onupdate] writes into
    [updated_at], is the argument [db_now]. *)

From S2P Require Import Prelude Exceptions Domain Sql.

(** ** The DTO *)

Inductive RegistrationStatus : Set :=
| REG_PENDING | REG_CLAIMED | REG_COMPLETED | REG_BLOCKED.

Inductive RegistrationOutcome : Set := OUT_COMPLETED | OUT_PENDING.

#[global] Instance RegistrationStatus_eq_dec : EqDecision RegistrationStatus.
Proof. solve_decision. Defined.
#[global] Instance RegistrationOutcome_eq_dec : EqDecision RegistrationOutcome.
Proof. solve_decision. Defined.

Record RegistrationOperation := {
  ro_id : uuid;
  ro_user_id : uuid;
  ro_email : string;
  ro_password_hash : option string;
  ro_key_hash : bytes;
  ro_status : RegistrationStatus;
  ro_attempts : Z;
  ro_available_at : datetime;
  ro_claim_token : option uuid;
  ro_claim_expires_at : option datetime;
  ro_last_error_class : option string;
  ro_terminal_at : option datetime;
  ro_redrive_count : Z;
  ro_created_at : datetime;
  ro_updated_at : option datetime
}.

#[global] Instance RegistrationOperation_eq_dec : EqDecision RegistrationOperation.
Proof. solve_decision. Defined.

Record RegistrationResult := {
  rr_operation_id : uuid;
  rr_user_id : uuid;
  rr_outcome : RegistrationOutcome;
  rr_retry_after_seconds : option Z
}.

#[global] Instance RegistrationResult_eq_dec : EqDecision RegistrationResult.
Proof. solve_decision. Defined.

Abbreviation reg_table := (gmap Z RegistrationOperation).

Definition has_status (op : RegistrationOperation) (s : RegistrationStatus) : bool :=
  bool_decide (ro_status op = s).

Definition naive (o : option datetime) : bool :=
  match o with Some d => negb (is_aware d) | None => false end.

Definition ro_timestamps (op : RegistrationOperation) : list (option datetime) :=
  [Some (ro_available_at op); ro_claim_expires_at op; ro_terminal_at op;
   Some (ro_created_at op); ro_updated_at op].

(** [RegistrationOperation.validate_lifecycle] *)
Definition ro_validate_lifecycle (op : RegistrationOperation) : res unit :=
  raise_if (existsb naive (ro_timestamps op)) EValidationError;;
  let has_token := is_some (ro_claim_token op) in
  let has_expiration := is_some (ro_claim_expires_at op) in
  raise_if (xorb has_token has_expiration) EValidationError;;
  (if has_status op REG_CLAIMED
   then raise_if (negb has_token || is_some (ro_terminal_at op)) EValidationError
   else raise_if has_token EValidationError);;
  (if has_status op REG_COMPLETED || has_status op REG_BLOCKED
   then raise_if (is_none (ro_terminal_at op)) EValidationError
   else raise_if (is_some (ro_terminal_at op)) EValidationError);;
  (if has_status op REG_COMPLETED
   then raise_if (is_some (ro_password_hash op)) EValidationError
   else raise_if (is_none (ro_password_hash op)) EValidationError).

(** Field constraints, then the validator. *)
Definition RegistrationOperation_validate `{EmailSyntax}
    (op : RegistrationOperation) : res RegistrationOperation :=
  email ← NormalizedEmail_new (ro_email op);
  raise_unless (Nat.eqb (length (ro_key_hash op)) 32) EValidationError;;
  raise_unless (0 <=? ro_attempts op) EValidationError;;
  raise_unless (0 <=? ro_redrive_count op) EValidationError;;
  ro_validate_lifecycle op;;
  mret {| ro_id := ro_id op; ro_user_id := ro_user_id op; ro_email := email;
          ro_password_hash := ro_password_hash op; ro_key_hash := ro_key_hash op;
          ro_status := ro_status op; ro_attempts := ro_attempts op;
          ro_available_at := ro_available_at op;
          ro_claim_token := ro_claim_token op;
          ro_claim_expires_at := ro_claim_expires_at op;
          ro_last_error_class := ro_last_error_class op;
          ro_terminal_at := ro_terminal_at op;
          ro_redrive_count := ro_redrive_count op;
          ro_created_at := ro_created_at op; ro_updated_at := ro_updated_at op |}.

(** ** The CHECK constraints of the table *)

Definition ck_registration_lifecycle (op : RegistrationOperation) : bool :=
  (has_status op REG_PENDING && is_some (ro_password_hash op)
   && is_none (ro_claim_token op) && is_none (ro_claim_expires_at op)
   && is_none (ro_terminal_at op))
  || (has_status op REG_CLAIMED && is_some (ro_password_hash op)
      && is_some (ro_claim_token op) && is_some (ro_claim_expires_at op)
      && is_none (ro_terminal_at op))
  || (has_status op REG_COMPLETED && is_none (ro_password_hash op)
      && is_none (ro_claim_token op) && is_none (ro_claim_expires_at op)
      && is_some (ro_terminal_at op))
  || (has_status op REG_BLOCKED && is_some (ro_password_hash op)
      && is_none (ro_claim_token op) && is_none (ro_claim_expires_at op)
      && is_some (ro_terminal_at op)).

Definition ck_registration (op : RegistrationOperation) : bool :=
  Nat.eqb (length (ro_key_hash op)) 32
  && (0 <=? ro_attempts op) && (0 <=? ro_redrive_count op)
  && ck_registration_lifecycle op.

(** ** The repository *)

(** [SQLAlchemyAsyncRepository._to_domain] *)
Definition stored_state {A} (r : res A) : res A :=
  match r with
  | Ok a => Ok a
  | Err e =>
      if isinstance e InvalidDomainStateError || isinstance e EValidationError
      then raise StoredStateError else Err e
  end.

Definition ro_to_domain `{EmailSyntax} (row : RegistrationOperation) :
    res RegistrationOperation := stored_state (RegistrationOperation_validate row).

(** The unique constraints: primary key, user, e-mail and idempotency key. *)
Definition ro_conflict (a b : RegistrationOperation) : bool :=
  (ro_id a =? ro_id b) || (ro_user_id a =? ro_user_id b)
  || bool_decide (ro_email a = ro_email b)
  || bool_decide (ro_key_hash a = ro_key_hash b).

(** [INSERT ... ON CONFLICT DO NOTHING RETURNING] *)
Definition try_create `{EmailSyntax} (operation : RegistrationOperation)
    (t : reg_table) : res (option RegistrationOperation * reg_table) :=
  raise_unless (ck_registration operation) CheckViolation;;
  if existsb (ro_conflict operation) (rows t) then mret (None, t)
  else op ← ro_to_domain operation;
       mret (Some op, <[ro_id operation := operation]> t).

Definition get_by_key_hash `{EmailSyntax} (key_hash : bytes) (t : reg_table) :
    res (option RegistrationOperation) :=
  match select (fun r => bool_decide (ro_key_hash r = key_hash)) t with
  | [] => mret None
  | row :: _ => op ← ro_to_domain row; mret (Some op)
  end.

Definition get_by_email `{EmailSyntax} (email : string) (t : reg_table) :
    res (option RegistrationOperation) :=
  match select (fun r => bool_decide (ro_email r = email)) t with
  | [] => mret None
  | row :: _ => op ← ro_to_domain row; mret (Some op)
  end.

(** A comparison with a NULL column is not true. *)
Definition after (column : option datetime) (now : datetime) : bool :=
  match column with Some d => dt_ltb now d | None => false end.
Definition not_after (column : option datetime) (now : datetime) : bool :=
  match column with Some d => dt_leb d now | None => false end.

Definition eligible (claimed_at : datetime) (r : RegistrationOperation) : bool :=
  (has_status r REG_PENDING && dt_leb (ro_available_at r) claimed_at)
  || (has_status r REG_CLAIMED && not_after (ro_claim_expires_at r) claimed_at).

Definition validate_claim_window (claimed_at claim_expires_at : datetime) : res unit :=
  raise_if (dt_leb claim_expires_at claimed_at) EValueError.

(** The SET clause of the two claim statements. *)
Definition set_claim (db_now : datetime) (owner_token : uuid)
    (claim_expires_at : datetime) (r : RegistrationOperation) : RegistrationOperation :=
  {| ro_id := ro_id r; ro_user_id := ro_user_id r; ro_email := ro_email r;
     ro_password_hash := ro_password_hash r; ro_key_hash := ro_key_hash r;
     ro_status := REG_CLAIMED; ro_attempts := ro_attempts r;
     ro_available_at := ro_available_at r; ro_claim_token := Some owner_token;
     ro_claim_expires_at := Some claim_expires_at;
     ro_last_error_class := ro_last_error_class r; ro_terminal_at := None;
     ro_redrive_count := ro_redrive_count r; ro_created_at := ro_created_at r;
     ro_updated_at := Some db_now |}.

(** [_claim] with the predicate of [claim_by_key_hash]. *)
Definition claim_by_key_hash `{EmailSyntax} (db_now : datetime) (key_hash : bytes)
    (owner_token : uuid) (claimed_at claim_expires_at : datetime) (t : reg_table) :
    res (option RegistrationOperation * reg_table) :=
  validate_claim_window claimed_at claim_expires_at;;
  '(updated, t') ← sql_update ck_registration
    (fun r => bool_decide (ro_key_hash r = key_hash) && eligible claimed_at r)
    (set_claim db_now owner_token claim_expires_at) t;
  row ← one_or_none updated;
  match row with
  | None => mret (None, t')
  | Some r => op ← ro_to_domain r; mret (Some op, t')
  end.

(** [ORDER BY available_at, created_at, id] *)
Definition claim_order (r : RegistrationOperation) : list Z :=
  [dt_us (ro_available_at r); dt_us (ro_created_at r); ro_id r].

(** The rows [FOR UPDATE SKIP LOCKED] selects: [locked] are the rows other
    transactions hold. *)
Definition claimable (locked : gset Z) (claimed_at : datetime) (limit : Z)
    (t : reg_table) : list RegistrationOperation :=
  pick ro_id claim_order locked (eligible claimed_at) limit t.

Definition claim_batch `{EmailSyntax} (db_now : datetime) (locked : gset Z)
    (owner_token : uuid) (claimed_at claim_expires_at : datetime) (limit : Z)
    (t : reg_table) : res (list RegistrationOperation * reg_table) :=
  raise_if (limit <=? 0) EValueError;;
  validate_claim_window claimed_at claim_expires_at;;
  let ids := ro_id <$> claimable locked claimed_at limit t in
  '(updated, t') ← sql_update ck_registration
    (fun r => bool_decide (ro_id r ∈ ids))
    (set_claim db_now owner_token claim_expires_at) t;
  ops ← mapM ro_to_domain (order_by claim_order updated);
  mret (ops, t').

(** The WHERE clause shared by [complete], [schedule_retry] and [block]. *)
Definition owns (owner_token : uuid) (at_ : datetime) (r : RegistrationOperation) : bool :=
  has_status r REG_CLAIMED && bool_decide (ro_claim_token r = Some owner_token)
  && after (ro_claim_expires_at r) at_.

(** The SET clauses. *)
Definition set_completed (db_now completed_at : datetime) (r : RegistrationOperation) :
    RegistrationOperation :=
  {| ro_id := ro_id r; ro_user_id := ro_user_id r; ro_email := ro_email r;
     ro_password_hash := None; ro_key_hash := ro_key_hash r;
     ro_status := REG_COMPLETED; ro_attempts := ro_attempts r + 1;
     ro_available_at := ro_available_at r; ro_claim_token := None;
     ro_claim_expires_at := None; ro_last_error_class := None;
     ro_terminal_at := Some completed_at; ro_redrive_count := ro_redrive_count r;
     ro_created_at := ro_created_at r; ro_updated_at := Some db_now |}.

Definition set_retry (db_now available_at : datetime) (error_class : string)
    (r : RegistrationOperation) : RegistrationOperation :=
  {| ro_id := ro_id r; ro_user_id := ro_user_id r; ro_email := ro_email r;
     ro_password_hash := ro_password_hash r; ro_key_hash := ro_key_hash r;
     ro_status := REG_PENDING; ro_attempts := ro_attempts r + 1;
     ro_available_at := available_at; ro_claim_token := None;
     ro_claim_expires_at := None; ro_last_error_class := Some error_class;
     ro_terminal_at := None; ro_redrive_count := ro_redrive_count r;
     ro_created_at := ro_created_at r; ro_updated_at := Some db_now |}.

Definition set_blocked (db_now blocked_at : datetime) (error_class : string)
    (r : RegistrationOperation) : RegistrationOperation :=
  {| ro_id := ro_id r; ro_user_id := ro_user_id r; ro_email := ro_email r;
     ro_password_hash := ro_password_hash r; ro_key_hash := ro_key_hash r;
     ro_status := REG_BLOCKED; ro_attempts := ro_attempts r + 1;
     ro_available_at := ro_available_at r; ro_claim_token := None;
     ro_claim_expires_at := None; ro_last_error_class := Some error_class;
     ro_terminal_at := Some blocked_at; ro_redrive_count := ro_redrive_count r;
     ro_created_at := ro_created_at r; ro_updated_at := Some db_now |}.

Definition set_redriven (db_now available_at : datetime) (r : RegistrationOperation) :
    RegistrationOperation :=
  {| ro_id := ro_id r; ro_user_id := ro_user_id r; ro_email := ro_email r;
     ro_password_hash := ro_password_hash r; ro_key_hash := ro_key_hash r;
     ro_status := REG_PENDING; ro_attempts := 0;
     ro_available_at := available_at; ro_claim_token := None;
     ro_claim_expires_at := None; ro_last_error_class := None;
     ro_terminal_at := None; ro_redrive_count := ro_redrive_count r + 1;
     ro_created_at := ro_created_at r; ro_updated_at := Some db_now |}.

Definition complete (db_now : datetime) (operation_id owner_token : uuid)
    (completed_at : datetime) : reg_table -> res (bool * reg_table) :=
  update_one ck_registration ro_id operation_id (owns owner_token completed_at)
    (set_completed db_now completed_at).

Definition schedule_retry (db_now : datetime) (operation_id owner_token : uuid)
    (failed_at available_at : datetime) (error_class : string) :
    reg_table -> res (bool * reg_table) :=
  update_one ck_registration ro_id operation_id (owns owner_token failed_at)
    (set_retry db_now available_at error_class).

Definition block (db_now : datetime) (operation_id owner_token : uuid)
    (blocked_at : datetime) (error_class : string) :
    reg_table -> res (bool * reg_table) :=
  update_one ck_registration ro_id operation_id (owns owner_token blocked_at)
    (set_blocked db_now blocked_at error_class).

Definition redrive_blocked (db_now : datetime) (operation_id : uuid)
    (available_at : datetime) : reg_table -> res (bool * reg_table) :=
  update_one ck_registration ro_id operation_id (fun r => has_status r REG_BLOCKED)
    (set_redriven db_now available_at).

(** ** application/registration/results.py *)

(** [math.ceil(delta.total_seconds())]: exact for deltas below 285 years, where
    the quotient by [10**6] is not rounded across an integer. *)
Definition ceil_seconds (delta : Z) : Z := - (- delta / 1000000).

Definition pending_result (operation : RegistrationOperation) (now : datetime)
    (retry_at : option datetime) : RegistrationResult :=
  let effective_retry_at :=
    match retry_at, ro_claim_expires_at operation with
    | None, Some e =>
        if has_status operation REG_CLAIMED then e else ro_available_at operation
    | _, _ => default (ro_available_at operation) retry_at
    end in
  {| rr_operation_id := ro_id operation; rr_user_id := ro_user_id operation;
     rr_outcome := OUT_PENDING;
     rr_retry_after_seconds :=
       Some (Z.max 1 (ceil_seconds (dt_us effective_retry_at - dt_us now))) |}.

(** ** Well-formed tables *)

Record reg_row_ok `{EmailSyntax} (r : RegistrationOperation) : Prop := {
  rok_check : ck_registration r = true;
  rok_aware : existsb naive (ro_timestamps r) = false;
  rok_email : NormalizedEmail_new (ro_email r) = Ok (ro_email r)
}.

Record reg_table_ok `{EmailSyntax} (t : reg_table) : Prop := {
  rto_keyed : keyed ro_id t;
  rto_rows : forall i r, t !! i = Some r -> reg_row_ok r;
  rto_unique : forall i j a b, t !! i = Some a -> t !! j = Some b ->
    ro_conflict a b = true -> i = j
}.

(** What no statement changes in a row. *)
Definition same_request (r r' : RegistrationOperation) : Prop :=
  ro_id r' = ro_id r /\ ro_user_id r' = ro_user_id r /\ ro_email r' = ro_email r /\
  ro_key_hash r' = ro_key_hash r /\ ro_created_at r' = ro_created_at r.

(** Rows are never deleted, keep their request, and a completed row is final. *)
Definition evolves (t t' : reg_table) : Prop :=
  forall i r, t !! i = Some r -> exists r', t' !! i = Some r' /\
    same_request r r' /\ (ro_status r = REG_COMPLETED -> r' = r).

(** One statement by any client, with any timezone-aware arguments. *)
Inductive reg_step `{EmailSyntax} (t : reg_table) : reg_table -> Prop :=
| rs_create c op o t' :
    RegistrationOperation_validate c = Ok op -> try_create op t = Ok (o, t') ->
    reg_step t t'
| rs_claim_key now k owner a e o t' :
    is_aware now = true -> is_aware e = true ->
    claim_by_key_hash now k owner a e t = Ok (o, t') -> reg_step t t'
| rs_claim_batch now lk owner a e n l t' :
    is_aware now = true -> is_aware e = true ->
    claim_batch now lk owner a e n t = Ok (l, t') -> reg_step t t'
| rs_complete now i owner a b t' :
    is_aware now = true -> is_aware a = true ->
    complete now i owner a t = Ok (b, t') -> reg_step t t'
| rs_retry now i owner a av err b t' :
    is_aware now = true -> is_aware av = true ->
    schedule_retry now i owner a av err t = Ok (b, t') -> reg_step t t'
| rs_block now i owner a err b t' :
    is_aware now = true -> is_aware a = true ->
    block now i owner a err t = Ok (b, t') -> reg_step t t'
| rs_redrive now i av b t' :
    is_aware now = true -> is_aware av = true ->
    redrive_blocked now i av t = Ok (b, t') -> reg_step t t'.

(** ** Validator and CHECK constraints agree *)

Lemma has_status_true op s : has_status op s = true <-> ro_status op = s.
Proof. apply bool_decide_eq_true. Qed.

Lemma has_status_false op s : has_status op s = false <-> ro_status op <> s.
Proof. apply bool_decide_eq_false. Qed.

Lemma if_ok {A} (b : bool) (m n : res A) a :
  (if b then m else n) = Ok a <-> (if b then m = Ok a else n = Ok a).
Proof. by destruct b. Qed.

Lemma ro_validate_lifecycle_iff op :
  ro_validate_lifecycle op = Ok tt <->
  existsb naive (ro_timestamps op) = false /\ ck_registration_lifecycle op = true.
Proof.
  unfold ro_validate_lifecycle, ck_registration_lifecycle, has_status.
  rewrite !bind_unit_ok, !if_ok, !raise_if_ok.
  destruct (existsb naive (ro_timestamps op)); [by split; intros []|].
  destruct (ro_status op), (ro_claim_token op), (ro_claim_expires_at op),
    (ro_terminal_at op), (ro_password_hash op); vm_compute; intuition congruence.
Qed.

Lemma ro_validate_iff `{EmailSyntax} op :
  NormalizedEmail_new (ro_email op) = Ok (ro_email op) ->
  RegistrationOperation_validate op = Ok op <->
  existsb naive (ro_timestamps op) = false /\ ck_registration op = true.
Proof.
  intros He. unfold RegistrationOperation_validate, ck_registration.
  rewrite He. cbn [mbind result_bind]. rewrite !bind_unit_ok, !raise_unless_ok.
  rewrite ro_validate_lifecycle_iff. rewrite !andb_true_iff.
  destruct op; cbn. unfold mret, result_ret. intuition.
Qed.

(** The DTO validator and the database agree: for an operation whose e-mail
    is already normalised, [RegistrationOperation] validates, to the same
    record, exactly when its timestamps are timezone-aware and the row satisfies
    the CHECK constraints of [registration_operations]; so the repository can
    read back every row the table accepts, and insert every valid operation. *)
Theorem registration_validator_is_check `{EmailSyntax} op :
  NormalizedEmail_new (ro_email op) = Ok (ro_email op) ->
  RegistrationOperation_validate op = Ok op <->
  existsb naive (ro_timestamps op) = false /\ ck_registration op = true.
Proof. apply ro_validate_iff. Qed.

Lemma ro_to_domain_ok `{EmailSyntax} r : reg_row_ok r -> ro_to_domain r = Ok r.
Proof.
  intros [Hc Ha He]. unfold ro_to_domain.
  by rewrite (proj2 (ro_validate_iff r He) (conj Ha Hc)).
Qed.

(** ** Preservation *)

Lemma existsb_false {A} (f : A -> bool) l :
  existsb f l = false <-> forall x, x ∈ l -> f x = false.
Proof.
  split.
  - intros H x Hx. destruct (f x) eqn:E; [|done].
    assert (existsb f l = true) by (apply existsb_exists; exists x;
      split; [by apply list_elem_of_In|done]). congruence.
  - intros H. destruct (existsb f l) eqn:E; [|done].
    apply existsb_exists in E as (x & Hx & Hf).
    apply list_elem_of_In, H in Hx. congruence.
Qed.

Lemma same_request_refl r : same_request r r.
Proof. done. Qed.

Lemma same_request_trans a b c :
  same_request a b -> same_request b c -> same_request a c.
Proof. unfold same_request. intuition congruence. Qed.

#[export] Hint Resolve same_request_refl same_request_trans : identity.

Lemma same_request_conflict a a' b b' :
  same_request a a' -> same_request b b' -> ro_conflict a' b' = ro_conflict a b.
Proof.
  unfold same_request, ro_conflict.
  by intros (-> & -> & -> & -> & _) (-> & -> & -> & -> & _).
Qed.

Lemma evolves_refl t : evolves t t.
Proof. intros i r H. exists r. auto with identity. Qed.

Lemma evolves_trans t1 t2 t3 : evolves t1 t2 -> evolves t2 t3 -> evolves t1 t3.
Proof.
  intros H12 H23 i r H. destruct (H12 i r H) as (r2 & H2 & Hs & Hc).
  destruct (H23 i r2 H2) as (r3 & H3 & Hs' & Hc'). exists r3.
  split; [done|]. split; [eauto with identity|].
  intros E. specialize (Hc E) as ->. auto.
Qed.

#[export] Hint Resolve evolves_refl evolves_trans : identity.

Section preservation.
Context `{EmailSyntax}.

Lemma reg_update_preserves t pred f l t' :
  reg_table_ok t ->
  sql_update ck_registration pred f t = Ok (l, t') ->
  (forall r, same_request r (f r)) ->
  (forall r, reg_row_ok r -> pred r = true ->
     existsb naive (ro_timestamps (f r)) = false) ->
  (forall i r, t !! i = Some r -> pred r = true -> ro_status r <> REG_COMPLETED) ->
  reg_table_ok t' /\ evolves t t'.
Proof.
  intros [Hk Hr Hu] Hup Hsame Hnaive Hfinal.
  apply sql_update_ok in Hup as (-> & -> & Hck).
  assert (Hs : forall r, same_request r (if pred r then f r else r)).
  { intros r. destruct (pred r); auto with identity. }
  split; [constructor|].
  - apply keyed_update; [done|]. intros r. apply Hsame.
  - intros i r'. rewrite lookup_fmap, fmap_Some. intros (r & Hl & ->).
    destruct (pred r) eqn:Ep; [|by eapply Hr]. constructor.
    + apply Hck, list_elem_of_fmap. exists r. split; [done|].
      rewrite elem_of_select. split; [by exists i|done].
    + apply Hnaive; eauto.
    + destruct (Hsame r) as (_ & _ & -> & _). by eapply rok_email, Hr.
  - intros i j a b. rewrite !lookup_fmap, !fmap_Some.
    intros (a0 & Ha & ->) (b0 & Hb & ->).
    rewrite (same_request_conflict a0 _ b0 _) by auto. by apply Hu.
  - intros i r Hl. exists (if pred r then f r else r). split; [by rewrite lookup_fmap, Hl|].
    split; [done|]. intros E. destruct (pred r) eqn:Ep; [|done].
    by destruct (Hfinal _ _ Hl Ep).
Qed.

Lemma row_timestamps r d :
  reg_row_ok r -> Some d ∈ ro_timestamps r -> is_aware d = true.
Proof.
  intros [_ Ha _] Hd. rewrite existsb_false in Ha. apply Ha in Hd.
  cbn in Hd. by apply negb_false_iff in Hd.
Qed.

Lemma row_created_aware r :
  reg_row_ok r ->
  is_aware (ro_created_at r) = true /\ is_aware (ro_available_at r) = true.
Proof. intros Hr. split; apply (row_timestamps r); try done; set_solver. Qed.

End preservation.

Ltac solve_naive :=
  intros r Hr _; destruct (row_created_aware r Hr); cbn;
  repeat match goal with H : is_aware _ = true |- _ => rewrite H; clear H end;
  reflexivity.

Section steps.
Context `{EmailSyntax}.

Lemma eligible_not_completed a r : eligible a r = true -> ro_status r <> REG_COMPLETED.
Proof.
  unfold eligible. rewrite orb_true_iff, !andb_true_iff, !has_status_true.
  intros [[-> _]|[-> _]]; done.
Qed.

Lemma owns_claimed o a r : owns o a r = true -> ro_status r = REG_CLAIMED.
Proof. unfold owns. rewrite !andb_true_iff, has_status_true. naive_solver. Qed.

Lemma try_create_ok op o t t' :
  try_create op t = Ok (o, t') ->
  ck_registration op = true /\
  ((o = None /\ t' = t /\ existsb (ro_conflict op) (rows t) = true) \/
   (existsb (ro_conflict op) (rows t) = false /\
    exists op', o = Some op' /\ ro_to_domain op = Ok op' /\
      t' = <[ro_id op := op]> t)).
Proof.
  unfold try_create. intros Hc. ok_inv. split; [done|].
  destruct (existsb _ _); ok_inv; simplify_eq; [by left|]. right. eauto.
Qed.
End steps.

Lemma ro_conflict_sym a b : ro_conflict a b = ro_conflict b a.
Proof.
  unfold ro_conflict. rewrite (Z.eqb_sym (ro_id a)), (Z.eqb_sym (ro_user_id a)).
  f_equal; [f_equal|]; by apply bool_decide_ext.
Qed.

Section reachable.
Context `{EmailLaws}.

Lemma validated_row_ok c op :
  RegistrationOperation_validate c = Ok op ->
  ck_registration op = true -> reg_row_ok op.
Proof.
  intros Hv Hck. unfold RegistrationOperation_validate in Hv. ok_inv. subst op.
  constructor; cbn; [done| |by eapply normalized_stable].
  by apply ro_validate_lifecycle_iff in Hok3 as [Ha _].
Qed.

Lemma insert_preserves t op :
  reg_table_ok t -> reg_row_ok op -> existsb (ro_conflict op) (rows t) = false ->
  reg_table_ok (<[ro_id op := op]> t) /\ evolves t (<[ro_id op := op]> t).
Proof.
  intros [Hk Hr Hu] Hop Hc. rewrite existsb_false in Hc.
  assert (Hfree : forall i r, t !! i = Some r -> ro_conflict op r = false).
  { intros i r Hl. apply Hc, elem_of_rows. eauto. }
  assert (Hnone : t !! ro_id op = None).
  { destruct (t !! ro_id op) as [r|] eqn:E; [|done].
    apply Hfree in E as Hf. unfold ro_conflict in Hf.
    rewrite (Hk _ _ E), Z.eqb_refl in Hf. done. }
  split; [constructor|].
  - intros i r [[<- <-]|[_ Hl]]%lookup_insert_Some; [done|by apply Hk].
  - intros i r [[<- <-]|[_ Hl]]%lookup_insert_Some; [done|by eapply Hr].
  - intros i j a b [[<- <-]|[Hi Ha]]%lookup_insert_Some
      [[<- <-]|[Hj Hb]]%lookup_insert_Some; try done.
    + rewrite (Hfree _ _ Hb). done.
    + rewrite ro_conflict_sym, (Hfree _ _ Ha). done.
    + by apply Hu.
  - intros i r Hl. exists r. rewrite lookup_insert_ne by naive_solver.
    auto with identity.
Qed.

Ltac by_update :=
  match goal with
  | Hu : sql_update _ _ _ _ = Ok _ |- _ =>
      eapply reg_update_preserves; [done|exact Hu|done|solve_naive|]
  end.

Lemma reg_step_ok t t' :
  reg_table_ok t -> reg_step t t' ->
  reg_table_ok t' /\ evolves t t'.
Proof.
  intros Ht Hs. pose proof Ht as [Hk _ _].
  destruct Hs as [c op o t' Hv Hc|now k owner a e o t' Hn He Hc
    |now lk owner a e n l t' Hn He Hc|now i owner a b t' Hn Ha Hc
    |now i owner a av err b t' Hn Ha Hc|now i owner a err b t' Hn Ha Hc
    |now i av b t' Hn Ha Hc].
  - apply try_create_ok in Hc as [Hck [(_ & -> & _)|(Hno & op' & _ & _ & ->)]].
    + auto with identity.
    + by apply insert_preserves; [|eapply validated_row_ok|].
  - unfold claim_by_key_hash in Hc. ok_inv.
    assert (y = t') as <- by (destruct a1; ok_inv; by simplify_eq). by_update.
    intros i r _ [_ Hel]%andb_true_iff. by eapply eligible_not_completed.
  - unfold claim_batch in Hc. ok_inv. simplify_eq. by_update.
    intros i r Hl Hin%bool_decide_eq_true.
    unfold claimable in Hin. eapply pick_id_inv in Hin; [|exact Hk|exact Hl].
    apply elem_of_pick in Hin as (_ & Hel & _). by eapply eligible_not_completed.
  - apply update_one_ok in Hc as [l Hc]. by_update.
    intros j r _ [_ ->%owns_claimed]%andb_true_iff. done.
  - apply update_one_ok in Hc as [l Hc]. by_update.
    intros j r _ [_ ->%owns_claimed]%andb_true_iff. done.
  - apply update_one_ok in Hc as [l Hc]. by_update.
    intros j r _ [_ ->%owns_claimed]%andb_true_iff. done.
  - apply update_one_ok in Hc as [l Hc]. by_update.
    intros j r _ [_ ->%has_status_true]%andb_true_iff. done.
Qed.

(** Registration state machine: from a well-formed table, whatever
    statements the repository's clients run in whatever order, the table stays
    well-formed (lifecycle constraints, aware timestamps, normalised unique
    e-mails, unique keys and users), no operation disappears or changes its
    id, user, e-mail, idempotency key or creation instant, and a completed
    operation never changes again. *)
Theorem reg_reachable_ok t t' :
  reg_table_ok t -> rtc reg_step t t' ->
  reg_table_ok t' /\ evolves t t'.
Proof.
  intros Ht Hs. induction Hs as [t|t1 t2 t3 H12 H23 IH]; [auto with identity|].
  destruct (reg_step_ok t1 t2 Ht H12) as [Ht2 He].
  destruct (IH Ht2) as [Ht3 He3]. eauto with identity.
Qed.
End reachable.

(** ** Functional specifications *)

Section specs.
Context `{EmailSyntax}.

(** Lifecycle facts the CHECK constraints give about a row. *)
Lemma ck_fields r :
  ck_registration r = true ->
  length (ro_key_hash r) = 32%nat /\ 0 <= ro_attempts r /\ 0 <= ro_redrive_count r /\
  (ro_status r <> REG_COMPLETED -> is_some (ro_password_hash r) = true).
Proof.
  unfold ck_registration. rewrite !andb_true_iff, Nat.eqb_eq, !Z.leb_le.
  intros [[[? ?] ?] Hl]. do 3 (split; [done|]). revert Hl.
  unfold ck_registration_lifecycle, has_status.
  destruct (ro_status r), (ro_password_hash r); cbn; try done;
    rewrite ?andb_false_r, ?orb_false_r; done.
Qed.

Lemma ck_set r r' :
  ck_registration r = true -> ro_key_hash r' = ro_key_hash r ->
  0 <= ro_attempts r' -> 0 <= ro_redrive_count r' ->
  ck_registration_lifecycle r' = true -> ck_registration r' = true.
Proof.
  intros (Hk & _ & _ & _)%ck_fields Hk' Ha Hd Hl.
  unfold ck_registration. rewrite Hk', Hk, Hl. cbn.
  by rewrite (proj2 (Z.leb_le _ _) Ha), (proj2 (Z.leb_le _ _) Hd).
Qed.

Ltac solve_ck :=
  intros r Hck Hc; pose proof (ck_fields r Hck) as (_ & ? & ? & Hp);
  eapply ck_set; [exact Hck|reflexivity|cbn; lia|cbn; lia|];
  unfold ck_registration_lifecycle; cbn; try reflexivity;
  rewrite Hp by first [by rewrite (owns_claimed _ _ _ Hc)
    | by rewrite (proj1 (has_status_true _ _) Hc)]; reflexivity.

Lemma set_completed_check now at_ owner a r :
  ck_registration r = true -> owns owner a r = true ->
  ck_registration (set_completed now at_ r) = true.
Proof. revert r. solve_ck. Qed.

Lemma set_retry_check now av err owner a r :
  ck_registration r = true -> owns owner a r = true ->
  ck_registration (set_retry now av err r) = true.
Proof. revert r. solve_ck. Qed.

Lemma set_blocked_check now at_ err owner a r :
  ck_registration r = true -> owns owner a r = true ->
  ck_registration (set_blocked now at_ err r) = true.
Proof. revert r. solve_ck. Qed.

(** The owner's statements: on a well-formed table, [complete],
    [schedule_retry] and [block] change exactly the named row, exactly when it
    is CLAIMED by this owner under a claim that has not expired at the instant
    given, and [redrive_blocked] exactly when the row is BLOCKED; they then
    return [True] with the row the statement sets, and otherwise return
    [False] and leave the table unchanged.  None of them can fail. *)
Theorem owner_statements_spec t now i owner at_ av err :
  reg_table_ok t ->
  complete now i owner at_ t
    = updated_one i (owns owner at_) (set_completed now at_) t /\
  schedule_retry now i owner at_ av err t
    = updated_one i (owns owner at_) (set_retry now av err) t /\
  block now i owner at_ err t
    = updated_one i (owns owner at_) (set_blocked now at_ err) t /\
  redrive_blocked now i av t
    = updated_one i (fun r => has_status r REG_BLOCKED) (set_redriven now av) t.
Proof.
  intros [Hk Hr _]. repeat split; apply update_one_spec; try done;
    intros r Hck%Hr%rok_check.
  - by apply set_completed_check.
  - by apply set_retry_check.
  - by apply set_blocked_check.
  - revert r Hck. solve_ck.
Qed.
End specs.

(** ** Fencing *)

Section fencing.
Context `{EmailSyntax}.

(** The row belongs to a claim of [owner]. *)
Definition held_by (owner : uuid) (r : RegistrationOperation) : Prop :=
  ro_status r = REG_CLAIMED /\ ro_claim_token r = Some owner.

(** A statement issued on behalf of [owner]. *)
Inductive owner_statement (owner : uuid) (i : uuid) (t : reg_table) :
    bool -> reg_table -> Prop :=
| os_complete now at_ b t' : complete now i owner at_ t = Ok (b, t') ->
    owner_statement owner i t b t'
| os_retry now at_ av err b t' : schedule_retry now i owner at_ av err t = Ok (b, t') ->
    owner_statement owner i t b t'
| os_block now at_ err b t' : block now i owner at_ err t = Ok (b, t') ->
    owner_statement owner i t b t'.

Lemma owns_held o at_ r : owns o at_ r = true -> held_by o r.
Proof.
  unfold owns, held_by.
  rewrite !andb_true_iff, has_status_true, bool_decide_eq_true. naive_solver.
Qed.

Lemma owner_statement_inert owner i t b t' :
  keyed ro_id t -> (forall r, t !! i = Some r -> ~ held_by owner r) ->
  owner_statement owner i t b t' -> b = false /\ t' = t.
Proof.
  intros Hk Hn Hs.
  assert (Hi : forall at_ r, t !! i = Some r -> owns owner at_ r = false).
  { intros at_ r Hl. apply not_true_is_false. intros Ho.
    by apply (Hn r Hl), (owns_held owner at_). }
  destruct Hs as [now at_ b t' Hs|now at_ av err b t' Hs|now at_ err b t' Hs];
    unfold complete, schedule_retry, block in Hs;
    rewrite update_one_inert in Hs by eauto; by simplify_eq.
Qed.

Lemma claim_by_key_hash_ok now k owner a e op t t' :
  reg_table_ok t -> claim_by_key_hash now k owner a e t = Ok (Some op, t') ->
  exists r, t !! ro_id op = Some r /\ ro_key_hash r = k /\ eligible a r = true /\
    op = set_claim now owner e r /\ dt_us a < dt_us e /\
    t' !! ro_id op = Some op.
Proof.
  intros [Hk Hr Hu] Hc. unfold claim_by_key_hash, validate_claim_window in Hc.
  ok_inv. destruct a1 as [row|]; [|ok_inv; by simplify_eq]. ok_inv. simplify_eq.
  apply sql_update_ok in Hok0 as (-> & -> & Hck).
  apply one_or_none_some in Hok1.
  assert (Hin : row ∈ set_claim now owner e <$>
    select (fun r => bool_decide (ro_key_hash r = k) && eligible a r) t)
    by (rewrite Hok1; set_solver).
  specialize (Hck row Hin).
  apply list_elem_of_fmap in Hin as (r & -> & Hin).
  apply elem_of_select in Hin as [[i Hi] Hp].
  apply andb_true_iff in Hp as [Hkey%bool_decide_eq_true Hel].
  apply dt_leb_gt in Hok.
  unfold ro_to_domain, stored_state in Hok2.
  destruct (RegistrationOperation_validate _) as [o|x] eqn:Hv; [|destruct (_ || _); done].
  injection Hok2 as ->.
  unfold RegistrationOperation_validate in Hv. ok_inv. cbn in Hok0.
  rewrite (rok_email _ (Hr _ _ Hi)) in Hok0. injection Hok0 as <-. subst op. cbn.
  rewrite <- (Hk _ _ Hi) in Hi. exists r. repeat split; try done.
  rewrite lookup_fmap, Hi. cbn. by rewrite bool_decide_true, Hel by done.
Qed.

(** C23. Fencing: once a worker holds a claim returned by
    [claim_by_key_hash], every [complete], [schedule_retry] or [block] issued
    by any other worker (a previous owner whose lease expired, at any clock
    reading) returns [False] and leaves the table unchanged; and the claim was
    taken only from an operation that was PENDING and due, or whose previous
    lease had expired. *)
Theorem stale_owner_fenced now k owner a e op t t' stale b t'' :
  reg_table_ok t -> claim_by_key_hash now k owner a e t = Ok (Some op, t') ->
  stale <> owner -> owner_statement stale (ro_id op) t' b t'' ->
  b = false /\ t'' = t' /\
  exists r, t !! ro_id op = Some r /\ ro_key_hash r = k /\
    ((ro_status r = REG_PENDING /\ dt_us (ro_available_at r) <= dt_us a) \/
     (ro_status r = REG_CLAIMED /\ exists x, ro_claim_expires_at r = Some x /\
        dt_us x <= dt_us a)).
Proof.
  intros Ht Hc Hne Hs. pose proof Ht as [Hk _ _].
  destruct (claim_by_key_hash_ok _ _ _ _ _ _ _ _ Ht Hc)
    as (r & Hi & Hkey & Hel & Hop & _ & Hi').
  assert (Hk' : keyed ro_id t').
  { unfold claim_by_key_hash in Hc. ok_inv. destruct a1; ok_inv; simplify_eq;
      apply sql_update_ok in Hok0 as (_ & -> & _); by apply keyed_update. }
  assert (Hx : b = false /\ t'' = t').
  { apply (owner_statement_inert stale (ro_id op)); [done| |done].
    intros r' Hr' [_ Htok]. rewrite Hi' in Hr'. injection Hr' as <-.
    rewrite Hop in Htok. cbn in Htok. congruence. }
  destruct Hx as [-> ->]. split; [done|]. split; [done|].
  exists r. split; [done|]. split; [done|].
  unfold eligible in Hel. rewrite orb_true_iff, !andb_true_iff, !has_status_true in Hel.
  destruct Hel as [[? ?%dt_leb_le]|[? Hx]]; [by left|right]. split; [done|].
  unfold not_after in Hx. destruct (ro_claim_expires_at r) as [x|]; [|done].
  exists x. by apply dt_leb_le in Hx.
Qed.
End fencing.

(** ** Claiming a batch *)

Section batch.
Context `{EmailSyntax}.

Lemma set_claim_check now owner e a r :
  ck_registration r = true -> eligible a r = true ->
  ck_registration (set_claim now owner e r) = true.
Proof.
  intros Hck Hel%eligible_not_completed. pose proof (ck_fields r Hck) as (_ & ? & ? & Hp).
  eapply ck_set; [exact Hck|done..|]. unfold ck_registration_lifecycle. cbn.
  by rewrite Hp.
Qed.

Lemma set_claim_row_ok now owner e a r :
  reg_row_ok r -> eligible a r = true -> is_aware now = true -> is_aware e = true ->
  reg_row_ok (set_claim now owner e r).
Proof.
  intros Hr Hel Hn He. pose proof (row_created_aware r Hr) as [Hc Ha].
  destruct Hr as [Hck Hts Hem]. constructor; [by eapply set_claim_check| |done].
  cbn. by rewrite Ha, Hc, Hn, He.
Qed.

(** [claim_batch] on a well-formed table never fails for a positive limit
    and a claim window that ends after it starts: it claims exactly the first
    [limit] eligible rows (PENDING and due, or CLAIMED with an expired lease)
    that no other transaction has locked, in the order of [available_at],
    [created_at] and [id], returns them in that order with the caller's token
    and expiry, and leaves every other row unchanged; an eligible unlocked row
    is left out only when the limit is reached and it comes later. *)
Theorem claim_batch_spec now locked owner a e n t :
  reg_table_ok t -> 0 < n -> dt_us a < dt_us e ->
  is_aware now = true -> is_aware e = true ->
  let l := claimable locked a n t in
  exists ops,
    claim_batch now locked owner a e n t =
      Ok (ops, set_picked ro_id (set_claim now owner e) l t) /\
    ops ≡ₚ (set_claim now owner e <$> l) /\
    StronglySorted (key_le claim_order) ops /\
    Z.of_nat (length ops) <= n /\
    (forall r, r ∈ l -> (exists i, t !! i = Some r) /\ eligible a r = true /\
       ro_id r ∉ locked) /\
    (forall i r, t !! i = Some r -> eligible a r = true -> ro_id r ∉ locked ->
       r ∉ l -> Z.of_nat (length ops) = n /\
       forall x, x ∈ l -> key_le claim_order x r).
Proof.
  intros Ht Hn Hw Hnow He l. pose proof Ht as [Hk Hr _].
  destruct (update_picked ro_id claim_order ck_registration (set_claim now owner e)
    locked (eligible a) n t Hk) as (rows & Hup & Hperm).
  { intros r i Hl Hel. eapply set_claim_check; [by eapply rok_check, Hr|done]. }
  assert (Hrow : forall x, x ∈ order_by claim_order rows -> ro_to_domain x = Ok x).
  { intros x. rewrite elem_of_order_by, Hperm, list_elem_of_fmap.
    intros (r & -> & ([i Hl] & Hel & _)%elem_of_pick).
    apply ro_to_domain_ok. eapply set_claim_row_ok; eauto. }
  fold (claimable locked a n t) in Hup, Hperm. fold l in Hup, Hperm.
  exists (order_by claim_order rows).
  assert (Hp : order_by claim_order rows ≡ₚ set_claim now owner e <$> l)
    by by rewrite order_by_perm.
  split; [|split; [exact Hp|split; [apply order_by_sorted|]]].
  - unfold claim_batch, validate_claim_window.
    rewrite (proj2 (raise_if_ok (n <=? 0) _ tt)) by by apply Z.leb_gt.
    rewrite (proj2 (raise_if_ok (dt_leb e a) _ tt)) by by apply dt_leb_gt.
    cbn [mbind result_bind]. fold l. rewrite Hup. cbn [mbind result_bind].
    by rewrite (mapM_ok _ _ Hrow).
  - rewrite (Permutation_length Hp), length_fmap. unfold l, claimable.
    split; [apply pick_length; lia|]. split.
    + intros r Hin. apply elem_of_pick in Hin. exact Hin.
    + intros i r Hl Hel Hlk Hnl.
      exact (pick_left_out _ _ _ _ _ _ _ _ (Z.lt_le_incl _ _ Hn) Hl Hel Hlk Hnl).
Qed.
End batch.

(** ** Instances at concrete tables *)

Definition demo_operation (i : Z) (st : RegistrationStatus) (av : Z) :
    RegistrationOperation :=
  {| ro_id := i; ro_user_id := 100 + i;
     ro_email := if i =? 1 then "a@example.org" else "b@example.org";
     ro_password_hash := Some "argon2"%string;
     ro_key_hash := demo_hash (if i =? 1 then x01 else x02);
     ro_status := st; ro_attempts := 0; ro_available_at := utc av;
     ro_claim_token := None; ro_claim_expires_at := None;
     ro_last_error_class := None;
     ro_terminal_at := if decide (st = REG_BLOCKED) then Some (utc av) else None;
     ro_redrive_count := 0; ro_created_at := utc 10; ro_updated_at := None |}.

Definition demo_reg_table : reg_table :=
  {[ 1 := demo_operation 1 REG_PENDING 50; 2 := demo_operation 2 REG_BLOCKED 40 ]}.

Lemma demo_reg_table_inv (P : Z -> RegistrationOperation -> Prop) :
  P 1 (demo_operation 1 REG_PENDING 50) -> P 2 (demo_operation 2 REG_BLOCKED 40) ->
  forall i r, demo_reg_table !! i = Some r -> P i r.
Proof.
  intros H1 H2 i r. unfold demo_reg_table.
  intros [[<- <-]|[_ [<- <-]%lookup_singleton_Some]]%lookup_insert_Some; done.
Qed.

Lemma demo_reg_table_ok : @reg_table_ok demo_email_syntax demo_reg_table.
Proof.
  split.
  - intros i r. revert i r. by apply demo_reg_table_inv.
  - intros i r. revert i r. by apply demo_reg_table_inv; constructor; vm_compute.
  - intros i j a b Ha. revert j b. pattern i, a. revert i a Ha.
    apply demo_reg_table_inv; intros j b Hb; pattern j, b; revert j b Hb;
      by apply demo_reg_table_inv; vm_compute.
Qed.

Lemma registration_validator_is_check_witness :
  let op := demo_operation 1 REG_PENDING 50 in
  @NormalizedEmail_new demo_email_syntax (ro_email op) = Ok (ro_email op) /\
  @RegistrationOperation_validate demo_email_syntax op = Ok op.
Proof.
  intros op. split; [vm_compute; reflexivity|].
  apply (@registration_validator_is_check demo_email_syntax op);
    [vm_compute; reflexivity|split; vm_compute; reflexivity].
Defined.

Definition demo_claimed : reg_table :=
  match @claim_by_key_hash demo_email_syntax (utc 60) (demo_hash x01) 77 (utc 60)
          (utc 90) demo_reg_table with
  | Ok (_, t) => t
  | Err _ => ∅
  end.

Lemma reg_reachable_ok_witness :
  let t' := demo_claimed in
  rtc (@reg_step demo_email_syntax) demo_reg_table t' /\
  ro_status <$> t' !! 1 = Some REG_CLAIMED /\
  @reg_table_ok demo_email_syntax t' /\ evolves demo_reg_table t'.
Proof.
  intros t'.
  assert (Hs : rtc (@reg_step demo_email_syntax) demo_reg_table t').
  { apply rtc_once. eapply (@rs_claim_key demo_email_syntax _ (utc 60) (demo_hash x01)
      77 (utc 60) (utc 90)); vm_compute; reflexivity. }
  split; [exact Hs|]. split; [vm_compute; reflexivity|].
  exact (@reg_reachable_ok demo_email_syntax demo_email_laws _ _ demo_reg_table_ok Hs).
Defined.

Lemma owner_statements_spec_witness :
  redrive_blocked (utc 60) 2 (utc 70) demo_reg_table =
    Ok (true, <[2 := set_redriven (utc 60) (utc 70) (demo_operation 2 REG_BLOCKED 40)]>
                demo_reg_table).
Proof.
  destruct (@owner_statements_spec demo_email_syntax demo_reg_table (utc 60) 2 77
    (utc 60) (utc 70) "E"%string demo_reg_table_ok) as (_ & _ & _ & H).
  rewrite H. vm_compute. reflexivity.
Defined.

Lemma stale_owner_fenced_witness :
  exists op t', @claim_by_key_hash demo_email_syntax (utc 60) (demo_hash x01) 77 (utc 60)
      (utc 90) demo_reg_table = Ok (Some op, t') /\
    complete (utc 61) (ro_id op) 78 (utc 61) t' = Ok (false, t') /\
    exists r, demo_reg_table !! ro_id op = Some r /\ ro_status r = REG_PENDING.
Proof.
  exists (set_claim (utc 60) 77 (utc 90) (demo_operation 1 REG_PENDING 50)), demo_claimed.
  split; [vm_compute; reflexivity|]. split; [vm_compute; reflexivity|].
  edestruct (@stale_owner_fenced demo_email_syntax (utc 60) (demo_hash x01) 77 (utc 60)
    (utc 90) (set_claim (utc 60) 77 (utc 90) (demo_operation 1 REG_PENDING 50))
    demo_reg_table demo_claimed 78 false demo_claimed demo_reg_table_ok)
    as (_ & _ & r & Hr & _ & [[Hs _]|[Hs _]]).
  - vm_compute. reflexivity.
  - discriminate.
  - apply (os_complete 78 _ _ (utc 61) (utc 61)). vm_compute. reflexivity.
  - exists r. split; [exact Hr|exact Hs].
  - exfalso. vm_compute in Hr. injection Hr as <-. discriminate Hs.
Defined.

Lemma claim_batch_spec_witness :
  exists ops,
    @claim_batch demo_email_syntax (utc 60) ∅ 77 (utc 60) (utc 90) 10 demo_reg_table =
      Ok (ops, set_picked ro_id (set_claim (utc 60) 77 (utc 90))
                 (claimable ∅ (utc 60) 10 demo_reg_table) demo_reg_table) /\
    length ops = 1%nat.
Proof.
  destruct (@claim_batch_spec demo_email_syntax (utc 60) ∅ 77 (utc 60) (utc 90) 10
    demo_reg_table demo_reg_table_ok ltac:(lia) ltac:(cbn; lia) eq_refl eq_refl)
    as (ops & H & Hp & _).
  exists ops. split; [exact H|]. rewrite Hp. vm_compute. reflexivity.
Defined.
