(* ===== verification/Outbox.v ===== *)
(** * The transactional outbox table

    [application/ports/dto/outbox.py] (the message and its validators),
    [application/ports/events/user_registered.py] (the event and its envelope),
    [infrastructure/database/models/outbox.py] (the CHECK constraints) and
    [outbox_repository.py] (publish, claim, finalise, retry, quarantine, redrive
    and clean up).  A statement sees and changes the table at once; the rows
    other transactions have locked are an argument of the statements that skip
    them. *)

From S2P Require Import Prelude Exceptions Domain Text Sql Registration.

(** ** Messages *)

Inductive OutboxStatus : Set := OB_PENDING | OB_CLAIMED | OB_SUCCESS | OB_QUARANTINED.
Inductive OutboxKind : Set := COMMAND | EVENT.

#[global] Instance OutboxStatus_eq_dec : EqDecision OutboxStatus.
Proof. solve_decision. Defined.

Record OutboxMessage := {
  om_id : uuid;
  om_kind : OutboxKind;
  om_topic : string;
  om_key : string;
  om_type : string;
  om_payload : json;
  om_status : OutboxStatus;
  om_attempts : Z;
  om_last_error_class : option string;
  om_available_at : datetime;
  om_claim_token : option uuid;
  om_claim_expires_at : option datetime;
  om_terminal_at : option datetime;
  om_redrive_count : Z;
  om_created_at : datetime;
  om_updated_at : option datetime
}.

Abbreviation outbox_table := (gmap Z OutboxMessage).

Definition in_status (m : OutboxMessage) (s : OutboxStatus) : bool :=
  bool_decide (om_status m = s).

(** [OutboxMessage.validate_lifecycle] *)
Definition om_validate_lifecycle (m : OutboxMessage) : res unit :=
  raise_if (naive (Some (om_available_at m))) EValidationError;;
  raise_if (naive (om_claim_expires_at m)) EValidationError;;
  raise_if (naive (om_terminal_at m)) EValidationError;;
  let has_claim := is_some (om_claim_token m) in
  let has_claim_expiration := is_some (om_claim_expires_at m) in
  raise_if (xorb has_claim has_claim_expiration) EValidationError;;
  (if in_status m OB_CLAIMED
   then raise_if (negb has_claim || is_some (om_terminal_at m)) EValidationError
   else raise_if has_claim EValidationError);;
  (if in_status m OB_SUCCESS || in_status m OB_QUARANTINED
   then raise_if (is_none (om_terminal_at m)) EValidationError
   else raise_if (is_some (om_terminal_at m)) EValidationError).

(** [OutboxMessage.validate_entity_timestamps] *)
Definition om_validate_entity_timestamps (m : OutboxMessage) : res unit :=
  raise_if (naive (Some (om_created_at m))) EValidationError;;
  raise_if (naive (om_updated_at m)) EValidationError.

Definition OutboxMessage_validate (m : OutboxMessage) : res OutboxMessage :=
  raise_unless (0 <=? om_attempts m) EValidationError;;
  raise_unless (0 <=? om_redrive_count m) EValidationError;;
  om_validate_lifecycle m;;
  om_validate_entity_timestamps m;;
  mret m.

(** ** The CHECK constraints *)

Definition ck_outbox_lifecycle (m : OutboxMessage) : bool :=
  (in_status m OB_PENDING && is_none (om_claim_token m)
   && is_none (om_claim_expires_at m) && is_none (om_terminal_at m))
  || (in_status m OB_CLAIMED && is_some (om_claim_token m)
      && is_some (om_claim_expires_at m) && is_none (om_terminal_at m))
  || ((in_status m OB_SUCCESS || in_status m OB_QUARANTINED)
      && is_none (om_claim_token m) && is_none (om_claim_expires_at m)
      && is_some (om_terminal_at m)).

Definition ck_outbox (m : OutboxMessage) : bool :=
  ck_outbox_lifecycle m && (0 <=? om_attempts m) && (0 <=? om_redrive_count m).

(** ** The event *)

Record UserRegisteredEvent := {
  ev_user_id : uuid;
  ev_registered_at : datetime;
  ev_correlation_id : uuid;
  ev_causation_id : option uuid;
  ev_event_id : uuid
}.

Definition event_type : string := "identity.user_registered.v1".
Definition partition_key (e : UserRegisteredEvent) : string := uuid_str (ev_user_id e).
Definition occurred_at (e : UserRegisteredEvent) : datetime := ev_registered_at e.

(** [self.causation_id or self.correlation_id]: a UUID object is always true. *)
Definition to_envelope_dict (e : UserRegisteredEvent) (producer : string) : json :=
  JObject
    [("eventId", JString (uuid_str (ev_event_id e)));
     ("eventType", JString event_type);
     ("schemaVersion", JInt 1);
     ("occurredAt", JString (isoformat (occurred_at e)));
     ("producer", JString producer);
     ("correlationId", JString (uuid_str (ev_correlation_id e)));
     ("causationId", JString (uuid_str (default (ev_correlation_id e) (ev_causation_id e))));
     ("payload", JObject
        [("userId", JString (uuid_str (ev_user_id e)));
         ("registeredAt", JString (isoformat (ev_registered_at e)))])]%string.

(** ** The repository *)

Definition om_to_domain (row : OutboxMessage) : res OutboxMessage :=
  stored_state (OutboxMessage_validate row).

Definition event_row (topic producer : string) (e : UserRegisteredEvent) : OutboxMessage :=
  {| om_id := ev_event_id e; om_kind := EVENT; om_topic := topic;
     om_key := partition_key e; om_type := event_type;
     om_payload := to_envelope_dict e producer; om_status := OB_PENDING;
     om_attempts := 0; om_last_error_class := None; om_available_at := occurred_at e;
     om_claim_token := None; om_claim_expires_at := None; om_terminal_at := None;
     om_redrive_count := 0; om_created_at := occurred_at e; om_updated_at := None |}.

(** The row added to the session is inserted when the session flushes. *)
Definition publish (topic producer : string) (e : UserRegisteredEvent)
    (t : outbox_table) : res outbox_table :=
  let row := event_row topic producer e in
  match t !! om_id row with
  | Some _ => raise UniqueViolation
  | None => raise_unless (ck_outbox row) CheckViolation;; mret (<[om_id row := row]> t)
  end.

(** [earlier_position]: the order of [created_at, id]. *)
Definition earlier_position (a b : OutboxMessage) : bool :=
  dt_ltb (om_created_at a) (om_created_at b)
  || (dt_eqb (om_created_at a) (om_created_at b) && (om_id a <? om_id b)).

Definition same_key (a b : OutboxMessage) : bool := bool_decide (om_key a = om_key b).

Definition unfinished (m : OutboxMessage) : bool :=
  in_status m OB_PENDING || in_status m OB_CLAIMED.

Definition has_earlier_nonterminal_for_key (t : outbox_table) (c : OutboxMessage) : bool :=
  existsb (fun e => same_key e c && unfinished e && earlier_position e c) (rows t).

Definition om_eligible (claimed_at : datetime) (c : OutboxMessage) : bool :=
  (in_status c OB_PENDING && dt_leb (om_available_at c) claimed_at)
  || (in_status c OB_CLAIMED && not_after (om_claim_expires_at c) claimed_at).

Definition dispatch_order (m : OutboxMessage) : list Z :=
  [dt_us (om_created_at m); om_id m].

Definition claim_condition (claimed_at : datetime) (t : outbox_table)
    (c : OutboxMessage) : bool :=
  om_eligible claimed_at c && negb (has_earlier_nonterminal_for_key t c).

Definition claimable_outbox (locked : gset Z) (claimed_at : datetime) (limit : Z)
    (t : outbox_table) : list OutboxMessage :=
  pick om_id dispatch_order locked (claim_condition claimed_at t) limit t.

(** A row with new lifecycle columns. *)
Definition om_set (m : OutboxMessage) (status : OutboxStatus) (attempts : Z)
    (last_error_class : option string) (available_at : datetime)
    (claim_token : option uuid) (claim_expires_at terminal_at : option datetime)
    (redrive_count : Z) (db_now : datetime) : OutboxMessage :=
  {| om_id := om_id m; om_kind := om_kind m; om_topic := om_topic m;
     om_key := om_key m; om_type := om_type m; om_payload := om_payload m;
     om_status := status; om_attempts := attempts;
     om_last_error_class := last_error_class; om_available_at := available_at;
     om_claim_token := claim_token; om_claim_expires_at := claim_expires_at;
     om_terminal_at := terminal_at; om_redrive_count := redrive_count;
     om_created_at := om_created_at m; om_updated_at := Some db_now |}.

Definition om_set_claim (db_now : datetime) (owner_token : uuid)
    (claim_expires_at : datetime) (m : OutboxMessage) : OutboxMessage :=
  om_set m OB_CLAIMED (om_attempts m) (om_last_error_class m) (om_available_at m)
    (Some owner_token) (Some claim_expires_at) None (om_redrive_count m) db_now.

Definition claim_batch (db_now : datetime) (locked : gset Z) (owner_token : uuid)
    (claimed_at claim_expires_at : datetime) (limit : Z) (t : outbox_table) :
    res (list OutboxMessage * outbox_table) :=
  raise_if (limit <=? 0) EValueError;;
  raise_if (dt_leb claim_expires_at claimed_at) EValueError;;
  let ids := om_id <$> claimable_outbox locked claimed_at limit t in
  '(updated, t') ← sql_update ck_outbox (fun m => bool_decide (om_id m ∈ ids))
    (om_set_claim db_now owner_token claim_expires_at) t;
  ms ← mapM om_to_domain (order_by dispatch_order updated);
  mret (ms, t').

(** The WHERE clause of the statements of a claim's owner: unlike those of the
    registration operations it does not look at [claim_expires_at]. *)
Definition om_owns (owner_token : uuid) (m : OutboxMessage) : bool :=
  in_status m OB_CLAIMED && bool_decide (om_claim_token m = Some owner_token).

Definition om_set_success (db_now published_at : datetime) (m : OutboxMessage) :
    OutboxMessage :=
  om_set m OB_SUCCESS (om_attempts m + 1) None (om_available_at m) None None
    (Some published_at) (om_redrive_count m) db_now.

Definition om_set_retry (db_now available_at : datetime) (error_class : string)
    (m : OutboxMessage) : OutboxMessage :=
  om_set m OB_PENDING (om_attempts m + 1) (Some error_class) available_at None None
    None (om_redrive_count m) db_now.

Definition om_set_quarantined (db_now quarantined_at : datetime) (error_class : string)
    (m : OutboxMessage) : OutboxMessage :=
  om_set m OB_QUARANTINED (om_attempts m + 1) (Some error_class) (om_available_at m)
    None None (Some quarantined_at) (om_redrive_count m) db_now.

Definition om_set_redriven (db_now available_at : datetime) (m : OutboxMessage) :
    OutboxMessage :=
  om_set m OB_PENDING 0 None available_at None None None (om_redrive_count m + 1) db_now.

Definition finalize_published (db_now : datetime) (message_id owner_token : uuid)
    (published_at : datetime) : outbox_table -> res (bool * outbox_table) :=
  update_one ck_outbox om_id message_id (om_owns owner_token)
    (om_set_success db_now published_at).

Definition schedule_retry (db_now : datetime) (message_id owner_token : uuid)
    (available_at : datetime) (error_class : string) :
    outbox_table -> res (bool * outbox_table) :=
  update_one ck_outbox om_id message_id (om_owns owner_token)
    (om_set_retry db_now available_at error_class).

Definition quarantine (db_now : datetime) (message_id owner_token : uuid)
    (quarantined_at : datetime) (error_class : string) :
    outbox_table -> res (bool * outbox_table) :=
  update_one ck_outbox om_id message_id (om_owns owner_token)
    (om_set_quarantined db_now quarantined_at error_class).

(** Some message of the target's key comes after it. *)
Definition later_exists (message_id : uuid) (t : outbox_table) : bool :=
  existsb (fun target =>
    (om_id target =? message_id)
    && existsb (fun later => same_key later target && earlier_position target later)
         (rows t)) (rows t).

Definition redrive_quarantined (db_now : datetime) (message_id : uuid)
    (available_at : datetime) (t : outbox_table) : res (bool * outbox_table) :=
  update_one ck_outbox om_id message_id
    (fun m => in_status m OB_QUARANTINED && negb (later_exists message_id t))
    (om_set_redriven db_now available_at) t.

Definition is_terminal (m : OutboxMessage) : bool :=
  in_status m OB_SUCCESS || in_status m OB_QUARANTINED.

Definition before (column : option datetime) (cutoff : datetime) : bool :=
  match column with Some d => dt_ltb d cutoff | None => false end.

Definition cleanup_order (m : OutboxMessage) : list Z :=
  [default 0 (dt_us <$> om_terminal_at m); dt_us (om_created_at m); om_id m].

Definition expired_terminal_outbox (locked : gset Z) (terminal_at : datetime)
    (limit : Z) (t : outbox_table) : list OutboxMessage :=
  pick om_id cleanup_order locked
    (fun m => is_terminal m && before (om_terminal_at m) terminal_at) limit t.

Definition delete_terminal_before (locked : gset Z) (terminal_at : datetime) (limit : Z)
    (t : outbox_table) : res (Z * outbox_table) :=
  raise_if (limit <=? 0) EValueError;;
  let ids := om_id <$> expired_terminal_outbox locked terminal_at limit t in
  let '(deleted, t') := sql_delete (fun m => bool_decide (om_id m ∈ ids)) t in
  mret (Z.of_nat (length deleted), t').

(** ** Well-formed tables and steps *)

Definition om_timestamps (m : OutboxMessage) : list (option datetime) :=
  [Some (om_available_at m); om_claim_expires_at m; om_terminal_at m;
   Some (om_created_at m); om_updated_at m].

Record om_row_ok (m : OutboxMessage) : Prop := {
  mok_check : ck_outbox m = true;
  mok_aware : existsb naive (om_timestamps m) = false
}.

Record outbox_ok (t : outbox_table) : Prop := {
  ob_keyed : keyed om_id t;
  ob_rows : forall i m, t !! i = Some m -> om_row_ok m
}.

(** What no statement changes in a message. *)
Definition same_message (a b : OutboxMessage) : Prop :=
  om_id b = om_id a /\ om_kind b = om_kind a /\ om_topic b = om_topic a /\
  om_key b = om_key a /\ om_type b = om_type a /\ om_payload b = om_payload a /\
  om_created_at b = om_created_at a.

(** The lifecycle of a message. *)
Inductive status_step : OutboxStatus -> OutboxStatus -> Prop :=
| st_claim : status_step OB_PENDING OB_CLAIMED
| st_reclaim : status_step OB_CLAIMED OB_CLAIMED
| st_success : status_step OB_CLAIMED OB_SUCCESS
| st_retry : status_step OB_CLAIMED OB_PENDING
| st_quarantine : status_step OB_CLAIMED OB_QUARANTINED
| st_redrive : status_step OB_QUARANTINED OB_PENDING.

(** One statement by any client.  [fresh] restricts the events that may be
    published in a table. *)
Inductive outbox_step (fresh : outbox_table -> UserRegisteredEvent -> Prop)
    (t : outbox_table) : outbox_table -> Prop :=
| os_publish topic producer e t' :
    is_aware (ev_registered_at e) = true -> fresh t e ->
    publish topic producer e t = Ok t' -> outbox_step fresh t t'
| os_claim now lk owner a e n l t' :
    is_aware now = true -> is_aware e = true ->
    claim_batch now lk owner a e n t = Ok (l, t') -> outbox_step fresh t t'
| os_finalize now i owner a b t' :
    is_aware now = true -> is_aware a = true ->
    finalize_published now i owner a t = Ok (b, t') -> outbox_step fresh t t'
| os_schedule now i owner av err b t' :
    is_aware now = true -> is_aware av = true ->
    schedule_retry now i owner av err t = Ok (b, t') -> outbox_step fresh t t'
| os_quarantine now i owner a err b t' :
    is_aware now = true -> is_aware a = true ->
    quarantine now i owner a err t = Ok (b, t') -> outbox_step fresh t t'
| os_redrive now i av b t' :
    is_aware now = true -> is_aware av = true ->
    redrive_quarantined now i av t = Ok (b, t') -> outbox_step fresh t t'
| os_delete lk cutoff n k t' :
    delete_terminal_before lk cutoff n t = Ok (k, t') -> outbox_step fresh t t'.

(** ** Validator and CHECK constraints agree *)

Lemma in_status_true m s : in_status m s = true <-> om_status m = s.
Proof. apply bool_decide_eq_true. Qed.

Lemma om_validate_lifecycle_iff m :
  om_validate_lifecycle m = Ok tt <->
  naive (Some (om_available_at m)) = false /\ naive (om_claim_expires_at m) = false /\
  naive (om_terminal_at m) = false /\ ck_outbox_lifecycle m = true.
Proof.
  unfold om_validate_lifecycle, ck_outbox_lifecycle, in_status.
  rewrite !bind_unit_ok, !if_ok, !raise_if_ok.
  generalize (naive (Some (om_available_at m))) (naive (om_claim_expires_at m))
    (naive (om_terminal_at m)). intros a b c.
  destruct (om_status m), (om_claim_token m), (om_claim_expires_at m),
    (om_terminal_at m); vm_compute; intuition congruence.
Qed.

Lemma om_validate_iff m :
  OutboxMessage_validate m = Ok m <->
  existsb naive (om_timestamps m) = false /\ ck_outbox m = true.
Proof.
  unfold OutboxMessage_validate, om_validate_entity_timestamps, ck_outbox.
  rewrite !bind_unit_ok, !raise_unless_ok, !raise_if_ok, om_validate_lifecycle_iff.
  cbn [existsb om_timestamps]. rewrite !orb_false_iff, !andb_true_iff.
  unfold mret, result_ret. intuition.
Qed.

(** The outbox DTO and the database agree: [OutboxMessage] validates a row
    (to itself) exactly when every timestamp is timezone-aware and the row
    satisfies the CHECK constraints of [outbox]. *)
Theorem outbox_validator_is_check m :
  OutboxMessage_validate m = Ok m <->
  existsb naive (om_timestamps m) = false /\ ck_outbox m = true.
Proof. apply om_validate_iff. Qed.

Lemma om_to_domain_ok m : om_row_ok m -> om_to_domain m = Ok m.
Proof.
  intros [Hc Ha]. unfold om_to_domain. by rewrite (proj2 (om_validate_iff m) (conj Ha Hc)).
Qed.

Lemma om_aware m :
  om_row_ok m -> is_aware (om_available_at m) = true /\ is_aware (om_created_at m) = true.
Proof.
  intros [_ Ha]. rewrite existsb_false in Ha. split; apply negb_false_iff.
  - apply (Ha (Some (om_available_at m))). set_solver.
  - apply (Ha (Some (om_created_at m))). set_solver.
Qed.

Lemma ck_outbox_counts m : ck_outbox m = true -> 0 <= om_attempts m /\ 0 <= om_redrive_count m.
Proof. unfold ck_outbox. rewrite !andb_true_iff, !Z.leb_le. tauto. Qed.

(** Rows the statements write. *)
Lemma om_set_ok m st n err av tok ex term rd now :
  om_row_ok m -> 0 <= n -> 0 <= rd ->
  existsb naive [Some av; ex; term; Some now] = false ->
  ck_outbox_lifecycle (om_set m st n err av tok ex term rd now) = true ->
  om_row_ok (om_set m st n err av tok ex term rd now).
Proof.
  intros Hm Hn Hrd Hnaive Hl. destruct (om_aware m Hm) as [_ Hc]. split.
  - unfold ck_outbox. rewrite Hl. cbn.
    by rewrite (proj2 (Z.leb_le _ _) Hn), (proj2 (Z.leb_le _ _) Hrd).
  - revert Hnaive. cbn. rewrite !orb_false_iff, Hc. cbn. tauto.
Qed.

(** A statement's effect on one row. *)
Definition row_change (m m' : OutboxMessage) : Prop :=
  m' = m \/
  (om_row_ok m -> om_row_ok m') /\ same_message m m' /\
  status_step (om_status m) (om_status m').

(** [publish] and [delete] apart, a statement maps every row. *)
Definition table_change (t t' : outbox_table) : Prop :=
  forall i, match t !! i, t' !! i with
            | Some m, Some m' => row_change m m'
            | None, None => True
            | _, _ => False
            end.

Lemma update_one_change i cond f t b t' :
  keyed om_id t -> update_one ck_outbox om_id i cond f t = Ok (b, t') ->
  (forall m, t !! i = Some m -> cond m = true ->
     same_message m (f m) /\ status_step (om_status m) (om_status (f m)) /\
     (om_row_ok m -> om_row_ok (f m))) ->
  t' = match t !! i with Some m => if cond m then <[i := f m]> t else t | None => t end
  /\ table_change t t'.
Proof.
  intros Hk Hu Hf. unfold update_one in Hu. rewrite (sql_update_by_id _ _ _ _ _ _ Hk) in Hu.
  assert (t' = match t !! i with Some m => if cond m then <[i := f m]> t else t
               | None => t end) as ->.
  { destruct (t !! i) as [m|]; [destruct (cond m); [destruct (ck_outbox (f m))|]|];
      cbn in Hu; unfold mret, result_ret in Hu; congruence. }
  split; [done|]. intros j. destruct (t !! i) as [m|] eqn:Ei.
  2: { destruct (t !! j); [by left|done]. }
  destruct (cond m) eqn:Ec.
  2: { destruct (t !! j); [by left|done]. }
  destruct (decide (i = j)) as [<-|Hne].
  - rewrite Ei, lookup_insert_eq. destruct (Hf m eq_refl Ec) as (?&?&?). by right.
  - rewrite lookup_insert_ne by done. destruct (t !! j); [by left|done].
Qed.

(** ** The effect of each statement *)

Lemma ck_lifecycle_set m st n err av tok ex term rd now :
  (match st, tok, ex, term with
   | OB_PENDING, None, None, None => True
   | OB_CLAIMED, Some _, Some _, None => True
   | OB_SUCCESS, None, None, Some _ => True
   | OB_QUARANTINED, None, None, Some _ => True
   | _, _, _, _ => False
   end) ->
  ck_outbox_lifecycle (om_set m st n err av tok ex term rd now) = true.
Proof. by destruct st, tok, ex, term. Qed.

Lemma om_eligible_status a m :
  om_eligible a m = true -> om_status m = OB_PENDING \/ om_status m = OB_CLAIMED.
Proof.
  unfold om_eligible. rewrite orb_true_iff, !andb_true_iff, !in_status_true. tauto.
Qed.

Lemma om_owns_status o m :
  om_owns o m = true -> om_status m = OB_CLAIMED /\ om_claim_token m = Some o.
Proof. unfold om_owns. by rewrite andb_true_iff, in_status_true, bool_decide_eq_true. Qed.

Ltac solve_set :=
  intros Hrow; pose proof (om_aware _ Hrow) as [? ?];
  pose proof (ck_outbox_counts _ (mok_check _ Hrow)) as [? ?];
  apply om_set_ok; [done|lia|lia| |by apply ck_lifecycle_set];
  cbn; repeat match goal with H : is_aware _ = true |- _ => rewrite H; clear H end;
  reflexivity.

Lemma set_claim_change now owner e a m :
  is_aware now = true -> is_aware e = true -> om_eligible a m = true ->
  row_change m (om_set_claim now owner e m).
Proof.
  intros Hn He Hel. right. split; [solve_set|]. split; [done|].
  destruct (om_eligible_status _ _ Hel) as [-> | ->]; constructor.
Qed.

(** The statements that name a row. *)
Definition rewrites (m m' : OutboxMessage) : Prop :=
  same_message m m' /\ status_step (om_status m) (om_status m') /\
  (om_row_ok m -> om_row_ok m').

Lemma success_row now owner a m :
  is_aware now = true -> is_aware a = true -> om_owns owner m = true ->
  rewrites m (om_set_success now a m).
Proof.
  intros ? ? [Hs _]%om_owns_status. unfold rewrites. rewrite Hs.
  split; [done|]. split; [constructor|]. solve_set.
Qed.

Lemma retry_row now owner av err m :
  is_aware now = true -> is_aware av = true -> om_owns owner m = true ->
  rewrites m (om_set_retry now av err m).
Proof.
  intros ? ? [Hs _]%om_owns_status. unfold rewrites. rewrite Hs.
  split; [done|]. split; [constructor|]. solve_set.
Qed.

Lemma quarantined_row now owner a err m :
  is_aware now = true -> is_aware a = true -> om_owns owner m = true ->
  rewrites m (om_set_quarantined now a err m).
Proof.
  intros ? ? [Hs _]%om_owns_status. unfold rewrites. rewrite Hs.
  split; [done|]. split; [constructor|]. solve_set.
Qed.

Lemma redriven_row now av b m :
  is_aware now = true -> is_aware av = true ->
  in_status m OB_QUARANTINED && b = true -> rewrites m (om_set_redriven now av m).
Proof.
  intros ? ? [Hs%in_status_true _]%andb_true_iff. unfold rewrites. rewrite Hs.
  split; [done|]. split; [constructor|]. solve_set.
Qed.

Lemma claimable_outbox_elem lk a n t m :
  m ∈ claimable_outbox lk a n t ->
  (exists i, t !! i = Some m) /\ om_eligible a m = true /\
  has_earlier_nonterminal_for_key t m = false /\ om_id m ∉ lk.
Proof.
  unfold claimable_outbox. intros (? & Hp & ?)%elem_of_pick.
  unfold claim_condition in Hp. rewrite andb_true_iff, negb_true_iff in Hp. tauto.
Qed.

Lemma claimable_outbox_id lk a n t i m :
  keyed om_id t -> t !! i = Some m ->
  bool_decide (om_id m ∈ om_id <$> claimable_outbox lk a n t) = true <->
  m ∈ claimable_outbox lk a n t.
Proof. unfold claimable_outbox. apply pick_id_iff. Qed.

(** [claim_batch] on a well-formed table. *)
Lemma claim_batch_table now lk owner a e n t l t' :
  claim_batch now lk owner a e n t = Ok (l, t') ->
  t' = set_picked om_id (om_set_claim now owner e) (claimable_outbox lk a n t) t.
Proof.
  unfold claim_batch. intros Hc. ok_inv. simplify_eq.
  by apply sql_update_ok in Hok1 as (_ & -> & _).
Qed.

Lemma claim_change t now lk owner a e n l t' :
  keyed om_id t -> is_aware now = true -> is_aware e = true ->
  claim_batch now lk owner a e n t = Ok (l, t') -> table_change t t'.
Proof.
  intros Hk Hn He Hc. apply claim_batch_table in Hc as ->. intros i.
  rewrite lookup_set_picked. destruct (t !! i) as [m|] eqn:E; cbn; [|done].
  destruct (bool_decide _) eqn:Ed; [|by left].
  rewrite (claimable_outbox_id _ _ _ _ _ _ Hk E) in Ed.
  apply claimable_outbox_elem in Ed as (_ & Hel & _). by eapply set_claim_change.
Qed.

Lemma publish_ok topic producer e t t' :
  publish topic producer e t = Ok t' ->
  t !! ev_event_id e = None /\
  t' = <[ev_event_id e := event_row topic producer e]> t.
Proof.
  unfold publish. cbn. destruct (t !! ev_event_id e); [done|]. intros Hp. ok_inv. by subst.
Qed.

Lemma event_row_ok topic producer e :
  is_aware (ev_registered_at e) = true -> om_row_ok (event_row topic producer e).
Proof. intros Ha. split; [done|]. cbn. unfold occurred_at. by rewrite Ha. Qed.

Lemma delete_ok lk cutoff n t k t' :
  delete_terminal_before lk cutoff n t = Ok (k, t') ->
  0 < n /\
  let l := expired_terminal_outbox lk cutoff n t in
  k = Z.of_nat (length (select (fun m => bool_decide (om_id m ∈ om_id <$> l)) t)) /\
  t' = filter (fun kv => bool_decide (om_id kv.2 ∈ om_id <$> l) = false) t.
Proof.
  unfold delete_terminal_before, sql_delete. intros Hd. ok_inv. simplify_eq.
  by apply Z.leb_gt in Hok.
Qed.

Lemma expired_elem lk cutoff n t m :
  m ∈ expired_terminal_outbox lk cutoff n t ->
  (exists i, t !! i = Some m) /\ is_terminal m = true /\
  before (om_terminal_at m) cutoff = true /\ om_id m ∉ lk.
Proof.
  unfold expired_terminal_outbox. intros (? & Hp & ?)%elem_of_pick.
  rewrite andb_true_iff in Hp. tauto.
Qed.

Lemma expired_id lk cutoff n t i m :
  keyed om_id t -> t !! i = Some m ->
  bool_decide (om_id m ∈ om_id <$> expired_terminal_outbox lk cutoff n t) = true <->
  m ∈ expired_terminal_outbox lk cutoff n t.
Proof. unfold expired_terminal_outbox. apply pick_id_iff. Qed.

(** ** Reachable tables *)

Lemma same_message_refl m : same_message m m.
Proof. done. Qed.

Lemma same_message_trans a b c : same_message a b -> same_message b c -> same_message a c.
Proof. unfold same_message. intuition congruence. Qed.

#[export] Hint Resolve same_message_refl same_message_trans : identity.

Lemma row_change_same m m' : row_change m m' -> same_message m m'.
Proof. intros [->|(_ & ? & _)]; auto with identity. Qed.

Lemma row_change_ok m m' : row_change m m' -> om_row_ok m -> om_row_ok m'.
Proof. intros [->|(? & _ & _)]; auto. Qed.

Lemma row_change_status m m' :
  row_change m m' -> rtc status_step (om_status m) (om_status m').
Proof. intros [->|(_ & _ & ?)]; [done|by apply rtc_once]. Qed.

Lemma row_change_success m m' : row_change m m' -> om_status m = OB_SUCCESS -> m' = m.
Proof. intros [->|(_ & _ & Hs)] E; [done|]. rewrite E in Hs. inversion Hs. Qed.

(** A delivered message is final. *)
Lemma success_final s s' : rtc status_step s s' -> s = OB_SUCCESS -> s' = OB_SUCCESS.
Proof. intros H. induction H as [|a b c Hab _ IH]; [done|]. intros ->. inversion Hab. Qed.

Lemma table_change_lookup t t' i m :
  table_change t t' -> t !! i = Some m -> exists m', t' !! i = Some m' /\ row_change m m'.
Proof. intros H E. specialize (H i). rewrite E in H. destruct (t' !! i); [eauto|done]. Qed.

Lemma table_change_lookup_inv t t' i m' :
  table_change t t' -> t' !! i = Some m' -> exists m, t !! i = Some m /\ row_change m m'.
Proof. intros H E. specialize (H i). rewrite E in H. destruct (t !! i); [eauto|done]. Qed.

Lemma table_change_ok t t' : outbox_ok t -> table_change t t' -> outbox_ok t'.
Proof.
  intros [Hk Hr] Hc. split.
  - intros i m' (m & Hm & Hch)%(table_change_lookup_inv _ _ _ _ Hc).
    destruct (row_change_same _ _ Hch) as [-> _]. exact (Hk _ _ Hm).
  - intros i m' (m & Hm & Hch)%(table_change_lookup_inv _ _ _ _ Hc).
    eapply row_change_ok; [exact Hch|exact (Hr _ _ Hm)].
Qed.

Section reachable_outbox.
Context (fresh : outbox_table -> UserRegisteredEvent -> Prop).
Local Abbreviation step := (outbox_step fresh).

(** Apart from insertion and deletion a step rewrites rows. *)
Lemma outbox_step_cases t t' :
  outbox_ok t -> step t t' ->
  (exists topic producer e, is_aware (ev_registered_at e) = true /\ fresh t e /\
     t !! ev_event_id e = None /\
     t' = <[ev_event_id e := event_row topic producer e]> t) \/
  table_change t t' \/
  (exists lk cutoff n, t' = filter (fun kv => bool_decide
     (om_id kv.2 ∈ om_id <$> expired_terminal_outbox lk cutoff n t) = false) t).
Proof.
  intros [Hk Hr] [topic producer e t1 Ha Hf Hp|now lk owner a e n l t1 Hn He Hc
    |now i owner a b t1 Hn Ha Hc|now i owner av err b t1 Hn Ha Hc
    |now i owner a err b t1 Hn Ha Hc|now i av b t1 Hn Ha Hc|lk cutoff n k t1 Hc].
  - apply publish_ok in Hp as [? ?]. left. by exists topic, producer, e.
  - right. left. eapply claim_change; [exact Hk| | |exact Hc]; done.
  - right. left. eapply update_one_change; [exact Hk|exact Hc|]. intros m _. by apply success_row.
  - right. left. eapply update_one_change; [exact Hk|exact Hc|]. intros m _. by apply retry_row.
  - right. left. eapply update_one_change; [exact Hk|exact Hc|]. intros m _. by apply quarantined_row.
  - right. left. eapply update_one_change; [exact Hk|exact Hc|]. intros m _. by apply redriven_row.
  - apply delete_ok in Hc as (_ & _ & ->). right. right. by exists lk, cutoff, n.
Qed.

Lemma outbox_step_ok t t' : outbox_ok t -> step t t' -> outbox_ok t'.
Proof.
  intros Ht Hs. pose proof Ht as [Hk Hr].
  destruct (outbox_step_cases _ _ Ht Hs)
    as [(tp & pr & e & Ha & _ & _ & ->)|[Hc|(lk & c & n & ->)]].
  - split.
    + intros i m [[<- <-]|[_ Hl]]%lookup_insert_Some; [done|by apply Hk].
    + intros i m [[<- <-]|[_ Hl]]%lookup_insert_Some; [by apply event_row_ok|by eapply Hr].
  - by eapply table_change_ok.
  - split; intros i m [Hl _]%map_lookup_filter_Some; [by apply Hk|by eapply Hr].
Qed.

(** Row by row: kept, rewritten, or deleted after it was terminal. *)
Lemma outbox_step_row t t' i m :
  outbox_ok t -> step t t' -> t !! i = Some m ->
  (exists m', t' !! i = Some m' /\ row_change m m') \/ is_terminal m = true.
Proof.
  intros Ht Hs Hm. pose proof Ht as [Hk Hr].
  destruct (outbox_step_cases _ _ Ht Hs)
    as [(tp & pr & e & Ha & _ & Hfree & ->)|[Hc|(lk & c & n & ->)]].
  - left. exists m. rewrite lookup_insert_ne by naive_solver. split; [done|by left].
  - left. by eapply table_change_lookup.
  - destruct (bool_decide (om_id m ∈ om_id <$> expired_terminal_outbox lk c n t)) eqn:Ed.
    + right. apply (expired_id _ _ _ _ _ _ Hk Hm), expired_elem in Ed. tauto.
    + left. exists m. split; [|by left]. by rewrite map_lookup_filter_Some.
Qed.

(** What became of message [m] of row [i]. *)
Definition kept (m m' : OutboxMessage) : Prop :=
  same_message m m' /\ rtc status_step (om_status m) (om_status m') /\
  (om_status m = OB_SUCCESS -> m' = m).

Lemma kept_refl m : kept m m.
Proof. split; [done|]. by split. Qed.

Lemma kept_change m m1 m2 : row_change m m1 -> kept m1 m2 -> kept m m2.
Proof.
  intros Hc (Hs & Hr & Hf). split; [eauto using row_change_same with identity|]. split.
  - etrans; [by apply row_change_status|done].
  - intros E. pose proof (row_change_success _ _ Hc E) as ->. by apply Hf.
Qed.

(** C15. No event is lost: whatever statements the relay, the cleaner and the
    writers run, in whatever order, from a well-formed outbox, the table stays
    well-formed, and every message is either still there with its identity,
    topic, key, type, payload and creation instant, in a status its lifecycle
    reaches (and unchanged if it was already SUCCESS), or it was deleted after
    it had become terminal (SUCCESS or QUARANTINED) in an intermediate state. *)
Theorem outbox_no_loss t t' i m :
  outbox_ok t -> rtc step t t' -> t !! i = Some m ->
  outbox_ok t' /\
  ((exists m', t' !! i = Some m' /\ kept m m') \/
   exists t1 m1, rtc step t t1 /\ rtc step t1 t' /\ t1 !! i = Some m1 /\
     kept m m1 /\ is_terminal m1 = true).
Proof.
  intros Ht Hs. revert m Ht. induction Hs as [t|t t2 t3 H12 H23 IH]; intros m Ht Hm.
  { split; [done|]. left. exists m. split; [done|apply kept_refl]. }
  pose proof (outbox_step_ok _ _ Ht H12) as Ht2.
  assert (Ht3 : outbox_ok t3).
  { clear IH Hm H12. induction H23; [done|]. eauto using outbox_step_ok. }
  split; [done|].
  destruct (outbox_step_row _ _ _ _ Ht H12 Hm) as [(m2 & Hm2 & Hc)|Hterm].
  - destruct (IH m2 Ht2 Hm2) as [_ [(m3 & ? & ?)|(t1 & m1 & Ha & Hb & ? & ? & ?)]].
    + left. eauto using kept_change.
    + right. exists t1, m1. split; [by eapply rtc_l|]. eauto using kept_change.
  - right. exists t, m. split; [done|]. split; [by eapply rtc_l|].
    split; [done|]. split; [apply kept_refl|done].
Qed.
End reachable_outbox.

(** ** First in, first out *)

(** Every claimed message precedes all other unfinished messages of its key. *)
Definition fifo (t : outbox_table) : Prop :=
  forall i j a b, t !! i = Some a -> t !! j = Some b -> i <> j ->
    om_status a = OB_CLAIMED -> unfinished b = true -> om_key a = om_key b ->
    earlier_position a b = true.

(** The event comes after the messages of its key that are in the table. *)
Definition in_order (t : outbox_table) (e : UserRegisteredEvent) : Prop :=
  forall i m, t !! i = Some m -> om_key m = partition_key e ->
    earlier_position m (event_row "" "" e) = true.

Lemma earlier_total a b :
  om_id a <> om_id b -> earlier_position b a = false -> earlier_position a b = true.
Proof.
  unfold earlier_position, dt_ltb, dt_eqb.
  rewrite orb_false_iff, orb_true_iff, andb_false_iff, andb_true_iff,
    Z.ltb_ge, Z.eqb_neq, !Z.ltb_lt, Z.ltb_ge, Z.eqb_eq. lia.
Qed.

Lemma same_message_earlier a a' b b' :
  same_message a a' -> same_message b b' -> earlier_position a' b' = earlier_position a b.
Proof.
  unfold same_message, earlier_position.
  by intros (-> & _ & _ & _ & _ & _ & ->) (-> & _ & _ & _ & _ & _ & ->).
Qed.

Lemma same_message_key a a' : same_message a a' -> om_key a' = om_key a.
Proof. by intros (_ & _ & _ & -> & _). Qed.

Lemma unfinished_status m :
  unfinished m = true <-> om_status m = OB_PENDING \/ om_status m = OB_CLAIMED.
Proof. unfold unfinished. by rewrite orb_true_iff, !in_status_true. Qed.

Lemma fifo_update t i m f :
  keyed om_id t -> fifo t -> t !! i = Some m ->
  same_message m (f m) -> om_status (f m) <> OB_CLAIMED ->
  (unfinished (f m) = true -> unfinished m = true \/
     forall j a, t !! j = Some a -> om_key a = om_key m -> earlier_position m a = false) ->
  fifo (<[i := f m]> t).
Proof.
  intros Hk Hf Hm Hs Hst Hun j k a b [[<- <-]|[Hj Ha]]%lookup_insert_Some
    [[<- <-]|[Hk' Hb]]%lookup_insert_Some Hne Hcl Hu Hkey; try done; [|by eauto].
  rewrite (same_message_earlier a a m) by done.
  rewrite (same_message_key _ _ Hs) in Hkey.
  destruct (Hun Hu) as [Hum|Hlast]; [by eauto|].
  apply earlier_total; [rewrite (Hk _ _ Ha), (Hk _ _ Hm); congruence|eauto].
Qed.

Lemma fifo_update_one t i cond f b t' :
  keyed om_id t -> fifo t -> update_one ck_outbox om_id i cond f t = Ok (b, t') ->
  (forall m, t !! i = Some m -> cond m = true ->
     same_message m (f m) /\ status_step (om_status m) (om_status (f m)) /\
     (om_row_ok m -> om_row_ok (f m))) ->
  (forall m, t !! i = Some m -> cond m = true -> om_status (f m) <> OB_CLAIMED /\
     (unfinished m = true \/
      forall j a, t !! j = Some a -> om_key a = om_key m -> earlier_position m a = false)) ->
  fifo t'.
Proof.
  intros Hk Hf Hu Hc Hst. destruct (update_one_change _ _ _ _ _ _ Hk Hu Hc) as [-> _].
  destruct (t !! i) as [m|] eqn:E; [|done]. destruct (cond m) eqn:Ec; [|done].
  destruct (Hst m eq_refl Ec) as [? Hor], (Hc m eq_refl Ec) as [? _].
  apply fifo_update; auto.
Qed.

Lemma has_earlier_false t c :
  has_earlier_nonterminal_for_key t c = false ->
  forall j b, t !! j = Some b -> om_key b = om_key c -> unfinished b = true ->
    earlier_position b c = false.
Proof.
  unfold has_earlier_nonterminal_for_key. rewrite existsb_false. intros H j b Hb Hk Hu.
  assert (Hin : b ∈ rows t) by (apply elem_of_rows; eauto).
  apply H in Hin. unfold same_key in Hin.
  by rewrite Hu, bool_decide_true in Hin by done.
Qed.

Lemma later_exists_false t i m :
  t !! i = Some m -> later_exists (om_id m) t = false ->
  forall j a, t !! j = Some a -> om_key a = om_key m -> earlier_position m a = false.
Proof.
  unfold later_exists. rewrite existsb_false. intros Hm H j a Ha Hk.
  assert (Hin : m ∈ rows t) by (apply elem_of_rows; eauto).
  apply H in Hin. rewrite Z.eqb_refl, andb_true_l, existsb_false in Hin.
  assert (Hin' : a ∈ rows t) by (apply elem_of_rows; eauto).
  apply Hin in Hin'. unfold same_key in Hin'. by rewrite bool_decide_true in Hin' by done.
Qed.

Lemma fifo_claim t lk owner a e n now :
  keyed om_id t -> fifo t ->
  fifo (set_picked om_id (om_set_claim now owner e) (claimable_outbox lk a n t) t).
Proof.
  intros Hk Hf i j x' y'. rewrite !lookup_set_picked, !fmap_Some.
  intros (x & Hx & ->) (y & Hy & ->) Hne Hcl Hu Hkey.
  assert (Hid : om_id x <> om_id y) by (rewrite (Hk _ _ Hx), (Hk _ _ Hy); done).
  assert (Huy : unfinished y = true).
  { destruct (bool_decide (om_id y ∈ _)) eqn:Ey; [|done].
    apply (claimable_outbox_id _ _ _ _ _ _ Hk Hy), claimable_outbox_elem in Ey.
    apply unfinished_status. eapply om_eligible_status, Ey. }
  assert (Hkxy : om_key x = om_key y).
  { revert Hkey. by destruct (bool_decide (om_id x ∈ _)), (bool_decide (om_id y ∈ _)). }
  assert (earlier_position x y = true) as <-.
  { destruct (bool_decide (om_id x ∈ _)) eqn:Ex; [|by eapply Hf].
    apply (claimable_outbox_id _ _ _ _ _ _ Hk Hx), claimable_outbox_elem in Ex
      as (_ & _ & He & _).
    apply earlier_total; [done|]. by eapply has_earlier_false. }
  by destruct (bool_decide (om_id x ∈ _)), (bool_decide (om_id y ∈ _)).
Qed.

Lemma owned_unfinished owner m : om_owns owner m = true -> unfinished m = true.
Proof. intros [Hs _]%om_owns_status. apply unfinished_status. by right. Qed.

Lemma fifo_step t t' :
  outbox_ok t -> fifo t -> outbox_step in_order t t' -> fifo t'.
Proof.
  intros [Hk Hr] Hf [topic producer e t1 Ha Ho Hp|now lk owner a e n l t1 Hn He Hc
    |now i owner a b t1 Hn Ha Hc|now i owner av err b t1 Hn Ha Hc
    |now i owner a err b t1 Hn Ha Hc|now i av b t1 Hn Ha Hc|lk cutoff n k t1 Hc].
  - apply publish_ok in Hp as [_ ->].
    intros i j a b [[<- <-]|[Hi Hl]]%lookup_insert_Some
      [[<- <-]|[Hj Hb]]%lookup_insert_Some Hne Hcl Hu Hkey; try done; [|by eauto].
    rewrite <- (Ho _ _ Hl Hkey). reflexivity.
  - apply claim_batch_table in Hc as ->. by apply fifo_claim.
  - eapply fifo_update_one; [exact Hk|done|exact Hc|intros m _; by apply success_row|].
    intros m _ Hm. eauto using owned_unfinished.
  - eapply fifo_update_one; [exact Hk|done|exact Hc|intros m _; by apply retry_row|].
    intros m _ Hm. eauto using owned_unfinished.
  - eapply fifo_update_one; [exact Hk|done|exact Hc|intros m _; by apply quarantined_row|].
    intros m _ Hm. eauto using owned_unfinished.
  - eapply fifo_update_one; [exact Hk|done|exact Hc|intros m _; by apply redriven_row|].
    intros m Hm [_ Hl%negb_true_iff]%andb_true_iff. split; [done|]. right.
    rewrite <- (Hk _ _ Hm) in Hl. by eapply later_exists_false.
  - apply delete_ok in Hc as (_ & _ & ->).
    intros i j a b [Hi _]%map_lookup_filter_Some [Hj _]%map_lookup_filter_Some. by eapply Hf.
Qed.

(** C16. Order per key: as long as events are published in order (each after the
    messages of its key already in the table), whatever claims, retries,
    quarantines, redrives and clean-ups happen in whatever order, every claimed
    message precedes all other unfinished messages of its key; in particular
    two different messages of one key are never claimed at the same time, so a
    later event of a user is never in flight before an earlier one is settled. *)
Theorem outbox_key_order t t' :
  outbox_ok t -> fifo t -> rtc (outbox_step in_order) t t' ->
  fifo t' /\
  forall i j a b, t' !! i = Some a -> t' !! j = Some b ->
    om_status a = OB_CLAIMED -> om_status b = OB_CLAIMED -> om_key a = om_key b -> i = j.
Proof.
  intros Ht Hf Hs.
  assert (Hok : outbox_ok t' /\ fifo t').
  { induction Hs as [t|t1 t2 t3 H12 _ IH]; [done|].
    apply IH; [by eapply outbox_step_ok|by eapply fifo_step]. }
  destruct Hok as [_ Hf']. split; [done|].
  intros i j a b Hi Hj Ha Hb Hk. destruct (decide (i = j)) as [|Hne]; [done|exfalso].
  assert (Hab : earlier_position a b = true)
    by (apply (Hf' i j); auto; apply unfinished_status; auto).
  assert (Hba : earlier_position b a = true)
    by (apply (Hf' j i); auto; apply unfinished_status; auto).
  revert Hab Hba. unfold earlier_position, dt_ltb, dt_eqb.
  rewrite !orb_true_iff, !andb_true_iff, !Z.ltb_lt, !Z.eqb_eq. lia.
Qed.

(** ** Functional specifications *)

Lemma set_claim_row_ok_ob now owner e a m :
  om_row_ok m -> om_eligible a m = true -> is_aware now = true -> is_aware e = true ->
  om_row_ok (om_set_claim now owner e m).
Proof.
  intros Hm Hel Hn He. by destruct (set_claim_change now owner e a m Hn He Hel) as [->|(H & _)]; auto.
Qed.

(** [claim_batch] does not fail. *)
Lemma claim_runs now locked owner a e n t :
  outbox_ok t -> 0 < n -> dt_us a < dt_us e ->
  is_aware now = true -> is_aware e = true ->
  let l := claimable_outbox locked a n t in
  exists ms,
    claim_batch now locked owner a e n t =
      Ok (ms, set_picked om_id (om_set_claim now owner e) l t) /\
    ms ≡ₚ om_set_claim now owner e <$> l /\ StronglySorted (key_le dispatch_order) ms.
Proof.
  intros [Hk Hr] Hn Hw Hnow He l.
  destruct (update_picked om_id dispatch_order ck_outbox (om_set_claim now owner e)
    locked (claim_condition a t) n t Hk) as (rows & Hup & Hperm).
  { intros m i Hl [Hel _]%andb_true_iff.
    by apply mok_check, (set_claim_row_ok_ob _ _ _ a); eauto. }
  fold (claimable_outbox locked a n t) in Hup, Hperm. fold l in Hup, Hperm.
  exists (order_by dispatch_order rows).
  split; [|split; [by rewrite order_by_perm|apply order_by_sorted]].
  unfold claim_batch.
  rewrite (proj2 (raise_if_ok (n <=? 0) _ tt)) by by apply Z.leb_gt.
  rewrite (proj2 (raise_if_ok (dt_leb e a) _ tt)) by by apply dt_leb_gt.
  cbn [mbind result_bind]. fold l. rewrite Hup. cbn [mbind result_bind].
  rewrite mapM_ok; [done|]. intros x. rewrite elem_of_order_by, Hperm, list_elem_of_fmap.
  intros (m & -> & ([i Hi] & Hm & _)%claimable_outbox_elem).
  apply om_to_domain_ok. eapply set_claim_row_ok_ob; eauto.
Qed.

(** Claiming a batch of messages: on a well-formed outbox, with a positive
    limit and a window that ends after it starts, [claim_batch] cannot fail; it
    claims exactly the picked rows (due or with an expired lease, not locked,
    with no earlier unfinished message of their key), returns them in the order
    of [created_at] and [id], at most [limit] of them and no two of one key, and
    leaves every other row unchanged; and a row that qualifies is left out only
    when the limit is reached by rows that come before it. *)
Theorem outbox_claim_spec now locked owner a e n t :
  outbox_ok t -> 0 < n -> dt_us a < dt_us e ->
  is_aware now = true -> is_aware e = true ->
  let l := claimable_outbox locked a n t in
  exists ms,
    claim_batch now locked owner a e n t =
      Ok (ms, set_picked om_id (om_set_claim now owner e) l t) /\
    ms ≡ₚ (om_set_claim now owner e <$> l) /\
    StronglySorted (key_le dispatch_order) ms /\
    Z.of_nat (length ms) <= n /\
    (forall x y, x ∈ ms -> y ∈ ms -> om_key x = om_key y -> om_id x = om_id y) /\
    (forall i m, t !! i = Some m -> claim_condition a t m = true -> om_id m ∉ locked ->
       m ∉ l -> Z.of_nat (length ms) = n /\ forall x, x ∈ l -> key_le dispatch_order x m).
Proof.
  intros Ht Hn Hw Hnow He l. pose proof Ht as [Hk Hr].
  destruct (claim_runs now locked owner a e n t Ht Hn Hw Hnow He) as (ms & Hrun & Hp & Hs).
  fold l in Hrun, Hp. exists ms. do 3 (split; [done|]).
  assert (Hel : forall x, x ∈ ms -> exists m, x = om_set_claim now owner e m /\ m ∈ l).
  { intros x. by rewrite Hp, list_elem_of_fmap. }
  rewrite (Permutation_length Hp), length_fmap. unfold l, claimable_outbox.
  split; [apply pick_length; lia|]. split.
  - intros x y (mx & -> & Hmx)%Hel (my & -> & Hmy)%Hel. cbn. intros Hkey.
    apply claimable_outbox_elem in Hmx as ([i Hi] & Hex & Hx & _).
    apply claimable_outbox_elem in Hmy as ([j Hj] & Hey & Hy & _).
    assert (Hux := proj2 (unfinished_status _) (om_eligible_status _ _ Hex)).
    assert (Huy := proj2 (unfinished_status _) (om_eligible_status _ _ Hey)).
    pose proof (has_earlier_false _ _ Hx _ _ Hj (eq_sym Hkey) Huy) as H1.
    pose proof (has_earlier_false _ _ Hy _ _ Hi Hkey Hux) as H2.
    destruct (decide (om_id mx = om_id my)) as [|Hne]; [done|].
    by rewrite (earlier_total _ _ Hne H1) in H2.
  - intros i m Hl Hc Hlk Hnl.
    exact (pick_left_out _ _ _ _ _ _ _ _ (Z.lt_le_incl _ _ Hn) Hl Hc Hlk Hnl).
Qed.

(** The statements of the relay and the operator: on a well-formed outbox
    [finalize_published], [schedule_retry] and [quarantine] change exactly the
    named message, exactly while it is CLAIMED with this owner's token, and
    [redrive_quarantined] exactly a QUARANTINED message with no later message
    of its key; each then returns [True] with the row its SET clause describes,
    and otherwise returns [False] and leaves the table unchanged. *)
Theorem outbox_statements_spec t now i owner at_ err :
  outbox_ok t -> is_aware now = true -> is_aware at_ = true ->
  finalize_published now i owner at_ t
    = updated_one i (om_owns owner) (om_set_success now at_) t /\
  schedule_retry now i owner at_ err t
    = updated_one i (om_owns owner) (om_set_retry now at_ err) t /\
  quarantine now i owner at_ err t
    = updated_one i (om_owns owner) (om_set_quarantined now at_ err) t /\
  redrive_quarantined now i at_ t
    = updated_one i (fun m => in_status m OB_QUARANTINED && negb (later_exists i t))
        (om_set_redriven now at_) t.
Proof.
  intros [Hk Hr] Hn Ha. repeat split; apply update_one_spec; try done; intros m Hm Hc;
    apply mok_check.
  - by eapply success_row, Hr.
  - by eapply retry_row, Hr.
  - by eapply quarantined_row, Hr.
  - by eapply redriven_row, Hr.
Qed.

(** Clean-up: [delete_terminal_before] refuses a non-positive limit;
    otherwise it removes exactly the picked messages, each SUCCESS or
    QUARANTINED since before the cutoff and not locked, at most [limit] of them,
    oldest first, returns how many it removed, and keeps every other message. *)
Theorem outbox_cleanup_spec locked cutoff n t :
  outbox_ok t ->
  let l := expired_terminal_outbox locked cutoff n t in
  (n <= 0 -> delete_terminal_before locked cutoff n t = Err EValueError) /\
  (0 < n -> exists t', delete_terminal_before locked cutoff n t =
       Ok (Z.of_nat (length l), t') /\
     Z.of_nat (length l) <= n /\
     (forall i m, t' !! i = Some m <-> t !! i = Some m /\ m ∉ l) /\
     (forall m, m ∈ l -> is_terminal m = true /\
        exists d, om_terminal_at m = Some d /\ dt_us d < dt_us cutoff)).
Proof.
  intros [Hk Hr] l. unfold delete_terminal_before. fold l. split.
  { intros Hn. by rewrite (proj2 (Z.leb_le _ _) Hn). }
  intros Hn. rewrite (proj2 (Z.leb_gt _ _) Hn).
  eexists. split; [|split; [|split]].
  - cbn. do 3 f_equal. unfold l, expired_terminal_outbox.
    apply Permutation_length, (select_picked _ _ _ _ _ _ Hk).
  - unfold l, expired_terminal_outbox. apply pick_length. lia.
  - intros i m. rewrite map_lookup_filter_Some. cbn. split.
    + intros [Hm Hd]. split; [done|]. unfold l.
      rewrite <- (expired_id _ _ _ _ _ _ Hk Hm). fold l. by rewrite Hd.
    + intros [Hm Hd]. split; [done|]. apply not_true_is_false.
      unfold l. by rewrite (expired_id _ _ _ _ _ _ Hk Hm).
  - intros m (_ & Ht & Hb & _)%expired_elem. split; [done|].
    unfold before in Hb. destruct (om_terminal_at m) as [d|]; [|done].
    exists d. by apply dt_ltb_lt in Hb.
Qed.

(** The first message of a list in the order of [created_at, id]. *)
Lemma first_message (l : list OutboxMessage) :
  l <> [] -> exists m, m ∈ l /\ forall x, x ∈ l -> earlier_position x m = false.
Proof.
  induction l as [|m l IH]; [done|]. intros _. destruct l as [|m' l'].
  - exists m. split; [set_solver|]. intros x ->%list_elem_of_singleton.
    unfold earlier_position, dt_ltb, dt_eqb. by rewrite !Z.ltb_irrefl, andb_false_r.
  - destruct IH as (x & Hx & Hmin); [done|].
    destruct (earlier_position m x) eqn:E.
    + exists m. split; [set_solver|]. intros y [->|Hy]%elem_of_cons.
      * unfold earlier_position, dt_ltb, dt_eqb. by rewrite !Z.ltb_irrefl, andb_false_r.
      * specialize (Hmin y Hy). revert Hmin E.
        unfold earlier_position, dt_ltb, dt_eqb.
        rewrite !orb_false_iff, !orb_true_iff, !andb_false_iff, !andb_true_iff,
          !Z.ltb_ge, !Z.ltb_lt, !Z.eqb_neq, !Z.eqb_eq. lia.
    + exists x. split; [by right|]. intros y [->|Hy]%elem_of_cons; auto.
Qed.

(** C32. The queue does not stall: on a well-formed outbox with unfinished
    messages, if all of them are due (or their leases have expired) and no other
    transaction holds them, a claim returns at least one message. *)
Theorem outbox_progress now owner a e n t i m :
  outbox_ok t -> 0 < n -> dt_us a < dt_us e ->
  is_aware now = true -> is_aware e = true ->
  t !! i = Some m -> unfinished m = true ->
  (forall j x, t !! j = Some x -> unfinished x = true -> om_eligible a x = true) ->
  exists m1 ms t', claim_batch now ∅ owner a e n t = Ok (m1 :: ms, t').
Proof.
  intros Ht Hn Hw Hnow He Hm Hu Hdue. pose proof Ht as [Hk Hr].
  destruct (first_message (select unfinished t)) as (h & Hh & Hmin).
  { intros Hnil. assert (m ∈ select unfinished t) as Hin by (rewrite elem_of_select; eauto).
    rewrite Hnil in Hin. by apply not_elem_of_nil in Hin. }
  apply elem_of_select in Hh as [[j Hj] Hhu].
  assert (Hc : claim_condition a t h = true).
  { unfold claim_condition. rewrite (Hdue _ _ Hj Hhu). apply negb_true_iff.
    unfold has_earlier_nonterminal_for_key. apply existsb_false.
    intros x [k Hx]%elem_of_rows. apply not_true_is_false. intros Hbad.
    rewrite !andb_true_iff in Hbad. destruct Hbad as [[_ Hxu] Hxe].
    assert (Hin : x ∈ select unfinished t) by (rewrite elem_of_select; eauto).
    by rewrite (Hmin _ Hin) in Hxe. }
  destruct (claim_runs now ∅ owner a e n t Ht Hn Hw Hnow He) as (ms & -> & Hp & _).
  destruct ms as [|m1 ms]; [exfalso|by eauto].
  apply Permutation_nil, fmap_nil_inv in Hp.
  unfold claimable_outbox in Hp.
  destruct (pick_left_out om_id dispatch_order ∅ (claim_condition a t) n t j h)
    as [Hlen _]; [lia|done|done|set_solver| |].
  - rewrite Hp. apply not_elem_of_nil.
  - rewrite Hp in Hlen. cbn in Hlen. lia.
Qed.

(** Publishing: on a well-formed outbox an aware event whose identifier is
    new is stored as a valid PENDING message due at [occurred_at]; an identifier
    already present raises an integrity error; and for identifiers in the range
    of UUIDs two events share a partition key, hence an order, exactly when they
    are about the same user. *)
Theorem publish_spec topic producer e t :
  outbox_ok t -> is_aware (ev_registered_at e) = true ->
  publish topic producer e t =
    match t !! ev_event_id e with
    | Some _ => Err UniqueViolation
    | None => Ok (<[ev_event_id e := event_row topic producer e]> t)
    end /\
  OutboxMessage_validate (event_row topic producer e) = Ok (event_row topic producer e) /\
  (forall a, dt_us (ev_registered_at e) <= dt_us a ->
     om_eligible a (event_row topic producer e) = true) /\
  (forall e', 0 <= ev_user_id e < 2 ^ 128 -> 0 <= ev_user_id e' < 2 ^ 128 ->
     partition_key e = partition_key e' <-> ev_user_id e = ev_user_id e').
Proof.
  intros Ht Ha. split; [|split; [|split]].
  - unfold publish. cbn. by destruct (t !! ev_event_id e).
  - apply om_validate_iff. destruct (event_row_ok topic producer e Ha). done.
  - intros a Hle. unfold om_eligible. cbn. unfold occurred_at.
    by rewrite (proj2 (dt_leb_le _ _) Hle).
  - intros e' Hu Hu'. unfold partition_key. split; [by apply uuid_str_inj|by intros ->].
Qed.

(** ** Instances at a concrete table *)

Definition demo_event (user id at_ : Z) : UserRegisteredEvent :=
  {| ev_user_id := user; ev_registered_at := utc at_; ev_correlation_id := 5;
     ev_causation_id := None; ev_event_id := id |}.

Definition demo_message (user id at_ : Z) : OutboxMessage :=
  event_row "users" "identity" (demo_event user id at_).

(** Two messages of user 7 and one of user 8. *)
Definition demo_outbox : outbox_table :=
  {[ 1 := demo_message 7 1 10; 2 := demo_message 7 2 20; 3 := demo_message 8 3 30 ]}.

Lemma demo_outbox_inv (P : Z -> OutboxMessage -> Prop) :
  P 1 (demo_message 7 1 10) -> P 2 (demo_message 7 2 20) -> P 3 (demo_message 8 3 30) ->
  forall i m, demo_outbox !! i = Some m -> P i m.
Proof.
  intros H1 H2 H3 i m. unfold demo_outbox.
  intros [[<- <-]|[_ [[<- <-]|[_ [<- <-]%lookup_singleton_Some]]%lookup_insert_Some]]
    %lookup_insert_Some; done.
Qed.

Lemma demo_outbox_ok : outbox_ok demo_outbox.
Proof.
  split; intros i m; revert i m; apply demo_outbox_inv; try done; by apply event_row_ok.
Qed.

Lemma demo_outbox_fifo : fifo demo_outbox.
Proof.
  intros i j a b Ha _ _ Hcl _ _. exfalso. revert Hcl. pattern i, a. revert i a Ha.
  by apply demo_outbox_inv.
Qed.

Definition demo_claim : list OutboxMessage * outbox_table :=
  match claim_batch (utc 60) ∅ 77 (utc 60) (utc 90) 10 demo_outbox with
  | Ok r => r
  | Err _ => ([], ∅)
  end.

Lemma demo_claim_step fresh : rtc (outbox_step fresh) demo_outbox (demo_claim.2).
Proof.
  apply rtc_once, (os_claim fresh _ (utc 60) ∅ 77 (utc 60) (utc 90) 10 demo_claim.1);
    vm_compute; reflexivity.
Qed.

Lemma outbox_no_loss_witness :
  rtc (outbox_step in_order) demo_outbox demo_claim.2 /\
  om_status <$> demo_claim.2 !! 1 = Some OB_CLAIMED /\
  ((exists m', demo_claim.2 !! 1 = Some m' /\ kept (demo_message 7 1 10) m') \/
   exists t1 m1, rtc (outbox_step in_order) demo_outbox t1 /\
     rtc (outbox_step in_order) t1 demo_claim.2 /\ t1 !! 1 = Some m1 /\
     kept (demo_message 7 1 10) m1 /\ is_terminal m1 = true).
Proof.
  split; [apply demo_claim_step|]. split; [vm_compute; reflexivity|].
  exact (proj2 (outbox_no_loss in_order demo_outbox demo_claim.2 1 (demo_message 7 1 10)
    demo_outbox_ok (demo_claim_step in_order) eq_refl)).
Defined.

Lemma outbox_key_order_witness :
  (om_id <$> demo_claim.1) = [1; 3] /\ fifo demo_claim.2.
Proof.
  split; [vm_compute; reflexivity|].
  exact (proj1 (outbox_key_order demo_outbox demo_claim.2 demo_outbox_ok demo_outbox_fifo
    (demo_claim_step in_order))).
Defined.

Lemma outbox_claim_spec_witness :
  exists ms, claim_batch (utc 60) ∅ 77 (utc 60) (utc 90) 10 demo_outbox =
      Ok (ms, set_picked om_id (om_set_claim (utc 60) 77 (utc 90))
                (claimable_outbox ∅ (utc 60) 10 demo_outbox) demo_outbox) /\
    length ms = 2%nat.
Proof.
  destruct (outbox_claim_spec (utc 60) ∅ 77 (utc 60) (utc 90) 10 demo_outbox demo_outbox_ok
    ltac:(lia) ltac:(cbn; lia) eq_refl eq_refl) as (ms & Hrun & Hp & _).
  exists ms. split; [exact Hrun|]. rewrite Hp. vm_compute. reflexivity.
Defined.

Lemma outbox_statements_spec_witness :
  finalize_published (utc 70) 1 77 (utc 70) demo_claim.2 =
    updated_one 1 (om_owns 77) (om_set_success (utc 70) (utc 70)) demo_claim.2 /\
  is_ok (finalize_published (utc 70) 1 77 (utc 70) demo_claim.2) = true.
Proof.
  split; [|vm_compute; reflexivity].
  refine (proj1 (outbox_statements_spec demo_claim.2 (utc 70) 1 77 (utc 70) "E"
    _ eq_refl eq_refl)).
  pose proof (demo_claim_step in_order) as H. revert H. generalize demo_claim.2.
  intros t H. pose proof demo_outbox_ok as H0. induction H; [exact H0|].
  eauto using outbox_step_ok.
Defined.

Lemma outbox_cleanup_spec_witness :
  delete_terminal_before ∅ (utc 99) 0 demo_outbox = Err EValueError /\
  exists t', delete_terminal_before ∅ (utc 99) 5 demo_outbox = Ok (0, t').
Proof.
  split.
  - apply (outbox_cleanup_spec ∅ (utc 99) 0 demo_outbox demo_outbox_ok). lia.
  - destruct (proj2 (outbox_cleanup_spec ∅ (utc 99) 5 demo_outbox demo_outbox_ok)
      ltac:(lia)) as (t' & Ht' & _). exists t'. exact Ht'.
Defined.

Lemma outbox_progress_witness :
  exists m1 ms t', claim_batch (utc 60) ∅ 77 (utc 60) (utc 90) 10 demo_outbox =
    Ok (m1 :: ms, t').
Proof.
  apply (outbox_progress (utc 60) 77 (utc 60) (utc 90) 10 demo_outbox 1
    (demo_message 7 1 10) demo_outbox_ok); [lia|cbn; lia|reflexivity..|].
  apply (demo_outbox_inv (fun _ x => unfinished x = true -> om_eligible (utc 60) x = true));
    reflexivity.
Defined.

Lemma publish_spec_witness :
  publish "users" "identity" (demo_event 9 4 40) demo_outbox =
    Ok (<[4 := demo_message 9 4 40]> demo_outbox) /\
  partition_key (demo_event 9 4 40) <> partition_key (demo_event 8 4 40).
Proof.
  destruct (publish_spec "users" "identity" (demo_event 9 4 40) demo_outbox
    demo_outbox_ok eq_refl) as (H & _ & _ & Hk).
  split; [exact H|]. intros E. apply Hk in E; cbn in *; lia.
Defined.
