(* ===== verification/Effects.v ===== *)
(** * Effects: transactions, clocks and external calls

    [infrastructure/database/uow.py] and [exceptions.py], and the monads in which
    handlers and workers are written.

    An environment decides everything a run does not: clock readings, new UUIDs,
    what other transactions commit meanwhile, which rows they hold locked, which
    statements and commits fail and whether a failed commit was applied.  Each is
    a function of a tick that every effect advances, so a theorem quantified over
    environments speaks of every schedule.

    Inside a transaction other transactions may commit before each statement
    (READ COMMITTED).  [tx_base] is the database without this transaction's
    writes and [tx_view] the database it sees; both receive what the others
    commit.  Committing publishes the view, rolling back leaves the base. *)

From S2P Require Import Prelude Exceptions Retry.

(** ** infrastructure/database/exceptions.py *)

Definition starts_with (p s : string) : bool := String.prefix p s.

(** [getattr(orig, "sqlstate") or getattr(orig, "pgcode")]: an empty string is
    false. *)
Definition sql_code (sqlstate pgcode : option string) : option string :=
  match sqlstate with
  | Some s => if bool_decide (s = ""%string) then pgcode else Some s
  | None => pgcode
  end.

Definition conflict_code (c : option string) : bool :=
  bool_decide (c = Some "40001"%string \/ c = Some "40P01"%string).

Definition unavailable_code (c : option string) : bool :=
  match c with
  | Some s => starts_with "08" s
      || bool_decide (s ∈ ["57P01"; "57P02"; "57P03"]%string)
  | None => false
  end.

Definition translate_database_error (error : db_error) : persistence_error :=
  match error with
  | ConnectionError | TimeoutError => PersistenceUnavailableError
  | DBAPIError integrity sqlstate pgcode invalidated =>
      let code := sql_code sqlstate pgcode in
      if conflict_code code then TransactionConflictError
      else if invalidated || unavailable_code code then PersistenceUnavailableError
      else if integrity then PersistenceIntegrityError
      else PersistenceError
  | PoolTimeoutError | DisconnectionError => PersistenceUnavailableError
  | OtherSQLAlchemyError => PersistenceError
  end.

(** What leaves the unit of work when its body raised [e]. *)
Definition translate (e : exn) : exn :=
  match e with
  | EDatabase d => translate_database_error d
  | _ => e
  end.

(** ** Environments and worlds *)

(** A row some transaction has locked: its table and its key. *)
Record row_lock := RowLock { lock_table : string; lock_key : Z }.

#[global] Instance row_lock_eq_dec : EqDecision row_lock.
Proof. solve_decision. Defined.
#[global] Program Instance row_lock_countable : Countable row_lock :=
  inj_countable (fun l => (lock_table l, lock_key l)) (fun p => Some (RowLock p.1 p.2)) _.
Next Obligation. by intros []. Qed.

Section effects.
Context {DB Ev : Type}.

Record env := {
  clock : nat -> datetime;
  new_uuid : nat -> uuid;
  random_sample : nat -> float;
  (** what the others committed since the last statement, while the running
      transaction held these row locks *)
  others : nat -> gset row_lock -> DB -> DB;
  (** [now()] of the transaction that starts at the tick *)
  db_clock : nat -> datetime;
  (** rows other transactions hold locked *)
  locked_rows : nat -> gset Z;
  statement_fault : nat -> option db_error;
  (** the commit fails, after or before it took effect *)
  commit_fault : nat -> option (db_error * bool)
}.

Record world := { w_db : DB; w_tick : nat; w_trace : list Ev }.

(** ** Transactions *)

Record tx := {
  tx_base : DB;
  tx_view : DB;
  tx_tick : nat;
  tx_now : datetime;
  tx_locks : gset row_lock
}.

Definition T (A : Type) : Type := env -> tx -> res A * tx.

#[global] Instance T_ret : MRet T := fun A a _ t => (Ok a, t).
#[global] Instance T_bind : MBind T := fun A B f m e t =>
  match m e t with
  | (Ok a, t') => f a e t'
  | (Err x, t') => (Err x, t')
  end.

Definition t_lift {A} (r : res A) : T A := fun _ t => (r, t).

(** One SQL statement, a function of [now()], the rows others hold locked and the
    tables.  [takes] is what it does to the row locks the transaction holds when it
    succeeds. *)
Definition locking_stmt {A} (takes : A -> gset row_lock -> gset row_lock)
    (f : datetime -> gset Z -> DB -> res (A * DB)) : T A := fun e t =>
  let n := tx_tick t in
  let held := tx_locks t in
  let base := others e n held (tx_base t) in
  let view := others e n held (tx_view t) in
  let after v l := {| tx_base := base; tx_view := v; tx_tick := S n; tx_now := tx_now t;
                      tx_locks := l |} in
  match statement_fault e n with
  | Some d => (Err (EDatabase d), after view held)
  | None =>
      match f (tx_now t) (locked_rows e n) view with
      | Ok (a, v) => (Ok a, after v (takes a held))
      | Err x => (Err x, after view held)
      end
  end.

(** A statement whose row locks nothing relies on. *)
Definition stmt {A} (f : datetime -> gset Z -> DB -> res (A * DB)) : T A :=
  locking_stmt (fun _ held => held) f.

(** A query changes nothing. *)
Definition query {A} (f : DB -> res A) : T A :=
  stmt (fun _ _ db => a ← f db; mret (a, db)).

(** A clock reading or a new UUID while the transaction is open. *)
Definition t_tick {A} (f : env -> nat -> A) : T A := fun e t =>
  (Ok (f e (tx_tick t)),
   {| tx_base := tx_base t; tx_view := tx_view t; tx_tick := S (tx_tick t);
      tx_now := tx_now t; tx_locks := tx_locks t |}).

(** ** Programs *)

Definition M (A : Type) : Type := env -> world -> res A * world.

#[global] Instance M_ret : MRet M := fun A a _ w => (Ok a, w).
#[global] Instance M_bind : MBind M := fun A B f m e w =>
  match m e w with
  | (Ok a, w') => f a e w'
  | (Err x, w') => (Err x, w')
  end.

Definition lift {A} (r : res A) : M A := fun _ w => (r, w).

Definition tick {A} (f : env -> nat -> A) : M A := fun e w =>
  (Ok (f e (w_tick w)),
   {| w_db := w_db w; w_tick := S (w_tick w); w_trace := w_trace w |}).

Definition get_now : M datetime := tick clock.
Definition get_uuid : M uuid := tick new_uuid.
Definition get_jitter : M float := tick random_sample.

(** Record an external call. *)
Definition emit (ev : Ev) : M unit := fun _ w =>
  (Ok tt, {| w_db := w_db w; w_tick := w_tick w; w_trace := ev :: w_trace w |}).

(** [try: m]: the value or the exception, for the [except] clauses to match. *)
Definition attempt {A} (m : M A) : M (res A) := fun e w =>
  let '(r, w') := m e w in (Ok r, w').

(** A call to a service outside the process: it answers what it likes at each
    tick, and the call is recorded with its answer. *)
Definition call {A} (answer : nat -> res A) (ev : res A -> Ev) : M A := fun e w =>
  let r := answer (w_tick w) in
  (r, {| w_db := w_db w; w_tick := S (w_tick w); w_trace := ev r :: w_trace w |}).

(** [async with uow: body]: [SQLAlchemyAsyncUOW.__aexit__]. *)
Definition transaction {A} (body : T A) : M A := fun e w =>
  let n := w_tick w in
  let '(r, t) := body e {| tx_base := w_db w; tx_view := w_db w; tx_tick := S n;
                           tx_now := db_clock e n; tx_locks := ∅ |} in
  let after db := {| w_db := db; w_tick := S (tx_tick t); w_trace := w_trace w |} in
  match r with
  | Err x => (Err (translate x), after (tx_base t))
  | Ok a =>
      match commit_fault e (tx_tick t) with
      | None => (Ok a, after (tx_view t))
      | Some (d, applied) =>
          (Err (translate_database_error d : exn),
           after (if applied then tx_view t else tx_base t))
      end
  end.
End effects.
Arguments env : clear implicits.
Arguments world : clear implicits.
Arguments tx : clear implicits.
Arguments T : clear implicits.
Arguments M : clear implicits.

(** ** Reasoning about programs *)

Section logic.
Context {DB Ev : Type} (e : env DB).

(** [mspec P m Q X]: from a world satisfying [P], a run of [m] ends either with
    a value and [Q] or with an exception and [X].  Every program terminates. *)
Definition mspec {A} (P : world DB Ev -> Prop) (m : M DB Ev A)
    (Q : A -> world DB Ev -> Prop) (X : exn -> world DB Ev -> Prop) : Prop :=
  forall w, P w -> match m e w with
                   | (Ok a, w') => Q a w'
                   | (Err x, w') => X x w'
                   end.

Lemma mspec_ret {A} (a : A) (P : world DB Ev -> Prop) Q X :
  (forall w, P w -> Q a w) -> mspec P (mret a) Q X.
Proof. intros H w Hw. by apply H. Qed.

Lemma mspec_bind {A B} (m : M DB Ev A) (f : A -> M DB Ev B) P R Q X :
  mspec P m R X -> (forall a, mspec (R a) (f a) Q X) -> mspec P (m ≫= f) Q X.
Proof.
  intros Hm Hf w Hw. specialize (Hm w Hw). unfold mbind, M_bind.
  destruct (m e w) as [[a|x] w']; [exact (Hf a w' Hm)|exact Hm].
Qed.

Lemma mspec_weaken {A} (m : M DB Ev A) (P P' : world DB Ev -> Prop) Q Q' X X' :
  mspec P m Q X -> (forall w, P' w -> P w) -> (forall a w, Q a w -> Q' a w) ->
  (forall x w, X x w -> X' x w) -> mspec P' m Q' X'.
Proof.
  intros Hm HP HQ HX w Hw. specialize (Hm w (HP w Hw)).
  destruct (m e w) as [[a|x] w']; auto.
Qed.

Lemma mspec_lift {A} (r : res A) (P : world DB Ev -> Prop) Q X :
  (forall a w, r = Ok a -> P w -> Q a w) -> (forall x w, r = Err x -> P w -> X x w) ->
  mspec P (lift r) Q X.
Proof. intros HQ HX w Hw. unfold lift. destruct r; auto. Qed.

Lemma mspec_raise {A} x (P : world DB Ev -> Prop) (Q : A -> world DB Ev -> Prop) X :
  (forall w, P w -> X x w) -> mspec P (lift (raise x)) Q X.
Proof. intros H w Hw. by apply H. Qed.

Lemma mspec_attempt {A} (m : M DB Ev A) P Q X :
  mspec P m (fun a => Q (Ok a)) (fun x => Q (Err x)) -> mspec P (attempt m) Q X.
Proof.
  intros Hm w Hw. specialize (Hm w Hw). unfold attempt.
  destruct (m e w) as [[a|x] w']; done.
Qed.

(** Running a bind whose first part succeeds. *)
Lemma run_bind {A B} (m : M DB Ev A) (f : A -> M DB Ev B) w a w' :
  m e w = (Ok a, w') -> (m ≫= f) e w = f a e w'.
Proof. unfold mbind, M_bind. by intros ->. Qed.

Lemma run_lift {A} (r : res A) (a : A) (w : world DB Ev) :
  r = Ok a -> lift r e w = (Ok a, w).
Proof. by intros ->. Qed.

Lemma run_t_bind {A B} (m : T DB A) (f : A -> T DB B) t a t' :
  m e t = (Ok a, t') -> (m ≫= f) e t = f a e t'.
Proof. unfold mbind, T_bind. by intros ->. Qed.

(** Effects that leave the tables alone, for assertions about the tables only. *)
Lemma mspec_tick {A} (f : env DB -> nat -> A) (P : DB -> Prop) (Q : A -> DB -> Prop) X :
  (forall n db, P db -> Q (f e n) db) ->
  mspec (fun w => P (w_db w)) (tick f) (fun a w => Q a (w_db w)) X.
Proof. intros H w Hw. by apply H. Qed.

Lemma mspec_emit ev (P : DB -> Prop) X :
  mspec (fun w => P (w_db w)) (emit ev) (fun _ w => P (w_db w)) X.
Proof. intros w Hw. done. Qed.

Lemma mspec_call {A} (answer : nat -> res A) ev (P : DB -> Prop) :
  mspec (fun w => P (w_db w)) (call answer ev) (fun _ w => P (w_db w))
    (fun _ w => P (w_db w)).
Proof. intros w Hw. unfold call. by destruct (answer (w_tick w)). Qed.

(** [lspec I P body Q]: from a base satisfying [I] and row locks and a view
    satisfying [P], a body ends with a base satisfying [I], and with [Q] of the
    locks and the view if it succeeds; [now()] of the transaction is an aware
    instant throughout. *)
Definition lspec {A : Type} (I : DB -> Prop) (P : gset row_lock -> DB -> Prop) (body : T DB A)
    (Q : A -> gset row_lock -> DB -> Prop) : Prop :=
  forall t, is_aware (tx_now t) = true -> I (tx_base t) -> P (tx_locks t) (tx_view t) ->
    match body e t with
    | (Ok a, t') =>
        is_aware (tx_now t') = true /\ I (tx_base t') /\ Q a (tx_locks t') (tx_view t')
    | (Err _, t') => I (tx_base t')
    end.

Lemma lspec_ret {A : Type} (a : A) (I : DB -> Prop) (P : gset row_lock -> DB -> Prop) Q :
  (forall l db, P l db -> Q a l db) -> lspec I P (mret a) Q.
Proof. intros H t Ha HI HP. split; [done|]. split; [done|]. by apply H. Qed.

Lemma lspec_bind {A B : Type} (m : T DB A) (f : A -> T DB B) (I : DB -> Prop)
    (P : gset row_lock -> DB -> Prop) R Q :
  lspec I P m R -> (forall a, lspec I (R a) (f a) Q) -> lspec I P (m ≫= f) Q.
Proof.
  intros Hm Hf t Ha HI HP. specialize (Hm t Ha HI HP). unfold mbind, T_bind.
  destruct (m e t) as [[a|x] t']; [|exact Hm].
  destruct Hm as (Ha' & HI' & HR). exact (Hf a t' Ha' HI' HR).
Qed.

Lemma lspec_weaken {A : Type} (body : T DB A) (I : DB -> Prop)
    (P P' : gset row_lock -> DB -> Prop)
    (Q Q' : A -> gset row_lock -> DB -> Prop) :
  lspec I P body Q -> (forall l db, P' l db -> P l db) ->
  (forall a l db, Q a l db -> Q' a l db) -> lspec I P' body Q'.
Proof.
  intros Hb HP HQ t Ha HI HP'. specialize (Hb t Ha HI (HP _ _ HP')).
  destruct (body e t) as [[a|x] t']; [|done]. destruct Hb as (? & ? & ?). auto.
Qed.

Lemma lspec_pure {A : Type} (body : T DB A) (phi : Prop) (I : DB -> Prop) (P : gset row_lock -> DB -> Prop) Q :
  (phi -> lspec I P body Q) -> lspec I (fun l db => phi /\ P l db) body Q.
Proof. intros Hb t Ha HI [Hphi HP]. exact (Hb Hphi t Ha HI HP). Qed.

Lemma lspec_lift {A : Type} (r : res A) (I : DB -> Prop) (P : gset row_lock -> DB -> Prop) Q :
  (forall a l db, r = Ok a -> P l db -> Q a l db) -> lspec I P (t_lift r) Q.
Proof. intros H t Ha HI HP. unfold t_lift. destruct r; [auto|done]. Qed.

Lemma lspec_tick {A : Type} (f : env DB -> nat -> A) (I : DB -> Prop) (P : gset row_lock -> DB -> Prop) Q :
  (forall n l db, P l db -> Q (f e n) l db) -> lspec I P (t_tick f) Q.
Proof. intros H t Ha HI HP. split; [done|]. split; [done|]. by apply H. Qed.

Lemma lspec_stmt {A : Type} takes (f : datetime -> gset Z -> DB -> res (A * DB)) (I : DB -> Prop)
    (P : gset row_lock -> DB -> Prop) Q :
  (forall n l db, I db -> I (others e n l db)) ->
  (forall n l db, P l db -> P l (others e n l db)) ->
  (forall now lk l db a db', is_aware now = true -> P l db ->
     f now lk db = Ok (a, db') -> Q a (takes a l) db') ->
  lspec I P (locking_stmt takes f) Q.
Proof.
  intros HI HP HQ t Ha Hb Hv. unfold locking_stmt.
  destruct (statement_fault e _); cbn; [by auto|].
  destruct (f _ _ _) as [[a db']|x] eqn:E; cbn; [|by auto].
  split; [done|]. split; [by auto|]. by eapply HQ; [|apply HP|exact E].
Qed.

(** [tspec I P body Q]: from a base satisfying [I] and a view satisfying [P], a
    body ends with a base satisfying [I], and with [Q] of the view if it
    succeeds; [now()] of the transaction is an aware instant throughout. *)
Definition tspec {A} (I P : DB -> Prop) (body : T DB A) (Q : A -> DB -> Prop) : Prop :=
  forall t, is_aware (tx_now t) = true -> I (tx_base t) -> P (tx_view t) ->
    match body e t with
    | (Ok a, t') => is_aware (tx_now t') = true /\ I (tx_base t') /\ Q a (tx_view t')
    | (Err _, t') => I (tx_base t')
    end.

Lemma tspec_ret {A} (a : A) I (P : DB -> Prop) Q :
  (forall db, P db -> Q a db) -> tspec I P (mret a) Q.
Proof. intros H t Ha HI HP. split; [done|]. split; [done|]. by apply H. Qed.

Lemma tspec_bind {A B} (m : T DB A) (f : A -> T DB B) I P R Q :
  tspec I P m R -> (forall a, tspec I (R a) (f a) Q) -> tspec I P (m ≫= f) Q.
Proof.
  intros Hm Hf t Ha HI HP. specialize (Hm t Ha HI HP). unfold mbind, T_bind.
  destruct (m e t) as [[a|x] t']; [|exact Hm].
  destruct Hm as (Ha' & HI' & HR). exact (Hf a t' Ha' HI' HR).
Qed.

Lemma tspec_weaken {A} (body : T DB A) I (P P' : DB -> Prop) (Q Q' : A -> DB -> Prop) :
  tspec I P body Q -> (forall db, P' db -> P db) -> (forall a db, Q a db -> Q' a db) ->
  tspec I P' body Q'.
Proof.
  intros Hb HP HQ t Ha HI HP'. specialize (Hb t Ha HI (HP _ HP')).
  destruct (body e t) as [[a|x] t']; [|done]. destruct Hb as (? & ? & ?). auto.
Qed.

Lemma tspec_pure {A} (body : T DB A) (phi : Prop) I (P : DB -> Prop) Q :
  (phi -> tspec I P body Q) -> tspec I (fun db => phi /\ P db) body Q.
Proof. intros Hb t Ha HI [Hphi HP]. exact (Hb Hphi t Ha HI HP). Qed.

Lemma tspec_lift {A} (r : res A) I (P : DB -> Prop) Q :
  (forall a db, r = Ok a -> P db -> Q a db) -> tspec I P (t_lift r) Q.
Proof. intros H t Ha HI HP. unfold t_lift. destruct r; [auto|done]. Qed.

Lemma tspec_tick {A} (f : env DB -> nat -> A) I (P : DB -> Prop) Q :
  (forall n db, P db -> Q (f e n) db) -> tspec I P (t_tick f) Q.
Proof. intros H t Ha HI HP. split; [done|]. split; [done|]. by apply H. Qed.

Lemma tspec_stmt {A} (f : datetime -> gset Z -> DB -> res (A * DB)) (I P : DB -> Prop) Q :
  (forall n l db, I db -> I (others e n l db)) ->
  (forall n l db, P db -> P (others e n l db)) ->
  (forall now lk db a db', is_aware now = true -> P db ->
     f now lk db = Ok (a, db') -> Q a db') ->
  tspec I P (stmt f) Q.
Proof.
  intros HI HP HQ t Ha Hb Hv. unfold stmt, locking_stmt.
  destruct (statement_fault e _); cbn; [by auto|].
  destruct (f _ _ _) as [[a db']|x] eqn:E; cbn; [|by auto].
  split; [done|]. split; [by auto|]. by eapply HQ; [|apply HP|exact E].
Qed.

Lemma tspec_query {A} (f : DB -> res A) (I P : DB -> Prop) Q :
  (forall n l db, I db -> I (others e n l db)) ->
  (forall n l db, P db -> P (others e n l db)) ->
  (forall db a, P db -> f db = Ok a -> Q a db) -> tspec I P (query f) Q.
Proof.
  intros HI HP HQ. apply tspec_stmt; [done..|].
  intros now lk db a db' _ Hp. destruct (f db) eqn:E; [|done]. intros [= <- <-]. auto.
Qed.

(** The unit of work: whatever happens the tables satisfy [I], and after a
    normal exit [Q]. *)
Lemma mspec_transaction {A} (body : T DB A) (I P : DB -> Prop) (Q : A -> DB -> Prop) :
  (forall n, is_aware (db_clock e n) = true) ->
  (forall db, P db -> I db) ->
  tspec I P body (fun a db => I db /\ Q a db) ->
  mspec (fun w => P (w_db w)) (transaction (Ev := Ev) body)
    (fun a w => I (w_db w) /\ Q a (w_db w)) (fun _ w => I (w_db w)).
Proof.
  intros Hc HP Hb w Hw. unfold transaction.
  specialize (Hb {| tx_base := w_db w; tx_view := w_db w; tx_tick := S (w_tick w);
                    tx_now := db_clock e (w_tick w); tx_locks := ∅ |} (Hc _) (HP _ Hw) Hw).
  destruct (body e _) as [[a|x] t]; cbn; [|done]. destruct Hb as (_ & Hb & Hq & Hq').
  destruct (commit_fault e _) as [[d [|]]|]; cbn; tauto.
Qed.

(** The same for a body that relies on row locks. *)
Lemma mspec_locking_transaction {A : Type} (body : T DB A) (I P : DB -> Prop)
    (Q : A -> DB -> Prop) :
  (forall n, is_aware (db_clock e n) = true) ->
  (forall db, P db -> I db) ->
  lspec I (fun _ => P) body (fun a _ db => I db /\ Q a db) ->
  mspec (fun w => P (w_db w)) (transaction (Ev := Ev) body)
    (fun a w => I (w_db w) /\ Q a (w_db w)) (fun _ w => I (w_db w)).
Proof.
  intros Hc HP Hb. apply mspec_transaction; [done..|].
  intros t Ha HI HPt. exact (Hb t Ha HI HPt).
Qed.
End logic.

(** ** Atomicity *)

Section atomicity.
Context {DB Ev : Type} (e : env DB).

(** The database after some commits of other transactions and none of ours. *)
Definition reaches : DB -> DB -> Prop := rtc (fun a b => exists n l, b = others e n l a).

(** A body made of statements: its base receives the others' commits only. *)
Definition built {A} (body : T DB A) : Prop :=
  forall t, reaches (tx_base t) (tx_base (body e t).2).

Lemma built_ret {A} (a : A) : built (mret a).
Proof. by intros t. Qed.

Lemma built_lift {A} (r : res A) : built (t_lift r).
Proof. by intros t. Qed.

Lemma built_tick {A} (f : env DB -> nat -> A) : built (t_tick f).
Proof. by intros t. Qed.

Lemma built_bind {A B} (m : T DB A) (f : A -> T DB B) :
  built m -> (forall a, built (f a)) -> built (m ≫= f).
Proof.
  intros Hm Hf t. unfold mbind, T_bind. specialize (Hm t).
  destruct (m e t) as [[a|x] t']; [|done]. etrans; [exact Hm|apply Hf].
Qed.

Lemma built_stmt {A} (f : datetime -> gset Z -> DB -> res (A * DB)) : built (stmt f).
Proof.
  intros t. unfold stmt, locking_stmt.
  assert (Hr : reaches (tx_base t) (others e (tx_tick t) (tx_locks t) (tx_base t)))
    by (apply rtc_once; eauto).
  destruct (statement_fault e _); [done|]. by destruct (f _ _ _) as [[a v]|x].
Qed.

Lemma built_query {A} (f : DB -> res A) : built (query f).
Proof. apply built_stmt. Qed.

Lemma translate_not_driver x d : translate x <> EDatabase d.
Proof. by destruct x. Qed.

(** [body] run in a transaction of its own that begins with the tables [db]: it
    ends with [a] and sees [db']. *)
Definition ran {A} (body : T DB A) (db : DB) (a : A) (db' : DB) : Prop :=
  exists n now t', body e {| tx_base := db; tx_view := db; tx_tick := n; tx_now := now; tx_locks := ∅ |}
    = (Ok a, t') /\ tx_view t' = db'.

Lemma transaction_cases {A} (body : T DB A) (w : world DB Ev) :
  built body ->
  match transaction body e w with
  | (Ok a, w') => ran body (w_db w) a (w_db w')
  | (Err x, w') =>
      (forall d, x <> EDatabase d) /\
      (reaches (w_db w) (w_db w') \/
       exists a n d, ran body (w_db w) a (w_db w') /\ commit_fault e n = Some (d, true) /\
         x = translate_database_error d)
  end.
Proof.
  intros Hb. unfold transaction, ran.
  specialize (Hb {| tx_base := w_db w; tx_view := w_db w; tx_tick := S (w_tick w);
                    tx_now := db_clock e (w_tick w); tx_locks := ∅ |}).
  destruct (body e _) as [[a|x] t] eqn:E.
  - destruct (commit_fault e _) as [[d applied]|] eqn:Ec; [|by eauto 10].
    split; [by destruct d|]. destruct applied; cbn; [right; eauto 12|by left].
  - split; [intros d; apply translate_not_driver|]. by left.
Qed.


(** A body that only reads: its writes are nobody's. *)
Definition reading {A} (body : T DB A) : Prop :=
  forall t, tx_base t = tx_view t -> tx_base (body e t).2 = tx_view (body e t).2.

Lemma reading_ret {A} (a : A) : reading (mret a).
Proof. by intros t. Qed.

Lemma reading_lift {A} (r : res A) : reading (t_lift r).
Proof. by intros t. Qed.

Lemma reading_tick {A} (f : env DB -> nat -> A) : reading (t_tick f).
Proof. by intros t. Qed.

Lemma reading_bind {A B} (m : T DB A) (f : A -> T DB B) :
  reading m -> (forall a, reading (f a)) -> reading (m ≫= f).
Proof.
  intros Hm Hf t Ht. unfold mbind, T_bind. specialize (Hm t Ht).
  destruct (m e t) as [[a|x] t']; [by apply Hf|done].
Qed.

Lemma reading_query {A} (f : DB -> res A) : reading (query f).
Proof.
  intros t Ht. unfold query, stmt, locking_stmt. rewrite Ht.
  destruct (statement_fault e _); [done|]. by destruct (f _).
Qed.

(** A transaction that only reads leaves the tables to the others. *)
Lemma reading_transaction {A} (body : T DB A) (w : world DB Ev) :
  built body -> reading body -> reaches (w_db w) (w_db (transaction body e w).2).
Proof.
  intros Hb Hr. unfold transaction.
  set (t0 := {| tx_base := w_db w; tx_view := w_db w; tx_tick := S (w_tick w);
                tx_now := db_clock e (w_tick w); tx_locks := ∅ |}).
  specialize (Hb t0). specialize (Hr t0 eq_refl).
  destruct (body e t0) as [[a|x] t]; [|exact Hb].
  destruct (commit_fault e _) as [[d [|]]|]; cbn in *; rewrite <- ?Hr; exact Hb.
Qed.
End atomicity.

(** ** Quiet environments *)

Section quiet.
Context {DB Ev : Type} (e : env DB).

(** Nothing else is running and no statement fails. *)
Record quiet : Prop := {
  qu_others : forall n l db, others e n l db = db;
  qu_statement : forall n, statement_fault e n = None;
  qu_commit : forall n, commit_fault e n = None
}.

Lemma quiet_transaction {A} (body : T DB A) (w : world DB Ev) a t :
  quiet ->
  body e {| tx_base := w_db w; tx_view := w_db w; tx_tick := S (w_tick w);
            tx_now := db_clock e (w_tick w); tx_locks := ∅ |} = (Ok a, t) ->
  transaction body e w =
    (Ok a, {| w_db := tx_view t; w_tick := S (tx_tick t); w_trace := w_trace w |}).
Proof. intros [_ _ Hc] Hb. unfold transaction. rewrite Hb, Hc. reflexivity. Qed.

Lemma quiet_stmt {A} (f : datetime -> gset Z -> DB -> res (A * DB)) t a db :
  quiet -> (forall lk, f (tx_now t) lk (tx_view t) = Ok (a, db)) ->
  stmt f e t = (Ok a, {| tx_base := tx_base t; tx_view := db; tx_tick := S (tx_tick t);
                         tx_now := tx_now t; tx_locks := tx_locks t |}).
Proof. intros [Ho Hs _] Hf. unfold stmt, locking_stmt. rewrite Hs, !Ho, Hf. reflexivity. Qed.

Lemma quiet_query {A} (f : DB -> res A) t a :
  quiet -> f (tx_view t) = Ok a ->
  query f e t = (Ok a, {| tx_base := tx_base t; tx_view := tx_view t;
                          tx_tick := S (tx_tick t); tx_now := tx_now t; tx_locks := tx_locks t |}).
Proof. intros Hq Hf. apply quiet_stmt; [done|]. intros _. by rewrite Hf. Qed.

(** Programs that record no external call. *)
Definition silent {A} (m : M DB Ev A) : Prop := forall w, w_trace (m e w).2 = w_trace w.

Lemma silent_ret {A} (a : A) : silent (mret a).
Proof. by intros w. Qed.

Lemma silent_lift {A} (r : res A) : silent (lift r).
Proof. by intros w. Qed.

Lemma silent_tick {A} (f : env DB -> nat -> A) : silent (tick f).
Proof. by intros w. Qed.

Lemma silent_bind {A B} (m : M DB Ev A) (f : A -> M DB Ev B) :
  silent m -> (forall a, silent (f a)) -> silent (m ≫= f).
Proof.
  intros Hm Hf w. unfold mbind, M_bind. specialize (Hm w).
  destruct (m e w) as [[a|x] w']; [|done]. by rewrite (Hf a w').
Qed.

Lemma silent_attempt {A} (m : M DB Ev A) : silent m -> silent (attempt m).
Proof. intros Hm w. unfold attempt. specialize (Hm w). by destruct (m e w). Qed.

Lemma silent_transaction {A} (body : T DB A) : silent (transaction body).
Proof.
  intros w. unfold transaction. destruct (body e _) as [[a|x] t]; [|done].
  by destruct (commit_fault e _) as [[d [|]]|].
Qed.
End quiet.

(** Nobody else is running and nothing fails. *)
Definition quiet_env (DB : Type) : env DB :=
  {| clock n := utc (Z.of_nat n); new_uuid n := 1000 + Z.of_nat n;
     random_sample _ := f0; others _ _ db := db; db_clock n := utc (Z.of_nat n);
     locked_rows _ := ∅; statement_fault _ := None; commit_fault _ := None |}.

(** A transfer that fails in the middle: nothing of it is kept. *)
Definition demo_transfer : T (Z * Z) unit :=
  stmt (fun _ _ db => Ok (tt, (db.1 - 5, db.2)));;
  stmt (fun _ _ db => if db.1 <? 0 then Err (EDatabase TimeoutError)
                      else Ok (tt, (db.1, db.2 + 5))).


(** Error translation: every driver failure is classified: a serialisation
    failure or deadlock (SQLSTATE 40001, 40P01) is a conflict whatever else the
    error says; otherwise a lost connection, a pool or connection time-out or an
    operator shutdown is an unavailability; otherwise an integrity error of the
    driver is one of the service; and nothing else is. *)
Theorem translation_classes d :
  let p := translate_database_error d in
  (p = TransactionConflictError <->
     exists i s g v, d = DBAPIError i s g v /\
       (sql_code s g = Some "40001"%string \/ sql_code s g = Some "40P01"%string)) /\
  (p = PersistenceUnavailableError <->
     d = ConnectionError \/ d = TimeoutError \/ d = PoolTimeoutError \/
     d = DisconnectionError \/
     exists i s g v, d = DBAPIError i s g v /\
       ~ (sql_code s g = Some "40001"%string \/ sql_code s g = Some "40P01"%string) /\
       (v = true \/ unavailable_code (sql_code s g) = true)) /\
  (p = PersistenceIntegrityError ->
     exists s g, d = DBAPIError true s g false /\ unavailable_code (sql_code s g) = false).
Proof.
  destruct d as [| |i s g v| | |]; cbn; try
    (split; [split; [done|intros (? & ? & ? & ? & [=] & _)]|split; [|done]];
     split; [naive_solver|done]).
  2: { split; [split; [done|intros (? & ? & ? & ? & [=] & _)]|]. split; [|done].
       split; [done|]. naive_solver. }
  unfold conflict_code.
  destruct (bool_decide_reflect (sql_code s g = Some "40001"%string \/
    sql_code s g = Some "40P01"%string)) as [Hc|Hc].
  { split; [split; [eauto 8|done]|]. split; [|done]. split; [done|].
    intros [|[|[|[|(? & ? & ? & ? & [= <- <- <- <-] & Hn & _)]]]]; done. }
  destruct (v || unavailable_code (sql_code s g)) eqn:Ev.
  - split; [split; [done|]|split; [split; [|done]|done]].
    + intros (? & ? & ? & ? & [= <- <- <- <-] & ?). done.
    + intros _. do 4 right. apply orb_true_iff in Ev. eauto 10.
  - apply orb_false_iff in Ev as [-> Eu].
    split; [split; [by destruct i|]|split; [split; [by destruct i|]|]].
    + intros (? & ? & ? & ? & [= <- <- <- <-] & ?). done.
    + intros [|[|[|[|(? & ? & ? & ? & [= <- <- <- <-] & _ & [|Hu])]]]]; try done.
      congruence.
    + destruct i; [eauto|done].
Qed.
