(* ===== verification/Invariants.v ===== *)
(** * Invariants of whole programs

    A judgement for properties of the trace and the database that no effect of a
    program breaks, whatever the environment does and however the program ends, and a
    tactic that walks through a program down to its statements.  It is used for
    what a component does to the tables of the others. *)

From S2P Require Import Prelude Exceptions Retry Effects.

(** The clocks give aware instants. *)
Record aware_clocks {DB} (e : env DB) : Prop := {
  ac_clock : forall n, is_aware (clock e n) = true;
  ac_db_clock : forall n, is_aware (db_clock e n) = true
}.

Section keeps.
Context {DB Ev : Type} (e : env DB) (I : list Ev -> DB -> Prop).

(** Other transactions keep [I]. *)
Definition stable : Prop := forall tr n l db, I tr db -> I tr (others e n l db).

Definition keeps {A} (m : M DB Ev A) : Prop :=
  forall w, I (w_trace w) (w_db w) -> I (w_trace (m e w).2) (w_db (m e w).2).

(** The same for what a transaction leaves behind and for what it sees. *)
Definition t_keeps {A} (body : T DB A) : Prop :=
  forall tr t, is_aware (tx_now t) = true -> I tr (tx_base t) -> I tr (tx_view t) ->
    tx_now (body e t).2 = tx_now t /\ I tr (tx_base (body e t).2) /\ I tr (tx_view (body e t).2).

Lemma keeps_ret {A} (a : A) : keeps (mret a).
Proof. by intros w Hw. Qed.

Lemma keeps_lift {A} (r : res A) : keeps (lift r).
Proof. by intros w Hw. Qed.

Lemma keeps_tick {A} (f : env DB -> nat -> A) : keeps (tick f).
Proof. by intros w Hw. Qed.

Lemma keeps_bind {A B} (m : M DB Ev A) (f : A -> M DB Ev B) :
  keeps m -> (forall a, keeps (f a)) -> keeps (m ≫= f).
Proof.
  intros Hm Hf w Hw. specialize (Hm w Hw). unfold mbind, M_bind.
  destruct (m e w) as [[a|x] w']; [by apply Hf|done].
Qed.

Lemma keeps_now {A} (f : datetime -> M DB Ev A) :
  aware_clocks e -> (forall a, is_aware a = true -> keeps (f a)) -> keeps (get_now ≫= f).
Proof.
  intros Hc Hf w Hw. unfold mbind, M_bind, get_now, tick. by apply Hf; [apply (ac_clock _ Hc)|].
Qed.

Lemma keeps_attempt {A} (m : M DB Ev A) : keeps m -> keeps (attempt m).
Proof. intros Hm w Hw. specialize (Hm w Hw). unfold attempt. by destruct (m e w). Qed.

Lemma keeps_emit ev : (forall tr db, I tr db -> I (ev :: tr) db) -> keeps (emit ev).
Proof. intros Hev w Hw. by apply Hev. Qed.

Lemma keeps_call {A} (answer : nat -> res A) (ev : res A -> Ev) :
  (forall r tr db, I tr db -> I (ev r :: tr) db) -> keeps (call answer ev).
Proof. intros Hev w Hw. by apply Hev. Qed.

Lemma keeps_transaction {A} (body : T DB A) :
  aware_clocks e -> t_keeps body -> keeps (transaction body).
Proof.
  intros Hc Hb w Hw. unfold transaction.
  specialize (Hb (w_trace w) {| tx_base := w_db w; tx_view := w_db w; tx_tick := S (w_tick w);
    tx_now := db_clock e (w_tick w); tx_locks := ∅ |} (ac_db_clock _ Hc _) Hw Hw).
  destruct (body e _) as [[a|x] t]; destruct Hb as (_ & Hb & Hv); cbn; [|done].
  by destruct (commit_fault e _) as [[d [|]]|].
Qed.

Lemma t_keeps_ret {A} (a : A) : t_keeps (mret a).
Proof. by intros tr t. Qed.

Lemma t_keeps_lift {A} (r : res A) : t_keeps (t_lift r).
Proof. by intros tr t. Qed.

Lemma t_keeps_tick {A} (f : env DB -> nat -> A) : t_keeps (t_tick f).
Proof. by intros tr t. Qed.

Lemma t_keeps_bind {A B} (m : T DB A) (f : A -> T DB B) :
  t_keeps m -> (forall a, t_keeps (f a)) -> t_keeps (m ≫= f).
Proof.
  intros Hm Hf tr t Ha Hb Hv. specialize (Hm tr t Ha Hb Hv). unfold mbind, T_bind.
  destruct (m e t) as [[a|x] t']; [|done]. destruct Hm as (Hn & Hb' & Hv'). cbn in Hn.
  rewrite <- Hn in Ha |- *. by apply Hf.
Qed.

Lemma t_keeps_clock {A} (f : datetime -> T DB A) :
  aware_clocks e -> (forall a, is_aware a = true -> t_keeps (f a)) -> t_keeps (t_tick clock ≫= f).
Proof.
  intros Hc Hf tr t Ha Hb Hv. unfold mbind, T_bind, t_tick.
  exact (Hf (clock e (tx_tick t)) (ac_clock _ Hc _) tr
    {| tx_base := tx_base t; tx_view := tx_view t; tx_tick := S (tx_tick t);
       tx_now := tx_now t; tx_locks := tx_locks t |} Ha Hb Hv).
Qed.

Lemma t_keeps_locking_stmt {A} takes (f : datetime -> gset Z -> DB -> res (A * DB)) :
  stable ->
  (forall now lk tr db a db', is_aware now = true -> I tr db -> f now lk db = Ok (a, db') ->
     I tr db') ->
  t_keeps (locking_stmt takes f).
Proof.
  intros Ho Hf tr t Ha Hb Hv. unfold locking_stmt.
  pose proof (Ho tr (tx_tick t) (tx_locks t) _ Hb) as Hb'.
  pose proof (Ho tr (tx_tick t) (tx_locks t) _ Hv) as Hv'.
  destruct (statement_fault e _); [done|].
  destruct (f _ _ _) as [[a v]|x] eqn:E; [|done]. split; [done|]. split; [done|].
  by eapply Hf.
Qed.

Lemma t_keeps_stmt {A} (f : datetime -> gset Z -> DB -> res (A * DB)) :
  stable ->
  (forall now lk tr db a db', is_aware now = true -> I tr db -> f now lk db = Ok (a, db') ->
     I tr db') ->
  t_keeps (stmt f).
Proof. apply t_keeps_locking_stmt. Qed.

Lemma t_keeps_query {A} (f : DB -> res A) : stable -> t_keeps (query f).
Proof.
  intros Ho. apply t_keeps_stmt; [done|]. intros now lk tr db a db' _ Hi.
  destruct (f db); [|done]. by intros [= _ <-].
Qed.
End keeps.

(** Walk through a program; statements and events are left, or found in [keeps]. *)
Create HintDb keeps.

Ltac keep_step :=
  lazymatch goal with
  | |- keeps _ _ (get_now ≫= _) => apply keeps_now; [done|intros ? ?]
  | |- keeps _ _ (mbind _ _) => apply keeps_bind; [|intros ?]
  | |- keeps _ _ (mret _) => apply keeps_ret
  | |- keeps _ _ (lift _) => apply keeps_lift
  | |- keeps _ _ (tick _) => apply keeps_tick
  | |- keeps _ _ get_now => apply keeps_tick
  | |- keeps _ _ get_uuid => apply keeps_tick
  | |- keeps _ _ get_jitter => apply keeps_tick
  | |- keeps _ _ (attempt _) => apply keeps_attempt
  | |- keeps _ _ (transaction _) => apply keeps_transaction; [done|]
  | |- keeps _ _ (emit _) => solve [eauto with keeps]
  | |- keeps _ _ (call _ _) => solve [eauto with keeps]
  | |- keeps _ _ (if ?b then _ else _) => destruct b
  | |- keeps _ _ (match ?m with _ => _ end) => destruct m
  | |- t_keeps _ _ (t_tick clock ≫= _) => apply t_keeps_clock; [done|intros ? ?]
  | |- t_keeps _ _ (mbind _ _) => apply t_keeps_bind; [|intros ?]
  | |- t_keeps _ _ (mret _) => apply t_keeps_ret
  | |- t_keeps _ _ (t_lift _) => apply t_keeps_lift
  | |- t_keeps _ _ (t_tick _) => apply t_keeps_tick
  | |- t_keeps _ _ (query _) => apply t_keeps_query; [done]
  | |- t_keeps _ _ (if ?b then _ else _) => destruct b
  | |- t_keeps _ _ (match ?m with _ => _ end) => destruct m
  end.
