(* ===== verification/Raises.v ===== *)
(** * Exceptions of whole programs

    A judgement for the exceptions a program may end with, whatever the environment
    does, with a rule per construct and a tactic that walks through a program down to
    the calls whose exceptions are assumed or proved elsewhere.  What the driver raises
    is left to the unit of work, which translates it. *)

From S2P Require Import Prelude Exceptions Domain Registration Effects.

(** [r] raises only what [X] allows. *)
Definition fails {A} (X : exn -> Prop) (r : res A) : Prop :=
  match r with Ok _ => True | Err x => X x end.

Section fails.
Context (X : exn -> Prop).

Lemma fails_bind {A B} (r : res A) (f : A -> res B) :
  fails X r -> (forall a, fails X (f a)) -> fails X (r ≫= f).
Proof. intros Hr Hf. destruct r; [apply Hf|exact Hr]. Qed.

Lemma fails_raise_if b x : X x -> fails X (raise_if b x).
Proof. by destruct b. Qed.

Lemma fails_raise_unless b x : X x -> fails X (raise_unless b x).
Proof. by destruct b. Qed.

Lemma fails_on_some {A} (o : option A) (f : A -> res unit) :
  (forall a, fails X (f a)) -> fails X (on_some o f).
Proof. intros Hf. destruct o; [apply Hf|done]. Qed.

Lemma fails_weaken {A} (Y : exn -> Prop) (r : res A) :
  (forall x, X x -> Y x) -> fails X r -> fails Y r.
Proof. destruct r; cbn; auto. Qed.

(** [_to_domain]: what a validator raises is a stored state that is not valid. *)
Lemma fails_stored_state {A} (r : res A) :
  fails (fun x => isinstance x InvalidDomainStateError || isinstance x EValidationError = true
                  \/ X x) r ->
  X StoredStateError -> fails X (stored_state r).
Proof.
  intros Hr Hx. destruct r as [a|x]; [done|]. cbn in *. destruct (_ || _); [done|].
  by destruct Hr.
Qed.
End fails.

Section raises.
Context {DB Ev : Type} (X : exn -> Prop).

Definition raises {A} (m : M DB Ev A) : Prop := forall e w, fails X (m e w).1.
Definition t_raises {A} (body : T DB A) : Prop := forall e t, fails X (body e t).1.

(** Exceptions that pass through the unit of work: whatever the driver raises, before
    and after its translation. *)
Record translated : Prop := {
  tr_driver : forall d : db_error, X d;
  tr_translate : forall x, X x -> X (translate x)
}.

Lemma raises_ret {A} (a : A) : raises (mret a).
Proof. done. Qed.

Lemma raises_lift {A} (r : res A) : fails X r -> raises (lift r).
Proof. by intros Hr e w. Qed.

Lemma raises_tick {A} (f : env DB -> nat -> A) : raises (tick f).
Proof. done. Qed.

Lemma raises_emit (ev : Ev) : raises (emit ev).
Proof. done. Qed.

Lemma raises_call {A} (answer : nat -> res A) (ev : res A -> Ev) :
  (forall n, fails X (answer n)) -> raises (call answer ev).
Proof. intros Ha e w. apply Ha. Qed.

(** A call the environment answers, raised where it is answered. *)
Lemma raises_tick_lift {A B} (answer : nat -> res A) (f : A -> M DB Ev B) :
  (forall n, fails X (answer n)) -> (forall a, raises (f a)) ->
  raises ((tick (fun _ n => answer n) ≫= lift) ≫= f).
Proof.
  intros Ha Hf e w. unfold mbind, M_bind, tick, lift. specialize (Ha (w_tick w)).
  destruct (answer (w_tick w)); [apply Hf|exact Ha].
Qed.

Lemma raises_bind {A B} (m : M DB Ev A) (f : A -> M DB Ev B) :
  raises m -> (forall a, raises (f a)) -> raises (m ≫= f).
Proof.
  intros Hm Hf e w. specialize (Hm e w). unfold mbind, M_bind.
  destruct (m e w) as [[a|x] w']; [apply Hf|exact Hm].
Qed.

(** [try: m], [except] by [f]. *)
Lemma raises_attempt {A B} (Y : exn -> Prop) (m : M DB Ev A) (f : res A -> M DB Ev B) :
  (forall e w, fails Y (m e w).1) ->
  (forall a, raises (f (Ok a))) -> (forall x, Y x -> raises (f (Err x))) ->
  raises (attempt m ≫= f).
Proof.
  intros Hm Ha Hx e w. specialize (Hm e w). unfold mbind, M_bind, attempt.
  destruct (m e w) as [[a|x] w']; [apply Ha|by apply Hx].
Qed.

Lemma raises_transaction {A} (body : T DB A) :
  translated -> t_raises body -> raises (transaction body).
Proof.
  intros Htr Hb e w. unfold transaction.
  pose proof (Hb e {| tx_base := w_db w; tx_view := w_db w; tx_tick := S (w_tick w);
    tx_now := db_clock e (w_tick w); tx_locks := ∅ |}) as H.
  destruct (body e _) as [[a|x] t]; cbn in H |- *; [|by apply Htr].
  destruct (commit_fault e (tx_tick t)) as [[d b]|]; [|done]. cbn.
  apply (tr_translate Htr (EDatabase d)), Htr.
Qed.

Lemma t_raises_ret {A} (a : A) : t_raises (mret a).
Proof. done. Qed.

Lemma t_raises_lift {A} (r : res A) : fails X r -> t_raises (t_lift r).
Proof. by intros Hr e t. Qed.

Lemma t_raises_tick {A} (f : env DB -> nat -> A) : t_raises (t_tick f).
Proof. done. Qed.

Lemma t_raises_tick_lift {A B} (answer : nat -> res A) (f : A -> T DB B) :
  (forall n, fails X (answer n)) -> (forall a, t_raises (f a)) ->
  t_raises (r ← t_tick (fun _ n => answer n); a ← t_lift r; f a).
Proof.
  intros Ha Hf e t. unfold mbind, T_bind, t_tick, t_lift. specialize (Ha (tx_tick t)).
  destruct (answer (tx_tick t)); [apply Hf|exact Ha].
Qed.

Lemma t_raises_bind {A B} (m : T DB A) (f : A -> T DB B) :
  t_raises m -> (forall a, t_raises (f a)) -> t_raises (m ≫= f).
Proof.
  intros Hm Hf e t. specialize (Hm e t). unfold mbind, T_bind.
  destruct (m e t) as [[a|x] t']; [apply Hf|exact Hm].
Qed.

Lemma t_raises_locking_stmt {A} takes (f : datetime -> gset Z -> DB -> res (A * DB)) :
  translated -> (forall now lk db, fails X (f now lk db)) -> t_raises (locking_stmt takes f).
Proof.
  intros Htr Hf e t. unfold locking_stmt. destruct (statement_fault e _); [apply Htr|].
  specialize (Hf (tx_now t) (locked_rows e (tx_tick t))
    (others e (tx_tick t) (tx_locks t) (tx_view t))).
  destruct (f _ _ _) as [[a v]|x]; [done|exact Hf].
Qed.

Lemma t_raises_stmt {A} (f : datetime -> gset Z -> DB -> res (A * DB)) :
  translated -> (forall now lk db, fails X (f now lk db)) -> t_raises (stmt f).
Proof. apply t_raises_locking_stmt. Qed.

Lemma t_raises_query {A} (f : DB -> res A) :
  translated -> (forall db, fails X (f db)) -> t_raises (query f).
Proof.
  intros Htr Hf. apply t_raises_stmt; [done|]. intros _ _ db. by apply fails_bind.
Qed.

(** *** With a fact about the value *)

Definition gives {A} (Q : A -> Prop) (r : res A) : Prop :=
  match r with Ok a => Q a | Err x => X x end.
Definition yields {A} (Q : A -> Prop) (m : M DB Ev A) : Prop := forall e w, gives Q (m e w).1.
Definition t_yields {A} (Q : A -> Prop) (body : T DB A) : Prop := forall e t, gives Q (body e t).1.

Lemma yields_bind {A B} (R : A -> Prop) (Q : B -> Prop) (m : M DB Ev A) (f : A -> M DB Ev B) :
  yields R m -> (forall a, R a -> yields Q (f a)) -> yields Q (m ≫= f).
Proof.
  intros Hm Hf e w. specialize (Hm e w). unfold mbind, M_bind.
  destruct (m e w) as [[a|x] w']; [by apply Hf|exact Hm].
Qed.

Lemma yields_raises {A} (m : M DB Ev A) : raises m -> yields (fun _ => True) m.
Proof. exact id. Qed.

Lemma yields_raise {A} (Q : A -> Prop) x : X x -> yields Q (lift (raise x)).
Proof. by intros Hx e w. Qed.

Lemma yields_ret {A} (Q : A -> Prop) a : Q a -> yields Q (mret a).
Proof. by intros Ha e w. Qed.

(** [try: m], [except] by [f]. *)
Lemma yields_attempt {A B} (Y : exn -> Prop) (Q : B -> Prop) (m : M DB Ev A)
    (f : res A -> M DB Ev B) :
  (forall e w, fails Y (m e w).1) ->
  (forall a, yields Q (f (Ok a))) -> (forall x, Y x -> yields Q (f (Err x))) ->
  yields Q (attempt m ≫= f).
Proof.
  intros Hm Ha Hx e w. specialize (Hm e w). unfold mbind, M_bind, attempt.
  destruct (m e w) as [[a|x] w']; [apply Ha|by apply Hx].
Qed.

Lemma yields_transaction {A} (Q : A -> Prop) (body : T DB A) :
  translated -> t_yields Q body -> yields Q (transaction body).
Proof.
  intros Htr Hb e w. unfold transaction.
  pose proof (Hb e {| tx_base := w_db w; tx_view := w_db w; tx_tick := S (w_tick w);
    tx_now := db_clock e (w_tick w); tx_locks := ∅ |}) as H.
  destruct (body e _) as [[a|x] t]; cbn in H |- *; [|by apply Htr].
  destruct (commit_fault e (tx_tick t)) as [[d b]|]; [|done]. cbn.
  apply (tr_translate Htr (EDatabase d)), Htr.
Qed.

Lemma t_yields_bind {A B} (R : A -> Prop) (Q : B -> Prop) (m : T DB A) (f : A -> T DB B) :
  t_yields R m -> (forall a, R a -> t_yields Q (f a)) -> t_yields Q (m ≫= f).
Proof.
  intros Hm Hf e t. specialize (Hm e t). unfold mbind, T_bind.
  destruct (m e t) as [[a|x] t']; [by apply Hf|exact Hm].
Qed.

Lemma t_yields_query {A} (Q : A -> Prop) (f : DB -> res A) :
  translated -> (forall db, gives Q (f db)) -> t_yields Q (query f).
Proof.
  intros Htr Hf e t. unfold query, stmt, locking_stmt.
  destruct (statement_fault e _); [apply Htr|].
  specialize (Hf (others e (tx_tick t) (tx_locks t) (tx_view t))).
  by destruct (f _).
Qed.
End raises.

(** Walk through a program; [translated] is looked for among the hypotheses and the
    calls in [raises].  The exceptions left are decided by evaluation. *)
Create HintDb raises.

Ltac allowed :=
  lazymatch goal with
  | |- _ ?x => tryif is_var x then solve [auto with raises]
      else first [done | left; reflexivity | right; done
                 | apply (bool_decide_unpack _); vm_compute; exact I]
  | |- _ => first [left; reflexivity | right; done]
  end.

Ltac raise_step :=
  lazymatch goal with
  | |- fails _ (mbind _ _) => apply fails_bind; [|intros ?]
  | |- fails _ (mret _) => exact I
  | |- fails _ (Ok _) => exact I
  | |- fails _ (raise_if _ _) => apply fails_raise_if; allowed
  | |- fails _ (raise_unless _ _) => apply fails_raise_unless; allowed
  | |- fails _ (raise _) => cbn [fails raise]; allowed
  | |- fails _ (Err _) => cbn [fails]; allowed
  | |- fails _ (on_some _ _) => apply fails_on_some; intros ?
  | |- fails _ (stored_state _) =>
      first [solve [eauto with raises] | apply fails_stored_state; [|allowed]]
  | |- fails _ (if ?b then _ else _) => destruct b
  | |- fails _ (match ?m with _ => _ end) => destruct m
  | |- fails _ _ => solve [eauto with raises]
  | |- raises _ ((tick _ ≫= lift) ≫= _) => apply raises_tick_lift; [intros ?|intros ?]
  | |- raises ?X (attempt _ ≫= _) =>
      apply (raises_attempt X X); [lazymatch goal with |- forall e w, fails _ (?m e w).1 => change (raises X m) end
                                  |intros ?|intros ? ?]
  | |- raises _ (mbind _ _) => apply raises_bind; [|intros ?]
  | |- raises _ (mret _) => apply raises_ret
  | |- raises _ (lift _) => apply raises_lift
  | |- raises _ (tick _) => apply raises_tick
  | |- raises _ get_now => apply raises_tick
  | |- raises _ get_uuid => apply raises_tick
  | |- raises _ get_jitter => apply raises_tick
  | |- raises _ (emit _) => apply raises_emit
  | |- raises _ (call _ _) => apply raises_call; intros ?
  | |- raises _ (transaction _) => apply raises_transaction; [done|]
  | |- raises _ (if ?b then _ else _) => destruct b
  | |- raises _ (match ?m with _ => _ end) => destruct m
  | |- raises _ _ => solve [eauto with raises]
  | |- t_raises _ (t_tick _ ≫= _) =>
      first [apply t_raises_tick_lift; [intros ?|intros ?] | apply t_raises_bind; [|intros ?]]
  | |- t_raises _ (mbind _ _) => apply t_raises_bind; [|intros ?]
  | |- t_raises _ (mret _) => apply t_raises_ret
  | |- t_raises _ (t_lift _) => apply t_raises_lift
  | |- t_raises _ (t_tick _) => apply t_raises_tick
  | |- t_raises _ (query _) => apply t_raises_query; [done|intros ?]
  | |- t_raises _ (stmt _) => apply t_raises_stmt; [done|intros ? ? ?]
  | |- t_raises _ (locking_stmt _ _) => apply t_raises_locking_stmt; [done|intros ? ? ?]
  | |- t_raises _ (if ?b then _ else _) => destruct b
  | |- t_raises _ (match ?m with _ => _ end) => destruct m
  | |- t_raises _ _ => solve [eauto with raises]
  end.
