(* ===== verification/Accounts.v ===== *)
(** * Stored accounts

    [infrastructure/database/repositories/user_repository.py] over the [users]
    table (primary key [id], unique [email]). *)

From S2P Require Import Prelude Exceptions Domain Sql Registration.

Abbreviation user_table := (gmap Z User).

(** [PasswordHasherProtocol]: hashing is salted, so it may answer differently at
    each tick. *)
Class PasswordHasher := {
  hash_password : nat -> string -> res string;
  verify_password : string -> string -> res bool
}.

Section users.
Context `{EmailSyntax}.

Definition user_to_domain (row : User) : res User := stored_state (User_validate row).

(** [scalar_one_or_none] and [_to_domain]. *)
Definition one_user (l : list User) : res (option User) :=
  row ← one_or_none l;
  match row with
  | None => mret None
  | Some r => u ← user_to_domain r; mret (Some u)
  end.

(** [INSERT ... ON CONFLICT (email) DO NOTHING RETURNING]: a conflict on the
    primary key is an error. *)
Definition create_if_absent (user : User) (t : user_table) :
    res (option User * user_table) :=
  if existsb (fun r => bool_decide (u_email r = u_email user)) (rows t)
  then mret (None, t)
  else match t !! u_id user with
       | Some _ => raise UniqueViolation
       | None => u ← user_to_domain user; mret (Some u, <[u_id user := user]> t)
       end.

Definition user_by_email (email : string) (t : user_table) : res (option User) :=
  one_user (select (fun r => bool_decide (u_email r = email)) t).

(** [session.get(UserORM, id)]. *)
Definition user_get (user_id : uuid) (t : user_table) : res (option User) :=
  match t !! user_id with
  | None => mret None
  | Some r => u ← user_to_domain r; mret (Some u)
  end.

Definition user_get_for_update (user_id : uuid) (t : user_table) : res (option User) :=
  one_user (select (fun r => u_id r =? user_id) t).

(** ** Well-formed tables *)

Record users_ok (t : user_table) : Prop := {
  us_keyed : keyed u_id t;
  us_rows : forall i u, t !! i = Some u -> User_validate u = Ok u;
  us_email : forall i j a b, t !! i = Some a -> t !! j = Some b ->
    u_email a = u_email b -> i = j
}.

Lemma user_to_domain_ok u : User_validate u = Ok u -> user_to_domain u = Ok u.
Proof. unfold user_to_domain. by intros ->. Qed.

Lemma user_get_ok i t :
  users_ok t -> user_get i t = Ok (t !! i).
Proof.
  intros [_ Hr _]. unfold user_get. destruct (t !! i) as [u|] eqn:E; [|done].
  by rewrite (user_to_domain_ok _ (Hr _ _ E)).
Qed.

Lemma users_insert t u :
  users_ok t -> User_validate u = Ok u -> t !! u_id u = None ->
  (forall i r, t !! i = Some r -> u_email r <> u_email u) ->
  users_ok (<[u_id u := u]> t).
Proof.
  intros [Hk Hr He] Hv Hn Hne. split.
  - intros i r [[<- <-]|[_ Hl]]%lookup_insert_Some; [done|by apply Hk].
  - intros i r [[<- <-]|[_ Hl]]%lookup_insert_Some; [done|by eapply Hr].
  - intros i j a b [[<- <-]|[Hi Ha]]%lookup_insert_Some
      [[<- <-]|[Hj Hb]]%lookup_insert_Some Heq; try done.
    + by destruct (Hne _ _ Hb).
    + by destruct (Hne _ _ Ha).
    + by eapply He.
Qed.

Lemma create_if_absent_ok user t o t' :
  users_ok t -> User_validate user = Ok user ->
  create_if_absent user t = Ok (o, t') ->
  users_ok t' /\
  match o with
  | None => t' = t /\ exists i r, t !! i = Some r /\ u_email r = u_email user
  | Some u => u = user /\ t !! u_id user = None /\ t' = <[u_id user := user]> t
  end.
Proof.
  intros Ht Hv. unfold create_if_absent. destruct (existsb _ _) eqn:E.
  - intros [= <- <-]. split; [done|]. split; [done|].
    apply existsb_exists in E as (r & Hin & Heq%bool_decide_eq_true).
    apply list_elem_of_In, elem_of_rows in Hin as [i Hi]. eauto.
  - rewrite (user_to_domain_ok _ Hv). destruct (t !! u_id user) eqn:En; [done|].
    intros [= <- <-]. split; [|done]. apply users_insert; [done..|].
    intros i r Hi. rewrite existsb_false in E.
    assert (Hin : r ∈ rows t) by (apply elem_of_rows; eauto).
    by apply E, bool_decide_eq_false in Hin.
Qed.
End users.
