(* ===== verification/Idempotency.v ===== *)
(** * Durable idempotency

    [application/value_objects/idempotency.py], [application/ports/dto/idempotency.py]
    (the value objects and their validators), the [idempotency_records] table with
    [infrastructure/database/repositories/idempotency_record_repository.py], and
    [application/idempotency/durable.py].

    The service is written against any database that has the records table
    ([HasRecords]); the business operation is any body of the same transaction. *)

From S2P Require Import Prelude Exceptions Domain Retry Text Sql Effects.

(** ** Value objects *)

Record IdempotencyIdentity := {
  ii_subject_id : string;
  ii_operation : string;
  ii_key_hash : bytes
}.

#[global] Instance IdempotencyIdentity_eq_dec : EqDecision IdempotencyIdentity.
Proof. solve_decision. Defined.

Inductive BeginAction : Set := ACQUIRED | BEGIN_REPLAY | BEGIN_CONFLICT | BEGIN_IN_PROGRESS.
Inductive ExecutionOutcome : Set := EXECUTED | REPLAY | CONFLICT | IN_PROGRESS.

#[global] Instance BeginAction_eq_dec : EqDecision BeginAction.
Proof. solve_decision. Defined.
#[global] Instance ExecutionOutcome_eq_dec : EqDecision ExecutionOutcome.
Proof. solve_decision. Defined.

(** [Field(min_length=1, max_length=n)] *)
Definition text_within (n : nat) (s : string) : bool :=
  (1 <=? String.length s)%nat && (String.length s <=? n)%nat.

Definition is_digest (b : bytes) : bool := (length b =? 32)%nat.

Definition IdempotencyIdentity_validate (i : IdempotencyIdentity) : res IdempotencyIdentity :=
  raise_unless (text_within 255 (ii_subject_id i)) EValidationError;;
  raise_unless (text_within 100 (ii_operation i)) EValidationError;;
  raise_unless (is_digest (ii_key_hash i)) EValidationError;;
  mret i.

(** ** Stored results *)

Record StoredResult := {
  sr_result_type : string;
  sr_result_payload : option (list (string * json));
  sr_result_version : Z;
  sr_resource_type : option string;
  sr_resource_id : option string;
  sr_resource_version : option Z
}.

(** [StoredResult(...)]: the field constraints and [validate_replayability]. *)
Definition StoredResult_validate (s : StoredResult) : res StoredResult :=
  raise_unless (text_within 100 (sr_result_type s)) EValidationError;;
  raise_unless (0 <? sr_result_version s) EValidationError;;
  on_some (sr_resource_type s) (fun t => raise_unless (text_within 100 t) EValidationError);;
  on_some (sr_resource_version s) (fun v => raise_unless (0 <? v) EValidationError);;
  let has_type := is_some (sr_resource_type s) in
  let has_id := is_some (sr_resource_id s) in
  raise_if (negb (Bool.eqb has_type has_id)) EValidationError;;
  raise_if (is_none (sr_result_payload s) && negb has_id) EValidationError;;
  raise_if (is_some (sr_resource_version s) && negb has_id) EValidationError;;
  mret s.

Record CompletedIdempotencyResult := {
  ci_stored : StoredResult;
  ci_request_hash : bytes
}.

Definition CompletedIdempotencyResult_new (request_hash : bytes) (stored : StoredResult) :
    res CompletedIdempotencyResult :=
  s ← StoredResult_validate stored;
  raise_unless (is_digest request_hash) EValidationError;;
  mret {| ci_stored := s; ci_request_hash := request_hash |}.

Record BeginResult := {
  br_action : BeginAction;
  br_completed : option CompletedIdempotencyResult
}.

Definition BeginResult_new (action : BeginAction)
    (completed : option CompletedIdempotencyResult) : res BeginResult :=
  raise_if (bool_decide (action = BEGIN_REPLAY) && is_none completed) EValidationError;;
  raise_if (negb (bool_decide (action = BEGIN_REPLAY)) && is_some completed) EValidationError;;
  mret {| br_action := action; br_completed := completed |}.

Record ExecutionResult := {
  er_outcome : ExecutionOutcome;
  er_completed : option CompletedIdempotencyResult
}.

(** The outcomes that carry a result. *)
Definition carries_result (o : ExecutionOutcome) : bool :=
  match o with EXECUTED | REPLAY => true | CONFLICT | IN_PROGRESS => false end.

Definition ExecutionResult_new (outcome : ExecutionOutcome)
    (completed : option CompletedIdempotencyResult) : res ExecutionResult :=
  raise_unless (Bool.eqb (carries_result outcome) (is_some completed)) EValidationError;;
  mret {| er_outcome := outcome; er_completed := completed |}.

(** ** The table *)

Record IdempotencyRecord := {
  ir_id : uuid;
  ir_subject_id : string;
  ir_operation : string;
  ir_key_hash : bytes;
  ir_request_hash : bytes;
  ir_fingerprint_version : Z;
  ir_stored : StoredResult;
  ir_created_at : datetime;
  ir_completed_at : datetime;
  ir_expires_at : datetime
}.

Abbreviation record_table := (gmap Z IdempotencyRecord).

(** The CHECK constraints of [IdempotencyRecordORM]. *)
Definition record_check (r : IdempotencyRecord) : bool :=
  let s := ir_stored r in
  let has_type := is_some (sr_resource_type s) in
  let has_id := is_some (sr_resource_id s) in
  is_digest (ir_key_hash r) && is_digest (ir_request_hash r)
  && (0 <? ir_fingerprint_version r) && (0 <? sr_result_version s)
  && Bool.eqb has_type has_id
  && match sr_resource_version s with
     | None => true
     | Some v => has_type && has_id && (0 <? v)
     end
  && (is_some (sr_result_payload s) || (has_type && has_id))
  && dt_leb (ir_created_at r) (ir_completed_at r)
  && dt_ltb (ir_completed_at r) (ir_expires_at r).

Definition same_identity (i : IdempotencyIdentity) (r : IdempotencyRecord) : bool :=
  bool_decide (ir_subject_id r = ii_subject_id i)
  && bool_decide (ir_operation r = ii_operation i)
  && bool_decide (ir_key_hash r = ii_key_hash i).

(** The row [try_add_completed] proposes. *)
Definition record_row (id : uuid) (i : IdempotencyIdentity)
    (completed : CompletedIdempotencyResult) (now : datetime) (retention_seconds : Z) :
    IdempotencyRecord :=
  {| ir_id := id; ir_subject_id := ii_subject_id i; ir_operation := ii_operation i;
     ir_key_hash := ii_key_hash i; ir_request_hash := ci_request_hash completed;
     ir_fingerprint_version := 1; ir_stored := ci_stored completed;
     ir_created_at := now; ir_completed_at := now;
     ir_expires_at := dt_add now (retention_seconds * 1000000) |}.

(** [INSERT ... ON CONFLICT (subject_id, operation, key_hash) DO NOTHING RETURNING id]:
    a conflict on the primary key is an error, and the CHECK constraints come
    first. *)
Definition insert_record (i : IdempotencyIdentity) (row : IdempotencyRecord)
    (t : record_table) : res (bool * record_table) :=
  if negb (record_check row) then raise CheckViolation else
  if existsb (same_identity i) (rows t) then mret (false, t) else
  match t !! ir_id row with
  | Some _ => raise UniqueViolation
  | None => mret (true, <[ir_id row := row]> t)
  end.

(** The record [get_completed] builds from a row. *)
Definition record_completed (row : IdempotencyRecord) : res CompletedIdempotencyResult :=
  match CompletedIdempotencyResult_new (ir_request_hash row) (ir_stored row) with
  | Ok c => Ok c
  | Err x => if isinstance x EValidationError then raise StoredStateError else Err x
  end.

(** The candidates of [delete_expired]. *)
Definition expired_records (lk : gset Z) (expires_at : datetime) (limit : Z)
    (t : record_table) : list IdempotencyRecord :=
  pick ir_id (fun r => [dt_us (ir_expires_at r); ir_id r]) lk
    (fun r => dt_leb (ir_expires_at r) expires_at) limit t.

(** [delete_expired] *)
Definition delete_expired (lk : gset Z) (expires_at : datetime) (limit : Z)
    (t : record_table) : res (Z * record_table) :=
  raise_if (limit <=? 0) EValueError;;
  let ids := ir_id <$> expired_records lk expires_at limit t in
  let '(deleted, t') := sql_delete (fun r => bool_decide (ir_id r ∈ ids)) t in
  mret (Z.of_nat (length deleted), t').

(** ** The repository inside a transaction *)

(** A database with an [idempotency_records] table. *)
Class HasRecords (DB : Type) := {
  records : DB -> record_table;
  with_records : record_table -> DB -> DB;
  records_with_records t db : records (with_records t db) = t
}.

Section durable.
Context {DB Ev : Type} `{HasRecords DB}.
Context (retention_seconds : Z).

Definition get_completed (identity : IdempotencyIdentity) :
    T DB (option CompletedIdempotencyResult) :=
  row ← query (fun db => one_or_none (select (same_identity identity) (records db)));
  match row with
  | None => mret None
  | Some row =>
      now ← t_tick clock;
      if dt_leb (ir_expires_at row) now then mret None
      else c ← t_lift (record_completed row); mret (Some c)
  end.

Definition try_add_completed (identity : IdempotencyIdentity)
    (completed : CompletedIdempotencyResult) : T DB bool :=
  now ← t_tick clock;
  id ← t_tick new_uuid;
  stmt (fun _ _ db =>
    '(inserted, t) ← insert_record identity
                       (record_row id identity completed now retention_seconds) (records db);
    mret (inserted, with_records t db)).

(** ** application/idempotency/durable.py *)

Definition validate_digest (request_hash : bytes) : res unit :=
  raise_unless (is_digest request_hash) EValueError.

Definition classify (completed : CompletedIdempotencyResult) (request_hash : bytes) :
    res ExecutionResult :=
  if negb (bool_decide (ci_request_hash completed = request_hash))
  then ExecutionResult_new CONFLICT None
  else ExecutionResult_new REPLAY (Some completed).

Definition find_existing (identity : IdempotencyIdentity) (request_hash : bytes) :
    M DB Ev (option ExecutionResult) :=
  lift (validate_digest request_hash);;
  existing ← transaction (get_completed identity);
  match existing with
  | None => mret None
  | Some existing => r ← lift (classify existing request_hash); mret (Some r)
  end.

(** The transaction of [execute_once]. *)
Definition execute_body (identity : IdempotencyIdentity) (request_hash : bytes)
    (operation : T DB StoredResult) : T DB CompletedIdempotencyResult :=
  stored ← operation;
  completed ← t_lift (CompletedIdempotencyResult_new request_hash stored);
  added ← try_add_completed identity completed;
  (if added : bool then mret tt else t_lift (raise EConcurrentWinnerCommitted));;
  mret completed.

(** The [except] clauses of [execute_once]. *)
Definition execution_failed (identity : IdempotencyIdentity) (request_hash : bytes)
    (error : exn) : M DB Ev ExecutionResult :=
  if isinstance error EConcurrentWinnerCommitted then
    winner ← find_existing identity request_hash;
    match winner with
    | None => lift (raise ERuntimeError)
    | Some winner => mret winner
    end
  else if is_exception error then
    lookup ← attempt (find_existing identity request_hash);
    match lookup with
    | Err lookup_error =>
        if is_exception lookup_error then lift (raise error) else lift (raise lookup_error)
    | Ok (Some winner) => mret winner
    | Ok None => lift (raise error)
    end
  else lift (raise error).

Definition execute_once (identity : IdempotencyIdentity) (request_hash : bytes)
    (operation : T DB StoredResult) : M DB Ev ExecutionResult :=
  lift (validate_digest request_hash);;
  existing ← find_existing identity request_hash;
  match existing with
  | Some existing => mret existing
  | None =>
      outcome ← attempt (transaction (execute_body identity request_hash operation));
      match outcome with
      | Err error => execution_failed identity request_hash error
      | Ok completed => lift (ExecutionResult_new EXECUTED (Some completed))
      end
  end.
End durable.

(** ** What the statements do *)

Definition stored_for (i : IdempotencyIdentity) (t : record_table) : Prop :=
  exists k r, t !! k = Some r /\ same_identity i r = true.

Lemma stored_for_exists i t : existsb (same_identity i) (rows t) = true <-> stored_for i t.
Proof.
  rewrite existsb_exists. unfold stored_for. split.
  - intros (r & Hin & Hs). apply list_elem_of_In, elem_of_rows in Hin as [k Hk]. eauto.
  - intros (k & r & Hk & Hs). exists r. split; [|done].
    apply list_elem_of_In, elem_of_rows. eauto.
Qed.

Lemma record_row_identity id i c now k : same_identity i (record_row id i c now k) = true.
Proof. unfold same_identity. by rewrite !bool_decide_true. Qed.

(** [INSERT ... DO NOTHING] inserts iff the identity is new. *)
Lemma insert_record_true i row t t' :
  same_identity i row = true -> insert_record i row t = Ok (true, t') ->
  ~ stored_for i t /\ t !! ir_id row = None /\ record_check row = true /\
  t' = <[ir_id row := row]> t /\ stored_for i t'.
Proof.
  intros Hi. unfold insert_record. destruct (record_check row) eqn:Ec; cbn [negb]; [|done].
  destruct (existsb _ _) eqn:Ee; [done|]. destruct (t !! ir_id row) eqn:El; [done|].
  intros [= <-]. split; [by rewrite <- stored_for_exists, Ee|].
  do 3 (split; [done|]). exists (ir_id row), row. split; [apply lookup_insert_eq|done].
Qed.

Lemma insert_record_stored i row t r :
  stored_for i t -> insert_record i row t = Ok r -> r = (false, t).
Proof.
  intros Hs. unfold insert_record. rewrite (proj2 (stored_for_exists _ _) Hs).
  destruct (record_check row); cbn [negb]; [|done]. by intros [= <-].
Qed.

Section bodies.
Context {DB Ev : Type} `{HasRecords DB} (e : env DB).
Context (retention_seconds : Z).

Lemma get_completed_built i : built e (get_completed i).
Proof.
  unfold get_completed. apply built_bind; [apply built_query|]. intros [row|]; [|apply built_ret].
  apply built_bind; [apply built_tick|]. intros now. destruct (dt_leb _ _); [apply built_ret|].
  apply built_bind; [apply built_lift|]. intros ?. apply built_ret.
Qed.

Lemma get_completed_reading i : reading e (get_completed i).
Proof.
  unfold get_completed. apply reading_bind; [apply reading_query|].
  intros [row|]; [|apply reading_ret].
  apply reading_bind; [apply reading_tick|]. intros now.
  destruct (dt_leb _ _); [apply reading_ret|].
  apply reading_bind; [apply reading_lift|]. intros ?. apply reading_ret.
Qed.

Lemma execute_body_built i h op :
  built e op -> built e (execute_body retention_seconds i h op).
Proof.
  intros Hop. unfold execute_body, try_add_completed.
  apply built_bind; [done|]. intros stored.
  apply built_bind; [apply built_lift|]. intros c.
  apply built_bind.
  { apply built_bind; [apply built_tick|]. intros ?.
    apply built_bind; [apply built_tick|]. intros ?. apply built_stmt. }
  intros added. apply built_bind; [destruct added; [apply built_ret|apply built_lift]|].
  intros ?. apply built_ret.
Qed.

Lemma find_existing_reaches i h (w : world DB Ev) :
  reaches e (w_db w) (w_db (find_existing i h e w).2).
Proof.
  unfold find_existing. unfold mbind, M_bind, lift. destruct (validate_digest h); [|done].
  pose proof (reading_transaction e (get_completed i) w (get_completed_built i)
    (get_completed_reading i)) as Hr.
  destruct (transaction _ e w) as [[[c|]|x] w']; [|exact Hr..].
  by destruct (classify c h).
Qed.

(** What [find_existing] answers. *)
Lemma find_existing_classified i h (w w' : world DB Ev) r :
  find_existing i h e w = (Ok (Some r), w') ->
  exists c, r = (if bool_decide (ci_request_hash c = h)
                 then {| er_outcome := REPLAY; er_completed := Some c |}
                 else {| er_outcome := CONFLICT; er_completed := None |}).
Proof.
  unfold find_existing, mbind, M_bind, lift. destruct (validate_digest h); [|done].
  destruct (transaction _ e w) as [[[c|]|x] w1]; [|done..].
  unfold classify. intros Hr. exists c. revert Hr.
  destruct (bool_decide (ci_request_hash c = h)); intros [= <- _]; done.
Qed.

(** The writes of the operation and the record are committed together. *)
Definition committed (i : IdempotencyIdentity) (h : bytes) (op : T DB StoredResult)
    (db : DB) (c : CompletedIdempotencyResult) (db' : DB) : Prop :=
  ran e (execute_body retention_seconds i h op) db c db'.

(** Nothing was written, or the commit was applied and reported as failed. *)
Definition left_alone (i : IdempotencyIdentity) (h : bytes) (op : T DB StoredResult)
    (db db' : DB) : Prop :=
  reaches e db db' \/
  exists db1 c db2 n d, reaches e db db1 /\ committed i h op db1 c db2 /\
    commit_fault e n = Some (d, true) /\ reaches e db2 db'.

Lemma left_alone_trans i h op db db1 db2 :
  reaches e db db1 -> left_alone i h op db1 db2 -> left_alone i h op db db2.
Proof.
  intros Hr [Hl|(a & c & b & n & d & Ha & Hrest)]; [left; by etrans|].
  right. exists a, c, b, n, d. split; [by etrans|done].
Qed.

Lemma execution_failed_reaches i h x (w : world DB Ev) :
  reaches e (w_db w) (w_db (execution_failed i h x e w).2).
Proof.
  unfold execution_failed. pose proof (find_existing_reaches i h w) as Hr.
  unfold mbind, M_bind, attempt, lift.
  destruct (isinstance _ _).
  { by destruct (find_existing i h e w) as [[[r|]|y] w']. }
  destruct (is_exception x); [|done].
  destruct (find_existing i h e w) as [[[r|]|y] w']; try exact Hr.
  by destruct (is_exception y).
Qed.

Lemma execution_failed_answer i h x (w w' : world DB Ev) r :
  execution_failed i h x e w = (Ok r, w') ->
  exists c, r = (if bool_decide (ci_request_hash c = h)
                 then {| er_outcome := REPLAY; er_completed := Some c |}
                 else {| er_outcome := CONFLICT; er_completed := None |}).
Proof.
  unfold execution_failed, mbind, M_bind, attempt, lift. destruct (isinstance _ _).
  { destruct (find_existing i h e w) as [[[r'|]|y] w1] eqn:E; try done.
    intros [= -> _]. by eapply find_existing_classified. }
  destruct (is_exception x); [|done].
  destruct (find_existing i h e w) as [[[r'|]|y] w1] eqn:E; try done.
  - intros [= -> _]. by eapply find_existing_classified.
  - by destruct (is_exception y).
Qed.

(** The run of [execute_once], by its outcome. *)
Lemma execute_once_cases i h op (w : world DB Ev) :
  built e op ->
  match execute_once retention_seconds i h op e w with
  | (Ok r, w') =>
      match er_outcome r, er_completed r with
      | EXECUTED, Some c => ci_request_hash c = h /\
          exists db, reaches e (w_db w) db /\ committed i h op db c (w_db w')
      | REPLAY, Some c => ci_request_hash c = h /\ left_alone i h op (w_db w) (w_db w')
      | CONFLICT, None => left_alone i h op (w_db w) (w_db w')
      | _, _ => False
      end
  | (Err x, w') => left_alone i h op (w_db w) (w_db w')
  end.
Proof.
  intros Hop. unfold execute_once. unfold mbind at 1, M_bind at 1, lift at 1.
  destruct (validate_digest h); [|by left].
  unfold mbind at 1, M_bind at 1.
  pose proof (find_existing_reaches i h w) as Hr.
  assert (Hans : forall c db', left_alone i h op (w_db w) db' ->
    let r := if bool_decide (ci_request_hash c = h)
             then {| er_outcome := REPLAY; er_completed := Some c |}
             else {| er_outcome := CONFLICT; er_completed := None |} in
    match er_outcome r, er_completed r with
    | EXECUTED, Some c => ci_request_hash c = h /\
        exists db, reaches e (w_db w) db /\ committed i h op db c db'
    | REPLAY, Some c => ci_request_hash c = h /\ left_alone i h op (w_db w) db'
    | CONFLICT, None => left_alone i h op (w_db w) db'
    | _, _ => False
    end).
  { intros c db' Hl. by destruct (bool_decide_reflect (ci_request_hash c = h)). }
  destruct (find_existing i h e w) as [[[r|]|x] w1] eqn:E; cbn [snd] in Hr; [| |by left].
  { apply find_existing_classified in E as [c ->]. apply Hans. by left. }
  pose proof (transaction_cases e _ w1 (execute_body_built i h op Hop)) as Hc.
  unfold mbind at 1, M_bind at 1, attempt at 1.
  destruct (transaction _ e w1) as [[c|x] w2]; cbn [w_db].
  - unfold lift. cbn. split; [|by exists (w_db w1)].
    destruct Hc as (n & now & t' & Hb & _). unfold execute_body in Hb.
    unfold mbind, T_bind in Hb. destruct (op e _) as [[s|?] t1]; [|done].
    unfold t_lift, CompletedIdempotencyResult_new in Hb.
    destruct (StoredResult_validate s); [|done]. cbn in Hb.
    destruct (is_digest h); [|done]. cbn in Hb.
    destruct (try_add_completed _ _ _ _ _) as [[[|]|?] t2]; try done.
    by injection Hb as <- _.
  - destruct Hc as [_ Hc].
    assert (Hl : left_alone i h op (w_db w) (w_db (execution_failed i h x e w2).2)).
    { pose proof (execution_failed_reaches i h x w2) as Hf.
      destruct Hc as [Hc|(c & n & d & Hran & Hcf & _)].
      - left. etrans; [exact Hr|]. by etrans.
      - right. by exists (w_db w1), c, (w_db w2), n, d. }
    destruct (execution_failed i h x e w2) as [[r|y] w3] eqn:Ef; [|exact Hl].
    apply execution_failed_answer in Ef as [c ->]. by apply Hans.
Qed.


(** A committed run, step by step. *)
Lemma execute_body_inv i h op t c t' :
  execute_body retention_seconds i h op e t = (Ok c, t') ->
  exists stored t1 n id now, op e t = (Ok stored, t1) /\
    CompletedIdempotencyResult_new h stored = Ok c /\
    let view := others e n (tx_locks t1) (tx_view t1) in
    let row := record_row id i c now retention_seconds in
    ~ stored_for i (records view) /\ records view !! id = None /\
    record_check row = true /\ tx_view t' = with_records (<[id := row]> (records view)) view.
Proof.
  unfold execute_body, try_add_completed, mbind, T_bind, t_lift, t_tick, stmt, locking_stmt.
  destruct (op e t) as [[stored|x] t1]; [|done].
  destruct (CompletedIdempotencyResult_new h stored) as [c'|x] eqn:Ec; [|done].
  cbn [tx_tick tx_view tx_base tx_now tx_locks]. destruct (statement_fault e _); [done|].
  set (now := clock e _). set (id := new_uuid e _). set (n := S (S (tx_tick t1))).
  set (view := others e n (tx_locks t1) (tx_view t1)). cbv beta.
  destruct (insert_record i _ (records view)) as [[[|] tb]|x] eqn:Ei; [|done..].
  cbn. intros [= -> <-].
  apply insert_record_true in Ei as (Hs & Hl & Hck & -> & _); [|apply record_row_identity].
  exists stored, t1, n, id, now. done.
Qed.

(** Other transactions and the operation keep a stored record. *)
Record keeps_record (i : IdempotencyIdentity) (op : T DB StoredResult) : Prop := {
  kr_others : forall n l db, stored_for i (records db) -> stored_for i (records (others e n l db));
  kr_operation : forall t r t', stored_for i (records (tx_view t)) ->
    op e t = (Ok r, t') -> stored_for i (records (tx_view t'))
}.

Lemma reaches_stored i op db db' :
  keeps_record i op -> reaches e db db' -> stored_for i (records db) ->
  stored_for i (records db').
Proof. intros [Ho _] Hr. induction Hr as [|a b c (n & l & ->) _ IH]; auto. Qed.

Lemma committed_stored i h op db c db' :
  committed i h op db c db' -> stored_for i (records db').
Proof.
  intros (n & now & t' & Hb & <-). apply execute_body_inv in Hb
    as (s & t1 & m & id & at_ & _ & _ & _ & _ & _ & ->).
  rewrite records_with_records. eexists _, _. split; [apply lookup_insert_eq|].
  apply record_row_identity.
Qed.

Lemma committed_fresh i h op db c db' :
  keeps_record i op -> committed i h op db c db' -> ~ stored_for i (records db).
Proof.
  intros [Ho Hop] (n & now & t' & Hb & <-) Hs. apply execute_body_inv in Hb
    as (s & t1 & m & id & at_ & Hrun & _ & Hn & _).
  apply Hn, Ho. by eapply Hop; [|exact Hrun].
Qed.

Lemma left_alone_stored i h op db db' :
  keeps_record i op -> stored_for i (records db) -> left_alone i h op db db' ->
  reaches e db db'.
Proof.
  intros Hk Hs [Hr|(db1 & c & db2 & n & d & Hr & Hc & _)]; [done|].
  destruct (committed_fresh _ _ _ _ _ _ Hk Hc).
  exact (reaches_stored _ _ _ _ Hk Hr Hs).
Qed.

(** Once a record is stored, expired or not, no run writes anything. *)
Lemma execute_once_stored i h op (w : world DB Ev) :
  built e op -> keeps_record i op -> stored_for i (records (w_db w)) ->
  let '(r, w') := execute_once retention_seconds i h op e w in
  reaches e (w_db w) (w_db w') /\
  forall x, r = Ok x -> er_outcome x <> EXECUTED.
Proof.
  intros Hb Hk Hs. pose proof (execute_once_cases i h op w Hb) as Hc.
  destruct (execute_once _ _ _ _ _ _) as [[[[| | |] [c|]]|x] w']; cbn in Hc; try done.
  - destruct Hc as (_ & db & Hr & Hc). destruct (committed_fresh _ _ _ _ _ _ Hk Hc).
    exact (reaches_stored _ _ _ _ Hk Hr Hs).
  - split; [exact (left_alone_stored _ _ _ _ _ Hk Hs ltac:(naive_solver))|]. by intros ? [= <-].
  - split; [exact (left_alone_stored _ _ _ _ _ Hk Hs ltac:(naive_solver))|]. by intros ? [= <-].
  - split; [exact (left_alone_stored _ _ _ _ _ Hk Hs ltac:(naive_solver))|]. by intros ? [=].
Qed.

(** A run that wrote anything left a record. *)
Lemma execute_once_wrote i h op (w : world DB Ev) :
  built e op -> keeps_record i op ->
  let '(r, w') := execute_once retention_seconds i h op e w in
  reaches e (w_db w) (w_db w') \/ stored_for i (records (w_db w')).
Proof.
  intros Hb Hk. pose proof (execute_once_cases i h op w Hb) as Hc.
  assert (Hl : forall db', left_alone i h op (w_db w) db' ->
    reaches e (w_db w) db' \/ stored_for i (records db')).
  { intros db' [Hr|(db1 & c & db2 & n & d & _ & Hcm & _ & Hr)]; [by left|right].
    eapply reaches_stored; [exact Hk|exact Hr|]. by eapply committed_stored. }
  destruct (execute_once _ _ _ _ _ _) as [[[[| | |] [c|]]|x] w']; cbn in Hc; try done.
  - destruct Hc as (_ & db & _ & Hc). right. by eapply committed_stored.
  - apply Hl, Hc.
  - by apply Hl.
  - by apply Hl.
Qed.
End bodies.


(** ** A well-formed table *)

Record records_ok (t : record_table) : Prop := {
  rc_keyed : keyed ir_id t;
  rc_unique : forall i j a b x, t !! x = Some a -> t !! j = Some b ->
    same_identity i a = true -> same_identity i b = true -> x = j;
  rc_valid : forall k r, t !! k = Some r ->
    record_completed r = Ok {| ci_stored := ir_stored r; ci_request_hash := ir_request_hash r |}
}.

Lemma NoDup_all_eq {A} (l : list A) x :
  NoDup l -> x ∈ l -> (forall y, y ∈ l -> y = x) -> l = [x].
Proof.
  intros Hn Hin Ha. destruct l as [|y [|z l]]; [set_solver| |].
  - by rewrite (Ha y) by set_solver.
  - apply list.NoDup_cons in Hn as [Hn _]. destruct Hn.
    rewrite (Ha y), (Ha z) by set_solver. left.
Qed.

Lemma select_identity i t k r :
  records_ok t -> t !! k = Some r -> same_identity i r = true ->
  select (same_identity i) t = [r].
Proof.
  intros [Hk Hu _] Hr Hi. apply NoDup_all_eq.
  - by apply (select_NoDup ir_id).
  - apply elem_of_select. eauto.
  - intros y [[j Hj] Hy]%elem_of_select. specialize (Hu i j r y k Hr Hj Hi Hy). congruence.
Qed.

Lemma select_none i t : ~ stored_for i t -> select (same_identity i) t = [].
Proof.
  intros Hn. destruct (select _ t) as [|r l] eqn:E; [done|].
  assert (r ∈ select (same_identity i) t) as [[k Hk] Hi]%elem_of_select
    by (rewrite E; by left). destruct Hn. by exists k, r.
Qed.

Lemma same_identity_of i a b :
  same_identity i a = true -> same_identity i b = true ->
  forall j, same_identity j a = same_identity j b.
Proof.
  unfold same_identity. rewrite !andb_true_iff, !bool_decide_eq_true.
  intros [[-> ->] ->] [[-> ->] ->] j. done.
Qed.

(** The writes of the table keep it well-formed. *)
Lemma insert_record_ok i c row t b t' :
  records_ok t -> same_identity i row = true -> record_completed row = Ok c ->
  insert_record i row t = Ok (b, t') -> records_ok t'.
Proof.
  intros Ht Hi Hv Hins. destruct b.
  2: { unfold insert_record in Hins. destruct (record_check row); [|done]. cbn in Hins.
       destruct (existsb _ _); [by injection Hins as <-|]. by destruct (t !! ir_id row). }
  apply insert_record_true in Hins as (Hn & Hl & _ & -> & _); [|done].
  destruct Ht as [Hk Hu Hr]. split.
  - intros k r [[<- <-]|[_ Hk']]%lookup_insert_Some; [done|by apply Hk].
  - assert (Hfresh : forall k r j, t !! k = Some r -> same_identity j r = true ->
      same_identity j row = true -> False).
    { intros k r j Hk' Hj Hj'. apply Hn. exists k, r. split; [done|].
      rewrite <- Hi. by apply (same_identity_of j). }
    intros j y a b x [[<- <-]|[_ Ha]]%lookup_insert_Some
      [[<- <-]|[_ Hb]]%lookup_insert_Some Hja Hjb; [done| | |by eapply Hu].
    + by destruct (Hfresh _ _ _ Hb Hjb).
    + by destruct (Hfresh _ _ _ Ha Hja).
  - intros k r [[<- <-]|[_ Hk']]%lookup_insert_Some; [|by eapply Hr].
    revert Hv. unfold record_completed, CompletedIdempotencyResult_new.
    assert (Hs : forall s s', StoredResult_validate s = Ok s' -> s' = s).
    { unfold StoredResult_validate. intros s s' Hs. ok_inv. congruence. }
    destruct (StoredResult_validate _) as [s'|x] eqn:Es; cbn.
    2: { by destruct (isinstance x _). }
    apply Hs in Es as ->. by destruct (is_digest _).
Qed.

Lemma elem_of_expired lk expires_at limit t r :
  r ∈ expired_records lk expires_at limit t ->
  dt_us (ir_expires_at r) <= dt_us expires_at /\ ir_id r ∉ lk.
Proof.
  unfold expired_records. intros (_ & Hp & Hlk)%elem_of_pick. split; [|exact Hlk].
  exact (proj1 (dt_leb_le _ _) Hp).
Qed.

Lemma expired_length lk expires_at limit t :
  0 < limit -> Z.of_nat (length (expired_records lk expires_at limit t)) <= limit.
Proof. intros Hl. unfold expired_records. apply pick_length. lia. Qed.

(** Cleanup: [delete_expired] refuses a limit that is not positive; otherwise
    it removes exactly the picked rows, each expired and not locked, at most
    [limit] of them, those that expired first, returns how many it removed, keeps
    every other row as it is, and leaves the table well-formed. *)
Theorem delete_expired_spec lk expires_at limit t :
  records_ok t ->
  match delete_expired lk expires_at limit t with
  | Err x => limit <= 0 /\ x = EValueError
  | Ok (n, t') =>
      let l := expired_records lk expires_at limit t in
      0 < limit /\ n = Z.of_nat (length l) /\ n <= limit /\ records_ok t' /\
      (forall k r, t !! k = Some r -> r ∈ l ->
         t' !! k = None /\ dt_us (ir_expires_at r) <= dt_us expires_at /\ ir_id r ∉ lk) /\
      (forall k r, t !! k = Some r -> r ∉ l ->
         t' !! k = Some r /\
         (dt_us (ir_expires_at r) <= dt_us expires_at -> ir_id r ∉ lk ->
            n = limit /\ forall x, x ∈ l -> dt_us (ir_expires_at x) <= dt_us (ir_expires_at r))) /\
      (forall k, t !! k = None -> t' !! k = None)
  end.
Proof.
  intros [Hk Hu Hv]. unfold delete_expired. destruct (limit <=? 0) eqn:El.
  { by apply Z.leb_le in El. }
  apply Z.leb_gt in El. cbn. unfold mret, result_ret. set (l := expired_records _ _ _ _).
  assert (Hid : forall k r, t !! k = Some r ->
    bool_decide (ir_id r ∈ ir_id <$> l) = true <-> r ∈ l).
  { intros k r Hr. exact (pick_id_iff _ _ _ _ _ _ _ _ Hk Hr). }
  assert (Hlen : length (select (fun r => bool_decide (ir_id r ∈ ir_id <$> l)) t) = length l).
  { apply Permutation_length, (select_picked _ _ _ _ _ _ Hk). }
  rewrite Hlen. split; [done|]. split; [done|]. split; [exact (expired_length _ _ _ _ El)|].
  split; [|split; [|split]].
  - split.
    + by intros k r [Hr _]%map_lookup_filter_Some; apply Hk.
    + intros i j a b x [Ha _]%map_lookup_filter_Some [Hb _]%map_lookup_filter_Some.
      by eapply Hu.
    + intros k r [Hr _]%map_lookup_filter_Some. by eapply Hv.
  - intros k r Hr Hin. split; [|exact (elem_of_expired _ _ _ _ _ Hin)]. apply map_lookup_filter_None. right.
    intros x Hx. cbn. assert (x = r) as -> by congruence.
    by rewrite (proj2 (Hid _ _ Hr) Hin).
  - intros k r Hr Hnin. split.
    + apply map_lookup_filter_Some. split; [done|]. cbn.
      apply not_true_is_false. by rewrite (Hid _ _ Hr).
    + intros He Hlk. destruct (pick_left_out ir_id (fun r => [dt_us (ir_expires_at r); ir_id r])
        lk (fun r => dt_leb (ir_expires_at r) expires_at) limit t k r) as [Hn Hle];
        [lia|done|by apply dt_leb_le|done|done|]. split; [done|].
      intros x Hx%Hle. unfold key_le in Hx. cbn in Hx.
      rewrite orb_true_iff, andb_true_iff, Z.ltb_lt, Z.eqb_eq in Hx. lia.
  - intros k Hn. apply map_lookup_filter_None. by left.
Qed.

(** What the validator accepts the table accepts. *)
Lemma record_row_check id i stored h now retention :
  StoredResult_validate stored = Ok stored -> is_digest h = true ->
  is_digest (ii_key_hash i) = true -> 0 < retention ->
  record_check (record_row id i {| ci_stored := stored; ci_request_hash := h |} now retention)
    = true.
Proof.
  intros Hs Hh Hk Hr. unfold StoredResult_validate in Hs. ok_inv.
  unfold record_check. cbn [ir_stored record_row ir_key_hash ir_request_hash
    ir_fingerprint_version ir_created_at ir_completed_at ir_expires_at ci_stored
    ci_request_hash]. rewrite Hk, Hh, Hok0.
  assert (dt_leb now now = true) as -> by apply Z.leb_refl.
  assert (dt_ltb now (dt_add now (retention * 1000000)) = true) as ->.
  { apply dt_ltb_lt. rewrite dt_add_us. lia. }
  cbn [andb]. rewrite andb_true_r.
  destruct (sr_resource_type stored), (sr_resource_id stored), (sr_resource_version stored),
    (sr_result_payload stored); cbn in *; ok_inv; rewrite ?Hok2; done.
Qed.

Section decisions.
Context {DB Ev : Type} `{HasRecords DB} (e : env DB) (Hq : quiet e).
Context (retention_seconds : Z).

Lemma quiet_reaches db db' : reaches e db db' -> db' = db.
Proof. intros Hr. induction Hr as [|a b c (n & l & ->) _ ->]; [done|]. apply (qu_others _ Hq). Qed.

(** What a lookup answers, for the row of the identity. *)
Definition lookup_answer (h : bytes) (row : IdempotencyRecord) : ExecutionResult :=
  if bool_decide (ir_request_hash row = h)
  then {| er_outcome := REPLAY;
          er_completed := Some {| ci_stored := ir_stored row;
                                  ci_request_hash := ir_request_hash row |} |}
  else {| er_outcome := CONFLICT; er_completed := None |}.

Lemma find_existing_quiet i h (w : world DB Ev) r :
  is_digest h = true ->
  match select (same_identity i) (records (w_db w)) with
  | [] => r = None
  | [row] =>
      ((forall n, dt_us (clock e n) < dt_us (ir_expires_at row)) /\
       record_completed row =
         Ok {| ci_stored := ir_stored row; ci_request_hash := ir_request_hash row |} /\
       r = Some (lookup_answer h row)) \/
      ((forall n, dt_us (ir_expires_at row) <= dt_us (clock e n)) /\ r = None)
  | _ => False
  end ->
  exists n, find_existing i h e w =
    (Ok r, {| w_db := w_db w; w_tick := n; w_trace := w_trace w |}).
Proof.
  intros Hh Hr. unfold find_existing, validate_digest. rewrite Hh.
  set (t0 := {| tx_base := w_db w; tx_view := w_db w; tx_tick := S (w_tick w);
                tx_now := db_clock e (w_tick w); tx_locks := ∅ |}).
  set (t1 := {| tx_base := w_db w; tx_view := w_db w; tx_tick := S (S (w_tick w));
                tx_now := db_clock e (w_tick w); tx_locks := ∅ |}).
  set (t2 := {| tx_base := w_db w; tx_view := w_db w; tx_tick := S (S (S (w_tick w)));
                tx_now := db_clock e (w_tick w); tx_locks := ∅ |}).
  rewrite (run_bind e _ _ _ tt w eq_refl).
  assert (Hrow : forall o, one_or_none (select (same_identity i) (records (w_db w))) = Ok o ->
    query (fun db => one_or_none (select (same_identity i) (records db))) e t0 = (Ok o, t1)).
  { intros o Ho. exact (quiet_query e
      (fun db => one_or_none (select (same_identity i) (records db))) t0 o Hq Ho). }
  destruct (select _ _) as [|row [|row' l]]; [| |done].
  - subst r. eexists.
    erewrite run_bind; [|apply (quiet_transaction e _ _ None t1 Hq); unfold get_completed;
      rewrite (run_t_bind e _ _ _ _ _ (Hrow _ eq_refl)); reflexivity]. reflexivity.
  - destruct Hr as [(Hlive & Hv & ->)|(Hexp & ->)]; eexists.
    + erewrite run_bind; [|apply (quiet_transaction e _ _
        (Some {| ci_stored := ir_stored row; ci_request_hash := ir_request_hash row |}) t2 Hq);
        unfold get_completed; rewrite (run_t_bind e _ _ _ _ _ (Hrow _ eq_refl));
        cbv beta iota; rewrite (run_t_bind e (t_tick clock) _ t1 _ t2 eq_refl);
        rewrite (proj2 (dt_leb_gt _ _) (Hlive _));
        erewrite run_t_bind; [reflexivity|unfold t_lift; by rewrite Hv]].
      unfold classify, lookup_answer. cbn [ci_request_hash].
      destruct (bool_decide _); reflexivity.
    + erewrite run_bind; [|apply (quiet_transaction e _ _ None t2 Hq);
        unfold get_completed; rewrite (run_t_bind e _ _ _ _ _ (Hrow _ eq_refl));
        cbv beta iota; rewrite (run_t_bind e (t_tick clock) _ t1 _ t2 eq_refl);
        rewrite (proj2 (dt_leb_le _ _) (Hexp _)); reflexivity]. reflexivity.
Qed.

(** The operation succeeds with [stored] and leaves [view] behind, without
    touching the records. *)
Record succeeds (op : T DB StoredResult) (db : DB) (stored : StoredResult) (view : DB) :
    Prop := {
  su_built : built e op;
  su_run : forall t, tx_view t = db ->
    exists t', op e t = (Ok stored, t') /\ tx_view t' = view;
  su_records : records view = records db;
  su_valid : StoredResult_validate stored = Ok stored
}.

(** The request is well-formed and fresh identifiers are unused. *)
Record well_posed (i : IdempotencyIdentity) (h : bytes) (t : record_table) : Prop := {
  wp_table : records_ok t;
  wp_hash : is_digest h = true;
  wp_key : is_digest (ii_key_hash i) = true;
  wp_retention : 0 < retention_seconds;
  wp_fresh : forall n, t !! new_uuid e n = None
}.

(** The transaction of a first execution, and of one that finds its identity
    taken. *)
Lemma execute_body_quiet i h op (w : world DB Ev) stored view :
  succeeds op (w_db w) stored view -> well_posed i h (records (w_db w)) ->
  let c := {| ci_stored := stored; ci_request_hash := h |} in
  let run := transaction (execute_body retention_seconds i h op) e w in
  if existsb (same_identity i) (rows (records (w_db w)))
  then exists n, run = (Err EConcurrentWinnerCommitted,
                        {| w_db := w_db w; w_tick := n; w_trace := w_trace w |})
  else exists id now n, run = (Ok c,
         {| w_db := with_records (<[id := record_row id i c now retention_seconds]>
                                    (records (w_db w))) view;
            w_tick := n; w_trace := w_trace w |}).
Proof.
  intros [Hb Hrun Hrec Hv] [_ Hh Hk Hret Hfresh] c run. subst run.
  set (t0 := {| tx_base := w_db w; tx_view := w_db w; tx_tick := S (w_tick w);
                tx_now := db_clock e (w_tick w); tx_locks := ∅ |}).
  destruct (Hrun t0 eq_refl) as (t1 & Hop & Hview).
  assert (Hbase : tx_base t1 = w_db w).
  { specialize (Hb t0). rewrite Hop in Hb. exact (quiet_reaches _ _ Hb). }
  set (now := clock e (tx_tick t1)). set (id := new_uuid e (S (tx_tick t1))).
  assert (Hc : CompletedIdempotencyResult_new h stored = Ok c).
  { unfold CompletedIdempotencyResult_new. rewrite Hv. cbn. by rewrite Hh. }
  assert (Hins : insert_record i (record_row id i c now retention_seconds)
    (records view) = if existsb (same_identity i) (rows (records (w_db w)))
      then Ok (false, records (w_db w))
      else Ok (true, <[id := record_row id i c now retention_seconds]> (records (w_db w)))).
  { unfold insert_record.
    pose proof (record_row_check id i stored h now retention_seconds Hv Hh Hk Hret) as Hck.
    fold c in Hck. rewrite Hck, Hrec.
    cbn [negb]. destruct (existsb _ _); [done|]. cbn [record_row ir_id].
    unfold id. by rewrite Hfresh. }
  pose proof Hq as [Ho Hs Hcommit]. unfold transaction. fold t0.
  unfold execute_body, try_add_completed, t_lift, t_tick, stmt, locking_stmt.
  rewrite (run_t_bind e _ _ _ _ _ Hop).
  unfold mbind, T_bind. rewrite Hc. cbn [tx_tick tx_view tx_base tx_now tx_locks].
  rewrite Hs, !Ho, Hview, Hbase. fold now id. cbv beta. rewrite Hins.
  destruct (existsb _ _); cbn.
  - by eexists.
  - rewrite Hcommit. by exists id, now; eexists.
Qed.

(** Deciding a request when nobody interferes: with a live record of the
    identity the operation is not run, nothing changes, and the answer is REPLAY
    of exactly the stored result if the request hash is the stored one and
    CONFLICT if not; with no record the operation's result is returned as
    EXECUTED and its writes are committed together with a record of it that
    expires after the retention period. *)
Theorem execute_once_decides i h op (w : world DB Ev) :
  well_posed i h (records (w_db w)) ->
  (forall k row, records (w_db w) !! k = Some row -> same_identity i row = true ->
     (forall n, dt_us (clock e n) < dt_us (ir_expires_at row)) ->
     exists w', execute_once retention_seconds i h op e w = (Ok (lookup_answer h row), w') /\
       w_db w' = w_db w) /\
  (forall stored view, ~ stored_for i (records (w_db w)) ->
     succeeds op (w_db w) stored view ->
     let c := {| ci_stored := stored; ci_request_hash := h |} in
     exists id now w',
       execute_once retention_seconds i h op e w =
         (Ok {| er_outcome := EXECUTED; er_completed := Some c |}, w') /\
       w_db w' = with_records (<[id := record_row id i c now retention_seconds]>
                                 (records (w_db w))) view).
Proof.
  intros Hp. pose proof Hp as [Ht Hh Hk Hret Hfresh]. split.
  - intros k row Hrow Hi Hlive.
    destruct (find_existing_quiet i h w (Some (lookup_answer h row)) Hh) as [n Hf].
    { rewrite (select_identity i _ k row Ht Hrow Hi). left. split; [done|].
      split; [|done]. by eapply rc_valid. }
    unfold execute_once, validate_digest. rewrite Hh.
    rewrite (run_bind e _ _ _ tt w eq_refl), (run_bind e _ _ _ _ _ Hf).
    by eexists.
  - intros stored view Hn Hop c.
    destruct (find_existing_quiet i h w None Hh) as [n Hf].
    { by rewrite select_none. }
    set (w1 := {| w_db := w_db w; w_tick := n; w_trace := w_trace w |}) in Hf.
    pose proof (execute_body_quiet i h op w1 stored view Hop Hp) as Hx. cbv zeta in Hx.
    destruct (existsb _ _) eqn:Ee; [by apply stored_for_exists in Ee|].
    destruct Hx as (id & now & m & Hx). exists id, now.
    unfold execute_once, validate_digest. rewrite Hh.
    rewrite (run_bind e _ _ _ tt w eq_refl), (run_bind e _ _ _ _ _ Hf). cbv beta iota.
    erewrite run_bind; [|unfold attempt; rewrite Hx; reflexivity]. by eexists.
Qed.

(** An expired record blocks its identity: the lookup ignores a record past
    its expiry, the unique constraint does not; so until the record is deleted
    every call under the identity whose operation succeeds has its writes rolled
    back and ends with [RuntimeError], whatever its request hash. *)
Theorem expired_record_blocks i h op (w : world DB Ev) k row stored view :
  well_posed i h (records (w_db w)) ->
  records (w_db w) !! k = Some row -> same_identity i row = true ->
  (forall n, dt_us (ir_expires_at row) <= dt_us (clock e n)) ->
  succeeds op (w_db w) stored view ->
  exists w', execute_once retention_seconds i h op e w = (Err ERuntimeError, w') /\
    w_db w' = w_db w.
Proof.
  intros Hp Hrow Hi Hexp Hop. pose proof Hp as [Ht Hh _ _ _].
  assert (Hf : forall w' : world DB Ev, w_db w' = w_db w -> exists n, find_existing i h e w' =
    (Ok None, {| w_db := w_db w'; w_tick := n; w_trace := w_trace w' |})).
  { intros w' Hw. apply find_existing_quiet; [done|]. rewrite Hw.
    rewrite (select_identity i _ k row Ht Hrow Hi). by right. }
  destruct (Hf w eq_refl) as [n Hf1].
  set (w1 := {| w_db := w_db w; w_tick := n; w_trace := w_trace w |}) in Hf1.
  pose proof (execute_body_quiet i h op w1 stored view Hop Hp) as Hx. cbv zeta in Hx.
  cbn [w_db w1] in Hx.
  rewrite (proj2 (stored_for_exists i _)) in Hx by by exists k, row.
  destruct Hx as [m Hx]. set (w2 := {| w_tick := m |}) in Hx.
  destruct (Hf w2 eq_refl) as [m' Hf2].
  unfold execute_once, validate_digest. rewrite Hh.
  rewrite (run_bind e _ _ _ tt w eq_refl), (run_bind e _ _ _ _ _ Hf1). cbv beta iota.
  erewrite run_bind; [|unfold attempt; rewrite Hx; reflexivity]. cbv beta iota.
  unfold execution_failed.
  change (isinstance EConcurrentWinnerCommitted EConcurrentWinnerCommitted) with true.
  cbv beta iota. rewrite (run_bind e _ _ _ _ _ Hf2). by eexists.
Qed.
End decisions.

(** ** Instances *)

(** A database that is the records table and a counter the operation adds to. *)
Record demo_db := { dd_counter : Z; dd_records : record_table }.

#[global] Instance demo_has_records : HasRecords demo_db.
Proof.
  refine {| records := dd_records;
            with_records t db := {| dd_counter := dd_counter db; dd_records := t |} |}.
  reflexivity.
Defined.

Definition demo_identity : IdempotencyIdentity :=
  {| ii_subject_id := "public-refresh"; ii_operation := "auth.refresh";
     ii_key_hash := repeat x01 32 |}.

Definition demo_request : bytes := repeat x02 32.

Definition demo_stored_result : StoredResult :=
  {| sr_result_type := "demo.added"; sr_result_payload := Some []; sr_result_version := 1;
     sr_resource_type := None; sr_resource_id := None; sr_resource_version := None |}.

Definition demo_add : T demo_db StoredResult :=
  stmt (fun _ _ db => Ok (demo_stored_result,
    {| dd_counter := dd_counter db + 1; dd_records := dd_records db |})).

Definition demo_start : world demo_db unit :=
  {| w_db := {| dd_counter := 0; dd_records := ∅ |}; w_tick := 0; w_trace := [] |}.

Definition demo_quiet_env : env demo_db := quiet_env demo_db.

Lemma demo_quiet_holds : quiet demo_quiet_env.
Proof. done. Qed.

Lemma demo_add_built (e : env demo_db) : built e demo_add.
Proof. apply built_stmt. Qed.

(** Added once, at tick 6 with identifier 1007, kept for an hour. *)
Definition demo_completed : CompletedIdempotencyResult :=
  {| ci_stored := demo_stored_result; ci_request_hash := demo_request |}.

Definition demo_record : IdempotencyRecord :=
  record_row 1007 demo_identity demo_completed (utc 6) 3600.

Definition demo_after : world demo_db unit :=
  (execute_once 3600 demo_identity demo_request demo_add demo_quiet_env demo_start).2.

Lemma demo_add_keeps : keeps_record demo_quiet_env demo_identity demo_add.
Proof.
  split; [done|]. intros t r t' Hs. unfold demo_add, stmt, locking_stmt. cbn. by intros [= <- <-].
Qed.

Lemma demo_add_succeeds db :
  succeeds demo_quiet_env demo_add db demo_stored_result
    {| dd_counter := dd_counter db + 1; dd_records := dd_records db |}.
Proof.
  split; [apply built_stmt| |done|done]. intros t <-. eexists. by split.
Qed.

Lemma demo_table_ok : records_ok {[ 1007 := demo_record ]}.
Proof.
  split.
  - intros i r [<- <-]%lookup_singleton_Some. done.
  - intros i j a b x [<- _]%lookup_singleton_Some [<- _]%lookup_singleton_Some. done.
  - intros k r [<- <-]%lookup_singleton_Some. done.
Qed.

Lemma demo_empty_ok : records_ok ∅.
Proof. by split. Qed.



Lemma delete_expired_spec_witness :
  exists t', delete_expired ∅ (utc 7200000000) 10 {[ 1007 := demo_record ]} = Ok (1, t') /\
    t' !! 1007 = None.
Proof.
  assert (E : delete_expired ∅ (utc 7200000000) 10 {[ 1007 := demo_record ]} = Ok (1, ∅))
    by (vm_compute; reflexivity).
  pose proof (delete_expired_spec ∅ (utc 7200000000) 10 _ demo_table_ok) as H.
  rewrite E in H. destruct H as (_ & _ & _ & _ & H & _). exists ∅. split; [exact E|].
  apply (H 1007 demo_record).
  - apply lookup_singleton_eq.
  - vm_compute. left.
Defined.

Lemma execute_once_decides_witness :
  exists w', execute_once 3600 demo_identity demo_request demo_add demo_quiet_env demo_start =
    (Ok {| er_outcome := EXECUTED; er_completed := Some demo_completed |}, w').
Proof.
  assert (Hp : well_posed demo_quiet_env 3600 demo_identity demo_request
    (records (w_db demo_start))).
  { split; [apply demo_empty_ok|reflexivity|reflexivity|lia|].
    intros n. apply lookup_empty. }
  destruct (execute_once_decides demo_quiet_env demo_quiet_holds 3600 demo_identity demo_request
    demo_add demo_start Hp) as [_ H].
  destruct (H demo_stored_result _ ltac:(intros (k & r & Hk & _); discriminate Hk)
    (demo_add_succeeds _)) as (id & now & w' & Hrun & _).
  exists w'. exact Hrun.
Defined.

(** The clock stands two hours later. *)
Definition demo_late_env : env demo_db :=
  {| clock _ := utc 7200000000; new_uuid n := 2000 + Z.of_nat n; random_sample _ := f0;
     others _ _ db := db; db_clock _ := utc 7200000000; locked_rows _ := ∅;
     statement_fault _ := None; commit_fault _ := None |}.

Lemma expired_record_blocks_witness :
  exists w', execute_once 3600 demo_identity demo_request demo_add demo_late_env
    {| w_db := {| dd_counter := 1; dd_records := {[ 1007 := demo_record ]} |};
       w_tick := 0; w_trace := [] |} = (Err ERuntimeError, w' : world demo_db unit).
Proof.
  set (w := {| w_tick := 0 |}).
  assert (Hp : well_posed demo_late_env 3600 demo_identity demo_request (records (w_db w))).
  { split; [apply demo_table_ok|reflexivity|reflexivity|lia|].
    intros n. apply lookup_singleton_ne. cbn. lia. }
  destruct (expired_record_blocks demo_late_env ltac:(done) 3600 demo_identity demo_request
    demo_add w 1007 demo_record demo_stored_result
    {| dd_counter := 2; dd_records := {[ 1007 := demo_record ]} |} Hp)
    as (w' & Hrun & _).
  - apply lookup_singleton_eq.
  - reflexivity.
  - intros n. vm_compute. discriminate.
  - split; [apply built_stmt| |reflexivity|reflexivity].
    intros t Ht. eexists. split; [reflexivity|]. cbn. rewrite Ht. reflexivity.
  - exists w'. exact Hrun.
Defined.
