(* ===== verification/Database.v ===== *)
(** * The database

    The tables of the service, in the one PostgreSQL database every process opens: a
    component writes a few of them and what the others hold stays as it is.  The
    connections are those of [infrastructure/database]; the tables are the ORM models
    of [infrastructure/database/models]. *)

From S2P Require Import Prelude Exceptions Domain Registration Outbox Effects Accounts Idempotency.

(** A row of [auth_sessions]: the session without its tokens ([model_dump()]). *)
Record SessionRow := {
  sn_id : uuid;
  sn_created_at : datetime;
  sn_user_id : uuid;
  sn_idle_expires_at : datetime;
  sn_revoked_at : option datetime
}.

#[global] Instance SessionRow_eq_dec : EqDecision SessionRow.
Proof. solve_decision. Defined.

Record database := {
  users : user_table;
  registrations : reg_table;
  outbox : outbox_table;
  db_sessions : gmap Z SessionRow;
  db_tokens : gmap Z RefreshToken;
  db_records : record_table
}.

Definition empty_db : database :=
  {| users := ∅; registrations := ∅; outbox := ∅; db_sessions := ∅; db_tokens := ∅;
     db_records := ∅ |}.

(** One table replaced. *)
Definition with_users (t : user_table) (db : database) : database :=
  {| users := t; registrations := registrations db; outbox := outbox db;
     db_sessions := db_sessions db; db_tokens := db_tokens db; db_records := db_records db |}.
Definition with_registrations (t : reg_table) (db : database) : database :=
  {| users := users db; registrations := t; outbox := outbox db;
     db_sessions := db_sessions db; db_tokens := db_tokens db; db_records := db_records db |}.
Definition with_outbox (t : outbox_table) (db : database) : database :=
  {| users := users db; registrations := registrations db; outbox := t;
     db_sessions := db_sessions db; db_tokens := db_tokens db; db_records := db_records db |}.
Definition with_sessions (t : gmap Z SessionRow) (db : database) : database :=
  {| users := users db; registrations := registrations db; outbox := outbox db;
     db_sessions := t; db_tokens := db_tokens db; db_records := db_records db |}.
Definition with_tokens (t : gmap Z RefreshToken) (db : database) : database :=
  {| users := users db; registrations := registrations db; outbox := outbox db;
     db_sessions := db_sessions db; db_tokens := t; db_records := db_records db |}.

#[global] Program Instance database_records : HasRecords database := {
  records := db_records;
  with_records r db := {| users := users db; registrations := registrations db;
                          outbox := outbox db; db_sessions := db_sessions db;
                          db_tokens := db_tokens db; db_records := r |}
}.
Next Obligation. done. Qed.

(** Statements on one table. *)
Definition on_registrations {A} (f : datetime -> gset Z -> reg_table -> res (A * reg_table)) :
    T database A :=
  stmt (fun now lk db => '(a, t) ← f now lk (registrations db);
                         mret (a, with_registrations t db)).
Definition on_users {A} (f : user_table -> res (A * user_table)) : T database A :=
  stmt (fun _ _ db => '(a, t) ← f (users db); mret (a, with_users t db)).
Definition on_outbox {A} (f : datetime -> gset Z -> outbox_table -> res (A * outbox_table)) :
    T database A :=
  stmt (fun now lk db => '(a, t) ← f now lk (outbox db); mret (a, with_outbox t db)).
