(* ===== verification/RegisterFlow.v ===== *)
(** * Registering users

    The handlers of [application/use_cases/register], [resume_registration] and
    [redrive_registration] and one round of
    [application/registration/reconciler.py], over the users, registration
    operations and outbox tables.  The profile service and the password hasher
    answer as the environment likes. *)

From S2P Require Import Prelude Exceptions Domain Retry Text Sql Registration Outbox.
From S2P Require Import Effects Accounts Database.

(** Calls to the profile service and to [RegistrationObserverProtocol]. *)
Inductive reg_event : Set :=
| CreateProfile (user_id : uuid) (registered_at : datetime) (answer : res unit)
| OperationCompleted
| RetryScheduled (error_class : string)
| OperationBlocked (error_class : string)
| LostClaim
| RecoveryBatchClaimed (count : Z).

Abbreviation RM := (M database reg_event).
Abbreviation RT := (T database).

Class ProfileProvisioner := create_profile_answer : nat -> uuid -> datetime -> res unit.

(** Constructor arguments of the handlers. *)
Record reg_config := {
  rc_retry_policy : RetryPolicy;
  rc_claim_lease_seconds : float;
  rc_topic : string;
  rc_producer : string
}.

Section handlers.
Context `{EmailSyntax} `{FloatPow} `{PasswordHasher} `{ProfileProvisioner}.
Context (cfg : reg_config).

Definition create_profile (user_id : uuid) (registered_at : datetime) : RM unit :=
  call (fun n => create_profile_answer n user_id registered_at)
    (CreateProfile user_id registered_at).

(** [RegisterUserHandler.__init__] refuses a lease that is not positive. *)
Definition check_lease (claim_lease_seconds : float) : res unit :=
  raise_if (fle claim_lease_seconds f0) EValueError.

(** ** resume_registration/handler.py *)

Definition new_user (operation : RegistrationOperation) (password_hash : string) : User :=
  {| u_id := ro_user_id operation; u_created_at := ro_created_at operation;
     u_updated_at := None; u_email := ro_email operation;
     u_password_hash := password_hash; u_role := USER; u_status := ACTIVE |}.

Definition user_registered (user : User) (correlation_id event_id : uuid) :
    UserRegisteredEvent :=
  {| ev_user_id := u_id user; ev_registered_at := u_created_at user;
     ev_correlation_id := correlation_id; ev_causation_id := None;
     ev_event_id := event_id |}.

Definition finalize_body (operation : RegistrationOperation) (owner_token : uuid)
    (completed_at : datetime) (user_to_create : User) : RT User :=
  completed ← on_registrations (fun now _ =>
    complete now (ro_id operation) owner_token completed_at);
  (if completed : bool then mret tt else t_lift (raise ELostRegistrationClaim));;
  user ← on_users (create_if_absent user_to_create);
  match user with
  | None => t_lift (raise ERegistrationFinalizationConflict)
  | Some user =>
      correlation_id ← t_tick new_uuid;
      event_id ← t_tick new_uuid;
      on_outbox (fun _ _ t =>
        t' ← publish (rc_topic cfg) (rc_producer cfg)
               (user_registered user correlation_id event_id) t;
        mret (tt, t'));;
      mret user
  end.

Definition finalize (operation : RegistrationOperation) (owner_token : uuid) : RM User :=
  password_hash ← lift (match ro_password_hash operation with
                        | None => raise ERuntimeError
                        | Some h => mret h
                        end);
  completed_at ← get_now;
  user_to_create ← lift (User_validate (new_user operation password_hash));
  transaction (finalize_body operation owner_token completed_at user_to_create).

(** [_block] *)
Definition block_operation (operation : RegistrationOperation) (owner_token : uuid)
    (error : exn) : RM unit :=
  blocked_at ← get_now;
  blocked ← transaction (on_registrations (fun now _ =>
    block now (ro_id operation) owner_token blocked_at (class_name error)));
  if blocked : bool then emit (OperationBlocked (class_name error)) else emit LostClaim.

Definition retry_or_block (operation : RegistrationOperation) (owner_token : uuid)
    (error : exn) : RM RegistrationResult :=
  let attempt_number := ro_attempts operation + 1 in
  if max_attempts (rc_retry_policy cfg) <=? attempt_number then
    block_operation operation owner_token error;;
    lift (raise ProfileProvisioningUnavailableError)
  else
    failed_at ← get_now;
    jitter ← get_jitter;
    delay ← lift (delay_seconds (rc_retry_policy cfg) attempt_number jitter);
    scheduled ← transaction (
      delta ← t_lift (timedelta_seconds delay);
      on_registrations (fun now _ =>
        Registration.schedule_retry now (ro_id operation) owner_token failed_at
          (dt_add failed_at delta) (class_name error)));
    (if scheduled : bool then emit (RetryScheduled (class_name error))
     else emit LostClaim);;
    now ← get_now;
    delta ← lift (timedelta_seconds delay);
    mret (pending_result operation now (Some (dt_add failed_at delta))).

(** The [except] clauses around the profile call. *)
Definition profile_failed (operation : RegistrationOperation) (owner_token : uuid)
    (error : exn) : RM RegistrationResult :=
  if isinstance error ProfileProvisioningRejectedError then
    block_operation operation owner_token error;;
    lift (raise ProfileProvisioningUnavailableError)
  else if isinstance error ProfileProvisioningUnavailableError then
    retry_or_block operation owner_token error
  else if is_exception error then
    block_operation operation owner_token error;;
    lift (raise error)
  else lift (raise error).

(** The [except] clauses around the finalisation. *)
Definition finalization_failed (operation : RegistrationOperation) (owner_token : uuid)
    (error : exn) : RM RegistrationResult :=
  if isinstance error ELostRegistrationClaim then
    emit LostClaim;;
    now ← get_now;
    mret (pending_result operation now None)
  else if isinstance error ERegistrationFinalizationConflict then
    block_operation operation owner_token error;;
    lift (raise ProfileProvisioningUnavailableError)
  else if isinstance error PersistenceUnavailableError
          || isinstance error TransactionConflictError then
    retry_or_block operation owner_token error
  else if is_exception error then
    block_operation operation owner_token error;;
    lift (raise error)
  else lift (raise error).

(** [ResumeRegistrationHandler.execute] *)
Definition resume (operation : RegistrationOperation) (owner_token : uuid) :
    RM RegistrationResult :=
  lift (raise_if (negb (has_status operation REG_CLAIMED)
                  || negb (bool_decide (ro_claim_token operation = Some owner_token)))
          EValueError);;
  profile ← attempt (create_profile (ro_user_id operation) (ro_created_at operation));
  match profile with
  | Err error => profile_failed operation owner_token error
  | Ok _ =>
      outcome ← attempt (finalize operation owner_token);
      match outcome with
      | Err error => finalization_failed operation owner_token error
      | Ok user =>
          emit OperationCompleted;;
          mret {| rr_operation_id := ro_id operation; rr_user_id := u_id user;
                  rr_outcome := OUT_COMPLETED; rr_retry_after_seconds := None |}
      end
  end.

(** ** register/handler.py *)

Definition load_by_key (key_hash : bytes) : RM (option RegistrationOperation) :=
  transaction (query (fun db => get_by_key_hash key_hash (registrations db))).

Definition resume_existing (operation : RegistrationOperation) (email password : string) :
    RM RegistrationResult :=
  lift (raise_unless (bool_decide (ro_email operation = email)) IdempotencyKeyConflictError);;
  password_hash ← match ro_password_hash operation with
    | Some h => mret h
    | None =>
        user ← transaction (query (fun db => user_get (ro_user_id operation) (users db)));
        match user with
        | None => lift (raise ERuntimeError)
        | Some u => mret (u_password_hash u)
        end
    end;
  verified ← lift (verify_password password password_hash);
  lift (raise_unless verified IdempotencyKeyConflictError);;
  if has_status operation REG_COMPLETED then
    mret {| rr_operation_id := ro_id operation; rr_user_id := ro_user_id operation;
            rr_outcome := OUT_COMPLETED; rr_retry_after_seconds := None |}
  else if has_status operation REG_BLOCKED then
    lift (raise ProfileProvisioningUnavailableError)
  else
    now ← get_now;
    owner_token ← get_uuid;
    claimed ← transaction (
      lease ← t_lift (timedelta_seconds (rc_claim_lease_seconds cfg));
      on_registrations (fun db_now _ =>
        claim_by_key_hash db_now (ro_key_hash operation) owner_token now
          (dt_add now lease)));
    match claimed with
    | None => now ← get_now; mret (pending_result operation now None)
    | Some claimed => resume claimed owner_token
    end.

(** The operation the handler proposes. *)
Definition candidate (operation_id user_id : uuid) (email password_hash : string)
    (key_hash : bytes) (now : datetime) (owner_token : uuid)
    (claim_expires_at : datetime) : RegistrationOperation :=
  {| ro_id := operation_id; ro_user_id := user_id; ro_email := email;
     ro_password_hash := Some password_hash; ro_key_hash := key_hash;
     ro_status := REG_CLAIMED; ro_attempts := 0; ro_available_at := now;
     ro_claim_token := Some owner_token; ro_claim_expires_at := Some claim_expires_at;
     ro_last_error_class := None; ro_terminal_at := None; ro_redrive_count := 0;
     ro_created_at := now; ro_updated_at := None |}.

(** [RegisterUserHandler.execute]; the command's fields are its arguments. *)
Definition register (email password : string) (key_hash : bytes) : RM RegistrationResult :=
  existing ← load_by_key key_hash;
  match existing with
  | Some operation => resume_existing operation email password
  | None =>
      password_hash ← tick (fun _ n => hash_password n password) ≫= lift;
      now ← get_now;
      owner_token ← get_uuid;
      lease ← lift (timedelta_seconds (rc_claim_lease_seconds cfg));
      operation_id ← get_uuid;
      user_id ← get_uuid;
      proposed ← lift (RegistrationOperation_validate
        (candidate operation_id user_id email password_hash key_hash now owner_token
           (dt_add now lease)));
      created ← transaction (
        user ← query (fun db => user_by_email email (users db));
        match user with
        | None => on_registrations (fun _ _ => try_create proposed)
        | Some _ => mret None
        end);
      match created with
      | None =>
          existing ← load_by_key key_hash;
          match existing with
          | None => lift (raise UserAlreadyExistsError)
          | Some operation => resume_existing operation email password
          end
      | Some operation => resume operation owner_token
      end
  end.

(** ** redrive_registration/handler.py *)

Definition redrive (operation_id : uuid) : RM bool :=
  transaction (
    available_at ← t_tick clock;
    on_registrations (fun now _ => redrive_blocked now operation_id available_at)).

(** ** reconciler.py *)

(** [process]: nothing the attempt raises leaves it, except a cancellation. *)
Definition process (owner_token : uuid) (operation : RegistrationOperation) : RM unit :=
  r ← attempt (resume operation owner_token);
  match r with
  | Ok _ => mret tt
  | Err error => if is_exception error then mret tt else lift (raise error)
  end.

(** The tasks of one round, in one of the orders in which they can finish. *)
Fixpoint process_all (owner_token : uuid) (operations : list RegistrationOperation) :
    RM unit :=
  match operations with
  | [] => mret tt
  | operation :: rest => process owner_token operation;; process_all owner_token rest
  end.

Definition reconcile_once (batch_size : Z) : RM Z :=
  lift (raise_if (batch_size <=? 0) EValueError);;
  owner_token ← get_uuid;
  claimed_at ← get_now;
  operations ← transaction (
    lease ← t_lift (timedelta_seconds (rc_claim_lease_seconds cfg));
    on_registrations (fun now lk =>
      Registration.claim_batch now lk owner_token claimed_at (dt_add claimed_at lease)
        batch_size));
  match operations with
  | [] => mret 0
  | _ =>
      emit (RecoveryBatchClaimed (Z.of_nat (length operations)));;
      process_all owner_token operations;;
      mret (Z.of_nat (length operations))
  end.
End handlers.

(** ** The invariant of the three tables *)

(** What a transaction has left to do before the tables agree: an operation is
    COMPLETED and its user is missing, or the user is there and its event missing. *)
Inductive work : Set :=
| Settled
| Completing (operation_id : uuid)
| Announcing (user_id : uuid).

(** The message says that [u] has registered. *)
Definition announces (m : OutboxMessage) (u : User) : Prop :=
  exists topic producer correlation_id event_id,
    same_message (event_row topic producer (user_registered u correlation_id event_id)) m.

(** Every message of the outbox announces a user, and no two the same user.
    [about] gives the user's id. *)
Record events_ok (todo : work) (about : Z -> Z) (db : database) : Prop := {
  eo_user : forall i m, outbox db !! i = Some m -> exists u,
    users db !! about i = Some u /\ announces m u /\ todo <> Announcing (about i);
  eo_once : forall i j, is_Some (outbox db !! i) -> is_Some (outbox db !! j) ->
    about i = about j -> i = j
}.

(** Every COMPLETED operation has its user, every user a COMPLETED operation, and the
    outbox announces users, each at most once. *)
Record consistent `{EmailSyntax} (todo : work) (db : database) : Prop := {
  co_registrations : reg_table_ok (registrations db);
  co_users : users_ok (users db);
  co_outbox : outbox_ok (outbox db);
  co_completed : forall i r, registrations db !! i = Some r ->
    ro_status r = REG_COMPLETED -> todo <> Completing i ->
    exists u, users db !! ro_user_id r = Some u /\ u_email u = ro_email r;
  co_accounted : forall j u, users db !! j = Some u ->
    exists i r, registrations db !! i = Some r /\ ro_status r = REG_COMPLETED /\
      ro_user_id r = j /\ ro_email r = u_email u;
  co_events : exists about, events_ok todo about db
}.

(** Operations evolve and users stay as they are. *)
Definition extends (db db' : database) : Prop :=
  evolves (registrations db) (registrations db') /\ users db ⊆ users db'.

(** What the theorems assume of the other transactions and of the clocks: other
    transactions keep the tables consistent, whatever this one has left to do, and
    only extend them. *)
Record good_env `{EmailSyntax} (e : env database) : Prop := {
  ge_others : forall x n l db, consistent x db -> consistent x (others e n l db) /\
    extends db (others e n l db);
  ge_clock : forall n, is_aware (clock e n) = true;
  ge_db_clock : forall n, is_aware (db_clock e n) = true
}.

(** The operation a handler holds is a stored one, in whatever state. *)
Definition stored (operation : RegistrationOperation) (db : database) : Prop :=
  exists r, registrations db !! ro_id operation = Some r /\ same_request operation r.

(** What a completed registration leaves. *)
Definition registered (operation : RegistrationOperation) (db : database) : Prop :=
  (exists r, registrations db !! ro_id operation = Some r /\
     ro_status r = REG_COMPLETED /\ same_request operation r) /\
  exists u, users db !! ro_user_id operation = Some u /\ u_email u = ro_email operation.

Lemma extends_refl db : extends db db.
Proof. split; [auto with identity|done]. Qed.

Lemma extends_trans a b c : extends a b -> extends b c -> extends a c.
Proof.
  intros [Hr Hu] [Hr' Hu']. split; [eauto with identity|by etrans].
Qed.

#[export] Hint Resolve extends_refl extends_trans : identity.

Lemma stored_extends op db db' : extends db db' -> stored op db -> stored op db'.
Proof.
  intros [Hr _] (r & Hi & Hs). destruct (Hr _ _ Hi) as (r' & Hi' & Hs' & _).
  exists r'. eauto with identity.
Qed.

(** Re-establishing the invariant after one table changed. *)
Lemma consistent_registrations `{EmailSyntax} x y db t :
  consistent x db -> (forall i, y = Announcing i -> x = Announcing i) ->
  reg_table_ok t -> evolves (registrations db) t ->
  (forall i r, t !! i = Some r -> ro_status r = REG_COMPLETED -> y <> Completing i ->
     x <> Completing i /\ registrations db !! i = Some r) ->
  consistent y (with_registrations t db).
Proof.
  intros [_ Hu Ho Hc Ha [about [Hm Hone]]] Hy Ht Hev Hi. split; [done..| | |].
  - intros i r Hl Hs Hne. destruct (Hi i r Hl Hs Hne). eauto.
  - intros j u Hj. destruct (Ha j u Hj) as (i & r & Hl & Hs & Heq).
    destruct (Hev i r Hl) as (r' & Hl' & _ & Hfin). rewrite (Hfin Hs) in Hl'. eauto.
  - exists about. split; [|done]. intros i m Him. destruct (Hm i m Him) as (u & ? & ? & Hn).
    exists u. split_and!; [done..|]. intros E. by apply Hn, Hy.
Qed.

(** A completed operation gets its user. *)
Lemma consistent_new_user `{EmailSyntax} i db r u :
  consistent (Completing i) db -> users_ok (<[ro_user_id r := u]> (users db)) ->
  registrations db !! i = Some r -> ro_status r = REG_COMPLETED ->
  users db !! ro_user_id r = None -> u_email u = ro_email r ->
  consistent (Announcing (ro_user_id r)) (with_users (<[ro_user_id r := u]> (users db)) db).
Proof.
  intros [Hr _ Ho Hc Ha [about [Hm Hone]]] Ht Hi Hst Hnew He. split; [done..| | |]; cbn.
  - intros j r' Hj Hs _. destruct (decide (i = j)) as [<-|Hne].
    + simplify_eq. exists u. split; [apply lookup_insert_eq|done].
    + destruct (Hc j r' Hj Hs) as (v & Hv & Hve); [congruence|]. exists v.
      split; [|done]. rewrite lookup_insert_ne; [done|congruence].
  - intros j v [[<- <-]|[_ Hj]]%lookup_insert_Some; [by eauto 6|by apply Ha].
  - exists about. split; [|done]. intros j m Hj. destruct (Hm j m Hj) as (v & Hv & Hann & _).
    assert (Hne : ro_user_id r <> about j) by congruence.
    exists v. cbn. rewrite lookup_insert_ne by done. split_and!; [done..|congruence].
Qed.

(** The new user is announced. *)
Lemma consistent_new_event `{EmailSyntax} j u db i m :
  consistent (Announcing j) db -> users db !! j = Some u -> announces m u ->
  outbox db !! i = None -> outbox_ok (<[i := m]> (outbox db)) ->
  consistent Settled (with_outbox (<[i := m]> (outbox db)) db).
Proof.
  intros [Hr Hu _ Hc Ha [about [Hm Hone]]] Hj Hann Hnew Hok. split; [done..| | |]; cbn.
  - intros k r Hk Hs _. by apply (Hc k r).
  - exact Ha.
  - exists (fun k => if decide (k = i) then j else about k). split; cbn.
    + intros k x [[<- <-]|[Hne Hk]]%lookup_insert_Some.
      * rewrite decide_True by done. eauto.
      * rewrite decide_False by done. destruct (Hm k x Hk) as (v & ? & ? & _). eauto.
    + assert (Hold : forall k, k <> i -> is_Some (<[i := m]> (outbox db) !! k) -> about k <> j /\
        is_Some (outbox db !! k)).
      { intros k Hne. rewrite lookup_insert_ne by done. intros [x Hx].
        destruct (Hm k x Hx) as (v & _ & _ & Hn). split; [congruence|eauto]. }
      intros k l Hk Hl. destruct (decide (k = i)) as [->|Hki], (decide (l = i)) as [->|Hli].
      * done.
      * intros E. by destruct (Hold l Hli Hl) as [[] _].
      * intros E. by destruct (Hold k Hki Hk) as [[] _].
      * apply Hone; [by apply Hold|by apply Hold].
Qed.

Section tables.
Context `{EmailSyntax} (e : env database) (He : good_env e).

Lemma others_consistent n l db : consistent Settled db -> consistent Settled (others e n l db).
Proof. intros Hc. exact (proj1 (ge_others e He Settled n l db Hc)). Qed.

(** The running invariant of a handler that started in [d0]. *)
Definition running (d0 db : database) : Prop := consistent Settled db /\ extends d0 db.

Lemma others_running d0 n l db : running d0 db -> running d0 (others e n l db).
Proof.
  intros [Hc Hx]. destruct (ge_others e He Settled n l db Hc) as [? ?].
  split; [done|]. eauto with identity.
Qed.

Lemma on_registrations_spec {A} f (I P : database -> Prop) (Q : A -> database -> Prop) :
  (forall n l db, I db -> I (others e n l db)) ->
  (forall n l db, P db -> P (others e n l db)) ->
  (forall now lk db a t, is_aware now = true -> P db ->
     f now lk (registrations db) = Ok (a, t) -> Q a (with_registrations t db)) ->
  tspec e I P (on_registrations f) Q.
Proof.
  intros HI HP HQ. apply tspec_stmt; [done..|].
  intros now lk db a db' Ha Hp. destruct (f now lk (registrations db)) as [[a' t]|] eqn:E;
    [|done]. intros [= <- <-]. eauto.
Qed.

Lemma on_users_spec {A} f (I P : database -> Prop) (Q : A -> database -> Prop) :
  (forall n l db, I db -> I (others e n l db)) ->
  (forall n l db, P db -> P (others e n l db)) ->
  (forall db a t, P db -> f (users db) = Ok (a, t) -> Q a (with_users t db)) ->
  tspec e I P (on_users f) Q.
Proof.
  intros HI HP HQ. apply tspec_stmt; [done..|].
  intros now lk db a db' Ha Hp. destruct (f (users db)) as [[a' t]|] eqn:E;
    [|done]. intros [= <- <-]. eauto.
Qed.

Lemma on_outbox_spec {A} f (I P : database -> Prop) (Q : A -> database -> Prop) :
  (forall n l db, I db -> I (others e n l db)) ->
  (forall n l db, P db -> P (others e n l db)) ->
  (forall now lk db a t, is_aware now = true -> P db ->
     f now lk (outbox db) = Ok (a, t) -> Q a (with_outbox t db)) ->
  tspec e I P (on_outbox f) Q.
Proof.
  intros HI HP HQ. apply tspec_stmt; [done..|].
  intros now lk db a db' Ha Hp. destruct (f now lk (outbox db)) as [[a' t]|] eqn:E;
    [|done]. intros [= <- <-]. eauto.
Qed.

(** A statement that is a step of the table and completes nothing. *)
Lemma step_running `{!EmailLaws} d0 db t :
  running d0 db -> reg_step (registrations db) t ->
  (forall i r, t !! i = Some r -> ro_status r = REG_COMPLETED ->
     registrations db !! i = Some r) ->
  running d0 (with_registrations t db).
Proof.
  intros [Hc Hx] Hs Hn.
  destruct (reg_step_ok _ _ (co_registrations _ _ Hc) Hs) as [Ht Hev]. split.
  - eapply consistent_registrations; [done..|]. intros i r Hi Hst _. split; [done|auto].
  - destruct Hx as [Hr Hu]. split; [cbn; eauto with identity|done].
Qed.
End tables.

(** ** Statements that complete no operation *)

Definition completes_nothing `{EmailSyntax} {A}
    (f : datetime -> gset Z -> reg_table -> res (A * reg_table)) : Prop :=
  forall now lk t a t', is_aware now = true -> reg_table_ok t -> f now lk t = Ok (a, t') ->
    reg_step t t' /\
    forall i r, t' !! i = Some r -> ro_status r = REG_COMPLETED -> t !! i = Some r.

(** Find the statement first, then its aware arguments. *)
Ltac by_step rule := eapply rule; [| |eassumption]; eassumption.

(** [update_one] to a status other than COMPLETED completes nothing. *)
Lemma update_one_no_completion `{EmailSyntax} t i cond f b t' :
  reg_table_ok t -> update_one ck_registration ro_id i cond f t = Ok (b, t') ->
  (forall r, ro_status (f r) <> REG_COMPLETED) ->
  forall j r, t' !! j = Some r -> ro_status r = REG_COMPLETED -> t !! j = Some r.
Proof.
  intros [Hk _ _] Hu Hf j r Hj Hs.
  apply update_one_inv in Hu as [(_ & x & _ & _ & _ & ->)|[_ ->]]; [|done|done].
  apply lookup_insert_Some in Hj as [[<- <-]|[_ Hj]]; [|done]. by destruct (Hf x).
Qed.

Lemma map_no_completion (pred : RegistrationOperation -> bool) f (t : reg_table) i r :
  ((fun r => if pred r then f r else r) <$> t) !! i = Some r ->
  ro_status r = REG_COMPLETED -> (forall r, ro_status (f r) <> REG_COMPLETED) ->
  t !! i = Some r.
Proof.
  rewrite lookup_fmap, fmap_Some. intros (r0 & Hi & ->) Hs Hf.
  destruct (pred r0); [by destruct (Hf r0)|done].
Qed.

(** Reading back a row of a well-formed table gives the row. *)
Lemma get_by_key_hash_ok `{EmailSyntax} k t o :
  reg_table_ok t -> get_by_key_hash k t = Ok o ->
  match o with
  | Some op => t !! ro_id op = Some op /\ ro_key_hash op = k
  | None => True
  end.
Proof.
  intros [Hk Hr _]. unfold get_by_key_hash. destruct (select _ t) as [|row l] eqn:E.
  { by intros [= <-]. }
  assert (Hin : row ∈ row :: l) by set_solver. rewrite <- E in Hin.
  apply elem_of_select in Hin as [[i Hi] Hp%bool_decide_eq_true].
  rewrite (ro_to_domain_ok _ (Hr _ _ Hi)). intros [= <-]. split; [|done].
  by rewrite (Hk _ _ Hi).
Qed.

Lemma claim_key_no_completion `{EmailSyntax} now k owner a x t o t' i r :
  claim_by_key_hash now k owner a x t = Ok (o, t') ->
  t' !! i = Some r -> ro_status r = REG_COMPLETED -> t !! i = Some r.
Proof.
  intros Hc Hi Hs. unfold claim_by_key_hash in Hc. ok_inv.
  assert (y = t') as <- by (destruct a1; ok_inv; by simplify_eq).
  apply sql_update_ok in Hok0 as (_ & -> & _). eapply map_no_completion; [exact Hi|exact Hs|]. done.
Qed.

Lemma claim_batch_rows `{EmailLaws} now lk owner a x n t ops t' :
  reg_table_ok t -> is_aware now = true -> is_aware x = true ->
  Registration.claim_batch now lk owner a x n t = Ok (ops, t') ->
  (forall op, op ∈ ops -> t' !! ro_id op = Some op) /\
  forall i r, t' !! i = Some r -> ro_status r = REG_COMPLETED -> t !! i = Some r.
Proof.
  intros Ht Hn Hx Hc.
  assert (Hstep : reg_step t t') by (eapply rs_claim_batch; [| |exact Hc]; done).
  destruct (reg_step_ok _ _ Ht Hstep) as [[Hk' Hr' _] _].
  unfold Registration.claim_batch in Hc. ok_inv. simplify_eq.
  apply sql_update_ok in Hok1 as (-> & -> & _).
  set (pred := fun r => bool_decide (ro_id r ∈ ro_id <$> claimable lk a n t)) in *.
  set (f := set_claim now owner x) in *.
  set (t' := (fun r => if pred r then f r else r) <$> t) in *.
  assert (Hrow : forall op, op ∈ order_by claim_order (f <$> select pred t) ->
    t' !! ro_id op = Some op).
  { intros op. rewrite elem_of_order_by, list_elem_of_fmap.
    intros (r & -> & [[i Hi] Hp]%elem_of_select).
    assert (Hi' : t' !! i = Some (f r)) 
      by (unfold t'; rewrite lookup_fmap, Hi;
          change (Some (if pred r then f r else r) = Some (f r)); by rewrite Hp).
    by rewrite (Hk' _ _ Hi'). }
  split.
  - rewrite mapM_ok in Hok2; [injection Hok2 as <-; exact Hrow|].
    intros op Hop. apply ro_to_domain_ok. eapply Hr', Hrow, Hop.
  - intros i r Hi Hs. eapply map_no_completion; [exact Hi|exact Hs|]. done.
Qed.


Section quiet_statements.
Context `{EmailLaws}.

Lemma block_completes_nothing i owner at_ err :
  is_aware at_ = true -> completes_nothing (fun now _ => block now i owner at_ err).
Proof.
  intros Ha now lk t b t' Hn Ht Hb.
  split; [by_step rs_block|]. by eapply update_one_no_completion.
Qed.

Lemma retry_completes_nothing i owner failed av err :
  is_aware av = true ->
  completes_nothing (fun now _ => Registration.schedule_retry now i owner failed av err).
Proof.
  intros Ha now lk t b t' Hn Ht Hb.
  split; [by_step rs_retry|]. by eapply update_one_no_completion.
Qed.

Lemma redrive_completes_nothing i av :
  is_aware av = true -> completes_nothing (fun now _ => redrive_blocked now i av).
Proof.
  intros Ha now lk t b t' Hn Ht Hb.
  split; [by_step rs_redrive|]. by eapply update_one_no_completion.
Qed.

Lemma claim_key_completes_nothing k owner at_ expires :
  is_aware expires = true ->
  completes_nothing (fun now _ => claim_by_key_hash now k owner at_ expires).
Proof.
  intros Ha now lk t o t' Hn Ht Hc. split; [by eapply rs_claim_key; [| |exact Hc]|].
  intros i r. by eapply claim_key_no_completion.
Qed.

Lemma claim_batch_completes_nothing owner at_ expires n :
  is_aware expires = true ->
  completes_nothing (fun now lk => Registration.claim_batch now lk owner at_ expires n).
Proof.
  intros Ha now lk t l t' Hn Ht Hc. split; [by eapply rs_claim_batch; [| |exact Hc]|].
  exact (proj2 (claim_batch_rows now lk owner at_ expires n t l t' Ht Hn Ha Hc)).
Qed.

Lemma try_create_completes_nothing c op :
  RegistrationOperation_validate c = Ok op -> ro_status op <> REG_COMPLETED ->
  completes_nothing (fun _ _ => try_create op).
Proof.
  intros Hv Hns now lk t o t' _ Ht Hc. split; [eapply rs_create; [exact Hv|exact Hc]|].
  apply try_create_ok in Hc as [_ [(_ & -> & _)|(_ & op' & _ & _ & ->)]]; [done|].
  by intros i r [[<- <-]|[_ Hi]]%lookup_insert_Some Hs.
Qed.
End quiet_statements.

(** ** A logic for the handlers *)

Section running_logic.
Context `{EmailLaws} (e : env database) (He : good_env e) (d0 : database).

(** From a running state with [P], [m] ends in a running state, with [Q] if it
    returns. *)
Definition hspec {A} (P : database -> Prop) (m : RM A) (Q : A -> database -> Prop) : Prop :=
  mspec e (fun w => running d0 (w_db w) /\ P (w_db w)) m
    (fun a w => running d0 (w_db w) /\ Q a (w_db w)) (fun _ w => running d0 (w_db w)).

Lemma h_ret {A} (a : A) P (Q : A -> database -> Prop) :
  (forall db, P db -> Q a db) -> hspec P (mret a) Q.
Proof. intros HQ. apply mspec_ret. intros w [Hr HP]. split; [done|]. by apply HQ. Qed.

Lemma h_ret_running {A} (a : A) P (Q : A -> database -> Prop) :
  (forall db, running d0 db -> Q a db) -> hspec P (mret a) Q.
Proof. intros HQ. apply mspec_ret. intros w [Hr HP]. split; [done|]. by apply HQ. Qed.

Lemma h_bind {A B} (m : RM A) (f : A -> RM B) P R Q :
  hspec P m R -> (forall a, hspec (R a) (f a) Q) -> hspec P (m ≫= f) Q.
Proof. intros Hm Hf. eapply mspec_bind; [exact Hm|exact Hf]. Qed.

Lemma h_weaken {A} (m : RM A) (P P' : database -> Prop) (Q Q' : A -> database -> Prop) :
  hspec P m Q -> (forall db, P' db -> P db) -> (forall a db, Q a db -> Q' a db) ->
  hspec P' m Q'.
Proof.
  intros Hm HP HQ. eapply mspec_weaken; [exact Hm| | |done].
  - intros w [Hr Hp]. split; [done|]. by apply HP.
  - intros a w [Hr Hq]. split; [done|]. by apply HQ.
Qed.

Lemma h_pure {A} (m : RM A) (phi : Prop) P Q :
  (phi -> hspec P m Q) -> hspec (fun db => phi /\ P db) m Q.
Proof. intros Hm w (Hr & Hphi & HP). by apply (Hm Hphi w). Qed.

Lemma h_now P : hspec P get_now (fun a db => is_aware a = true /\ P db).
Proof.
  intros w [Hr HP]. unfold get_now, tick. cbn. split; [done|]. split; [|done].
  by apply ge_clock.
Qed.

Lemma h_tick {A} (f : env database -> nat -> A) P : hspec P (tick f) (fun _ => P).
Proof. by intros w [Hr HP]. Qed.

Lemma h_emit ev P : hspec P (emit ev) (fun _ => P).
Proof. by intros w [Hr HP]. Qed.

Lemma h_call {A} (answer : nat -> res A) ev P : hspec P (call answer ev) (fun _ => P).
Proof. intros w [Hr HP]. unfold call. by destruct (answer (w_tick w)). Qed.

Lemma h_lift {A} (r : res A) P : hspec P (lift r) (fun a db => r = Ok a /\ P db).
Proof. intros w [Hr HP]. unfold lift. by destruct r. Qed.

Lemma h_raise {A} (x : exn) P (Q : A -> database -> Prop) : hspec P (lift (raise x)) Q.
Proof. by intros w [Hr HP]. Qed.

Lemma h_attempt {A} (m : RM A) P Q :
  hspec P m Q ->
  hspec P (attempt m) (fun r db => match r with Ok a => Q a db | Err _ => True end).
Proof.
  intros Hm w Hw. specialize (Hm w Hw). unfold attempt.
  by destruct (m e w) as [[a|x] w'].
Qed.

Lemma h_transaction {A} (body : RT A) P Q :
  tspec e (running d0) (fun db => running d0 db /\ P db) body
    (fun a db => running d0 db /\ Q a db) ->
  hspec P (transaction body) Q.
Proof.
  intros Hb. apply (mspec_transaction e body (running d0) (fun db => running d0 db /\ P db)).
  - by apply ge_db_clock.
  - by intros db [? _].
  - exact Hb.
Qed.

(** A transaction whose statement keeps the invariant. *)
Lemma h_update {A} (f : datetime -> gset Z -> reg_table -> res (A * reg_table)) P :
  completes_nothing f ->
  tspec e (running d0) (fun db => running d0 db /\ P db) (on_registrations f)
    (fun _ db => running d0 db /\ True).
Proof.
  intros Hf. eapply tspec_weaken with (P := running d0) (Q := fun _ => running d0).
  - apply on_registrations_spec; [by apply others_running..|].
    intros now lk db a t Hn Hr Hft.
    destruct (Hf now lk _ a t Hn (co_registrations _ _ (proj1 Hr)) Hft).
    by apply step_running.
  - by intros db [? _].
  - done.
Qed.
End running_logic.

(** Moving the starting point of a run. *)
Lemma running_trans `{EmailSyntax} d0 d1 db :
  running d0 d1 -> running d1 db -> running d0 db.
Proof. intros [_ H01] [Hc H1]. split; [done|]. eauto with identity. Qed.

Lemma h_rebase `{EmailLaws} e d0 {A} (P : database -> Prop) (m : RM A) (Q : A -> database -> Prop) :
  (forall d1, running d0 d1 -> P d1 -> hspec e d1 (fun _ => True) m Q) -> hspec e d0 P m Q.
Proof.
  intros Hm w [Hr HP].
  assert (Hself : running (w_db w) (w_db w)) by (split; [apply Hr|auto with identity]).
  specialize (Hm (w_db w) Hr HP w (conj Hself I)).
  destruct (m e w) as [[a|x] w']; [destruct Hm as [Hrun ?]; split; [|done]|];
    by eapply running_trans.
Qed.

(** ** The handlers keep the invariant *)

Section invariants.
Context `{EmailLaws} `{FloatPow} `{PasswordHasher} `{ProfileProvisioner}.
Context (cfg : reg_config) (e : env database) (He : good_env e).

Lemma block_keeps d0 op owner error P :
  hspec e d0 P (block_operation op owner error) (fun _ _ => True).
Proof.
  unfold block_operation. eapply h_bind; [by apply h_now|]. intros at_.
  apply h_pure. intros Ha. eapply h_bind.
  - by eapply h_transaction, h_update, block_completes_nothing.
  - intros b. destruct b; apply h_emit.
Qed.

Lemma retry_keeps d0 op owner error P :
  hspec e d0 P (retry_or_block cfg op owner error) (fun r _ => rr_outcome r = OUT_PENDING).
Proof.
  unfold retry_or_block. case_step.
  { eapply h_bind; [apply block_keeps|]. intros ?. apply h_raise. }
  eapply h_bind; [by apply h_now|]. intros failed. apply h_pure. intros Ha.
  eapply h_bind; [apply h_tick|]. intros jitter.
  eapply h_bind; [apply h_lift|]. intros delay. apply h_pure. intros _.
  eapply h_bind with (R := fun _ _ => True).
  { apply h_transaction; [exact He|]. eapply tspec_bind.
    - apply tspec_lift with (Q := fun _ db => running d0 db /\ P db). done.
    - intros delta. by apply h_update, retry_completes_nothing. }
  intros scheduled. eapply h_bind with (R := fun _ _ => True).
  { destruct scheduled; apply h_emit. }
  intros ?. eapply h_bind; [by apply h_now|]. intros now. apply h_pure. intros _.
  eapply h_bind; [apply h_lift|]. intros delta. by apply h_ret.
Qed.

(** The transaction that completes a registration. *)
Definition completing (d0 : database) (op : RegistrationOperation) (db : database) : Prop :=
  consistent (Completing (ro_id op)) db /\ extends d0 db /\
  exists r, registrations db !! ro_id op = Some r /\ ro_status r = REG_COMPLETED /\
    same_request op r.

(** The event is in the outbox, to be relayed. *)
Definition announced (op : RegistrationOperation) (db : database) : Prop :=
  exists i m, outbox db !! i = Some m /\ om_status m = OB_PENDING /\
    om_key m = uuid_str (ro_user_id op) /\ om_type m = event_type /\
    om_created_at m = ro_created_at op.

Lemma others_completing d0 op n l db :
  completing d0 op db -> completing d0 op (others e n l db).
Proof.
  intros (Hc & Hx & r & Hi & Hs & Hreq).
  destruct (ge_others e He _ n l db Hc) as [Hc' Hx']. split; [done|].
  split; [eauto with identity|]. destruct Hx' as [Hr _].
  destruct (Hr _ _ Hi) as (r' & Hi' & _ & Hfin). rewrite (Hfin Hs) in Hi'. eauto.
Qed.

Lemma registered_extends op db db' : extends db db' -> registered op db -> registered op db'.
Proof.
  intros [Hr Hu] [(r & Hi & Hs & Hreq) (u & Hui & Hue)]. split.
  - destruct (Hr _ _ Hi) as (r' & Hi' & _ & Hfin). rewrite (Hfin Hs) in Hi'. eauto.
  - exists u. split; [by eapply lookup_weaken|done].
Qed.

(** The user is created and not yet announced. *)
Definition announcing (d0 : database) (op : RegistrationOperation) (user : User)
    (db : database) : Prop :=
  consistent (Announcing (ro_user_id op)) db /\ extends d0 db /\ registered op db /\
  users db !! ro_user_id op = Some user.

Lemma others_announcing d0 op user n l db :
  announcing d0 op user db -> announcing d0 op user (others e n l db).
Proof.
  intros (Hc & Hx & Hg & Hu). destruct (ge_others e He _ n l db Hc) as [Hc' Hx'].
  split; [done|]. split; [eauto with identity|]. split; [by eapply registered_extends|].
  destruct Hx' as [_ Hus]. by eapply lookup_weaken.
Qed.

Lemma stored_email op db :
  reg_table_ok (registrations db) -> stored op db ->
  NormalizedEmail_new (ro_email op) = Ok (ro_email op) /\ is_aware (ro_created_at op) = true.
Proof.
  intros Hok (r & Hi & _ & _ & He' & _ & Hca). pose proof (rto_rows _ Hok _ _ Hi) as Hrow.
  rewrite <- He', <- Hca. split; [by apply rok_email|by apply row_created_aware].
Qed.

Lemma complete_spec d0 op owner at_ P :
  stored op d0 -> is_aware at_ = true ->
  tspec e (running d0) (fun db => running d0 db /\ P db)
    (on_registrations (fun now _ => complete now (ro_id op) owner at_))
    (fun b db => if b : bool then completing d0 op db else running d0 db).
Proof.
  intros Hst Ha.
  eapply tspec_weaken with (P := running d0); [|by intros db [? _]|by intros ? ? Hq; exact Hq].
  apply on_registrations_spec; [by apply others_running..|].
  intros now lk db b t Hn [Hc Hx] Hcomp.
  pose proof (co_registrations _ _ Hc) as Hok.
  assert (Hstep : reg_step (registrations db) t) by by_step rs_complete.
  destruct (reg_step_ok _ _ Hok Hstep) as [Ht Hev].
  apply update_one_inv in Hcomp as [(-> & r & Hi & Ho & Hck & ->)|[-> ->]]; [| |apply Hok].
  - split; [|split].
    + eapply consistent_registrations; [done..|].
      intros i x [[<- <-]|[Hne Hl]]%lookup_insert_Some Hs Hnot; done.
    + destruct Hx. split; [cbn; eauto with identity|done].
    + destruct (stored_extends _ _ _ Hx Hst) as (r' & Hi' & Hreq).
      rewrite Hi in Hi'. injection Hi' as <-.
      exists (set_completed now at_ r). split; [apply lookup_insert_eq|]. split; [done|].
      eapply same_request_trans; [exact Hreq|done].
  - by destruct db.
Qed.

Lemma create_spec d0 op user :
  User_validate user = Ok user -> u_id user = ro_user_id op -> u_email user = ro_email op ->
  tspec e (running d0) (completing d0 op) (on_users (create_if_absent user))
    (fun o db => match o with Some u => u = user /\ announcing d0 op user db | None => True end).
Proof.
  intros Hv Hid Hem. apply on_users_spec; [by apply others_running|by apply others_completing|].
  intros db o t (Hc & Hx & r & Hi & Hs & Hreq) Hcr.
  destruct (create_if_absent_ok _ _ _ _ (co_users _ _ Hc) Hv Hcr) as [Ht Ho].
  destruct o as [u|]; [|done]. destruct Ho as (-> & Hnone & ->). split; [done|].
  pose proof Hreq as (_ & Hu & He' & _). rewrite Hid, <- Hu in Ht, Hnone |- *.
  split; [|split; [|split]].
  - rewrite <- Hu. apply (consistent_new_user (ro_id op)); try done. by rewrite Hem, He'.
  - destruct Hx as [Hr Hus]. split; [done|]. etrans; [exact Hus|]. by apply insert_subseteq.
  - split; [by exists r|]. exists user. cbn. rewrite Hu. split; [apply lookup_insert_eq|done].
  - cbn. rewrite Hu. apply lookup_insert_eq.
Qed.

Lemma publish_event_spec d0 op user cid eid :
  u_id user = ro_user_id op -> u_created_at user = ro_created_at op ->
  is_aware (ro_created_at op) = true ->
  tspec e (running d0) (announcing d0 op user)
    (on_outbox (fun _ _ t => t' ← publish (rc_topic cfg) (rc_producer cfg)
                  (user_registered user cid eid) t; mret (tt, t')))
    (fun _ db => running d0 db /\ registered op db /\ announced op db).
Proof.
  intros Hid Hca Ha. apply on_outbox_spec; [by apply others_running|by apply others_announcing|].
  intros now lk db [] t _ (Hc & Hx & Hg & Hu) Hp. ok_inv. simplify_eq.
  apply publish_ok in Hok as [Hfree ->]. cbn in Hfree |- *.
  split; [split|split; [done|]].
  - apply (consistent_new_event (ro_user_id op) user); [done..| |done|].
    + by do 4 eexists.
    + destruct (co_outbox _ _ Hc) as [Hk Hr]. split.
      * intros i m [[<- <-]|[_ Hl]]%lookup_insert_Some; [done|by apply Hk].
      * intros i m [[<- <-]|[_ Hl]]%lookup_insert_Some; [|by eapply Hr].
        apply event_row_ok. cbn. by rewrite Hca.
  - by destruct Hx.
  - eexists _, _. split; [apply lookup_insert_eq|]. cbn. unfold partition_key, occurred_at. cbn.
    by rewrite Hid, Hca.
Qed.

Lemma new_user_valid op h user :
  NormalizedEmail_new (ro_email op) = Ok (ro_email op) ->
  User_validate (new_user op h) = Ok user -> user = new_user op h.
Proof.
  intros Hem. unfold User_validate, new_user. cbn. rewrite Hem. cbn. intros Hv. ok_inv.
  unfold PasswordHash_new in *. destruct (is_blank h); [done|]. by simplify_eq.
Qed.

Lemma finalize_body_spec d0 op owner at_ h P :
  stored op d0 -> is_aware at_ = true -> is_aware (ro_created_at op) = true ->
  User_validate (new_user op h) = Ok (new_user op h) ->
  tspec e (running d0) (fun db => running d0 db /\ P db)
    (finalize_body cfg op owner at_ (new_user op h))
    (fun u db => running d0 db /\ u_id u = ro_user_id op /\ registered op db /\
       announced op db).
Proof.
  intros Hst Ha Hca Hv. unfold finalize_body.
  set (user := new_user op h) in *.
  eapply tspec_bind; [by apply complete_spec|]. intros [|].
  2: { intros t _ HI _. exact HI. }
  eapply tspec_bind; [apply tspec_ret with (Q := fun _ => completing d0 op); done|]. intros ?.
  eapply tspec_bind; [by apply create_spec|]. intros [u|].
  2: { intros t _ HI _. exact HI. }
  set (R := fun (_ : uuid) db => u = user /\ announcing d0 op user db).
  eapply tspec_bind; [by apply tspec_tick with (Q := R)|]. intros cid.
  eapply tspec_bind; [by apply tspec_tick with (Q := R)|]. intros eid.
  apply tspec_pure. intros ->.
  eapply tspec_bind; [by apply publish_event_spec|]. intros ?.
  apply tspec_ret. intros db (? & ? & ?). done.
Qed.

Lemma finalize_keeps d0 op owner P :
  stored op d0 ->
  hspec e d0 P (finalize cfg op owner)
    (fun u db => u_id u = ro_user_id op /\ registered op db /\ announced op db).
Proof.
  intros Hst. unfold finalize. eapply h_bind; [apply h_lift|]. intros h.
  apply h_pure. intros _. eapply h_bind; [by apply h_now|]. intros at_.
  apply h_pure. intros Ha. eapply h_bind; [apply h_lift|]. intros user.
  apply h_pure. intros Hv w [[Hc Hx] HP].
  destruct (stored_email op _ (co_registrations _ _ Hc) (stored_extends _ _ _ Hx Hst)) as [Hem Hca].
  apply new_user_valid in Hv as Hu; [|done]. subst user.
  apply (h_transaction e He d0 _ P (fun u db => u_id u = ro_user_id op /\
    registered op db /\ announced op db)); [|done].
  by apply finalize_body_spec.
Qed.

(** What a result says about the stored state: a COMPLETED answer is given for
    a registration that is complete. *)
Definition answers (op : RegistrationOperation) (r : RegistrationResult) (db : database) : Prop :=
  rr_outcome r = OUT_COMPLETED ->
  rr_operation_id r = ro_id op /\ rr_user_id r = ro_user_id op /\ registered op db.

Lemma pending_answers op r db : rr_outcome r = OUT_PENDING -> answers op r db.
Proof. intros Hp Hr. congruence. Qed.

(** [_block] and then [raise]. *)
Lemma block_raise_keeps {A} d0 op owner error x P (Q : A -> database -> Prop) :
  hspec e d0 P (block_operation op owner error;; lift (raise x)) Q.
Proof. eapply h_bind; [by apply block_keeps|]. intros ?. apply h_raise. Qed.

Lemma retry_answers d0 op owner error P :
  hspec e d0 P (retry_or_block cfg op owner error) (answers op).
Proof.
  eapply h_weaken; [by apply retry_keeps|done|]. intros r db. apply pending_answers.
Qed.

Lemma profile_failed_answers d0 op owner error P :
  hspec e d0 P (profile_failed cfg op owner error) (answers op).
Proof.
  unfold profile_failed. case_step; [apply block_raise_keeps|].
  case_step; [apply retry_answers|].
  case_step; [apply block_raise_keeps|apply h_raise].
Qed.

Lemma finalization_failed_answers d0 op owner error P :
  hspec e d0 P (finalization_failed cfg op owner error) (answers op).
Proof.
  unfold finalization_failed. case_step.
  { eapply h_bind; [apply h_emit|]. intros ?. eapply h_bind; [by apply h_now|].
    intros now. apply h_ret. intros db _. by apply pending_answers. }
  case_step; [apply block_raise_keeps|].
  case_step; [apply retry_answers|].
  case_step; [apply block_raise_keeps|apply h_raise].
Qed.

Lemma resume_keeps d0 op owner P :
  stored op d0 -> hspec e d0 P (resume cfg op owner) (answers op).
Proof.
  intros Hst. unfold resume. eapply h_bind; [apply h_lift|]. intros ?.
  apply h_pure. intros _. eapply h_bind; [apply h_attempt, h_call|].
  intros [u|error]; [|apply profile_failed_answers].
  eapply h_bind; [apply h_attempt; by apply finalize_keeps|].
  intros [user|error]; [|apply finalization_failed_answers].
  eapply h_bind; [apply h_emit|]. intros ?. apply h_ret.
  intros db (Hu & Hg & _) _. by split.
Qed.
End invariants.

(** ** Registering, recovering, redriving *)

Section registering.
Context `{EmailLaws} `{FloatPow} `{PasswordHasher} `{ProfileProvisioner}.
Context (cfg : reg_config) (e : env database) (He : good_env e).

(** The answer to a request for [email]. *)
Definition completed_for (email : string) (r : RegistrationResult) (db : database) : Prop :=
  rr_outcome r = OUT_COMPLETED ->
  exists row u, registrations db !! rr_operation_id r = Some row /\
    ro_status row = REG_COMPLETED /\ ro_user_id row = rr_user_id r /\
    ro_email row = email /\ users db !! rr_user_id r = Some u /\ u_email u = email.

Lemma answers_completed_for op r db :
  answers op r db -> completed_for (ro_email op) r db.
Proof.
  intros Ha Ho. destruct (Ha Ho) as (-> & -> & (row & Hi & Hs & Hreq) & u & Hu & Hue).
  destruct Hreq as (_ & Huid & Hem & _). eauto 10.
Qed.

(** A row as it was read. *)
Definition read_row (op : RegistrationOperation) (db : database) : Prop :=
  registrations db !! ro_id op = Some op.

Lemma read_row_stored op db : read_row op db -> stored op db.
Proof. intros Hr. exists op. split; [done|]. auto with identity. Qed.

Lemma load_keeps d0 k P :
  hspec e d0 P (load_by_key k)
    (fun o db => match o with Some op => read_row op db /\ ro_key_hash op = k | None => True end).
Proof.
  apply h_transaction; [done|].
  eapply tspec_weaken with (P := running d0); [|by intros db [? _]|by intros ? ? Hq; exact Hq].
  apply tspec_query; [by apply others_running..|]. intros db o Hr Hg. split; [done|].
  apply get_by_key_hash_ok in Hg; [|apply Hr]. by destruct o.
Qed.

(** The operation is completed in the start state. *)
Lemma completed_user d0 op P :
  consistent Settled d0 -> read_row op d0 -> ro_status op = REG_COMPLETED ->
  hspec e d0 P (transaction (query (fun db => user_get (ro_user_id op) (users db))))
    (fun o _ => exists u, o = Some u /\ u_email u = ro_email op).
Proof.
  intros Hc Hrow Hs. apply h_transaction; [done|].
  eapply tspec_weaken with (P := running d0); [|by intros db [? _]|by intros ? ? Hq; exact Hq].
  apply tspec_query; [by apply others_running..|]. intros db o [Hc' Hx] Hg. split; [done|].
  rewrite (user_get_ok _ _ (co_users _ _ Hc')) in Hg. injection Hg as <-.
  destruct (co_completed _ _ Hc _ _ Hrow Hs) as (u & Hu & Hue); [done|].
  exists u. split; [by eapply lookup_weaken; [|apply Hx]|done].
Qed.

Lemma claim_keeps d0 op owner now lease P :
  read_row op d0 -> is_aware now = true ->
  tspec e (running d0) (fun db => running d0 db /\ P db)
    (on_registrations (fun db_now _ =>
       claim_by_key_hash db_now (ro_key_hash op) owner now (dt_add now lease)))
    (fun o db => running d0 db /\ match o with
       | Some c => read_row c db /\ ro_email c = ro_email op
       | None => True
       end).
Proof.
  intros Hrow Ha.
  eapply tspec_weaken with (P := running d0); [|by intros db [? _]|by intros ? ? Hq; exact Hq].
  apply on_registrations_spec; [by apply others_running..|].
  intros db_now lk db o t Hn Hr Hc. pose proof Hr as [Hcons Hx].
  pose proof (co_registrations _ _ Hcons) as Hok.
  assert (Hst : reg_step (registrations db) t)
    by (eapply rs_claim_key; [| |exact Hc]; done).
  destruct o as [c|].
  - destruct (claim_by_key_hash_ok _ _ _ _ _ _ _ _ Hok Hc)
      as (r & Hi & Hk & _ & Hcl & _ & Hi').
    destruct (stored_extends op _ _ Hx (read_row_stored _ _ Hrow)) as (r' & Hi'' & Hreq).
    assert (ro_id c = ro_id op) as Hid.
    { eapply (rto_unique _ Hok); [exact Hi|exact Hi''|]. unfold ro_conflict.
      destruct Hreq as (_ & _ & _ & -> & _). rewrite Hk.
      rewrite (bool_decide_true (ro_key_hash op = ro_key_hash op)) by done.
      apply orb_true_r. }
    rewrite Hid, Hi'' in Hi. injection Hi as <-.
    split; [|split; [done|]].
    + apply step_running; [done|done|]. intros i x. by eapply claim_key_no_completion.
    + rewrite Hcl. cbn. apply Hreq.
  - split; [|done]. apply step_running; [done|done|].
    intros i x. by eapply claim_key_no_completion.
Qed.

(** A stored COMPLETED operation has its user, now and later. *)
Lemma completed_row_user d0 op db :
  consistent Settled d0 -> read_row op d0 -> ro_status op = REG_COMPLETED -> extends d0 db ->
  registrations db !! ro_id op = Some op /\
  exists u, users db !! ro_user_id op = Some u /\ u_email u = ro_email op.
Proof.
  intros Hc Hrow Hs [Hr Hu].
  destruct (co_completed _ _ Hc _ _ Hrow Hs) as (u & Hui & Hue); [done|].
  split.
  - destruct (Hr _ _ Hrow) as (r' & Hi' & _ & Hf). by rewrite (Hf Hs) in Hi'.
  - exists u. split; [by eapply lookup_weaken|done].
Qed.

(** The password hash the request is verified against. *)
Lemma stored_hash_keeps d0 op P :
  hspec e d0 P
    (match ro_password_hash op with
     | Some h => mret h
     | None =>
         user ← transaction (query (fun db => user_get (ro_user_id op) (users db)));
         match user with
         | None => lift (raise ERuntimeError)
         | Some u => mret (u_password_hash u)
         end
     end) (fun _ _ => True).
Proof.
  destruct (ro_password_hash op); [by apply h_ret|].
  eapply h_bind with (R := fun _ _ => True).
  - apply h_transaction; [done|].
    eapply tspec_weaken with (P := running d0) (Q := fun _ => running d0);
      [|by intros db [? _]|done].
    apply tspec_query; [by apply others_running..|done].
  - intros [u|]; [by apply h_ret|apply h_raise].
Qed.

Lemma resume_existing_keeps d0 op email password P :
  consistent Settled d0 -> read_row op d0 ->
  hspec e d0 P (resume_existing cfg op email password) (completed_for email).
Proof.
  intros Hc Hrow. unfold resume_existing. eapply h_bind; [apply h_lift|]. intros ?.
  apply h_pure. intros Hem%raise_unless_ok%bool_decide_eq_true.
  eapply h_bind; [apply stored_hash_keeps|].
  intros h. eapply h_bind; [apply h_lift|]. intros v. apply h_pure. intros _.
  eapply h_bind; [apply h_lift|]. intros ?. apply h_pure. intros _.
  case_step; [|case_step; [apply h_raise|]].
  - apply has_status_true in Hc0 as Hs. apply h_ret_running. intros db [_ Hx] _. cbn.
    destruct (completed_row_user d0 op db Hc Hrow Hs Hx) as (Hi & u & Hu & Hue).
    exists op, u. by rewrite <- Hem.
  - eapply h_bind; [by apply h_now|]. intros now. apply h_pure. intros Ha.
    eapply h_bind; [apply h_tick|]. intros owner. eapply h_bind.
    + apply h_transaction; [done|]. eapply tspec_bind.
      * by apply tspec_lift with (Q := fun _ db => running d0 db /\ True).
      * intros lease. by apply claim_keeps.
    + intros [c|].
      * apply h_rebase. intros d1 _ [Hread Hce]. rewrite <- Hem, <- Hce.
        eapply h_weaken with (P := fun _ => True); [apply resume_keeps; [done|by apply read_row_stored]|done|].
        intros r db. apply answers_completed_for.
      * eapply h_bind; [by apply h_now|]. intros now'. by apply h_ret.
Qed.

(** Inserting the proposed operation. *)
Lemma try_create_keeps d0 c proposed :
  RegistrationOperation_validate c = Ok proposed -> ro_status proposed <> REG_COMPLETED ->
  tspec e (running d0) (running d0) (on_registrations (fun _ _ => try_create proposed))
    (fun o db => running d0 db /\ match o with
       | Some op => op = proposed /\ read_row op db
       | None => True
       end).
Proof.
  intros Hv Hns. apply on_registrations_spec; [by apply others_running..|].
  intros now lk db o t _ Hr Hc.
  assert (Hst : reg_step (registrations db) t) by (eapply rs_create; [exact Hv|exact Hc]).
  apply try_create_ok in Hc as [Hck [(-> & -> & _)|(_ & op' & -> & Hd & ->)]].
  - split; [|done]. by apply step_running.
  - assert (op' = proposed) as ->.
    { rewrite ro_to_domain_ok in Hd by (by eapply validated_row_ok). by injection Hd. }
    split; [|split; [done|apply lookup_insert_eq]].
    apply step_running; [done|done|].
    intros i r [[<- <-]|[_ Hi]]%lookup_insert_Some Hs; done.
Qed.

Lemma create_keeps d0 c proposed email P :
  RegistrationOperation_validate c = Ok proposed -> ro_status proposed <> REG_COMPLETED ->
  hspec e d0 P
    (transaction (user ← query (fun db => user_by_email email (users db));
                  match user with
                  | None => on_registrations (fun _ _ => try_create proposed)
                  | Some _ => mret None
                  end))
    (fun o db => match o with Some op => op = proposed /\ read_row op db | None => True end).
Proof.
  intros Hv Hns. apply h_transaction; [done|].
  eapply tspec_weaken with (P := running d0); [|by intros db [? _]|by intros ? ? Hq; exact Hq].
  eapply tspec_bind with (R := fun _ => running d0).
  - apply tspec_query; [by apply others_running..|done].
  - intros [u|]; [by apply tspec_ret|by eapply try_create_keeps].
Qed.

Lemma register_keeps d0 email0 email password k P :
  NormalizedEmail_new email0 = Ok email ->
  hspec e d0 P (register cfg email password k) (completed_for email).
Proof.
  intros Hem. unfold register. eapply h_bind; [apply load_keeps|]. intros [op|].
  { apply h_rebase. intros d1 [Hc1 _] [Hrow _]. by apply resume_existing_keeps. }
  eapply h_bind with (R := fun _ _ => True).
  { eapply h_bind; [apply h_tick|]. intros r w [Hr _]. unfold lift. by destruct r. }
  intros h. eapply h_bind; [by apply h_now|]. intros now. apply h_pure.
  intros Ha. eapply h_bind; [apply h_tick|]. intros owner.
  eapply h_bind; [apply h_lift|]. intros lease. apply h_pure. intros _.
  eapply h_bind; [apply h_tick|]. intros oid. eapply h_bind; [apply h_tick|]. intros uid.
  eapply h_bind; [apply h_lift|]. intros proposed. apply h_pure. intros Hv.
  assert (Hp : ro_status proposed <> REG_COMPLETED /\ ro_email proposed = email).
  { unfold RegistrationOperation_validate, candidate in Hv. ok_inv. subst proposed.
    split; [done|]. cbn in *. rewrite (normalized_stable _ _ Hem) in Hok.
    by injection Hok. }
  destruct Hp as [Hns Hpe]. eapply h_bind; [by eapply create_keeps|]. intros [op|].
  - apply h_rebase. intros d1 _ [-> Hrow]. rewrite <- Hpe.
    eapply h_weaken with (P := fun _ => True); [apply resume_keeps; [done|by apply read_row_stored]|done|].
    intros r db. apply answers_completed_for.
  - eapply h_bind; [apply load_keeps|]. intros [op|]; [|apply h_raise].
    apply h_rebase. intros d1 [Hc1 _] [Hrow _]. by apply resume_existing_keeps.
Qed.

Lemma redrive_keeps d0 i P : hspec e d0 P (redrive i) (fun _ _ => True).
Proof.
  unfold redrive. apply h_transaction; [done|].
  eapply tspec_weaken with (P := running d0) (Q := fun _ => running d0);
    [|by intros db [? _]|done].
  eapply tspec_bind with (R := fun a db => is_aware a = true /\ running d0 db).
  - apply tspec_tick. intros n db Hr. split; [by apply ge_clock|done].
  - intros a. apply tspec_pure. intros Ha. apply on_registrations_spec; [by apply others_running..|].
    intros now lk db b t Hn Hr Hc.
    destruct (redrive_completes_nothing i a Ha now lk _ b t Hn (co_registrations _ _ (proj1 Hr)) Hc).
    by apply step_running.
Qed.

Lemma process_keeps d0 owner op P :
  stored op d0 -> hspec e d0 P (process cfg owner op) (fun _ _ => True).
Proof.
  intros Hst. unfold process. eapply h_bind; [apply h_attempt; by apply resume_keeps|].
  intros [r|error]; [by apply h_ret|]. case_step; [by apply h_ret|apply h_raise].
Qed.

Lemma process_all_keeps d0 owner ops P :
  (forall op, op ∈ ops -> stored op d0) ->
  hspec e d0 P (process_all cfg owner ops) (fun _ _ => True).
Proof.
  revert P. induction ops as [|op ops IH]; intros P Hst; [by apply h_ret|].
  eapply h_bind; [apply process_keeps; set_solver|]. intros ?. apply IH. set_solver.
Qed.

(** What a round claims is stored. *)
Lemma claim_batch_stored d0 owner now seconds n P :
  is_aware now = true ->
  hspec e d0 P (transaction (
      lease ← t_lift (timedelta_seconds seconds);
      on_registrations (fun db_now lk =>
        Registration.claim_batch db_now lk owner now (dt_add now lease) n)))
    (fun ops db => forall op, op ∈ ops -> stored op db).
Proof.
  intros Ha. apply h_transaction; [done|].
  eapply tspec_weaken with (P := running d0); [|by intros db [? _]|by intros ? ? Hq; exact Hq].
  eapply tspec_bind; [by apply tspec_lift with (Q := fun _ => running d0)|]. intros lease.
  apply on_registrations_spec; [by apply others_running..|].
  intros db_now lk db ops t Hn Hr Hc. pose proof (co_registrations _ _ (proj1 Hr)) as Hok.
  destruct (claim_batch_completes_nothing owner now (dt_add now lease) n Ha db_now lk _ ops t
    Hn Hok Hc). split; [by apply step_running|].
  intros op Hop. apply read_row_stored.
  by apply (claim_batch_rows db_now lk owner now (dt_add now lease) n _ ops t Hok Hn Ha Hc).
Qed.

Lemma reconcile_keeps d0 n P : hspec e d0 P (reconcile_once cfg n) (fun _ _ => True).
Proof.
  unfold reconcile_once. eapply h_bind; [apply h_lift|]. intros ?. apply h_pure. intros _.
  eapply h_bind; [apply h_tick|]. intros owner. eapply h_bind; [by apply h_now|].
  intros now. apply h_pure. intros Ha. eapply h_bind; [by apply claim_batch_stored|].
  intros ops. destruct ops as [|op ops]; [by apply h_ret|].
  eapply h_bind; [apply h_emit|]. intros ?.
  eapply h_bind; [|intros ?; by apply h_ret].
  apply h_rebase. intros d1 _ Hst. by apply process_all_keeps.
Qed.
End registering.

(** ** Properties *)

Section properties.
Context `{EmailLaws} `{FloatPow} `{PasswordHasher} `{ProfileProvisioner}.

Lemma hspec_run e d0 {A} (m : RM A) Q w :
  hspec e d0 (fun _ => True) m Q -> running d0 (w_db w) ->
  let '(r, w') := m e w in
  running d0 (w_db w') /\ forall a, r = Ok a -> Q a (w_db w').
Proof.
  intros Hm Hr. specialize (Hm w (conj Hr I)). destruct (m e w) as [[a|x] w'].
  - destruct Hm as [? ?]. split; [done|]. by intros ? [= <-].
  - by split.
Qed.

(** C3. Registration never leaves the tables inconsistent: in every environment
    (any interleaving with other transactions that keep the tables consistent,
    any statement, commit, profile-service or hasher failure, any clock), a run
    of [RegisterUserHandler.execute], of [ResumeRegistrationHandler.execute] on
    a stored operation, of the operator's redrive or of a reconciler round ends,
    with a value or an exception, in consistent tables (every COMPLETED
    operation has its user, every user a COMPLETED operation with its address, and
    every message of the outbox announces one user, no two the same) in
    which no operation or user was lost; and when a
    request is answered COMPLETED its operation is completed and the user
    exists under the requested address. *)
Theorem registration_safe cfg e w email0 email password k op owner i n :
  good_env e -> consistent Settled (w_db w) ->
  NormalizedEmail_new email0 = Ok email -> stored op (w_db w) ->
  let safe {A} (m : RM A) (Q : A -> database -> Prop) :=
    let '(r, w') := m e w in
    consistent Settled (w_db w') /\ extends (w_db w) (w_db w') /\
    forall a, r = Ok a -> Q a (w_db w') in
  safe (register cfg email password k) (completed_for email) /\
  safe (resume cfg op owner) (answers op) /\
  safe (redrive i) (fun _ _ => True) /\
  safe (reconcile_once cfg n) (fun _ _ => True).
Proof.
  intros He Hc Hem Hst safe.
  assert (Hrun : running (w_db w) (w_db w)) by (split; auto with identity).
  assert (Hsafe : forall A (m : RM A) Q, hspec e (w_db w) (fun _ => True) m Q -> safe A m Q).
  { intros A m Q Hm. pose proof (hspec_run e (w_db w) m Q w Hm Hrun) as Hr. unfold safe.
    destruct (m e w) as [r w']. destruct Hr as [[? ?] ?]. done. }
  repeat split; apply Hsafe.
  - by eapply register_keeps.
  - by apply resume_keeps.
  - by apply redrive_keeps.
  - by apply reconcile_keeps.
Qed.

(** The handler's "completed registration has no user" branch is
    unreachable: if an operation read from consistent tables is COMPLETED, the
    lookup of its user in a later transaction, whatever happened in between and
    however it fails, never answers [None]; when it answers, the user has the
    operation's address. *)
Theorem completed_registration_has_user e w1 w2 op :
  good_env e -> consistent Settled w1 -> read_row op w1 -> ro_status op = REG_COMPLETED ->
  consistent Settled (w_db w2) -> extends w1 (w_db w2) ->
  forall o w3, transaction (Ev := reg_event)
      (query (fun db => user_get (ro_user_id op) (users db))) e w2 = (Ok o, w3) ->
    exists u, o = Some u /\ u_email u = ro_email op.
Proof.
  intros He Hc1 Hrow Hs Hc2 Hx o w3 Hrun.
  pose proof (completed_user e He w1 op (fun _ => True) Hc1 Hrow Hs w2
    (conj (conj Hc2 Hx) I)) as Hm.
  rewrite Hrun in Hm. by destruct Hm as [_ Hm].
Qed.
End properties.

(** ** A concrete run *)

#[global] Existing Instance demo_pow.

#[global] Instance demo_hasher : PasswordHasher := {|
  hash_password _ p := Ok ("h:" ++ p)%string;
  verify_password p h := Ok (bool_decide (h = ("h:" ++ p)%string))
|}.

Definition demo_profiles : ProfileProvisioner := fun _ _ _ => Ok tt.

Definition demo_config : reg_config :=
  {| rc_retry_policy := default_policy; rc_claim_lease_seconds := of_Z 30;
     rc_topic := "users"; rc_producer := "identity" |}.

Definition start_world : world database reg_event :=
  {| w_db := empty_db; w_tick := 0; w_trace := [] |}.

Lemma quiet_good `{EmailSyntax} : good_env (quiet_env database).
Proof. split; [intros; split; auto with identity|done|done]. Qed.

Lemma empty_consistent `{EmailSyntax} : consistent Settled empty_db.
Proof.
  split; [split|split|split| | |exists id; split]; cbn; unfold keyed; intros; simplify_map_eq.
  by match goal with H : is_Some None |- _ => destruct H end.
Qed.

Section demo.
#[local] Existing Instance demo_email_syntax.
#[local] Existing Instance demo_profiles.

Definition demo_run : res RegistrationResult * world database reg_event :=
  register demo_config "ann@x" "password" (demo_hash x01) (quiet_env database) start_world.
Definition demo_world : world database reg_event := demo_run.2.

(** The operation the run stored, as a record. *)
Definition demo_stored : RegistrationOperation :=
  match map_to_list (registrations (w_db demo_world)) with
  | (_, r) :: _ => r
  | [] => demo_operation 1 REG_PENDING 0
  end.

Example demo_run_completes :
  rr_outcome <$> match demo_run.1 with Ok r => Some r | Err _ => None end = Some OUT_COMPLETED.
Proof. vm_compute. reflexivity. Qed.

Lemma demo_world_consistent : consistent Settled (w_db demo_world).
Proof.
  assert (Hr : running empty_db (w_db start_world))
    by (split; [apply empty_consistent|apply extends_refl]).
  assert (Hem : NormalizedEmail_new "ann@x" = Ok "ann@x"%string) by (vm_compute; reflexivity).
  pose proof (hspec_run (quiet_env database) empty_db _ _ start_world
    (register_keeps demo_config _ quiet_good empty_db _ _ "password" (demo_hash x01)
       (fun _ => True) Hem) Hr) as Hx.
  unfold demo_world, demo_run. destruct (register _ _ _ _ _ _) as [r w].
  by destruct Hx as [[? _] _].
Qed.

Lemma demo_read_row : read_row demo_stored (w_db demo_world).
Proof. vm_compute. reflexivity. Qed.

Lemma registration_safe_witness :
  rr_outcome <$> match demo_run.1 with Ok r => Some r | Err _ => None end = Some OUT_COMPLETED /\
  consistent Settled (w_db (register demo_config "ann@x" "password" (demo_hash x01)
                          (quiet_env database) demo_world).2).
Proof.
  split; [vm_compute; reflexivity|].
  pose proof (registration_safe demo_config (quiet_env database) demo_world "ann@x" "ann@x"
    "password" (demo_hash x01) demo_stored 7 1 10 quiet_good demo_world_consistent
    ltac:(vm_compute; reflexivity) (read_row_stored _ _ demo_read_row)) as [H _].
  revert H. destruct (register _ _ _ _ _ _) as [r w]. intros [Hc _]. exact Hc.
Defined.

Definition demo_user_row : option User := users (w_db demo_world) !! ro_user_id demo_stored.

Lemma completed_registration_has_user_witness :
  ro_status demo_stored = REG_COMPLETED /\
  exists u, demo_user_row = Some u /\ u_email u = ro_email demo_stored.
Proof.
  split; [vm_compute; reflexivity|].
  destruct (completed_registration_has_user (quiet_env database) (w_db demo_world) demo_world
    demo_stored quiet_good demo_world_consistent demo_read_row ltac:(vm_compute; reflexivity)
    demo_world_consistent (extends_refl _)
    demo_user_row
    {| w_db := w_db demo_world; w_tick := 3 + w_tick demo_world;
       w_trace := w_trace demo_world |} ltac:(vm_compute; reflexivity)) as (u & Hu & He).
  exists u. split; [exact Hu|exact He].
Defined.
End demo.

(** ** What an attempt does *)

Section decisions.
Context `{EmailSyntax} `{FloatPow} `{PasswordHasher} `{ProfileProvisioner}.
Context (cfg : reg_config) (e : env database).

Lemma finalize_built op owner at_ user : built e (finalize_body cfg op owner at_ user).
Proof.
  unfold finalize_body, on_registrations, on_users, on_outbox.
  apply built_bind; [apply built_stmt|]. intros [|].
  all: apply built_bind; [first [apply built_ret|apply built_lift]|]; intros ?.
  all: apply built_bind; [apply built_stmt|]; intros [u|]; [|apply built_lift].
  all: apply built_bind; [apply built_tick|]; intros ?.
  all: apply built_bind; [apply built_tick|]; intros ?.
  all: apply built_bind; [apply built_stmt|]; intros ?; apply built_ret.
Qed.

(** Finalisation writes all or nothing: when completing the operation,
    creating the user and publishing the event does not succeed, for whatever
    reason other than a database failure (in particular a lost claim or an
    address already taken), the database has received nothing but other
    transactions' commits; and after a database failure too, unless the commit
    took effect before it was reported as failed. *)
Theorem finalize_all_or_nothing op owner w x w' :
  finalize cfg op owner e w = (Err x, w') ->
  reaches e (w_db w) (w_db w') \/
  (exists p, x = EPersistence p) /\ exists n d, commit_fault e n = Some (d, true).
Proof.
  unfold finalize, get_now, tick, lift, mbind, M_bind.
  destruct (ro_password_hash op) as [h|]; [|intros [= <- <-]; by left].
  cbn [mret result_ret]. destruct (User_validate _) as [u|]; [|intros [= <- <-]; by left].
  intros Hrun.
  pose proof (transaction_cases (Ev := reg_event) e _ {| w_db := w_db w;
    w_tick := S (w_tick w); w_trace := w_trace w |}
    (finalize_built op owner (clock e (w_tick w)) u)) as Hc.
  rewrite Hrun in Hc. destruct Hc as [_ [Hc|(a & n & d & _ & Hc & ->)]]; [by left|right].
  split; [by eexists|eauto].
Qed.

Lemma quiet_update {A} (f : datetime -> gset Z -> reg_table -> res (A * reg_table)) w a t :
  quiet e -> (forall now lk, f now lk (registrations (w_db w)) = Ok (a now, t now)) ->
  exists now n,
    transaction (Ev := reg_event) (on_registrations f) e w =
      (Ok (a now), {| w_db := with_registrations (t now) (w_db w); w_tick := n;
                      w_trace := w_trace w |}).
Proof.
  intros [Ho Hs Hc] Hf. exists (db_clock e (w_tick w)). eexists.
  unfold transaction, on_registrations, stmt, locking_stmt. cbn [tx_tick tx_base tx_view tx_now].
  rewrite Hs, !Ho, Hf. cbn [mbind result_bind mret result_ret tx_tick tx_view].
  rewrite Hc. reflexivity.
Qed.

(** The caller holds the claim, at every clock reading. *)
Record holding (op : RegistrationOperation) (owner : uuid) (db : database)
    (row : RegistrationOperation) : Prop := {
  ho_claimed : ro_status op = REG_CLAIMED;
  ho_token : ro_claim_token op = Some owner;
  ho_table : reg_table_ok (registrations db);
  ho_row : registrations db !! ro_id op = Some row;
  ho_owns : forall n, owns owner (clock e n) row = true
}.

Lemma update_holding op owner db row n set :
  holding op owner db row ->
  (ck_registration row = true -> ck_registration (set row) = true) ->
  update_one ck_registration ro_id (ro_id op) (owns owner (clock e n)) set (registrations db)
    = Ok (true, <[ro_id op := set row]> (registrations db)).
Proof.
  intros [_ _ [Hk Hr _] Hi Ho] Hck. unfold update_one.
  rewrite (sql_update_by_id _ _ _ _ _ _ Hk), Hi, (Ho n), Hck by (by eapply rok_check, Hr).
  done.
Qed.

Lemma block_holding op owner w row error :
  quiet e -> holding op owner (w_db w) row ->
  exists now at_ n,
    block_operation op owner error e w =
      (Ok tt, {| w_db := with_registrations
                   (<[ro_id op := set_blocked now at_ (class_name error) row]>
                      (registrations (w_db w))) (w_db w);
                 w_tick := n; w_trace := OperationBlocked (class_name error) :: w_trace w |}).
Proof.
  intros Hq Hh. unfold block_operation, get_now, tick. unfold mbind at 1, M_bind at 1.
  set (w1 := {| w_db := _ |}).
  edestruct (quiet_update (fun now _ => block now (ro_id op) owner (clock e (w_tick w))
    (class_name error)) w1 (fun _ => true)) as (now & n & Hrun); [done| |].
  { intros now lk. apply (update_holding op owner (w_db w) row (w_tick w)); [done|].
    intros Hck. apply (set_blocked_check now (clock e (w_tick w)) (class_name error) owner
      (clock e 0%nat)); [done|apply Hh]. }
  exists now, (clock e (w_tick w)), n. unfold mbind, M_bind. by rewrite Hrun.
Qed.

(** The part of [_retry_or_block] that schedules a retry. *)
Lemma retry_holding op owner w row error :
  quiet e -> holding op owner (w_db w) row ->
  (forall n, exists d us, delay_seconds (rc_retry_policy cfg) (ro_attempts op + 1)
     (random_sample e n) = Ok d /\ timedelta_seconds d = Ok us) ->
  (max_attempts (rc_retry_policy cfg) <=? ro_attempts op + 1) = false ->
  exists now at_ us r s w',
    retry_or_block cfg op owner error e w = (Ok r, w') /\
    w_db w' = with_registrations
      (<[ro_id op := set_retry now (dt_add at_ us) (class_name error) row]>
         (registrations (w_db w))) (w_db w) /\
    rr_outcome r = OUT_PENDING /\ rr_retry_after_seconds r = Some s /\ 1 <= s.
Proof.
  intros Hq Hh Hd Hm. destruct (Hd (S (w_tick w))) as (d & us & Hdelay & Hus).
  set (at_ := clock e (w_tick w)).
  set (w1 := {| w_db := w_db w; w_tick := S (S (w_tick w)); w_trace := w_trace w |}).
  destruct (quiet_update (fun now _ => Registration.schedule_retry now (ro_id op) owner at_
    (dt_add at_ us) (class_name error)) w1 (fun _ => true)
    (fun now => <[ro_id op := set_retry now (dt_add at_ us) (class_name error) row]>
                  (registrations (w_db w)))) as (now & n & Hrun); [done| |].
  { intros now lk. apply (update_holding op owner (w_db w) row (w_tick w)); [done|].
    intros Hck. apply (set_retry_check now _ (class_name error) owner (clock e 0%nat));
      [done|apply Hh]. }
  assert (Htx : transaction (Ev := reg_event) (delta ← t_lift (timedelta_seconds d);
      on_registrations (fun now _ => Registration.schedule_retry now (ro_id op) owner at_
        (dt_add at_ delta) (class_name error))) e w1 =
    (Ok true, {| w_db := with_registrations (<[ro_id op := set_retry now (dt_add at_ us)
       (class_name error) row]> (registrations (w_db w))) (w_db w);
       w_tick := n; w_trace := w_trace w |})) by (rewrite Hus; exact Hrun).
  exists now, at_, us. do 3 eexists. split.
  { unfold retry_or_block. rewrite Hm.
    rewrite (run_bind e get_now _ w at_ _ eq_refl).
    rewrite (run_bind e get_jitter _ {| w_db := w_db w; w_tick := S (w_tick w);
      w_trace := w_trace w |} _ w1 eq_refl).
    rewrite (run_bind e _ _ _ _ _ (run_lift e _ _ w1 Hdelay)).
    rewrite (run_bind e _ _ _ _ _ Htx).
    rewrite (run_bind e (emit _) _ _ tt _ eq_refl).
    rewrite (run_bind e get_now _ _ _ _ eq_refl).
    rewrite (run_bind e _ _ _ _ _ (run_lift e _ _ _ Hus)). reflexivity. }
  cbn. split; [done|]. split; [done|]. split; [reflexivity|lia].
Qed.

(** The first steps of an attempt by the holder of the claim. *)
Lemma resume_start op owner w row :
  holding op owner (w_db w) row ->
  resume cfg op owner e w =
    let answer := create_profile_answer (w_tick w) (ro_user_id op) (ro_created_at op) in
    let w1 := {| w_db := w_db w; w_tick := S (w_tick w);
                 w_trace := CreateProfile (ro_user_id op) (ro_created_at op) answer
                            :: w_trace w |} in
    match answer with
    | Err error => profile_failed cfg op owner error e w1
    | Ok _ =>
        (outcome ← attempt (finalize cfg op owner);
         match outcome with
         | Err error => finalization_failed cfg op owner error
         | Ok user =>
             emit OperationCompleted;;
             mret {| rr_operation_id := ro_id op; rr_user_id := u_id user;
                     rr_outcome := OUT_COMPLETED; rr_retry_after_seconds := None |}
         end) e w1
    end.
Proof.
  intros [Hs Ht _ _ _]. unfold resume, has_status. rewrite Hs, Ht, !bool_decide_true by done.
  cbn [negb orb raise_if]. unfold mbind at 1, M_bind at 1, lift at 1.
  unfold mbind at 1, M_bind at 1, attempt at 1, create_profile, call. cbv zeta.
  by destruct (create_profile_answer _ _ _).
Qed.


(** The tables after the finalisation of [op]. *)
Definition finalized (op : RegistrationOperation) (h : string) (row : RegistrationOperation)
    (now at_ : datetime) (cid eid : uuid) (db : database) : database :=
  with_outbox (<[eid := event_row (rc_topic cfg) (rc_producer cfg)
                   (user_registered (new_user op h) cid eid)]> (outbox db))
    (with_users (<[ro_user_id op := new_user op h]> (users db))
       (with_registrations (<[ro_id op := set_completed now at_ row]> (registrations db)) db)).

(** Finalisation by the holder of the claim when the address is free. *)
Lemma quiet_finalize op owner w row h :
  quiet e -> holding op owner (w_db w) row -> ro_password_hash op = Some h ->
  User_validate (new_user op h) = Ok (new_user op h) ->
  users (w_db w) !! ro_user_id op = None ->
  (forall i u, users (w_db w) !! i = Some u -> u_email u <> ro_email op) ->
  (forall n, outbox (w_db w) !! new_uuid e n = None) ->
  exists now at_ cid eid n, finalize cfg op owner e w =
    (Ok (new_user op h), {| w_db :=
      finalized op h row now at_ cid eid (w_db w); w_tick := n; w_trace := w_trace w |}).
Proof.
  intros Hq Hh Hpw Hv Hnone Hemail Hfree.
  set (at_ := clock e (w_tick w)). set (now := db_clock e (S (w_tick w))).
  assert (Hcreate : create_if_absent (new_user op h) (users (w_db w)) =
    Ok (Some (new_user op h), <[ro_user_id op := new_user op h]> (users (w_db w)))).
  { unfold create_if_absent. cbn [u_id u_email new_user]. rewrite (proj2 (existsb_false _ _)).
    - rewrite Hnone. by rewrite (user_to_domain_ok _ Hv).
    - intros u [i Hi]%elem_of_rows. by apply bool_decide_eq_false, (Hemail i). }
  assert (Hcomp : complete now (ro_id op) owner at_ (registrations (w_db w)) =
    Ok (true, <[ro_id op := set_completed now at_ row]> (registrations (w_db w)))).
  { apply (update_holding op owner _ row (w_tick w)); [exact Hh|].
    intros Hck. apply (set_completed_check now _ owner (clock e 0%nat)); [done|apply Hh]. }
  set (n0 := S (S (w_tick w))).
  set (cid := new_uuid e (S (S n0))). set (eid := new_uuid e (S (S (S n0)))).
  set (w1 := {| w_db := w_db w; w_tick := S (w_tick w); w_trace := w_trace w |}).
  set (db1 := with_registrations (<[ro_id op := set_completed now at_ row]>
                (registrations (w_db w))) (w_db w)).
  set (db2 := with_users (<[ro_user_id op := new_user op h]> (users (w_db w))) db1).
  set (db3 := with_outbox (<[eid := event_row (rc_topic cfg) (rc_producer cfg)
                (user_registered (new_user op h) cid eid)]> (outbox (w_db w))) db2).
  set (at_tick := fun db n => {| tx_base := w_db w; tx_view := db; tx_tick := n;
                                 tx_now := now; tx_locks := ∅ |}).
  assert (Hbody : finalize_body cfg op owner at_ (new_user op h) e (at_tick (w_db w) n0) =
    (Ok (new_user op h), at_tick db3 (S (S (S (S (S n0))))))).
  { unfold finalize_body.
    rewrite (run_t_bind e _ _ _ true (at_tick db1 (S n0))).
    2: { apply quiet_stmt; [done|]. intros lk. cbn. by rewrite Hcomp. }
    rewrite (run_t_bind e (mret tt) _ _ tt _ eq_refl).
    rewrite (run_t_bind e _ _ _ (Some (new_user op h)) (at_tick db2 (S (S n0)))).
    2: { apply quiet_stmt; [done|]. intros lk. cbn. by rewrite Hcreate. }
    rewrite (run_t_bind e (t_tick new_uuid) _ (at_tick db2 (S (S n0))) cid
      (at_tick db2 (S (S (S n0)))) eq_refl).
    rewrite (run_t_bind e (t_tick new_uuid) _ (at_tick db2 (S (S (S n0)))) eid
      (at_tick db2 (S (S (S (S n0))))) eq_refl).
    rewrite (run_t_bind e _ _ _ tt (at_tick db3 (S (S (S (S (S n0))))))); [done|].
    apply quiet_stmt; [done|]. intros lk. unfold publish. cbn.
    assert (outbox (w_db w) !! eid = None) as -> by apply Hfree. done. }
  exists now, at_, cid, eid. eexists. unfold finalize. rewrite Hpw.
  rewrite (run_bind e _ _ _ h w eq_refl).
  rewrite (run_bind e get_now _ _ at_ w1 eq_refl).
  rewrite (run_bind e _ _ _ _ _ (run_lift e _ _ _ Hv)).
  exact (quiet_transaction e _ w1 _ _ Hq Hbody).
Qed.

(** A successful attempt, when the holder of a live claim runs alone, the
    profile service accepts, the address is free, the stored data make a valid
    user and the event's identifier is new: the operation becomes COMPLETED with
    its password hash scrubbed, the user is created, one event with the user's
    key is put in the outbox, the answer is COMPLETED for this operation and user,
    and the profile service was called exactly once, before anything was
    written. *)
Theorem resume_success op owner w row h :
  quiet e -> holding op owner (w_db w) row ->
  create_profile_answer (w_tick w) (ro_user_id op) (ro_created_at op) = Ok tt ->
  ro_password_hash op = Some h ->
  User_validate (new_user op h) = Ok (new_user op h) ->
  users (w_db w) !! ro_user_id op = None ->
  (forall i u, users (w_db w) !! i = Some u -> u_email u <> ro_email op) ->
  (forall n, outbox (w_db w) !! new_uuid e n = None) ->
  exists now at_ cid eid w',
    resume cfg op owner e w =
      (Ok {| rr_operation_id := ro_id op; rr_user_id := ro_user_id op;
             rr_outcome := OUT_COMPLETED; rr_retry_after_seconds := None |}, w') /\
    w_db w' =
      finalized op h row now at_ cid eid (w_db w) /\
    w_trace w' = OperationCompleted
      :: CreateProfile (ro_user_id op) (ro_created_at op) (Ok tt) :: w_trace w.
Proof.
  intros Hq Hh Ha Hpw Hv Hnone Hemail Hfree. rewrite (resume_start _ _ _ _ Hh), Ha.
  cbv zeta. set (w1 := {| w_db := w_db w; w_tick := S (w_tick w); w_trace := _ |}).
  destruct (quiet_finalize op owner w1 row h Hq Hh Hpw Hv Hnone Hemail Hfree)
    as (now & at_ & cid & eid & n & Hrun).
  exists now, at_, cid, eid. eexists. split; [|split].
  - rewrite (run_bind e (attempt _) _ _ (Ok (new_user op h)) _ ltac:(unfold attempt;
      rewrite Hrun; reflexivity)). reflexivity.
  - reflexivity.
  - reflexivity.
Qed.
End decisions.

Section demo_attempt.
#[local] Existing Instance demo_email_syntax.

(** A worker alone, at a standing clock, holding the claim of operation 1. *)
Definition demo_env : env database :=
  {| clock _ := utc 61; new_uuid n := 1000 + Z.of_nat n; random_sample _ := f0;
     others _ _ db := db; db_clock _ := utc 61; locked_rows _ := ∅;
     statement_fault _ := None; commit_fault _ := None |}.

Definition demo_claimed_op : RegistrationOperation :=
  set_claim (utc 60) 77 (utc 90) (demo_operation 1 REG_PENDING 50).

Definition demo_claimed_world : world database reg_event :=
  {| w_db := with_registrations demo_claimed empty_db;
     w_tick := 0; w_trace := [] |}.

Lemma demo_quiet : quiet demo_env.
Proof. done. Qed.

Lemma demo_holding : holding demo_env demo_claimed_op 77 (w_db demo_claimed_world) demo_claimed_op.
Proof.
  split; [done|done| |vm_compute; reflexivity|done].
  assert (Hs : reg_step demo_reg_table demo_claimed).
  { eapply (rs_claim_key _ (utc 60) (demo_hash x01) 77 (utc 60) (utc 90));
      vm_compute; reflexivity. }
  exact (proj1 (reg_step_ok _ _ demo_reg_table_ok Hs)).
Qed.

Definition failing_profiles (x : exn) : ProfileProvisioner := fun _ _ _ => Err x.

Lemma finalize_all_or_nothing_witness :
  let run := finalize demo_config demo_claimed_op 78 demo_env demo_claimed_world in
  run.1 = Err ELostRegistrationClaim /\ reaches demo_env (w_db demo_claimed_world) (w_db run.2).
Proof.
  intros run. split; [vm_compute; reflexivity|].
  destruct (finalize_all_or_nothing demo_config demo_env demo_claimed_op 78
    demo_claimed_world ELostRegistrationClaim run.2)
    as [H|[_ (n & d & H)]]; [|exact H|discriminate H].
  unfold run. vm_compute. reflexivity.
Defined.


Lemma resume_success_witness :
  exists w', @resume _ demo_pow demo_profiles demo_config demo_claimed_op 77 demo_env
      demo_claimed_world =
    (Ok {| rr_operation_id := 1; rr_user_id := 101; rr_outcome := OUT_COMPLETED;
           rr_retry_after_seconds := None |}, w').
Proof.
  destruct (@resume_success _ demo_pow demo_profiles demo_config demo_env
    demo_claimed_op 77 demo_claimed_world demo_claimed_op "argon2" demo_quiet demo_holding
    eq_refl eq_refl ltac:(vm_compute; reflexivity) ltac:(vm_compute; reflexivity)
    ltac:(intros i u Hi; discriminate Hi) ltac:(intros n; reflexivity))
    as (now & at_ & cid & eid & w' & Hrun & _).
  exists w'. exact Hrun.
Defined.
End demo_attempt.
