(* ===== verification/Relay.v ===== *)
(** * The outbox relay

    [application/outbox/relay.py]: one round claims a batch, publishes every
    message outside any transaction, and finalises, reschedules or quarantines
    each in a transaction of its own.  The broker answers as it likes.  The
    streams of different keys run one after the other; what the other streams
    and other relays commit meanwhile is the environment's [others]. *)

From S2P Require Import Prelude Exceptions Retry Sql Outbox Effects Invariants Accounts Database.

(** Calls to the publisher and to [OutboxRelayObserverProtocol]. *)
Inductive relay_event : Set :=
| Published (message : OutboxMessage) (answer : res unit)
| BatchClaimed (count : Z) (oldest_created_at observed_at : datetime)
| MessageFinalized (message_id : uuid) (message_type : string)
| MessageRetryScheduled (message_id : uuid) (message_type : string) (attempt : Z)
    (delay_seconds : float)
| MessageQuarantined (message_id : uuid) (message_type error_class : string).

Abbreviation OM := (M database relay_event).

(** [BrokerPublisherProtocol] *)
Class BrokerPublisher := publish_answer : nat -> OutboxMessage -> res unit.

Record relay_config := {
  rl_claim_lease_seconds : float;
  rl_retry_policy : RetryPolicy;
  (** [stop_event.is_set()] at a tick *)
  rl_stopped : nat -> bool
}.

(** [OutboxRelayService.__init__] *)
Definition relay_init (claim_lease_seconds : float) : res unit :=
  raise_if (fle claim_lease_seconds f0) EValueError.

(** [min(m.created_at for m in messages)]: the first of the least. *)
Fixpoint oldest (d : datetime) (messages : list OutboxMessage) : datetime :=
  match messages with
  | [] => d
  | m :: rest => oldest (if dt_ltb (om_created_at m) d then om_created_at m else d) rest
  end.

(** [by_key[msg.key].append(msg)] on an insertion-ordered dict. *)
Fixpoint add_to_key (m : OutboxMessage) (by_key : list (list OutboxMessage)) :
    list (list OutboxMessage) :=
  match by_key with
  | [] => [[m]]
  | stream :: rest =>
      match stream with
      | x :: _ => if same_key x m then (stream ++ [m]) :: rest
                  else stream :: add_to_key m rest
      | [] => stream :: add_to_key m rest
      end
  end.

Definition group_by_key (messages : list OutboxMessage) : list (list OutboxMessage) :=
  foldl (fun by_key m => add_to_key m by_key) [] messages.

Section relay.
Context `{FloatPow} `{BrokerPublisher}.
Context (cfg : relay_config).

Definition stop_is_set : OM bool := tick (fun _ n => rl_stopped cfg n).

Definition send (message : OutboxMessage) : OM unit :=
  call (fun n => publish_answer n message) (Published message).

(** [_quarantine] *)
Definition quarantine_message (message : OutboxMessage) (owner_token : uuid)
    (error_class : string) : OM unit :=
  quarantined_at ← get_now;
  quarantined ← transaction (on_outbox (fun now _ =>
    quarantine now (om_id message) owner_token quarantined_at error_class));
  if quarantined : bool
  then emit (MessageQuarantined (om_id message) (om_type message) error_class)
  else mret tt.

(** [_schedule_retry] *)
Definition schedule_message (message : OutboxMessage) (owner_token : uuid)
    (error : exn) : OM unit :=
  let attempt_number := om_attempts message + 1 in
  jitter ← get_jitter;
  delay ← lift (delay_seconds (rl_retry_policy cfg) attempt_number jitter);
  now ← get_now;
  delta ← lift (timedelta_seconds delay);
  scheduled ← transaction (on_outbox (fun db_now _ =>
    schedule_retry db_now (om_id message) owner_token (dt_add now delta)
      (class_name error)));
  if scheduled : bool
  then emit (MessageRetryScheduled (om_id message) (om_type message) attempt_number delay)
  else mret tt.

(** The [except] clauses of [_publish_claimed]. *)
Definition publish_failed (message : OutboxMessage) (owner_token : uuid)
    (error : exn) : OM unit :=
  if isinstance error PermanentPublishError then
    quarantine_message message owner_token (class_name error)
  else if is_exception error then
    if max_attempts (rl_retry_policy cfg) <=? om_attempts message + 1 then
      quarantine_message message owner_token (class_name RetryExhaustedError)
    else schedule_message message owner_token error
  else lift (raise error).

Definition finalize_message (message : OutboxMessage) (owner_token : uuid) : OM unit :=
  published_at ← get_now;
  finalized ← transaction (on_outbox (fun now _ =>
    finalize_published now (om_id message) owner_token published_at));
  if finalized : bool
  then emit (MessageFinalized (om_id message) (om_type message))
  else mret tt.

(** [_publish_claimed] *)
Definition publish_claimed (message : OutboxMessage) (owner_token : uuid) : OM unit :=
  answer ← attempt (send message);
  match answer with
  | Err error => publish_failed message owner_token error
  | Ok _ => finalize_message message owner_token
  end.

(** [_process_key_stream] *)
Fixpoint process_key_stream (owner_token : uuid) (key_messages : list OutboxMessage) :
    OM unit :=
  match key_messages with
  | [] => mret tt
  | msg :: rest =>
      stopped ← stop_is_set;
      if stopped : bool then mret tt
      else publish_claimed msg owner_token;; process_key_stream owner_token rest
  end.

(** [asyncio.gather(..., return_exceptions=True)]: a stream's exception is kept
    as its result. *)
Fixpoint gather (streams : list (OM unit)) : OM unit :=
  match streams with
  | [] => mret tt
  | stream :: rest => attempt stream;; gather rest
  end.

Definition claim_messages (owner_token : uuid) (claimed_at claim_expires_at : datetime)
    (batch_size : Z) : OM (list OutboxMessage) :=
  transaction (on_outbox (fun now lk =>
    claim_batch now lk owner_token claimed_at claim_expires_at batch_size)).

(** [run_once] *)
Definition run_once (batch_size : Z) : OM Z :=
  lift (raise_if (batch_size <=? 0) EValueError);;
  owner_token ← get_uuid;
  claimed_at ← get_now;
  lease ← lift (timedelta_seconds (rl_claim_lease_seconds cfg));
  messages ← claim_messages owner_token claimed_at (dt_add claimed_at lease) batch_size;
  match messages with
  | [] => mret 0
  | m :: rest =>
      emit (BatchClaimed (Z.of_nat (length messages)) (oldest (om_created_at m) rest)
              claimed_at);;
      gather (process_key_stream owner_token <$> group_by_key messages);;
      mret (Z.of_nat (length messages))
  end.

(** [run]: the loop, for at most [fuel] rounds; [None] when it has not been
    stopped by then.  Waiting for [poll_interval] only lets time pass. *)
Fixpoint run_loop (fuel : nat) (batch_size : Z) : OM (option unit) :=
  match fuel with
  | O => mret None
  | S fuel =>
      stopped ← stop_is_set;
      if stopped : bool then mret (Some tt) else
      r ← attempt (run_once batch_size);
      match r with
      | Err error =>
          if is_exception error then run_loop fuel batch_size else lift (raise error)
      | Ok _ => run_loop fuel batch_size
      end
  end.

Definition run (fuel : nat) (poll_interval : float) (batch_size : Z) : OM (option unit) :=
  lift (raise_if (fle poll_interval f0) EValueError);;
  run_loop fuel batch_size.
End relay.

(** ** The invariant of a run *)

Definition delivered (i : uuid) (t : outbox_table) : Prop :=
  exists m, t !! i = Some m /\ om_status m = OB_SUCCESS.

(** The broker acknowledged message [i]. *)
Definition acknowledged (i : uuid) (trace : list relay_event) : Prop :=
  exists m, Published m (Ok tt) ∈ trace /\ om_id m = i.

(** Other transactions keep the table well-formed and mark as SUCCESS only the
    messages in [elsewhere]. *)
Record relay_env (elsewhere : uuid -> Prop) (e : env database) : Prop := {
  re_ok : forall n l db, outbox_ok (outbox db) -> outbox_ok (outbox (others e n l db));
  re_delivered : forall n l db i, delivered i (outbox (others e n l db)) ->
    delivered i (outbox db) \/ elsewhere i;
  re_clocks : aware_clocks e
}.

(** ** What the statements do *)

(** A statement of the relay: messages keep what they say, move along their life
    cycle, and become SUCCESS only for one of [acked]. *)
Record relays (acked : uuid -> Prop) (t t' : outbox_table) : Prop := {
  rs_ok : outbox_ok t';
  rs_change : table_change t t';
  rs_delivered : forall j, delivered j t' -> delivered j t \/ acked j
}.

(** The statements that name a message. *)
Lemma update_relays (acked : uuid -> Prop) t i cond f b t' :
  outbox_ok t -> update_one ck_outbox om_id i cond f t = Ok (b, t') ->
  (forall m, t !! i = Some m -> cond m = true -> rewrites m (f m)) ->
  (forall m, t !! i = Some m -> om_status (f m) = OB_SUCCESS -> acked i) ->
  relays acked t t'.
Proof.
  intros Hok Hu Hf Hm. pose proof Hok as [Hk _].
  destruct (update_one_change _ _ _ _ _ _ Hk Hu Hf) as [-> Hc].
  split; [by eapply table_change_ok|done|]. intros j (m' & Hj & Hs).
  destruct (t !! i) as [m|] eqn:E; [|left; by exists m'].
  destruct (cond m); [|left; by exists m'].
  apply lookup_insert_Some in Hj as [[<- <-]|[_ Hj]]; [right; eauto|left; by exists m'].
Qed.

Lemma finalize_relays (acked : uuid -> Prop) t now i owner at_ b t' :
  outbox_ok t -> is_aware now = true -> is_aware at_ = true -> acked i ->
  finalize_published now i owner at_ t = Ok (b, t') -> relays acked t t'.
Proof.
  intros Hok Hn Ha Hi Hu. eapply update_relays; [done|exact Hu| |done].
  intros m _ Hm. eapply success_row; [exact Hn|exact Ha|exact Hm].
Qed.

Lemma schedule_relays acked t now i owner av err b t' :
  outbox_ok t -> is_aware now = true -> is_aware av = true ->
  schedule_retry now i owner av err t = Ok (b, t') -> relays acked t t'.
Proof.
  intros Hok Hn Ha Hu. eapply update_relays; [done|exact Hu| |done].
  intros m _ Hm. eapply retry_row; [exact Hn|exact Ha|exact Hm].
Qed.

Lemma quarantine_relays acked t now i owner at_ err b t' :
  outbox_ok t -> is_aware now = true -> is_aware at_ = true ->
  quarantine now i owner at_ err t = Ok (b, t') -> relays acked t t'.
Proof.
  intros Hok Hn Ha Hu. eapply update_relays; [done|exact Hu| |done].
  intros m _ Hm. eapply quarantined_row; [exact Hn|exact Ha|exact Hm].
Qed.

Lemma claim_relays acked t now lk owner a x n l t' :
  outbox_ok t -> is_aware now = true -> is_aware x = true ->
  claim_batch now lk owner a x n t = Ok (l, t') -> relays acked t t'.
Proof.
  intros Hok Hn Hx Hc. pose proof Hok as [Hk _].
  pose proof (claim_change _ _ _ _ _ _ _ _ _ Hk Hn Hx Hc) as Hch.
  split; [by eapply table_change_ok|done|]. intros j (m' & Hj & Hs). left.
  destruct (table_change_lookup_inv _ _ _ _ Hch Hj) as (m & Hm & _). exists m. split; [done|].
  apply claim_batch_table in Hc as ->. rewrite lookup_set_picked, Hm in Hj.
  cbn in Hj. injection Hj as <-. by destruct (bool_decide _).
Qed.

(** ** What a run keeps *)

(** A property of the trace and the database that the relay may not break: other
    transactions, calls and the statements of a relay keep it. *)
Record relay_closed (e : env database) (I : list relay_event -> database -> Prop) : Prop := {
  rc_others : stable e I;
  rc_event : forall ev tr db, I tr db -> I (ev :: tr) db;
  rc_table : forall tr db, I tr db -> outbox_ok (outbox db);
  rc_step : forall tr db t', I tr db -> relays (fun i => acknowledged i tr) (outbox db) t' ->
    I tr (with_outbox t' db)
}.

Section rounds.
Context `{FloatPow} `{BrokerPublisher}.
Context (cfg : relay_config) (e : env database) (Hc : aware_clocks e).
Context (I : list relay_event -> database -> Prop) (HI : relay_closed e I).

Local Abbreviation keep := (keeps e I).

Lemma relay_emit ev : keep (emit ev).
Proof. apply keeps_emit, HI. Qed.

(** A transaction of one statement of a relay. *)
Lemma relay_statement {A} (f : datetime -> gset Z -> outbox_table -> res (A * outbox_table)) w :
  (forall now lk t a t', is_aware now = true -> outbox_ok t -> f now lk t = Ok (a, t') ->
     relays (fun i => acknowledged i (w_trace w)) t t') ->
  I (w_trace w) (w_db w) ->
  I (w_trace w) (w_db (transaction (Ev := relay_event) (on_outbox f) e w).2).
Proof.
  intros Hf Hw. set (tr := w_trace w) in *.
  assert (Hk : keeps e (fun _ : list relay_event => I tr) (transaction (on_outbox f)));
    [|exact (Hk w Hw)].
  apply keeps_transaction; [done|]. apply t_keeps_stmt.
  - intros _ n l db. apply (rc_others _ _ HI tr).
  - intros now lk _ db a db' Hn Hdb Hs. destruct (f now lk (outbox db)) as [[a' t]|] eqn:E;
      [|done]. injection Hs as <- <-. apply (rc_step _ _ HI); [done|].
    eapply Hf; [exact Hn|by eapply (rc_table _ _ HI)|exact E].
Qed.

Lemma relay_transaction {A} (f : datetime -> gset Z -> outbox_table -> res (A * outbox_table)) :
  (forall acked now lk t a t', is_aware now = true -> outbox_ok t -> f now lk t = Ok (a, t') ->
     relays acked t t') ->
  keep (transaction (on_outbox f)).
Proof.
  intros Hf w Hw. assert (Ht : w_trace (transaction (on_outbox f) e w).2 = w_trace w)
    by apply silent_transaction.
  rewrite Ht. apply relay_statement; [|done]. intros now lk t a t'. apply Hf.
Qed.

Lemma quarantine_message_keeps msg owner err : keep (quarantine_message msg owner err).
Proof.
  unfold quarantine_message. keep_step. keep_step.
  - apply relay_transaction. intros acked now lk t b t' Hn Hok Hq.
    eapply quarantine_relays; [exact Hok|exact Hn| |exact Hq]; done.
  - case_match; [apply relay_emit|apply keeps_ret].
Qed.

Lemma schedule_message_keeps msg owner error : keep (schedule_message cfg msg owner error).
Proof.
  unfold schedule_message. keep_step; [keep_step|]. keep_step; [keep_step|]. keep_step.
  keep_step; [keep_step|]. keep_step.
  - apply relay_transaction. intros acked now lk t b t' Hn Hok Hq.
    eapply schedule_relays; [exact Hok|exact Hn| |exact Hq]; done.
  - case_match; [apply relay_emit|apply keeps_ret].
Qed.

Lemma publish_failed_keeps msg owner error : keep (publish_failed cfg msg owner error).
Proof.
  unfold publish_failed.
  repeat keep_step; first [apply quarantine_message_keeps|apply schedule_message_keeps].
Qed.

(** Finalising after the broker's acknowledgement. *)
Lemma finalize_message_keeps msg owner w :
  acknowledged (om_id msg) (w_trace w) -> I (w_trace w) (w_db w) ->
  let w' := (finalize_message msg owner e w).2 in I (w_trace w') (w_db w').
Proof.
  intros Hack Hw. cbv zeta. unfold finalize_message, get_now, tick, mbind, M_bind.
  set (w1 := {| w_db := w_db w; w_tick := S (w_tick w); w_trace := w_trace w |}).
  set (body := on_outbox _).
  assert (Hw2 : I (w_trace w1) (w_db (transaction (Ev := relay_event) body e w1).2)).
  { apply relay_statement; [|done]. intros now lk t b t' Hn Hok Hq.
    eapply finalize_relays; [exact Hok|exact Hn|apply (ac_clock _ Hc)|exact Hack|exact Hq]. }
  assert (Ht : w_trace (transaction (Ev := relay_event) body e w1).2 = w_trace w1)
    by apply silent_transaction.
  rewrite <- Ht in Hw2.
  destruct (transaction body e w1) as [[[|]|x] w2];
    [exact (rc_event _ _ HI _ _ _ Hw2)|exact Hw2..].
Qed.

Lemma publish_claimed_keeps msg owner : keep (publish_claimed cfg msg owner).
Proof.
  intros w Hw. unfold publish_claimed, attempt, send, call, mbind, M_bind.
  set (w1 := {| w_db := w_db w; w_tick := _; w_trace := _ |}).
  assert (Hw1 : I (w_trace w1) (w_db w1)) by by apply (rc_event _ _ HI).
  destruct (publish_answer (w_tick w) msg) as [[]|error] eqn:E.
  - apply finalize_message_keeps; [|done]. exists msg. split; [|done]. by left.
  - by apply publish_failed_keeps.
Qed.

Lemma stream_keeps owner msgs : keep (process_key_stream cfg owner msgs).
Proof.
  induction msgs as [|m msgs IH]; [apply keeps_ret|].
  apply keeps_bind; [apply keeps_tick|]. intros [|]; [apply keeps_ret|].
  apply keeps_bind; [apply publish_claimed_keeps|done].
Qed.

Lemma gather_keeps owner streams : keep (gather (process_key_stream cfg owner <$> streams)).
Proof.
  induction streams as [|s streams IH]; [apply keeps_ret|].
  apply keeps_bind; [apply keeps_attempt, stream_keeps|done].
Qed.

Lemma run_once_keeps n : keep (run_once cfg n).
Proof.
  unfold run_once, claim_messages. keep_step; [keep_step|]. keep_step; [keep_step|]. keep_step.
  keep_step; [keep_step|]. keep_step.
  - apply relay_transaction. intros acked now lk t b t' Hn Hok Hq.
    eapply claim_relays; [exact Hok|exact Hn| |exact Hq]; done.
  - case_match; [apply keeps_ret|]. keep_step; [apply relay_emit|].
    keep_step; [apply gather_keeps|apply keeps_ret].
Qed.

Lemma run_loop_keeps fuel n : keep (run_loop cfg fuel n).
Proof.
  induction fuel as [|fuel IH]; [apply keeps_ret|].
  apply keeps_bind; [apply keeps_tick|]. intros [|]; [apply keeps_ret|].
  apply keeps_bind; [apply keeps_attempt, run_once_keeps|].
  intros [x|error]; [done|]. case_step; [done|apply keeps_lift].
Qed.

Lemma relay_run_keeps fuel poll n : keep (run cfg fuel poll n).
Proof. unfold run. keep_step; [keep_step|apply run_loop_keeps]. Qed.
End rounds.

(** The invariant of a run that started with the messages of [t0]. *)
Definition relay_inv (elsewhere : uuid -> Prop) (t0 : outbox_table)
    (trace : list relay_event) (db : database) : Prop :=
  outbox_ok (outbox db) /\
  forall i, delivered i (outbox db) -> delivered i t0 \/ elsewhere i \/ acknowledged i trace.

Lemma acknowledged_cons i ev trace : acknowledged i trace -> acknowledged i (ev :: trace).
Proof. intros (m & Hin & Hid). exists m. split; [by right|done]. Qed.

Lemma relay_inv_closed elsewhere e t0 :
  relay_env elsewhere e -> relay_closed e (relay_inv elsewhere t0).
Proof.
  intros He. split.
  - intros tr n l db [Hok Hd]. split; [by apply (re_ok _ _ He)|]. intros i Hi.
    destruct (re_delivered _ _ He _ _ _ _ Hi) as [Hi'|Hi']; auto.
  - intros ev tr db [Hok Hd]. split; [done|]. intros i Hi.
    destruct (Hd i Hi) as [|[|]]; auto using acknowledged_cons.
  - by intros tr db [Hok _].
  - intros tr db t' [Hok Hd] [Hok' _ Hd']. split; [done|]. intros i Hi.
    destruct (Hd' i Hi) as [|]; auto.
Qed.

(** C4. At-least-once delivery: however long the relay runs, in any environment
    (broker answers, crashes of statements and commits, other relays and
    writers interleaving), the outbox stays well-formed, and a message is marked
    SUCCESS only if it was before, or another worker delivered it, or the broker
    acknowledged it to this relay during the run. *)
Theorem relay_at_least_once `{FloatPow} `{BrokerPublisher} cfg elsewhere e fuel poll n w :
  relay_env elsewhere e -> outbox_ok (outbox (w_db w)) ->
  let '(_, w') := run cfg fuel poll n e w in
  outbox_ok (outbox (w_db w')) /\
  forall i, delivered i (outbox (w_db w')) ->
    delivered i (outbox (w_db w)) \/ elsewhere i \/ acknowledged i (w_trace w').
Proof.
  intros He Hok.
  pose proof (relay_run_keeps cfg e (re_clocks _ _ He) _ (relay_inv_closed elsewhere e
    (outbox (w_db w)) He) fuel poll n w ltac:(split; [done|auto])) as Hk.
  destruct (run cfg fuel poll n e w) as [r w']. exact Hk.
Qed.

(** ** The decisions *)

Section decisions.
Context `{FloatPow} `{BrokerPublisher}.
Context (cfg : relay_config) (e : env database).

(** Nothing else is running and no statement fails. *)
Record alone : Prop := {
  al_others : forall n l t, others e n l t = t;
  al_statement : forall n, statement_fault e n = None;
  al_commit : forall n, commit_fault e n = None;
  al_clock : forall n, is_aware (clock e n) = true;
  al_db_clock : forall n, is_aware (db_clock e n) = true
}.

(** A statement of the relay on a message it holds. *)
Lemma alone_update i owner f w m :
  alone -> outbox_ok (outbox (w_db w)) -> outbox (w_db w) !! i = Some m -> om_owns owner m = true ->
  (forall now, is_aware now = true -> rewrites m (f now m)) ->
  exists now n,
    transaction (Ev := relay_event)
      (on_outbox (fun now _ => update_one ck_outbox om_id i (om_owns owner) (f now))) e w =
    (Ok true, {| w_db := with_outbox (<[i := f now m]> (outbox (w_db w))) (w_db w); w_tick := n; w_trace := w_trace w |}).
Proof.
  intros [Ho Hs Hc Ha Hd] [Hk Hr] Hi Hown Hf.
  exists (db_clock e (w_tick w)). eexists. unfold transaction, on_outbox, stmt, locking_stmt.
  cbn [tx_tick tx_base tx_view tx_now]. rewrite Hs, !Ho. rewrite update_one_spec; [|done|].
  - unfold updated_one. rewrite Hi, Hown. cbn. rewrite Hc. reflexivity.
  - intros m' Hi' _. rewrite Hi in Hi'. injection Hi' as <-.
    apply mok_check, (Hf _ (Hd _)). by eapply Hr.
Qed.

(** The message is held: the table is well-formed and the owner's token is on it. *)
Record held (owner : uuid) (m : OutboxMessage) (t : outbox_table) : Prop := {
  hd_ok : outbox_ok t;
  hd_row : t !! om_id m = Some m;
  hd_owns : om_owns owner m = true
}.

Lemma alone_quarantine owner err w m :
  alone -> held owner m (outbox (w_db w)) ->
  exists now at_ n, quarantine_message m owner err e w =
    (Ok tt, {| w_db := with_outbox (<[om_id m := om_set_quarantined now at_ err m]> (outbox (w_db w))) (w_db w); w_tick := n;
               w_trace := MessageQuarantined (om_id m) (om_type m) err :: w_trace w |}).
Proof.
  intros Hal [Hok Hm Hown]. pose proof (al_clock Hal) as Hclk.
  set (w2 := {| w_db := w_db w; w_tick := S (w_tick w); w_trace := w_trace w |}).
  destruct (alone_update (om_id m) owner (fun now => om_set_quarantined now
    (clock e (w_tick w)) err) w2 m) as (now & n & Hrun); try done.
  { intros now Hn. by eapply quarantined_row. }
  exists now, (clock e (w_tick w)), n. unfold quarantine_message.
  rewrite (run_bind e get_now _ w _ w2 eq_refl).
  by rewrite (run_bind e _ _ w2 _ _ Hrun).
Qed.

Lemma alone_finalize owner w m :
  alone -> held owner m (outbox (w_db w)) ->
  exists now at_ n, finalize_message m owner e w =
    (Ok tt, {| w_db := with_outbox (<[om_id m := om_set_success now at_ m]> (outbox (w_db w))) (w_db w); w_tick := n;
               w_trace := MessageFinalized (om_id m) (om_type m) :: w_trace w |}).
Proof.
  intros Hal [Hok Hm Hown]. pose proof (al_clock Hal) as Hclk.
  set (w2 := {| w_db := w_db w; w_tick := S (w_tick w); w_trace := w_trace w |}).
  destruct (alone_update (om_id m) owner (fun now => om_set_success now
    (clock e (w_tick w))) w2 m) as (now & n & Hrun); try done.
  { intros now Hn. by eapply success_row. }
  exists now, (clock e (w_tick w)), n. unfold finalize_message.
  rewrite (run_bind e get_now _ w _ w2 eq_refl).
  by rewrite (run_bind e _ _ w2 _ _ Hrun).
Qed.

Lemma alone_schedule owner error w m :
  alone -> held owner m (outbox (w_db w)) ->
  (forall n, exists d us, delay_seconds (rl_retry_policy cfg) (om_attempts m + 1)
     (random_sample e n) = Ok d /\ timedelta_seconds d = Ok us) ->
  exists now at_ n ev, schedule_message cfg m owner error e w =
    (Ok tt, {| w_db := with_outbox (<[om_id m := om_set_retry now at_ (class_name error) m]> (outbox (w_db w))) (w_db w);
               w_tick := n; w_trace := ev :: w_trace w |}).
Proof.
  intros Hal [Hok Hm Hown] Hdelay. pose proof (al_clock Hal) as Hclk.
  destruct (Hdelay (w_tick w)) as (d & us & Hd & Hus).
  set (w1 := {| w_db := w_db w; w_tick := S (w_tick w); w_trace := w_trace w |}).
  set (w2 := {| w_db := w_db w; w_tick := S (S (w_tick w)); w_trace := w_trace w |}).
  set (at_ := dt_add (clock e (S (w_tick w))) us).
  destruct (alone_update (om_id m) owner (fun now => om_set_retry now at_ (class_name error))
    w2 m) as (now & n & Hrun); try done.
  { intros now Hn. by eapply (retry_row now owner at_); [|apply Hclk|]. }
  exists now, at_, n. eexists. unfold schedule_message.
  rewrite (run_bind e get_jitter _ w _ w1 eq_refl).
  rewrite (run_bind e _ _ _ _ _ (run_lift e _ _ w1 Hd)).
  rewrite (run_bind e get_now _ w1 _ w2 eq_refl).
  rewrite (run_bind e _ _ _ _ _ (run_lift e _ _ w2 Hus)).
  by rewrite (run_bind e _ _ w2 _ _ Hrun).
Qed.

(** What publishing a claimed message does, when the relay runs alone and
    still owns the claim: the broker is called exactly once; an acknowledgement
    makes the message SUCCESS; a permanent failure quarantines it with the
    failure's class; any other failure quarantines it as exhausted on the last
    attempt the policy allows and otherwise reschedules it after the policy's
    delay; in every case the attempt is counted, the claim released, and no other
    message changes. *)
Theorem publish_claimed_decision owner w m :
  alone -> held owner m (outbox (w_db w)) ->
  (forall x, publish_answer (w_tick w) m = Err x -> is_exception x = true) ->
  (forall n, exists d us, delay_seconds (rl_retry_policy cfg) (om_attempts m + 1)
     (random_sample e n) = Ok d /\ timedelta_seconds d = Ok us) ->
  let answer := publish_answer (w_tick w) m in
  let '(r, w') := publish_claimed cfg m owner e w in
  r = Ok tt /\
  (exists ev, w_trace w' = ev :: Published m answer :: w_trace w) /\
  exists now at_, w_db w' = with_outbox (<[om_id m :=
    match answer with
    | Ok _ => om_set_success now at_ m
    | Err x =>
        if isinstance x PermanentPublishError then om_set_quarantined now at_ (class_name x) m
        else if max_attempts (rl_retry_policy cfg) <=? om_attempts m + 1
        then om_set_quarantined now at_ "RetryExhaustedError" m
        else om_set_retry now at_ (class_name x) m
    end]> (outbox (w_db w))) (w_db w).
Proof.
  intros Hal Hheld Hex Hdelay answer. unfold publish_claimed.
  set (w1 := {| w_db := w_db w; w_tick := S (w_tick w);
                w_trace := Published m answer :: w_trace w |}).
  assert (Hsend : attempt (send m) e w = (Ok answer, w1)) by done.
  rewrite (run_bind e _ _ w _ _ Hsend).
  assert (Hh1 : held owner m (outbox (w_db w1))) by exact Hheld.
  destruct answer as [[]|x] eqn:Ea.
  - destruct (alone_finalize owner w1 m Hal Hh1) as (now & at_ & n & ->). cbn. eauto 10.
  - unfold publish_failed. destruct (isinstance x PermanentPublishError).
    { destruct (alone_quarantine owner (class_name x) w1 m Hal Hh1) as (now & at_ & n & ->).
      cbn. eauto 10. }
    rewrite (Hex x Ea). destruct (_ <=? _).
    + destruct (alone_quarantine owner (class_name RetryExhaustedError) w1 m Hal Hh1)
        as (now & at_ & n & ->). cbn. eauto 10.
    + destruct (alone_schedule owner x w1 m Hal Hh1 Hdelay) as (now & at_ & n & ev & ->).
      cbn. eauto 10.
Qed.
End decisions.

(** The loop survives failures: a run of the relay ends only because it was
    stopped, because the fuel given to the model ran out, because the polling
    interval was refused, or with an exception that is not an [Exception] (a
    cancellation), raised outside the message streams: no failure of the broker,
    the database or a handler stops it. *)
Theorem relay_loop_survives `{FloatPow} `{BrokerPublisher} cfg e fuel poll n w x w' :
  run cfg fuel poll n e w = (Err x, w') ->
  (fle poll f0 = true /\ x = EValueError) \/ is_exception x = false.
Proof.
  unfold run. unfold mbind, M_bind, lift. destruct (fle poll f0); cbn [raise_if].
  { intros [= <- _]. by left. }
  intros Hr. right. revert w Hr. induction fuel as [|fuel IH]; intros w; [done|].
  cbn [run_loop]. unfold stop_is_set, tick, attempt. unfold mbind, M_bind.
  destruct (rl_stopped cfg _); [done|].
  destruct (run_once cfg n e _) as [[k|y] w2]; [apply IH|].
  destruct (is_exception y) eqn:Ey; [apply IH|]. by intros [= <- _].
Qed.

(** ** Instances *)

Definition demo_relay_config : relay_config :=
  {| rl_claim_lease_seconds := of_Z 30; rl_retry_policy := default_policy;
     rl_stopped n := Nat.leb 60 n |}.

Definition ack_all : BrokerPublisher := fun _ _ => Ok tt.
Definition fail_all : BrokerPublisher := fun _ _ => Err (EOutbox TransientPublishError).

#[local] Existing Instance demo_pow.

Definition demo_relay_world : world database relay_event :=
  {| w_db := with_outbox demo_outbox empty_db; w_tick := 40; w_trace := [] |}.

Lemma quiet_relay_env : relay_env (fun _ => False) (quiet_env database).
Proof. split; [auto..|by split]. Qed.

Lemma relay_at_least_once_witness :
  let w' := (@run _ ack_all demo_relay_config 3 f1 10 (quiet_env _) demo_relay_world).2 in
  delivered 1 (outbox (w_db w')) /\
  (delivered 1 (outbox (w_db demo_relay_world)) \/ False \/ acknowledged 1 (w_trace w')).
Proof.
  intros w'.
  assert (Hd : delivered 1 (outbox (w_db w')))
    by (eexists; split; vm_compute; reflexivity).
  split; [exact Hd|].
  pose proof (@relay_at_least_once _ ack_all demo_relay_config (fun _ => False)
    (quiet_env _) 3 f1 10 demo_relay_world quiet_relay_env demo_outbox_ok) as H.
  unfold w' in *. destruct (run _ _ _ _ _ _) as [r w2]. exact (proj2 H 1 Hd).
Defined.

Definition demo_held : OutboxMessage :=
  om_set_claim (utc 60) 77 (utc 90) (demo_message 7 1 10).

Definition demo_held_world : world database relay_event :=
  {| w_db := with_outbox {[ 1 := demo_held ]} empty_db; w_tick := 0; w_trace := [] |}.

Lemma demo_held_ok : held 77 demo_held (outbox (w_db demo_held_world)).
Proof.
  split; [split| |]; try done.
  - intros i m. cbn. intros [<- <-]%lookup_singleton_Some. done.
  - intros i m. cbn. intros [<- <-]%lookup_singleton_Some. split; vm_compute; reflexivity.
Qed.

Lemma publish_claimed_decision_witness :
  let '(r, w') := @publish_claimed _ fail_all demo_relay_config demo_held 77 (quiet_env _)
                    demo_held_world in
  r = Ok tt /\ exists now at_, outbox (w_db w') =
    <[1 := om_set_retry now at_ "TransientPublishError" demo_held]> {[ 1 := demo_held ]}.
Proof.
  pose proof (@publish_claimed_decision _ fail_all demo_relay_config (quiet_env _) 77
    demo_held_world demo_held ltac:(split; done) demo_held_ok
    ltac:(intros x [= <-]; vm_compute; reflexivity)
    ltac:(intros n; exists f1, 1000000; split; vm_compute; reflexivity)) as H.
  revert H. destruct (publish_claimed _ _ _ _ _) as [r w'].
  intros (Hr & _ & now & at_ & Hdb). split; [exact Hr|]. exists now, at_. rewrite Hdb. reflexivity.
Defined.

Lemma relay_loop_survives_witness :
  (@run _ ack_all demo_relay_config 3 f0 10 (quiet_env _) demo_relay_world).1 = Err EValueError
  /\ ((fle f0 f0 = true /\ EValueError = EValueError) \/ is_exception EValueError = false).
Proof.
  split; [reflexivity|].
  apply (@relay_loop_survives _ ack_all demo_relay_config (quiet_env _) 3 f0 10
    demo_relay_world EValueError demo_relay_world). reflexivity.
Defined.
