(* ===== verification/Kafka.v ===== *)
(** * The Kafka publisher

    [infrastructure/messaging/kafka_publisher.py]: the adapter behind the relay's
    [BrokerPublisher].  The broker client (FastStream) is a parameter. *)

From S2P Require Import Prelude Exceptions Retry Text Json Sql Outbox Effects Database Relay.

(** What the broker client is handed. *)
Record kafka_record := {
  kr_topic : string;
  kr_key : bytes;
  kr_headers : list (string * string);
  kr_message : json
}.

(** What it raises: its own errors, of which some are also a [ValueError] (its
    [SetupError] is), and any exception of the runtime. *)
Inductive broker_error : Set :=
| FastStreamException (value_error : bool)
| BrokerRaised (error : exn).

Class KafkaBroker := broker_publish : nat -> kafka_record -> result broker_error unit.

(** The record of a message: the text of a key is ASCII or Latin-1 here, and [encode]
    does not fail on it. *)
Definition record_of (message : OutboxMessage) : kafka_record :=
  {| kr_topic := om_topic message;
     kr_key := utf8 (om_key message);
     kr_headers := [("event_id", uuid_str (om_id message)); ("event_type", om_type message)]%string;
     kr_message := om_payload message |}.

Definition is_timeout (error : broker_error) : bool :=
  match error with BrokerRaised e => isinstance e TimeoutError | _ => false end.

Definition is_connection_error (error : broker_error) : bool :=
  match error with BrokerRaised e => isinstance e ConnectionError | _ => false end.

Definition is_value_error (error : broker_error) : bool :=
  match error with
  | FastStreamException value_error => value_error
  | BrokerRaised e => isinstance e EValueError
  end.

Definition is_faststream (error : broker_error) : bool :=
  match error with FastStreamException _ => true | _ => false end.

Definition is_broker_exception (error : broker_error) : bool :=
  match error with FastStreamException _ => true | BrokerRaised e => is_exception e end.

(** The [except] clauses of [publish], in their order; what is not an [Exception]
    passes through. *)
Definition publish_error (error : broker_error) : exn :=
  if is_timeout error then TransientPublishError
  else if is_connection_error error then TransientPublishError
  else if is_value_error error then PermanentPublishError
  else if is_faststream error then TransientPublishError
  else if is_broker_exception error then TransientPublishError
  else match error with BrokerRaised e => e | FastStreamException _ => EException end.

(** [FastStreamKafkaPublisher.publish] *)
#[global] Instance kafka_publisher `{KafkaBroker} : BrokerPublisher := fun n message =>
  match broker_publish n (record_of message) with
  | Ok _ => Ok tt
  | Err error => Err (publish_error error)
  end.

(** ** Correctness *)

(** The relay sees two classes of failure and the cancellation, nothing else. *)
Lemma publish_error_classes error :
  publish_error error =
    if is_broker_exception error
    then if is_value_error error then PermanentPublishError : exn else TransientPublishError
    else match error with BrokerRaised e => e | FastStreamException _ => EException end.
Proof.
  destruct error as [[|]|e]; [done|done|]. unfold publish_error, is_value_error, is_timeout,
    is_connection_error, is_broker_exception, is_faststream.
  destruct e as [| | | | | | | |[]| |[]|[]|[]|[]|[]|[]| | | | |]; reflexivity.
Qed.

(** A record says everything the relay's consumers rely on: the partition key is the
    message's key, so messages of one topic and key share a partition and keep
    their order, and the headers name the event. *)
Lemma record_faithful m m' :
  0 <= om_id m < 2 ^ 128 -> 0 <= om_id m' < 2 ^ 128 ->
  record_of m = record_of m' ->
  om_id m = om_id m' /\ om_key m = om_key m' /\ om_topic m = om_topic m' /\
  om_type m = om_type m' /\ om_payload m = om_payload m'.
Proof.
  intros Hr Hr' E.
  pose proof (f_equal kr_topic E) as Ht. pose proof (utf8_inj _ _ (f_equal kr_key E)) as Hk.
  pose proof (f_equal (fun r => (kr_headers r).*2) E) as Hh. cbn -[uuid_str] in Hh.
  pose proof (f_equal kr_message E) as Hp.
  assert (Hi : uuid_str (om_id m) = uuid_str (om_id m')) by congruence.
  split; [by apply uuid_str_inj|]. split; [done|]. split; [done|]. split; [congruence|done].
Qed.


(** ** An instance: a broker that refuses the value of every second call *)

Definition demo_broker : KafkaBroker := fun n _ =>
  if Nat.even n then Err (FastStreamException true) else Err (BrokerRaised TimeoutError).

#[local] Existing Instance demo_pow.

