(* ===== verification/CircuitBreaker.v ===== *)
(** * The circuit breaker

    [infrastructure/resilience/circuit_breaker.py].  Between admission and the
    handling of its outcome a call holds no lock, so any number of calls are in
    flight: a step admits or rejects a call, or handles the outcome of one in
    flight.  [time.monotonic()] is a float; the identity of [object()] is a
    number drawn from a counter. *)

From S2P Require Import Prelude Retry.
From Stdlib Require Import SpecFloat.

Inductive CircuitState : Set := CLOSED | OPEN | HALF_OPEN.

#[global] Instance CircuitState_eq_dec : EqDecision CircuitState.
Proof. solve_decision. Defined.

Record breaker_config := { cb_fail_max : Z; cb_recovery_timeout : float }.

Record breaker := {
  cb_state : CircuitState;
  cb_failure_count : Z;
  cb_opened_at : option float;
  cb_probe_in_progress : bool;
  cb_probe_token : option nat;
  cb_generation : Z;
  (** the identity the next [object()] gets *)
  cb_next_token : nat
}.

(** [CircuitBreaker.__init__]: [None] when an argument is refused. *)
Definition breaker_init (cfg : breaker_config) : option breaker :=
  if cb_fail_max cfg <=? 0 then None
  else if fle (cb_recovery_timeout cfg) f0 then None
  else Some {| cb_state := CLOSED; cb_failure_count := 0; cb_opened_at := None;
               cb_probe_in_progress := false; cb_probe_token := None;
               cb_generation := 0; cb_next_token := 0 |}.

Definition fsub (x y : float) : float := SFsub prec emax x y.

(** [now - opened_at >= recovery_timeout] *)
Definition cooled (cfg : breaker_config) (opened_at now : float) : bool :=
  fle (cb_recovery_timeout cfg) (fsub now opened_at).

(** [_check_state] *)
Definition check_state (cfg : breaker_config) (now : float) (b : breaker) : breaker :=
  match cb_state b, cb_opened_at b with
  | OPEN, Some opened_at =>
      if cooled cfg opened_at now
      then {| cb_state := HALF_OPEN; cb_failure_count := cb_failure_count b;
              cb_opened_at := cb_opened_at b;
              cb_probe_in_progress := cb_probe_in_progress b;
              cb_probe_token := cb_probe_token b; cb_generation := cb_generation b;
              cb_next_token := cb_next_token b |}
      else b
  | _, _ => b
  end.

(** [_trip] *)
Definition trip (now : float) (b : breaker) : breaker :=
  {| cb_state := OPEN; cb_failure_count := cb_failure_count b; cb_opened_at := Some now;
     cb_probe_in_progress := false; cb_probe_token := None;
     cb_generation := cb_generation b + 1; cb_next_token := cb_next_token b |}.

(** What an admitted call remembers. *)
Record ticket := { tk_generation : Z; tk_probe : option nat }.

Definition is_current_probe (b : breaker) (t : ticket) : bool :=
  is_some (tk_probe t) && bool_decide (cb_state b = HALF_OPEN)
  && bool_decide (cb_probe_token b = tk_probe t).

Definition is_current_closed_call (b : breaker) (t : ticket) : bool :=
  is_none (tk_probe t) && bool_decide (cb_state b = CLOSED)
  && (cb_generation b =? tk_generation t).

Definition with_failures (n : Z) (b : breaker) : breaker :=
  {| cb_state := cb_state b; cb_failure_count := n; cb_opened_at := cb_opened_at b;
     cb_probe_in_progress := cb_probe_in_progress b; cb_probe_token := cb_probe_token b;
     cb_generation := cb_generation b; cb_next_token := cb_next_token b |}.

(** [_handle_success] *)
Definition handle_success (t : ticket) (b : breaker) : breaker :=
  if is_current_probe b t then
    {| cb_state := CLOSED; cb_failure_count := 0; cb_opened_at := None;
       cb_probe_in_progress := false; cb_probe_token := None;
       cb_generation := cb_generation b + 1; cb_next_token := cb_next_token b |}
  else if is_current_closed_call b t then with_failures 0 b
  else b.

(** [_handle_failure] *)
Definition handle_failure (cfg : breaker_config) (now : float) (t : ticket) (b : breaker) :
    breaker :=
  if negb (is_current_probe b t) && negb (is_current_closed_call b t) then b else
  let b' := with_failures (cb_failure_count b + 1) b in
  if is_current_closed_call b t then
    if cb_fail_max cfg <=? cb_failure_count b' then trip now b' else b'
  else trip now b'.

(** [_release_probe] *)
Definition release_probe (t : ticket) (b : breaker) : breaker :=
  if is_current_probe b t then
    {| cb_state := cb_state b; cb_failure_count := cb_failure_count b;
       cb_opened_at := cb_opened_at b; cb_probe_in_progress := false;
       cb_probe_token := None; cb_generation := cb_generation b;
       cb_next_token := cb_next_token b |}
  else b.

(** The first critical section of [call]: the ticket of an admitted call, or
    [None] for [CircuitBreakerError]. *)
Definition admit_call (cfg : breaker_config) (now : float) (b : breaker) :
    option ticket * breaker :=
  let b := check_state cfg now b in
  match cb_state b with
  | OPEN => (None, b)
  | HALF_OPEN =>
      if cb_probe_in_progress b then (None, b) else
      let token := cb_next_token b in
      (Some {| tk_generation := cb_generation b; tk_probe := Some token |},
       {| cb_state := cb_state b; cb_failure_count := cb_failure_count b;
          cb_opened_at := cb_opened_at b; cb_probe_in_progress := true;
          cb_probe_token := Some token; cb_generation := cb_generation b;
          cb_next_token := S token |})
  | CLOSED => (Some {| tk_generation := cb_generation b; tk_probe := None |}, b)
  end.

(** How the protected function ended: a value; an exception the classifier
    counts as a failure, or does not, or on which it raises itself; or a
    cancellation or another [BaseException]. *)
Inductive outcome : Set :=
| Succeeded | Failed | Classified | ClassifierRaised | Interrupted.

(** The second critical section of [call]. *)
Definition settle (cfg : breaker_config) (now : float) (t : ticket) (o : outcome)
    (b : breaker) : breaker :=
  match o with
  | Succeeded | Classified => handle_success t b
  | Failed => handle_failure cfg now t b
  | ClassifierRaised | Interrupted => release_probe t b
  end.

(** [call] of a function that ends with [o] while nobody else calls: whether it
    was called, and the breaker afterwards. *)
Definition call_alone (cfg : breaker_config) (now later : float) (o : outcome)
    (b : breaker) : bool * breaker :=
  match admit_call cfg now b with
  | (None, b') => (false, b')
  | (Some t, b') => (true, settle cfg later t o b')
  end.

(** ** Many calls *)

Record shared := { sh_breaker : breaker; sh_in_flight : list ticket }.

Inductive breaker_step (cfg : breaker_config) : shared -> shared -> Prop :=
| cs_admit now b b' t l :
    admit_call cfg now b = (Some t, b') ->
    breaker_step cfg {| sh_breaker := b; sh_in_flight := l |}
                     {| sh_breaker := b'; sh_in_flight := t :: l |}
| cs_reject now b b' l :
    admit_call cfg now b = (None, b') ->
    breaker_step cfg {| sh_breaker := b; sh_in_flight := l |}
                     {| sh_breaker := b'; sh_in_flight := l |}
| cs_settle now o t b l1 l2 :
    breaker_step cfg {| sh_breaker := b; sh_in_flight := l1 ++ t :: l2 |}
                     {| sh_breaker := settle cfg now t o b; sh_in_flight := l1 ++ l2 |}.

(** ** The invariant *)

Record breaker_inv (cfg : breaker_config) (s : shared) : Prop := {
  bi_count : 0 <= cb_failure_count (sh_breaker s);
  bi_closed : cb_state (sh_breaker s) = CLOSED ->
    cb_failure_count (sh_breaker s) < cb_fail_max cfg;
  bi_opened : cb_state (sh_breaker s) <> CLOSED -> is_Some (cb_opened_at (sh_breaker s));
  bi_flag : cb_probe_in_progress (sh_breaker s) = is_some (cb_probe_token (sh_breaker s));
  bi_half : is_Some (cb_probe_token (sh_breaker s)) -> cb_state (sh_breaker s) = HALF_OPEN;
  (** the probes in flight: the current one and no other *)
  bi_probe : omap tk_probe (sh_in_flight s) =
    match cb_probe_token (sh_breaker s) with Some p => [p] | None => [] end;
  bi_generation : forall t, t ∈ sh_in_flight s ->
    tk_generation t <= cb_generation (sh_breaker s)
}.

(** The current probe is the only probe, whoever asks. *)
Lemma inv_current_probe cfg b l1 t l2 :
  breaker_inv cfg {| sh_breaker := b; sh_in_flight := l1 ++ t :: l2 |} ->
  is_current_probe b t = is_some (tk_probe t) /\
  (is_Some (tk_probe t) -> cb_probe_token b = tk_probe t /\ cb_state b = HALF_OPEN /\
     omap tk_probe (l1 ++ l2) = []) /\
  (tk_probe t = None -> omap tk_probe (l1 ++ l2) =
     match cb_probe_token b with Some p => [p] | None => [] end).
Proof.
  intros [_ _ _ _ Hh Hp _]. cbn [sh_breaker sh_in_flight] in *.
  rewrite omap_app in Hp. rewrite omap_app. cbn in Hp. unfold is_current_probe.
  destruct (tk_probe t) as [p|]; cbn in *.
  - destruct (cb_probe_token b) as [q|].
    + assert (omap tk_probe l1 = [] /\ p = q /\ omap tk_probe l2 = []) as (-> & -> & ->).
      { destruct (omap tk_probe l1) as [|x [|y m]]; cbn in Hp; by simplify_eq. }
      rewrite (Hh ltac:(by eexists)), !bool_decide_true by done. naive_solver.
    + by destruct (omap tk_probe l1).
  - split; [done|]. split; [by intros [? [=]]|done].
Qed.

Lemma settle_inv cfg now o t b l1 l2 :
  0 < cb_fail_max cfg ->
  breaker_inv cfg {| sh_breaker := b; sh_in_flight := l1 ++ t :: l2 |} ->
  breaker_inv cfg {| sh_breaker := settle cfg now t o b; sh_in_flight := l1 ++ l2 |}.
Proof.
  intros Hpos Hi. pose proof (inv_current_probe _ _ _ _ _ Hi) as (Hcur & Hsome & Hnone).
  destruct Hi as [Hc Hcl Ho Hf Hh Hp Hg]. cbn [sh_breaker sh_in_flight] in *.
  assert (Hg' : forall x, x ∈ l1 ++ l2 -> tk_generation x <= cb_generation b).
  { intros x Hx. apply Hg. set_solver. }
  assert (Hg1 : forall x, x ∈ l1 ++ l2 -> tk_generation x <= cb_generation b + 1).
  { intros x Hx. specialize (Hg' x Hx). lia. }
  assert (Hsame : is_current_probe b t = false ->
    breaker_inv cfg {| sh_breaker := b; sh_in_flight := l1 ++ l2 |}).
  { rewrite Hcur. intros Hn. split; cbn; try done. apply Hnone. by destruct (tk_probe t). }
  unfold settle, handle_success, handle_failure, release_probe, is_current_closed_call.
  destruct (is_current_probe b t); symmetry in Hcur; rename Hcur into Ec.
  - apply is_some_true in Ec as Hex. destruct (Hsome Hex) as (Htok & Hst & Hl).
    assert (is_none (tk_probe t) = false) as Hnn by (unfold is_none; by rewrite Ec).
    rewrite Hnn. cbn [negb andb]. destruct o; (split; cbn; try done; try lia; eauto).
    all: try (intros ?; congruence). all: try (by rewrite Hst in * ).
    all: by intros [? [=]].
  - specialize (Hsame eq_refl). destruct Hsame as [Sc Scl So Sf Sh Sp Sg].
    cbn [sh_breaker sh_in_flight] in *.
    destruct (is_none (tk_probe t)) eqn:En; cbn [negb andb].
    2: { by destruct o. }
    destruct (bool_decide_reflect (cb_state b = CLOSED)) as [Es|Es]; cbn [negb andb].
    2: { by destruct o. }
    destruct (cb_generation b =? tk_generation t); cbn [negb andb].
    2: { by destruct o. }
    assert (Hnotok : cb_probe_token b = None).
    { destruct (cb_probe_token b); [|done]. rewrite Sh in Es by by eexists. done. }
    destruct o; try done; try (by split).
    + cbn [cb_failure_count with_failures]. destruct (_ <=? _) eqn:El.
      * rewrite Hnotok in Sp. split; cbn; try done; try lia; eauto.
      * apply Z.leb_gt in El. cbn in El. split; cbn; try done; lia.
Qed.

Lemma admit_inv cfg now b o b' l :
  breaker_inv cfg {| sh_breaker := b; sh_in_flight := l |} ->
  admit_call cfg now b = (o, b') ->
  breaker_inv cfg {| sh_breaker := b';
                     sh_in_flight := match o with Some t => t :: l | None => l end |}.
Proof.
  intros Hi Ha. set (c := check_state cfg now b).
  assert (Hc : breaker_inv cfg {| sh_breaker := c; sh_in_flight := l |}).
  { unfold c, check_state. destruct Hi as [Hc Hcl Ho Hf Hh Hp Hg].
    destruct (cb_state b) eqn:Es, (cb_opened_at b) as [opened|] eqn:Eo; try by split.
    destruct (cooled cfg opened now); [|by split]. split; cbn in *; done. }
  unfold admit_call in Ha. fold c in Ha. clearbody c.
  destruct (cb_state c) eqn:Es in Ha.
  - injection Ha as <- <-. destruct Hc as [Hc Hcl Ho Hf Hh Hp Hg].
    split; cbn [sh_breaker sh_in_flight] in *; try done.
    intros t [->|Ht]%elem_of_cons; [cbn; lia|by apply Hg].
  - by injection Ha as <- <-.
  - destruct (cb_probe_in_progress c) eqn:Ep; injection Ha as <- <-; [done|].
    destruct Hc as [Hc Hcl Ho Hf Hh Hp Hg]. cbn [sh_breaker sh_in_flight] in *.
    assert (cb_probe_token c = None) as Hn.
    { rewrite Ep in Hf. by destruct (cb_probe_token c). }
    rewrite Hn in Hp. split; cbn; try done.
    + intros _. apply Ho. by rewrite Es.
    + by rewrite Hp.
    + intros t [->|Ht]%elem_of_cons; [cbn; lia|by apply Hg].
Qed.

Lemma breaker_step_inv cfg s s' :
  0 < cb_fail_max cfg -> breaker_inv cfg s -> breaker_step cfg s s' -> breaker_inv cfg s'.
Proof.
  intros Hpos Hi Hs. destruct Hs as [now b b' t l Ha|now b b' l Ha|now o t b l1 l2].
  - exact (admit_inv cfg now b (Some t) b' l Hi Ha).
  - exact (admit_inv cfg now b None b' l Hi Ha).
  - by apply settle_inv.
Qed.

Lemma init_inv cfg b :
  breaker_init cfg = Some b ->
  0 < cb_fail_max cfg /\ breaker_inv cfg {| sh_breaker := b; sh_in_flight := [] |}.
Proof.
  unfold breaker_init. destruct (_ <=? _) eqn:E; [done|]. apply Z.leb_gt in E.
  destruct (fle _ _); [done|]. intros [= <-]. split; [done|].
  split; cbn; try done; try lia; try by intros [? [=]]. set_solver.
Qed.

Lemma reachable_inv cfg b s :
  breaker_init cfg = Some b ->
  rtc (breaker_step cfg) {| sh_breaker := b; sh_in_flight := [] |} s -> breaker_inv cfg s.
Proof.
  intros [Hpos Hi]%init_inv Hs. induction Hs as [s|s1 s2 s3 H12 _ IH]; [done|].
  apply IH. by eapply breaker_step_inv.
Qed.

(** C24. One probe at a time: however many calls are admitted, rejected and
    settled, in whatever order, at whatever readings of the clock, at most one
    call admitted as a probe is in flight; while one is, the breaker is
    HALF-OPEN and every other call is rejected without being made; a CLOSED
    breaker has counted fewer than [fail_max] consecutive failures, and a
    breaker that is not CLOSED knows when it was opened. *)
Theorem breaker_single_probe cfg b s :
  breaker_init cfg = Some b ->
  rtc (breaker_step cfg) {| sh_breaker := b; sh_in_flight := [] |} s ->
  let br := sh_breaker s in
  (length (omap tk_probe (sh_in_flight s)) <= 1)%nat /\
  (forall t, t ∈ sh_in_flight s -> is_Some (tk_probe t) ->
     cb_state br = HALF_OPEN /\ forall now, (admit_call cfg now br).1 = None) /\
  (cb_state br = CLOSED -> 0 <= cb_failure_count br < cb_fail_max cfg) /\
  (cb_state br <> CLOSED -> is_Some (cb_opened_at br)).
Proof.
  intros Hb Hs. pose proof (reachable_inv _ _ _ Hb Hs) as [Hc Hcl Ho Hf Hh Hp Hg].
  cbv zeta. split; [rewrite Hp; by destruct (cb_probe_token _); cbn; lia|].
  split; [|split; [by auto|done]]. intros t Ht Hprobe.
  apply list_elem_of_split in Ht as (l1 & l2 & E). destruct s as [br l]. cbn in *. subst l.
  destruct (inv_current_probe cfg br l1 t l2 ltac:(by split)) as (_ & Hcur & _).
  destruct (Hcur Hprobe) as (Htok & Hst & _). split; [done|]. intros now.
  unfold admit_call, check_state. rewrite Hst. rewrite Hst, Hf, Htok.
  by rewrite (proj2 (is_some_true _) Hprobe).
Qed.

(** Stale outcomes change nothing: settling a call whose ticket is neither
    the current probe nor a call of the current CLOSED generation leaves the
    breaker as it is, whatever the outcome; and every outcome that trips or
    closes the breaker starts a new generation, so calls admitted before it are
    stale from then on. *)
Theorem stale_outcome_ignored cfg now t o b :
  let b' := settle cfg now t o b in
  (is_current_probe b t = false -> is_current_closed_call b t = false -> b' = b) /\
  (cb_state b' <> cb_state b -> cb_generation b' = cb_generation b + 1 /\
     forall x, tk_generation x <= cb_generation b -> tk_probe x = None ->
       is_current_closed_call b' x = false).
Proof.
  cbv zeta.
  assert (Hgen : cb_state (settle cfg now t o b) <> cb_state b ->
    cb_generation (settle cfg now t o b) = cb_generation b + 1).
  { unfold settle, handle_success, handle_failure, release_probe.
    destruct o, (is_current_probe b t), (is_current_closed_call b t); cbn; try done;
      destruct (_ <=? _); done. }
  split.
  - intros Hp Hc. unfold settle, handle_success, handle_failure, release_probe.
    rewrite Hp, Hc. by destruct o.
  - intros Hs. split; [by apply Hgen|]. intros x Hx _. unfold is_current_closed_call.
    rewrite (Hgen Hs). apply andb_false_intro2, Z.eqb_neq. lia.
Qed.

(** [n] calls in a row, all failing. *)
Fixpoint fail_calls (cfg : breaker_config) (now : float) (n : nat) (b : breaker) : breaker :=
  match n with
  | O => b
  | S n => fail_calls cfg now n (call_alone cfg now now Failed b).2
  end.

Lemma fail_call_closed cfg now b :
  cb_state b = CLOSED ->
  (call_alone cfg now now Failed b).2 =
    let b' := with_failures (cb_failure_count b + 1) b in
    if cb_fail_max cfg <=? cb_failure_count b + 1 then trip now b' else b'.
Proof.
  intros Hs. unfold call_alone, admit_call, check_state. rewrite !Hs.
  unfold settle, handle_failure, is_current_probe, is_current_closed_call.
  cbn [snd tk_generation tk_probe cb_state cb_generation is_some is_none negb andb].
  by rewrite Z.eqb_refl, bool_decide_true.
Qed.

Lemma fail_calls_closed cfg now n b :
  cb_state b = CLOSED -> cb_failure_count b + Z.of_nat n < cb_fail_max cfg ->
  fail_calls cfg now n b = with_failures (cb_failure_count b + Z.of_nat n) b.
Proof.
  revert b. induction n as [|n IH]; intros b Hs Hn.
  { rewrite Z.add_0_r. by destruct b. }
  cbn [fail_calls]. rewrite (fail_call_closed _ _ _ Hs). cbv zeta.
  rewrite (proj2 (Z.leb_gt _ _)) by lia. rewrite IH by (cbn; try done; lia).
  unfold with_failures. cbn. f_equal. lia.
Qed.

(** The cycle of the breaker, for calls made one after the other: from
    CLOSED without failures, fewer than [fail_max] failures leave it CLOSED and
    exactly [fail_max] open it; while it is open and the recovery time has not
    passed, calls are rejected without being made and nothing changes; once it
    has passed the next call is made as a probe: a success (or an error that is
    not the dependency's fault) closes the breaker and forgets the failures, a
    failure opens it again from the later instant, and a cancelled probe leaves it
    HALF-OPEN, free to probe again. *)
Theorem breaker_cycle cfg b now n :
  breaker_init cfg = Some b ->
  (0 <= n < cb_fail_max cfg ->
     fail_calls cfg now (Z.to_nat n) b = with_failures n b) /\
  let tripped := fail_calls cfg now (Z.to_nat (cb_fail_max cfg)) b in
  cb_state tripped = OPEN /\ cb_opened_at tripped = Some now /\
  forall at_ later o,
    (cooled cfg now at_ = false -> call_alone cfg at_ later o tripped = (false, tripped)) /\
    (cooled cfg now at_ = true ->
       let '(made, b') := call_alone cfg at_ later o tripped in
       made = true /\
       match o with
       | Succeeded | Classified =>
           cb_state b' = CLOSED /\ cb_failure_count b' = 0 /\ cb_opened_at b' = None
       | Failed => cb_state b' = OPEN /\ cb_opened_at b' = Some later
       | ClassifierRaised | Interrupted =>
           cb_state b' = HALF_OPEN /\ cb_probe_in_progress b' = false
       end).
Proof.
  intros Hb. pose proof Hb as [Hpos _]%init_inv.
  assert (Hs : cb_state b = CLOSED /\ cb_failure_count b = 0).
  { unfold breaker_init in Hb. destruct (_ <=? _); [done|]. destruct (fle _ _); [done|].
    by injection Hb as <-. }
  destruct Hs as [Hs Hz]. split.
  { intros Hn. rewrite fail_calls_closed by (try done; lia). f_equal. lia. }
  assert (Htrip : fail_calls cfg now (Z.to_nat (cb_fail_max cfg)) b =
    trip now (with_failures (cb_fail_max cfg) b)).
  { replace (Z.to_nat (cb_fail_max cfg)) with (Z.to_nat (cb_fail_max cfg - 1) + 1)%nat by lia.
    assert (Happ : forall k m x, fail_calls cfg now (k + m) x =
      fail_calls cfg now m (fail_calls cfg now k x)) by (induction k; cbn; auto).
    rewrite Happ, (fail_calls_closed cfg now _ b) by (try done; lia). cbn [fail_calls].
    rewrite fail_call_closed by done. cbn. rewrite (proj2 (Z.leb_le _ _)) by lia.
    unfold trip, with_failures. cbn. f_equal. lia. }
  cbv zeta. rewrite Htrip. split; [done|]. split; [done|]. intros at_ later o.
  unfold call_alone, admit_call, check_state. cbn. split; intros ->; cbn; [done|].
  split; [done|].
  destruct o; cbn; unfold handle_success, handle_failure, release_probe, is_current_probe;
    cbn; rewrite !bool_decide_true by done; done.
Qed.

(** ** Instances *)

Definition demo_breaker_config : breaker_config :=
  {| cb_fail_max := 2; cb_recovery_timeout := of_Z 10 |}.

Definition demo_breaker : breaker :=
  {| cb_state := CLOSED; cb_failure_count := 0; cb_opened_at := None;
     cb_probe_in_progress := false; cb_probe_token := None; cb_generation := 0;
     cb_next_token := 0 |}.

(** Opened at 1, probed at 20. *)
Definition demo_opened : breaker := fail_calls demo_breaker_config f1 2 demo_breaker.

Lemma breaker_single_probe_witness :
  exists t s, rtc (breaker_step demo_breaker_config)
      {| sh_breaker := demo_breaker; sh_in_flight := [] |} s /\
    sh_in_flight s = [t] /\ tk_probe t = Some 0%nat /\
    (admit_call demo_breaker_config (of_Z 30) (sh_breaker s)).1 = None.
Proof.
  set (cfg := demo_breaker_config).
  set (t0 := {| tk_generation := 0; tk_probe := None |}).
  set (b1 := settle cfg f1 t0 Failed demo_breaker).
  set (b2 := settle cfg f1 t0 Failed b1).
  set (b3 := (admit_call cfg (of_Z 20) b2).2).
  set (t := {| tk_generation := 1; tk_probe := Some 0%nat |}).
  set (s := {| sh_breaker := b3; sh_in_flight := [t] |}).
  assert (Hs : rtc (breaker_step cfg) {| sh_breaker := demo_breaker; sh_in_flight := [] |} s).
  { eapply rtc_l; [apply (cs_admit cfg f1 demo_breaker demo_breaker t0 []); reflexivity|].
    eapply rtc_l; [apply (cs_settle cfg f1 Failed t0 demo_breaker [] [])|]. fold b1. cbn [app].
    eapply rtc_l; [apply (cs_admit cfg f1 b1 b1 t0 []); reflexivity|].
    eapply rtc_l; [apply (cs_settle cfg f1 Failed t0 b1 [] [])|]. fold b2. cbn [app].
    eapply rtc_l; [|apply rtc_refl].
    apply (cs_admit cfg (of_Z 20) b2 b3 t []). vm_compute. reflexivity. }
  exists t, s. split; [exact Hs|]. split; [reflexivity|]. split; [reflexivity|].
  destruct (breaker_single_probe cfg demo_breaker s ltac:(vm_compute; reflexivity) Hs)
    as (_ & H & _).
  exact (proj2 (H t ltac:(left) ltac:(eexists; reflexivity)) (of_Z 30)).
Defined.

Lemma breaker_cycle_witness :
  cb_state demo_opened = OPEN /\
  call_alone demo_breaker_config (of_Z 5) (of_Z 6) Succeeded demo_opened = (false, demo_opened).
Proof.
  destruct (breaker_cycle demo_breaker_config demo_breaker f1 1 ltac:(vm_compute; reflexivity))
    as (_ & Hs & _ & H).
  split; [exact Hs|].
  exact (proj1 (H (of_Z 5) (of_Z 6) Succeeded) ltac:(vm_compute; reflexivity)).
Defined.
