(* ===== verification/Coordinator.v ===== *)
(** * The idempotency coordinator

    [application/idempotency/coordinator.py]: an optional lease in a hot store
    around the mandatory durable fence.  The hot store answers as it likes at each
    call.  The heartbeat is a task of its own that renews the lease while the
    durable path runs; it shares nothing with that path but the flag it leaves
    behind, so its renewals are written down after it.  How many renewals were
    begun before the stop is the schedule's choice ([beats]); one that the stop
    cancels answers [CancelledError]. *)

From S2P Require Import Prelude Exceptions Domain Text Sql Effects Idempotency.

(** Calls to [HotIdempotencyStoreProtocol] and [IdempotencyObserverProtocol]. *)
Inductive idem_event :=
| HotBegin (i : IdempotencyIdentity) (h : bytes) (owner : uuid) (lease : Z)
    (answer : res BeginResult)
| HotRenew (i : IdempotencyIdentity) (owner : uuid) (lease : Z) (answer : res bool)
| HotComplete (i : IdempotencyIdentity) (owner : uuid) (c : CompletedIdempotencyResult)
    (answer : res bool)
| HotAbandon (i : IdempotencyIdentity) (owner : uuid) (answer : res bool)
| ObserveOutcome (o : ExecutionOutcome)
| ObserveHotDegraded (stage : string).

(** [HotIdempotencyStoreProtocol]: what a call made at a tick answers. *)
Record HotStore := {
  hs_begin : nat -> IdempotencyIdentity -> bytes -> uuid -> Z -> res BeginResult;
  hs_renew : nat -> IdempotencyIdentity -> uuid -> Z -> res bool;
  hs_complete : nat -> IdempotencyIdentity -> uuid -> CompletedIdempotencyResult -> res bool;
  hs_abandon : nat -> IdempotencyIdentity -> uuid -> res bool
}.

Section coordinator.
Context {DB : Type} `{HasRecords DB}.
Context (retention_seconds : Z) (beats : nat -> nat).

Abbreviation CM := (M DB idem_event).

Definition observe (result : ExecutionResult) : CM ExecutionResult :=
  emit (ObserveOutcome (er_outcome result));;
  mret result.

Definition hot_begin (hs : HotStore) i h owner lease : CM BeginResult :=
  call (fun n => hs_begin hs n i h owner lease) (HotBegin i h owner lease).
Definition hot_renew (hs : HotStore) i owner lease : CM bool :=
  call (fun n => hs_renew hs n i owner lease) (HotRenew i owner lease).
Definition hot_complete (hs : HotStore) i owner c : CM bool :=
  call (fun n => hs_complete hs n i owner c) (HotComplete i owner c).
Definition hot_abandon (hs : HotStore) i owner : CM bool :=
  call (fun n => hs_abandon hs n i owner) (HotAbandon i owner).

(** [_heartbeat] and [_stop_heartbeat]: whether the lease is known to be lost. *)
Fixpoint heartbeat (hs : HotStore) (i : IdempotencyIdentity) (owner : uuid) (lease : Z)
    (n : nat) : CM bool :=
  match n with
  | O => mret false
  | S n =>
      renewed ← attempt (hot_renew hs i owner lease);
      match renewed with
      | Err error => mret (is_exception error)
      | Ok false => mret true
      | Ok true => heartbeat hs i owner lease n
      end
  end.

(** [except IdempotencyStorageUnavailableError: observe_hot_degraded(stage)] *)
Definition degrade (stage : string) (m : CM bool) : CM unit :=
  answer ← attempt m;
  match answer with
  | Ok _ => mret tt
  | Err error =>
      if isinstance error IdempotencyStorageUnavailableError
      then emit (ObserveHotDegraded stage)
      else lift (raise error)
  end.

(** The durable path under an acquired lease, and what the hot store is told. *)
Definition execute_leased (hs : HotStore) (i : IdempotencyIdentity) (h : bytes)
    (operation : T DB StoredResult) (owner : uuid) (lease : Z) : CM ExecutionResult :=
  outcome ← attempt (execute_once retention_seconds i h operation);
  n ← tick (fun _ t => beats t);
  lost ← heartbeat hs i owner lease n;
  match outcome with
  | Err error =>
      (if lost : bool then mret tt else degrade "abandon" (hot_abandon hs i owner));;
      lift (raise error)
  | Ok result =>
      (if lost : bool then emit (ObserveHotDegraded "lease")
       else match er_completed result with
            | Some c =>
                if carries_result (er_outcome result)
                then degrade "complete" (hot_complete hs i owner c)
                else degrade "abandon" (hot_abandon hs i owner)
            | None => degrade "abandon" (hot_abandon hs i owner)
            end);;
      observe result
  end.

(** The durable path without a lease. *)
Definition execute_degraded (stage : string) (i : IdempotencyIdentity) (h : bytes)
    (operation : T DB StoredResult) : CM ExecutionResult :=
  emit (ObserveHotDegraded stage);;
  result ← execute_once retention_seconds i h operation;
  observe result.

(** The rest of [execute], by the outcome of [hot_store.begin]. *)
Definition after_begin (hs : HotStore) (i : IdempotencyIdentity) (h : bytes)
    (operation : T DB StoredResult) (owner : uuid) (lease : Z) (begin : res BeginResult) :
    CM ExecutionResult :=
  match begin with
  | Err error =>
      if isinstance error IdempotencyStorageUnavailableError
      then execute_degraded "begin" i h operation
      else lift (raise error)
  | Ok begin =>
      match br_action begin with
      | BEGIN_REPLAY =>
          result ← lift (ExecutionResult_new REPLAY (br_completed begin));
          observe result
      | BEGIN_CONFLICT =>
          result ← lift (ExecutionResult_new CONFLICT None);
          observe result
      | BEGIN_IN_PROGRESS =>
          durable ← find_existing i h;
          match durable with
          | Some result => observe result
          | None =>
              result ← lift (ExecutionResult_new IN_PROGRESS None);
              observe result
          end
      | ACQUIRED => execute_leased hs i h operation owner lease
      end
  end.

(** [IdempotencyCoordinator.execute] *)
Definition coordinate (hot_store : option HotStore) (i : IdempotencyIdentity) (h : bytes)
    (operation : T DB StoredResult) (lease : Z) : CM ExecutionResult :=
  lift (raise_if (lease <=? 0) EValueError);;
  lift (raise_unless (is_digest h) EValueError);;
  match hot_store with
  | None => execute_degraded "disabled" i h operation
  | Some hs =>
      owner ← get_uuid;
      begin ← attempt (hot_begin hs i h owner lease);
      after_begin hs i h operation owner lease begin
  end.
End coordinator.

(** ** Traces *)

(** A renewal that tells the heartbeat its lease is lost. *)
Definition lost_renewal (ev : idem_event) : bool :=
  match ev with
  | HotRenew _ _ _ (Ok renewed) => negb renewed
  | HotRenew _ _ _ (Err error) => is_exception error
  | _ => false
  end.

Definition is_release (ev : idem_event) : bool :=
  match ev with HotComplete _ _ _ _ | HotAbandon _ _ _ => true | _ => false end.

(** Events about one identity and one owner. *)
Definition owned_by (i : IdempotencyIdentity) (owner : uuid) (ev : idem_event) : Prop :=
  match ev with
  | HotBegin j _ o _ _ | HotRenew j o _ _ | HotComplete j o _ _ | HotAbandon j o _ =>
      j = i /\ o = owner
  | ObserveOutcome _ | ObserveHotDegraded _ => True
  end.

Section runs.
Context {DB : Type} `{HasRecords DB} (e : env DB).
Context (retention_seconds : Z) (beats : nat -> nat).

Lemma find_existing_silent i h : silent (Ev := idem_event) e (find_existing i h).
Proof.
  unfold find_existing. apply silent_bind; [apply silent_lift|]. intros _.
  apply silent_bind; [apply silent_transaction|]. intros [c|]; [|apply silent_ret].
  apply silent_bind; [apply silent_lift|]. intros ?. apply silent_ret.
Qed.

Lemma execution_failed_silent i h x : silent (Ev := idem_event) e (execution_failed i h x).
Proof.
  unfold execution_failed. destruct (isinstance _ _).
  { apply silent_bind; [apply find_existing_silent|].
    intros [r|]; [apply silent_ret|apply silent_lift]. }
  destruct (is_exception x); [|apply silent_lift].
  apply silent_bind; [apply silent_attempt, find_existing_silent|].
  intros [[r|]|y]; [apply silent_ret|apply silent_lift|].
  destruct (is_exception y); apply silent_lift.
Qed.

Lemma execute_once_silent i h op :
  silent (Ev := idem_event) e (execute_once retention_seconds i h op).
Proof.
  unfold execute_once. apply silent_bind; [apply silent_lift|]. intros _.
  apply silent_bind; [apply find_existing_silent|]. intros [r|]; [apply silent_ret|].
  apply silent_bind; [apply silent_attempt, silent_transaction|].
  intros [c|x]; [apply silent_lift|apply execution_failed_silent].
Qed.

Lemma heartbeat_run hs i owner lease n (w : world DB idem_event) :
  exists l w', heartbeat hs i owner lease n e w = (Ok (existsb lost_renewal l), w') /\
    w_db w' = w_db w /\ w_trace w' = l ++ w_trace w /\
    Forall (fun ev => exists a, ev = HotRenew i owner lease a) l.
Proof.
  revert w. induction n as [|n IH]; intros w; [by exists [], w|].
  cbn [heartbeat]. unfold mbind, M_bind, attempt, hot_renew, call.
  set (a := hs_renew hs (w_tick w) i owner lease).
  set (w1 := {| w_trace := HotRenew i owner lease a :: w_trace w |}).
  assert (Hstop : forall b, b = lost_renewal (HotRenew i owner lease a) ->
    exists l w', (Ok b : res bool, w1) = (Ok (existsb lost_renewal l), w') /\
      w_db w' = w_db w /\ w_trace w' = l ++ w_trace w /\
      Forall (fun ev => exists a, ev = HotRenew i owner lease a) l).
  { intros b ->. exists [HotRenew i owner lease a], w1. cbn [existsb]. rewrite orb_false_r.
    repeat split; try done. repeat constructor. by exists a. }
  destruct a as [[|]|x] eqn:Ea; [|by apply Hstop..].
  destruct (IH w1) as (l & w' & -> & Hdb & Htr & Hl).
  exists (l ++ [HotRenew i owner lease a]), w'. rewrite existsb_app. subst a. rewrite Ea.
  cbn [existsb lost_renewal negb]. rewrite !orb_false_r. split; [done|]. split; [done|].
  split; [by rewrite Htr, <- app_assoc|]. apply Forall_app. split; [done|].
  repeat constructor. by eexists.
Qed.

(** Telling the hot store something: the call, and perhaps a note that it is
    degraded. *)
Lemma degrade_run stage (answer : nat -> res bool) (ev : res bool -> idem_event)
    (w : world DB idem_event) :
  let a := answer (w_tick w) in
  exists r l w', degrade stage (call answer ev) e w = (r, w') /\
    w_db w' = w_db w /\ w_trace w' = l ++ w_trace w /\
    (l = [ev a] \/ l = [ObserveHotDegraded stage; ev a]) /\
    ((forall x, a = Err x -> isinstance x IdempotencyStorageUnavailableError = true) ->
     r = Ok tt).
Proof.
  intros a. unfold degrade, mbind, M_bind, attempt, call. fold a.
  destruct a as [b|x]; [by eexists _, [_], _; repeat split; auto|].
  destruct (isinstance x _) eqn:E; cbn.
  - by eexists _, [_; _], _; repeat split; auto.
  - eexists _, [_], _. repeat split; auto. intros Hx. specialize (Hx x eq_refl). congruence.
Qed.

(** What the hot store answers when told about the end of a lease. *)
Definition polite (hs : HotStore) : Prop :=
  (forall n i o c x, hs_complete hs n i o c = Err x ->
     isinstance x IdempotencyStorageUnavailableError = true) /\
  (forall n i o x, hs_abandon hs n i o = Err x ->
     isinstance x IdempotencyStorageUnavailableError = true).

(** What the hot store is told once the durable path has ended with [durable]
    under a lease not known to be lost: exactly one message, the result if there
    is one, perhaps followed by a note that the store is degraded. *)
Definition released (i : IdempotencyIdentity) (owner : uuid) (durable : res ExecutionResult)
    (told : list idem_event) : Prop :=
  exists ev notes, told = notes ++ [ev] /\
    (forall x, x ∈ notes -> exists stage, x = ObserveHotDegraded stage) /\
    exists a, ev = match durable with
                   | Ok {| er_outcome := (EXECUTED | REPLAY); er_completed := Some c |} =>
                       HotComplete i owner c a
                   | _ => HotAbandon i owner a
                   end.

(** The events of a leased execution, newest first. *)
Definition leased_trace (i : IdempotencyIdentity) (owner : uuid) (lease : Z)
    (durable : res ExecutionResult) (l : list idem_event) : Prop :=
  exists outcome told renewals, l = outcome ++ told ++ renewals /\
    (forall x, x ∈ outcome -> exists o, x = ObserveOutcome o) /\
    Forall (fun ev => exists a, ev = HotRenew i owner lease a) renewals /\
    if existsb lost_renewal renewals
    then forall x, x ∈ told -> exists stage, x = ObserveHotDegraded stage
    else released i owner durable told.

Lemma degrade_released i owner durable stage answer ev (w : world DB idem_event) :
  (forall a, ev a = match durable with
                    | Ok {| er_outcome := (EXECUTED | REPLAY); er_completed := Some c |} =>
                        HotComplete i owner c a
                    | _ => HotAbandon i owner a
                    end) ->
  exists r told w', degrade stage (call answer ev) e w = (r, w') /\
    w_db w' = w_db w /\ w_trace w' = told ++ w_trace w /\ released i owner durable told /\
    ((forall x, answer (w_tick w) = Err x ->
        isinstance x IdempotencyStorageUnavailableError = true) -> r = Ok tt).
Proof.
  intros Hev. destruct (degrade_run stage answer ev w) as (r & l & w' & Hr & Hdb & Htr & Hl & Hp).
  exists r, l, w'. split; [done|]. split; [done|]. split; [done|]. split; [|done].
  destruct Hl as [-> | ->].
  - exists (ev (answer (w_tick w))), []. split; [done|]. split; [set_solver|]. eauto.
  - exists (ev (answer (w_tick w))), [ObserveHotDegraded stage]. split; [done|].
    split; [|eauto]. intros x ->%list_elem_of_singleton. eauto.
Qed.

(** The end of a leased run whose durable path returned. *)
Lemma leased_answer hs i owner lease outcome completed renewals tr stage answer ev
    (w : world DB idem_event) :
  let result := {| er_outcome := outcome; er_completed := completed |} in
  w_trace w = renewals ++ tr -> existsb lost_renewal renewals = false ->
  Forall (fun ev => exists a, ev = HotRenew i owner lease a) renewals ->
  (forall a, ev a = match outcome, completed with
                    | (EXECUTED | REPLAY), Some c => HotComplete i owner c a
                    | _, _ => HotAbandon i owner a
                    end) ->
  (polite hs -> forall n x, answer n = Err x ->
     isinstance x IdempotencyStorageUnavailableError = true) ->
  exists r l w', (degrade stage (call answer ev);; observe result) e w = (r, w') /\
    w_db w' = w_db w /\ w_trace w' = l ++ tr /\
    leased_trace i owner lease (Ok result) l /\ (polite hs -> r = Ok result).
Proof.
  intros result Htr El Hren Hev Hpol.
  destruct (degrade_released i owner (Ok result) stage answer ev w)
    as (r & told & w4 & Hr & Hdb4 & Htr4 & Hrel & Hp); [by destruct outcome, completed|].
  assert (Hshape : forall notes, (forall x, x ∈ notes -> exists o, x = ObserveOutcome o) ->
    leased_trace i owner lease (Ok result) (notes ++ told ++ renewals)).
  { intros notes Hn. exists notes, told, renewals. by rewrite El. }
  unfold mbind, M_bind. rewrite Hr. destruct r as [[]|x].
  - eexists _, ([ObserveOutcome outcome] ++ told ++ renewals), _.
    split; [reflexivity|]. split; [exact Hdb4|].
    split; [cbn; by rewrite Htr4, Htr, <- app_assoc|]. split; [|done].
    apply Hshape. intros x ->%list_elem_of_singleton. eauto.
  - eexists _, ([] ++ told ++ renewals), _. split; [reflexivity|]. split; [exact Hdb4|].
    split; [cbn; by rewrite Htr4, Htr, <- app_assoc|].
    split; [apply Hshape; set_solver|]. intros Hpo. by specialize (Hp (Hpol Hpo _)).
Qed.

Lemma execute_leased_run hs i h op owner lease (w : world DB idem_event) :
  let '(durable, w1) := execute_once retention_seconds i h op e w in
  exists r l w', execute_leased retention_seconds beats hs i h op owner lease e w = (r, w') /\
    w_db w' = w_db w1 /\ w_trace w' = l ++ w_trace w /\
    leased_trace i owner lease durable l /\ (polite hs -> r = durable).
Proof.
  pose proof (execute_once_silent i h op w) as Htr.
  unfold execute_leased. unfold mbind at 1, M_bind at 1, attempt.
  destruct (execute_once retention_seconds i h op e w) as [durable w1]. cbn [snd] in Htr.
  unfold mbind at 1, M_bind at 1, tick.
  set (w2 := {| w_db := w_db w1; w_tick := S (w_tick w1); w_trace := w_trace w1 |}).
  unfold mbind at 1, M_bind at 1.
  destruct (heartbeat_run hs i owner lease (beats (w_tick w1)) w2)
    as (renewals & w3 & -> & Hdb3 & Htr3 & Hren).
  cbn [w2 w_db w_trace] in Hdb3, Htr3. rewrite Htr in Htr3. rewrite <- Hdb3.
  destruct (existsb lost_renewal renewals) eqn:El.
  { assert (Hshape : forall notes told, (forall x, x ∈ notes -> exists o, x = ObserveOutcome o) ->
      (forall x, x ∈ told -> exists stage, x = ObserveHotDegraded stage) ->
      leased_trace i owner lease durable (notes ++ told ++ renewals)).
    { intros notes told Hn Ht. exists notes, told, renewals. by rewrite El. }
    destruct durable as [result|error].
    - eexists _, ([ObserveOutcome (er_outcome result)] ++ [ObserveHotDegraded "lease"] ++ renewals), _.
      split; [reflexivity|]. split; [done|]. split; [cbn; by rewrite Htr3|]. split; [|done].
      apply Hshape; intros x ->%list_elem_of_singleton; eauto.
    - eexists _, ([] ++ [] ++ renewals), _. split; [reflexivity|]. split; [done|].
      split; [done|]. split; [|done]. apply Hshape; set_solver. }
  destruct durable as [[outcome completed]|error].
  - pose proof (leased_answer hs i owner lease outcome completed renewals _ "abandon"%string
      (fun n => hs_abandon hs n i owner) (HotAbandon i owner) w3 Htr3 El Hren) as Habandon.
    cbn [er_completed er_outcome]. destruct completed as [c|].
    + pose proof (leased_answer hs i owner lease outcome (Some c) renewals _ "complete"%string
        (fun n => hs_complete hs n i owner c) (HotComplete i owner c) w3 Htr3 El Hren)
        as Hcomplete.
      destruct outcome; cbn [carries_result];
        [apply Hcomplete|apply Hcomplete|apply Habandon|apply Habandon];
        try done; intros [Hc Ha]; eauto.
    + apply Habandon; [by destruct outcome|]. intros [Hc Ha]; eauto.
  - destruct (degrade_released i owner (Err error) "abandon"
      (fun n => hs_abandon hs n i owner) (HotAbandon i owner) w3)
      as (r & told & w4 & Hr & Hdb4 & Htr4 & Hrel & Hp); [done|].
    unfold hot_abandon, mbind, M_bind. rewrite Hr.
    exists (match r with Ok _ => Err error | Err x => Err x end), ([] ++ told ++ renewals), w4.
    split; [by destruct r|]. split; [done|].
    split; [cbn; by rewrite Htr4, Htr3, <- app_assoc|].
    split; [|intros [_ Ha]; rewrite Hp; [done|]; eauto].
    exists [], told, renewals. rewrite El. split; [done|]. split; [set_solver|done].
Qed.

(** What [begin] answers in a run from [w]. *)
Definition begin_answer (hot : option HotStore) (i : IdempotencyIdentity) (h : bytes)
    (lease : Z) (w : world DB idem_event) : option (res BeginResult) :=
  match hot with
  | None => None
  | Some hs => Some (hs_begin hs (S (w_tick w)) i h (new_uuid e (w_tick w)) lease)
  end.

(** The run is one of the durable fence, with its answer when [faithful]. *)
Definition runs_durably (i : IdempotencyIdentity) (h : bytes) (op : T DB StoredResult)
    (w : world DB idem_event) (r : res ExecutionResult) (w' : world DB idem_event)
    (faithful : Prop) : Prop :=
  exists w0 : world DB idem_event, w_db w0 = w_db w /\
    let '(durable, w1) := execute_once retention_seconds i h op e w0 in
    w_db w' = w_db w1 /\ (faithful -> r = durable).

(** Calls the coordinator makes for a lease. *)
Definition lease_call (ev : idem_event) : bool :=
  match ev with
  | HotRenew _ _ _ _ | HotComplete _ _ _ _ | HotAbandon _ _ _ => true
  | _ => false
  end.

Lemma execute_degraded_run stage i h op (w w2 : world DB idem_event) :
  w_db w2 = w_db w ->
  exists r l w', execute_degraded retention_seconds stage i h op e w2 = (r, w') /\
    runs_durably i h op w r w' True /\ w_trace w' = l ++ w_trace w2 /\
    forall ev, ev ∈ l -> lease_call ev = false.
Proof.
  intros Hw. set (w3 := {| w_db := w_db w2; w_tick := w_tick w2;
                           w_trace := ObserveHotDegraded stage :: w_trace w2 |}).
  pose proof (execute_once_silent i h op w3) as Htr.
  unfold execute_degraded. rewrite (run_bind e (emit _) _ _ tt w3 eq_refl).
  unfold runs_durably, mbind, M_bind.
  destruct (execute_once retention_seconds i h op e w3) as [r w4] eqn:E. cbn [snd] in Htr.
  assert (Hd : forall w' : world DB idem_event, w_db w' = w_db w4 ->
    exists w0 : world DB idem_event, w_db w0 = w_db w /\
    let '(durable, w1) := execute_once retention_seconds i h op e w0 in
    w_db w' = w_db w1 /\ (True -> r = durable)).
  { intros w' Hdb. exists w3. rewrite E. done. }
  destruct r as [result|x].
  - eexists _, [ObserveOutcome _; ObserveHotDegraded stage], _. split; [reflexivity|].
    split; [by apply Hd|]. split; [cbn; by rewrite Htr|].
    intros ev Hev. rewrite !elem_of_cons, elem_of_nil in Hev. naive_solver.
  - eexists _, [ObserveHotDegraded stage], _. split; [reflexivity|]. split; [by apply Hd|].
    split; [cbn; by rewrite Htr|]. by intros ev ->%list_elem_of_singleton.
Qed.

(** The world once the hot store has been asked. *)
Definition asked (hs : HotStore) (i : IdempotencyIdentity) (h : bytes) (lease : Z)
    (w : world DB idem_event) : world DB idem_event :=
  let owner := new_uuid e (w_tick w) in
  {| w_db := w_db w; w_tick := S (S (w_tick w));
     w_trace := HotBegin i h owner lease (hs_begin hs (S (w_tick w)) i h owner lease)
                :: w_trace w |}.

Lemma coordinate_run hot i h op lease w :
  0 < lease -> is_digest h = true ->
  coordinate retention_seconds beats hot i h op lease e w =
    match hot with
    | None => execute_degraded retention_seconds "disabled" i h op e w
    | Some hs =>
        let owner := new_uuid e (w_tick w) in
        after_begin retention_seconds beats hs i h op owner lease
          (hs_begin hs (S (w_tick w)) i h owner lease) e (asked hs i h lease w)
    end.
Proof.
  intros Hlease Hh. unfold coordinate. rewrite (proj2 (Z.leb_gt _ _) Hlease), Hh.
  rewrite (run_bind e (lift _) _ _ tt w eq_refl), (run_bind e (lift _) _ _ tt w eq_refl).
  by destruct hot.
Qed.

(** C9. The coordinator never bypasses the durable fence: with a positive lease
    and a full digest, whatever the hot store, the heartbeat's schedule and the
    failures, the operation is run only by [execute_once], and then exactly when
    there is no hot store, it is unavailable, or it granted the lease; the caller
    gets the durable answer itself unless the store fails to release with an
    error of its own; REPLAY and CONFLICT of the store are passed on and write
    nothing; IN_PROGRESS only reads; any other error of [begin] is raised. *)
Theorem coordinator_fence hot i h op lease w :
  0 < lease -> is_digest h = true ->
  let '(r, w') := coordinate retention_seconds beats hot i h op lease e w in
  match begin_answer hot i h lease w with
  | None => runs_durably i h op w r w' True
  | Some (Err x) =>
      if isinstance x IdempotencyStorageUnavailableError
      then runs_durably i h op w r w' True
      else r = Err x /\ w_db w' = w_db w
  | Some (Ok b) =>
      match br_action b, br_completed b with
      | ACQUIRED, _ => runs_durably i h op w r w' (forall hs, hot = Some hs -> polite hs)
      | BEGIN_REPLAY, Some c =>
          r = Ok {| er_outcome := REPLAY; er_completed := Some c |} /\ w_db w' = w_db w
      | BEGIN_REPLAY, None => r = Err EValidationError /\ w_db w' = w_db w
      | BEGIN_CONFLICT, _ =>
          r = Ok {| er_outcome := CONFLICT; er_completed := None |} /\ w_db w' = w_db w
      | BEGIN_IN_PROGRESS, _ =>
          reaches e (w_db w) (w_db w') /\ forall x, r = Ok x -> er_outcome x <> EXECUTED
      end
  end.
Proof.
  intros Hlease Hh. rewrite (coordinate_run _ _ _ _ _ _ Hlease Hh).
  destruct hot as [hs|]; cbn [begin_answer].
  2: { by destruct (execute_degraded_run "disabled" i h op w w eq_refl)
         as (r & l & w' & -> & Hd & _). }
  set (owner := new_uuid e (w_tick w)). set (w2 := asked hs i h lease w).
  cbv zeta. set (a := hs_begin hs (S (w_tick w)) i h owner lease). unfold after_begin.
  destruct a as [[action completed]|x].
  2: { destruct (isinstance x IdempotencyStorageUnavailableError); [|done].
       by destruct (execute_degraded_run "begin" i h op w w2 eq_refl)
         as (r & l & w' & -> & Hd & _). }
  cbn [br_action br_completed]. destruct action.
  - pose proof (execute_leased_run hs i h op owner lease w2) as Hl.
    destruct (execute_once retention_seconds i h op e w2) as [durable w3] eqn:E.
    destruct Hl as (r & l & w' & -> & Hdb & _ & _ & Hp). exists w2. split; [done|].
    rewrite E. split; [done|]. intros Hpol. apply Hp. by apply Hpol.
  - by destruct completed.
  - done.
  - pose proof (find_existing_reaches (Ev := idem_event) e i h w2) as Hr.
    unfold mbind, M_bind.
    destruct (find_existing i h e w2) as [[[r|]|x] w3] eqn:Ef; [|by split; [|intros ? [= <-]]|done].
    cbn. split; [exact Hr|]. intros y [= <-].
    apply find_existing_classified in Ef as [c ->]. by destruct (bool_decide _).
Qed.

(** C21. Leases are used as granted: the store hears of a lease only if it granted
    one to this call, under the call's own identity and owner token; it is then
    told exactly once how the call ended, unless a renewal has shown that the
    lease is lost: it receives the result if the durable path returned one, which
    is therefore committed, and otherwise the lease is abandoned; a lost lease is
    left alone. *)
Theorem coordinator_lease hot i h op lease w :
  0 < lease -> is_digest h = true ->
  let '(r, w') := coordinate retention_seconds beats hot i h op lease e w in
  exists l, w_trace w' = l ++ w_trace w /\
    match begin_answer hot i h lease w with
    | Some (Ok {| br_action := ACQUIRED |} as granted) =>
        let owner := new_uuid e (w_tick w) in
        exists (w0 : world DB idem_event) leased, w_db w0 = w_db w /\
          l = leased ++ [HotBegin i h owner lease granted] /\
          leased_trace i owner lease (execute_once retention_seconds i h op e w0).1 leased
    | _ => forall ev, ev ∈ l -> lease_call ev = false
    end.
Proof.
  intros Hlease Hh. rewrite (coordinate_run _ _ _ _ _ _ Hlease Hh).
  destruct hot as [hs|]; cbn [begin_answer].
  2: { destruct (execute_degraded_run "disabled" i h op w w eq_refl)
         as (r & l & w' & -> & _ & Htr & Hl). by exists l. }
  set (owner := new_uuid e (w_tick w)). set (w2 := asked hs i h lease w).
  cbv zeta. set (a := hs_begin hs (S (w_tick w)) i h owner lease). unfold after_begin.
  assert (Htr2 : w_trace w2 = [HotBegin i h owner lease a] ++ w_trace w) by done.
  assert (Hquiet : forall l (w' : world DB idem_event), w_trace w' = l ++ w_trace w2 ->
    (forall ev, ev ∈ l -> lease_call ev = false) ->
    exists l, w_trace w' = l ++ w_trace w /\ forall ev, ev ∈ l -> lease_call ev = false).
  { intros l w' Htr Hl. exists (l ++ [HotBegin i h owner lease a]).
    split; [by rewrite Htr, Htr2, <- app_assoc|].
    intros ev [Hev|Hev%list_elem_of_singleton]%elem_of_app; [by apply Hl|by subst]. }
  assert (Hone : forall o ev, ev ∈ [ObserveOutcome o] -> lease_call ev = false)
    by (by intros o ev ->%list_elem_of_singleton).
  destruct a as [[action completed]|x].
  2: { destruct (isinstance x IdempotencyStorageUnavailableError);
         [|by apply (Hquiet [] w2); [|intros ? ?%elem_of_nil]].
       destruct (execute_degraded_run "begin" i h op w w2 eq_refl)
         as (r & l & w' & -> & _ & Htr & Hl). by apply (Hquiet l). }
  cbn [br_action br_completed]. destruct action.
  - pose proof (execute_leased_run hs i h op owner lease w2) as Hl.
    destruct (execute_once retention_seconds i h op e w2) as [durable w3] eqn:E.
    destruct Hl as (r & l & w' & -> & _ & Htr & Hlt & _).
    exists (l ++ [HotBegin i h owner lease (Ok {| br_action := ACQUIRED; br_completed := completed |})]).
    split; [by rewrite Htr, Htr2, <- app_assoc|]. exists w2, l. rewrite E. done.
  - destruct completed as [c|].
    + by eapply (Hquiet [ObserveOutcome REPLAY]); [reflexivity|apply Hone].
    + by apply (Hquiet [] w2); [|intros ? ?%elem_of_nil].
  - by eapply (Hquiet [ObserveOutcome CONFLICT]); [reflexivity|apply Hone].
  - pose proof (find_existing_silent i h w2) as Hs. unfold mbind, M_bind.
    destruct (find_existing i h e w2) as [[[r|]|x] w3]; cbn [snd] in Hs.
    + eapply (Hquiet [ObserveOutcome (er_outcome r)]); [cbn; by rewrite Hs|apply Hone].
    + eapply (Hquiet [ObserveOutcome IN_PROGRESS]); [cbn; by rewrite Hs|apply Hone].
    + eapply (Hquiet []); [cbn; by rewrite Hs|by intros ? ?%elem_of_nil].
Qed.
(** *** What a coordinated run keeps of the tables *)

Section keeps.
Context (I : DB -> Prop) (Q : CompletedIdempotencyResult -> DB -> Prop).
Context (i : IdempotencyIdentity) (h : bytes) (op : T DB StoredResult).

Abbreviation on_db P := (fun w : world DB idem_event => P (w_db w)).

(** [Q] holds of the tables a fresh execution has committed. *)
Definition answered_with (r : ExecutionResult) (db : DB) : Prop :=
  I db /\ forall c, er_outcome r = EXECUTED -> er_completed r = Some c -> Q c db.

Hypothesis Hothers : forall n l db, I db -> I (others e n l db).
Hypothesis Hbody : mspec e (on_db I)
  (transaction (execute_body retention_seconds i h op))
  (fun c w => I (w_db w) /\ Q c (w_db w)) (fun _ => on_db I).

Lemma reaches_keeps db db' : reaches e db db' -> I db -> I db'.
Proof. intros Hr. induction Hr as [|a b c (n & l & ->) _ IH]; auto. Qed.

Lemma answered_without r db : I db -> er_outcome r <> EXECUTED -> answered_with r db.
Proof. intros Hi Hr. split; [done|]. intros c Hc. by destruct Hr. Qed.

Lemma find_existing_keeps :
  mspec e (on_db I) (find_existing i h)
    (fun o w => I (w_db w) /\ forall r, o = Some r -> answered_with r (w_db w)) (fun _ => on_db I).
Proof.
  intros w Hw. pose proof (find_existing_reaches e i h w) as Hr.
  destruct (find_existing i h e w) as [[[r|]|x] w'] eqn:E; cbn in Hr;
    pose proof (reaches_keeps _ _ Hr Hw) as Hi; [|by split|done].
  split; [done|]. intros r' [= <-]. apply answered_without; [done|].
  apply find_existing_classified in E as [c ->]. by destruct (bool_decide _).
Qed.

Lemma execute_once_keeps :
  mspec e (on_db I) (execute_once retention_seconds i h op)
    (fun r => on_db (answered_with r)) (fun _ => on_db I).
Proof.
  unfold execute_once. apply (mspec_bind _ _ _ _ (fun _ => on_db I)); [by apply mspec_lift|].
  intros _. eapply mspec_bind; [exact find_existing_keeps|]. intros [r|]; cbv beta.
  { apply mspec_ret. intros w [_ Hr]. by apply Hr. }
  apply (mspec_bind _ _ _ _ (fun r w => I (w_db w) /\
    forall c, r = Ok c -> Q c (w_db w))).
  { apply mspec_attempt. eapply mspec_weaken; [exact Hbody|by intros w []|..].
    - intros c w [Hi Hq]. split; [done|]. by intros c' [= <-].
    - by intros x w Hi. }
  intros [c|x].
  - apply mspec_lift; [|done]. intros r w [= <-] [Hi Hq]. split; [done|].
    intros c' _ [= <-]. by apply Hq.
  - intros w [Hi _]. pose proof (execution_failed_reaches e i h x w) as Hr.
    destruct (execution_failed i h x e w) as [[r|y] w'] eqn:E; cbn in Hr;
      pose proof (reaches_keeps _ _ Hr Hi) as Hi'; [|done].
    apply answered_without; [done|].
    apply execution_failed_answer in E as [c ->]. by destruct (bool_decide _).
Qed.

Lemma heartbeat_keeps hs owner lease n (P : DB -> Prop) X :
  mspec e (on_db P) (heartbeat hs i owner lease n) (fun _ => on_db P) X.
Proof.
  intros w Hw. destruct (heartbeat_run hs i owner lease n w) as (l & w' & -> & Hdb & _).
  by rewrite Hdb.
Qed.

Lemma degrade_keeps stage answer ev (P : DB -> Prop) :
  mspec e (on_db P) (degrade stage (call answer ev)) (fun _ => on_db P) (fun _ => on_db P).
Proof.
  intros w Hw. destruct (degrade_run stage answer ev w) as (r & l & w' & -> & Hdb & _).
  destruct r; by rewrite Hdb.
Qed.

Lemma observed_keeps r :
  mspec e (on_db (answered_with r)) (observe r) (fun r' => on_db (answered_with r'))
    (fun _ => on_db I).
Proof. by intros w Hw. Qed.

Lemma execute_degraded_keeps stage :
  mspec e (on_db I) (execute_degraded retention_seconds stage i h op)
    (fun r => on_db (answered_with r)) (fun _ => on_db I).
Proof.
  unfold execute_degraded. apply (mspec_bind _ _ _ _ (fun _ => on_db I)); [apply mspec_emit|].
  intros _. eapply mspec_bind; [exact execute_once_keeps|exact observed_keeps].
Qed.

Lemma execute_leased_keeps hs owner lease :
  mspec e (on_db I) (execute_leased retention_seconds beats hs i h op owner lease)
    (fun r => on_db (answered_with r)) (fun _ => on_db I).
Proof.
  set (S_ := fun (r : res ExecutionResult) db =>
    I db /\ forall x, r = Ok x -> answered_with x db).
  unfold execute_leased. apply (mspec_bind _ _ _ _ (fun r => on_db (S_ r))).
  { apply mspec_attempt. eapply mspec_weaken; [exact execute_once_keeps|done|..].
    - intros r w Hr. split; [by apply Hr|]. by intros x [= <-].
    - by intros x w Hi. }
  intros outcome. apply (mspec_bind _ _ _ _ (fun _ => on_db (S_ outcome)));
    [intros w Hw; exact Hw|]. intros n.
  apply (mspec_bind _ _ _ _ (fun _ => on_db (S_ outcome))); [apply heartbeat_keeps|].
  intros lost. destruct outcome as [result|error].
  - apply (mspec_bind _ _ _ _ (fun _ => on_db (S_ (Ok result)))).
    + assert (Hd : forall stage answer ev, mspec e (on_db (S_ (Ok result)))
        (degrade stage (call answer ev)) (fun _ => on_db (S_ (Ok result))) (fun _ => on_db I)).
      { intros stage answer ev. eapply mspec_weaken; [apply (degrade_keeps _ _ _ (S_ (Ok result)))|done|done|].
        by intros x w []. }
      destruct lost; [apply (mspec_emit e _ (S_ (Ok result)))|].
      destruct (er_completed result); [|apply Hd].
      destruct (carries_result _); apply Hd.
    + intros _ w [_ Hr]. by apply (observed_keeps result w), Hr.
  - apply (mspec_bind _ _ _ _ (fun _ => on_db I)).
    + destruct lost; [apply mspec_ret; by intros w []|].
      eapply mspec_weaken; [apply (degrade_keeps _ _ _ I)|by intros w []|done|done].
    + intros _. by apply mspec_lift.
Qed.

Lemma coordinate_keeps hot lease :
  mspec e (on_db I) (coordinate retention_seconds beats hot i h op lease)
    (fun r => on_db (answered_with r)) (fun _ => on_db I).
Proof.
  unfold coordinate. apply (mspec_bind _ _ _ _ (fun _ => on_db I)); [by apply mspec_lift|].
  intros _. apply (mspec_bind _ _ _ _ (fun _ => on_db I)); [by apply mspec_lift|]. intros _.
  destruct hot as [hs|]; [|apply execute_degraded_keeps].
  apply (mspec_bind _ _ _ _ (fun _ => on_db I)); [intros w Hw; exact Hw|]. intros owner.
  apply (mspec_bind _ _ _ _ (fun _ => on_db I)).
  { apply mspec_attempt, (mspec_call e). }
  assert (Hpass : forall r : ExecutionResult, er_outcome r <> EXECUTED ->
    mspec e (on_db I) (observe r) (fun r' => on_db (answered_with r')) (fun _ => on_db I)).
  { intros r Hr w Hw. apply (observed_keeps r). by apply answered_without. }
  assert (Hnew : forall o c, o <> EXECUTED -> mspec e (on_db I)
    (result ← lift (ExecutionResult_new o c); observe result)
    (fun r' => on_db (answered_with r')) (fun _ => on_db I)).
  { intros o c Ho. apply (mspec_bind _ _ _ _ (fun r w => er_outcome r <> EXECUTED /\ I (w_db w))).
    - apply mspec_lift; [|done]. unfold ExecutionResult_new. intros r w.
      destruct (Bool.eqb _ _); [|done]. by intros [= <-].
    - intros r w [Hr Hi]. by apply (Hpass r Hr w). }
  intros [b|x]; cbn [after_begin].
  - destruct (br_action b); [apply execute_leased_keeps|by apply Hnew|by apply Hnew|].
    eapply mspec_bind; [exact find_existing_keeps|]. intros [r|]; cbv beta.
    + intros w [_ Hr]. by apply (observed_keeps r w), Hr.
    + intros w [Hi _]. by apply (Hnew IN_PROGRESS None ltac:(done) w).
  - destruct (isinstance _ _); [apply execute_degraded_keeps|by apply mspec_lift].
Qed.
End keeps.
End runs.

(** ** Instances *)

(** A store that grants every lease and a schedule with two renewals. *)
Definition granting : HotStore :=
  {| hs_begin _ _ _ _ _ := Ok {| br_action := ACQUIRED; br_completed := None |};
     hs_renew _ _ _ _ := Ok true; hs_complete _ _ _ _ := Ok true;
     hs_abandon _ _ _ := Ok true |}.

Definition demo_coordinated : world demo_db idem_event :=
  {| w_db := {| dd_counter := 0; dd_records := ∅ |}; w_tick := 0; w_trace := [] |}.

Definition demo_run : res ExecutionResult * world demo_db idem_event :=
  coordinate 3600 (fun _ => 2%nat) (Some granting) demo_identity demo_request demo_add 30
    demo_quiet_env demo_coordinated.

Lemma coordinator_fence_witness :
  runs_durably demo_quiet_env 3600 demo_identity demo_request demo_add demo_coordinated
    demo_run.1 demo_run.2 (forall hs, Some granting = Some hs -> polite hs) /\
  dd_counter (w_db demo_run.2) = 1.
Proof.
  split; [|vm_compute; reflexivity].
  pose proof (coordinator_fence demo_quiet_env 3600 (fun _ => 2%nat) (Some granting)
    demo_identity demo_request demo_add 30 demo_coordinated ltac:(lia) ltac:(reflexivity)) as H.
  change (coordinate 3600 (fun _ => 2%nat) (Some granting) demo_identity demo_request demo_add
    30 demo_quiet_env demo_coordinated) with demo_run in H.
  destruct demo_run as [r w']. exact H.
Defined.

Lemma coordinator_lease_witness :
  exists leased durable,
    w_trace demo_run.2 = leased ++ [HotBegin demo_identity demo_request 1000 30
                             (Ok {| br_action := ACQUIRED; br_completed := None |})] /\
    leased_trace demo_identity 1000 30 durable leased /\ length leased = 4%nat.
Proof.
  pose proof (coordinator_lease demo_quiet_env 3600 (fun _ => 2%nat) (Some granting)
    demo_identity demo_request demo_add 30 demo_coordinated ltac:(lia) ltac:(reflexivity)) as H.
  change (coordinate 3600 (fun _ => 2%nat) (Some granting) demo_identity demo_request demo_add
    30 demo_quiet_env demo_coordinated) with demo_run in H.
  assert (Hlen : length (w_trace demo_run.2) = 5%nat) by (vm_compute; reflexivity).
  destruct demo_run as [r w']. destruct H as (l & Htr & w0 & leased & _ & -> & H).
  rewrite app_nil_r in Htr. cbn [snd] in *. exists leased. eexists. split; [exact Htr|].
  split; [exact H|]. rewrite Htr, length_app in Hlen. cbn in Hlen. lia.
Defined.
