(* ===== verification/HotStore.v ===== *)
(** * The Valkey hot store

    [infrastructure/cache/valkey_idempotency_store.py].  The server keeps hashes
    with a deadline; each Lua script runs atomically, at the server's time in
    seconds.  The adapter around the scripts encodes and decodes completed
    results; the JSON printer and parser and pydantic's coercion of integers are
    parameters. *)

From S2P Require Import Prelude Exceptions Text Json Effects Idempotency Coordinator.

(** ** The server *)

Record entry := { en_fields : gmap string string; en_deadline : option Z }.

Abbreviation valkey := (gmap string entry).

(** An entry past its deadline is gone. *)
Definition alive (now : Z) (en : entry) : bool :=
  match en_deadline en with Some d => now <? d | None => true end.

Definition lookup_entry (now : Z) (key : string) (s : valkey) : option entry :=
  match s !! key with
  | Some en => if alive now en then Some en else None
  | None => None
  end.

(** [HGET], [EXISTS], [HSET] (which keeps the deadline), [HDEL], [EXPIRE] and [DEL];
    a hash whose last field goes, and one that expires at once, are deleted. *)
Definition hget (now : Z) (key field : string) (s : valkey) : option string :=
  en ← lookup_entry now key s; en_fields en !! field.

Definition key_exists (now : Z) (key : string) (s : valkey) : bool :=
  is_some (lookup_entry now key s).

Definition hset (now : Z) (key : string) (fields : list (string * string)) (s : valkey) :
    valkey :=
  let en := default {| en_fields := ∅; en_deadline := None |} (lookup_entry now key s) in
  <[key := {| en_fields := list_to_map (reverse fields) ∪ en_fields en;
              en_deadline := en_deadline en |}]> s.

Definition hdel (now : Z) (key field : string) (s : valkey) : valkey :=
  match lookup_entry now key s with
  | None => s
  | Some en =>
      let fields := base.delete field (en_fields en) in
      if decide (fields = ∅) then base.delete key s
      else <[key := {| en_fields := fields; en_deadline := en_deadline en |}]> s
  end.

Definition expire (now : Z) (key : string) (ttl : Z) (s : valkey) : valkey :=
  match lookup_entry now key s with
  | None => s
  | Some en =>
      if ttl <=? 0 then base.delete key s
      else <[key := {| en_fields := en_fields en; en_deadline := Some (now + ttl) |}]> s
  end.

Definition del (now : Z) (key : string) (s : valkey) : Z * valkey :=
  (if key_exists now key s then 1 else 0, base.delete key s).

(** A reply of the server; the scripts answer with integers, strings and flat
    lists. *)
Inductive scalar :=
| SNil
| SInt (n : Z)
| SBulk (s : string).

Inductive reply :=
| RScalar (v : scalar)
| RArray (l : list scalar).

Abbreviation RInt n := (RScalar (SInt n)).

(** ** The scripts *)

Section scripts.
Context (now : Z) (key : string).

Definition begin_script (request_hash owner : string) (ttl : Z) (s : valkey) :
    reply * valkey :=
  match hget now key "state" s with
  | None =>
      if key_exists now key s then (RArray [SInt 5], s) else
      let s := hset now key [("format_version", "1"); ("state", "processing");
                             ("request_hash", request_hash); ("owner_token", owner)] s in
      (RArray [SInt 1], expire now key ttl s)
  | Some state =>
      let format_version := hget now key "format_version" s in
      let current_hash := hget now key "request_hash" s in
      let owner_token := hget now key "owner_token" s in
      let result := hget now key "result" s in
      if bool_decide (format_version <> Some "1"%string) || is_none current_hash
      then (RArray [SInt 5], s)
      else if bool_decide (state = "processing"%string)
              && (is_none owner_token || is_some result) then (RArray [SInt 5], s)
      else if bool_decide (state = "completed"%string)
              && (is_none result || is_some owner_token) then (RArray [SInt 5], s)
      else if bool_decide (current_hash <> Some request_hash) then (RArray [SInt 3], s)
      else if bool_decide (state = "completed"%string)
      then (RArray [SInt 2; match result with Some r => SBulk r | None => SNil end], s)
      else if bool_decide (state = "processing"%string) then (RArray [SInt 4], s)
      else (RArray [SInt 5], s)
  end.

(** [format_version == '1' and state == 'processing' and owner == ARGV[1]] *)
Definition owned (owner : string) (s : valkey) : bool :=
  bool_decide (hget now key "format_version" s = Some "1"%string)
  && bool_decide (hget now key "state" s = Some "processing"%string)
  && bool_decide (hget now key "owner_token" s = Some owner).

Definition renew_script (owner : string) (ttl : Z) (s : valkey) : reply * valkey :=
  if owned owner s && is_some (hget now key "request_hash" s)
  then (RInt 1, expire now key ttl s)
  else (RInt 0, s).

Definition complete_script (owner result : string) (ttl : Z) (request_hash : string)
    (s : valkey) : reply * valkey :=
  if owned owner s && bool_decide (hget now key "request_hash" s = Some request_hash)
  then
    let s := hset now key [("state", "completed"); ("result", result)] s in
    let s := hdel now key "owner_token" s in
    (RInt 1, expire now key ttl s)
  else (RInt 0, s).

Definition abandon_script (owner : string) (s : valkey) : reply * valkey :=
  if owned owner s
  then let '(n, s) := del now key s in (RInt n, s)
  else (RInt 0, s).
End scripts.

(** ** Requests *)

(** A script and its arguments. *)
Inductive request :=
| Begin (request_hash owner : string)
| Renew (owner : string)
| Complete (owner result request_hash : string)
| Abandon (owner : string).

(** The script a request runs, with its time to live. *)
Definition run_script (now : Z) (key : string) (ttl : Z) (r : request) (st : valkey) :
    reply * valkey :=
  match r with
  | Begin h o => begin_script now key h o ttl st
  | Renew o => renew_script now key o ttl st
  | Complete o res h => complete_script now key o res ttl h st
  | Abandon o => abandon_script now key o st
  end.

(** ** The adapter *)

(** The JSON parser under [TypeAdapter.validate_json], which answers [None] for text
    that is not JSON, pydantic's lax reading of an integer, and Python's
    [int(text)]. *)
Class JsonReader := {
  validate_json : string -> option json;
  lax_int : json -> option Z;
  int_of_text : string -> option Z
}.

Section adapter.
Context `{JsonReader}.

Definition optional_text (t : option string) : json :=
  match t with Some t => JString t | None => JNull end.

(** [_encode_completed] *)
Definition encode_completed (c : CompletedIdempotencyResult) : string :=
  let s := ci_stored c in
  dumps (JObject
    [("result_type", JString (sr_result_type s));
     ("result_payload", match sr_result_payload s with Some p => JObject p | None => JNull end);
     ("result_version", JInt (sr_result_version s));
     ("resource_type", optional_text (sr_resource_type s));
     ("resource_id", optional_text (sr_resource_id s));
     ("resource_version",
        match sr_resource_version s with Some v => JInt v | None => JNull end);
     ("request_hash", JString (hex (ci_request_hash c)))]%string).

Fixpoint get (key : string) (l : list (string * json)) : option json :=
  match l with
  | [] => None
  | (k, v) :: l => if bool_decide (k = key) then Some v else get key l
  end.

(** A field of [StoredResult] read by pydantic: absent, null or a value. *)
Definition read_text (j : option json) : option (option string) :=
  match j with
  | None | Some JNull => Some None
  | Some (JString s) => Some (Some s)
  | Some _ => None
  end.

Definition read_payload (j : option json) : option (option (list (string * json))) :=
  match j with
  | None | Some JNull => Some None
  | Some (JObject l) => Some (Some l)
  | Some _ => None
  end.

Definition read_version (j : option json) : option (option Z) :=
  match j with
  | None | Some JNull => Some None
  | Some j => n ← lax_int j; Some (Some n)
  end.

(** [_decode_completed]: [None] for the [RuntimeError] it raises. *)
Definition decode_completed (raw : scalar) : option CompletedIdempotencyResult :=
  match raw with
  | SBulk text =>
      document ← validate_json text;
      payload ← match document with JObject l => Some l | _ => None end;
      match get "request_hash" payload with
      | Some (JString request_hash) =>
          digest ← fromhex request_hash;
          match get "result_type" payload with
          | Some (JString result_type) =>
              result_payload ← read_payload (get "result_payload" payload);
              result_version ← match get "result_version" payload with
                               | None => Some 1
                               | Some j => lax_int j
                               end;
              resource_type ← read_text (get "resource_type" payload);
              resource_id ← read_text (get "resource_id" payload);
              resource_version ← read_version (get "resource_version" payload);
              match CompletedIdempotencyResult_new digest
                      {| sr_result_type := result_type; sr_result_payload := result_payload;
                         sr_result_version := result_version;
                         sr_resource_type := resource_type; sr_resource_id := resource_id;
                         sr_resource_version := resource_version |} with
              | Ok c => Some c
              | Err _ => None
              end
          | _ => None
          end
      | _ => None
      end
  | SInt _ | SNil => None
  end.

(** [_result_code] *)
Definition result_code (raw : reply) : option Z :=
  match raw with
  | RArray (SInt n :: _) => Some n
  | RArray (SBulk s :: _) => int_of_text s
  | _ => None
  end.

(** What [begin] makes of the script's reply: [None] for the [RuntimeError] of a
    reply that makes no sense. *)
Definition interpret_begin (request_hash : bytes) (raw : reply) : option BeginResult :=
  code ← result_code raw;
  match raw with
  | RScalar _ => None
  | RArray values =>
      if code =? 1 then Some {| br_action := ACQUIRED; br_completed := None |}
      else if code =? 2 then
        match values with
        | _ :: value :: _ =>
            completed ← decode_completed value;
            if bool_decide (ci_request_hash completed = request_hash)
            then Some {| br_action := BEGIN_REPLAY; br_completed := Some completed |}
            else None
        | _ => None
        end
      else if code =? 3 then Some {| br_action := BEGIN_CONFLICT; br_completed := None |}
      else if code =? 4 then Some {| br_action := BEGIN_IN_PROGRESS; br_completed := None |}
      else None
  end.

(** The operations, given what [redis.eval] did: a reply, or [None] for a
    [RedisError]. *)
Definition valkey_begin (request_hash : bytes) (lease_seconds : Z) (raw : option reply) :
    res BeginResult :=
  raise_unless (is_digest request_hash) EValueError;;
  raise_if (lease_seconds <=? 0) EValueError;;
  match raw ≫= interpret_begin request_hash with
  | Some begin => mret begin
  | None => raise IdempotencyStorageUnavailableError
  end.

(** [bool(reply)] *)
Definition truthy (raw : reply) : bool :=
  match raw with
  | RScalar SNil => false
  | RScalar (SInt n) => negb (n =? 0)
  | RScalar (SBulk s) => negb (bool_decide (s = ""%string))
  | RArray l => negb (length l =? 0)%nat
  end.

Definition answered (raw : option reply) : res bool :=
  match raw with
  | Some raw => mret (truthy raw)
  | None => raise IdempotencyStorageUnavailableError
  end.

Definition valkey_renew (lease_seconds : Z) (raw : option reply) : res bool :=
  raise_if (lease_seconds <=? 0) EValueError;;
  answered raw.

Definition valkey_complete (raw : option reply) : res bool := answered raw.
Definition valkey_abandon (raw : option reply) : res bool := answered raw.

(** [_storage_key] *)
Definition key_material (i : IdempotencyIdentity) : bytes :=
  utf8 (ii_subject_id i) ++ [x00] ++ utf8 (ii_operation i) ++ [x00] ++ ii_key_hash i.

Definition storage_key `{Sha256} (namespace : string) (i : IdempotencyIdentity) : string :=
  String.append namespace (String.append ":" (hex (sha256 (key_material i)))).

(** [ValkeyHotIdempotencyStore] over a server: [eval n key request ttl] is what
    [redis.eval] does at tick [n]. *)
Definition valkey_store `{Sha256} (namespace : string) (result_ttl : Z)
    (eval : nat -> string -> request -> Z -> option reply) : HotStore :=
  {| hs_begin n i h owner lease :=
       valkey_begin h lease
         (eval n (storage_key namespace i) (Begin (hex h) (uuid_str owner)) lease);
     hs_renew n i owner lease :=
       valkey_renew lease (eval n (storage_key namespace i) (Renew (uuid_str owner)) lease);
     hs_complete n i owner c :=
       valkey_complete (eval n (storage_key namespace i)
         (Complete (uuid_str owner) (encode_completed c) (hex (ci_request_hash c))) result_ttl);
     hs_abandon n i owner :=
       valkey_abandon (eval n (storage_key namespace i) (Abandon (uuid_str owner)) 0) |}.
End adapter.

(** ** The protocol the scripts implement *)

(** The state of one key. *)
Inductive slot :=
| Free
| Held (request_hash owner : string)
| Done (request_hash result : string).

Inductive answer :=
| Granted | Replayed (result : string) | Conflicting | Busy | Done1 | Refused.

Definition protocol (r : request) (s : slot) : answer * slot :=
  match r, s with
  | Begin h o, Free => (Granted, Held h o)
  | Begin h _, Held h' _ => (if decide (h = h') then Busy else Conflicting, s)
  | Begin h _, Done h' res => (if decide (h = h') then Replayed res else Conflicting, s)
  | Renew o, Held _ o' => (if decide (o = o') then Done1 else Refused, s)
  | Complete o res h, Held h' o' =>
      if decide (o = o' /\ h = h') then (Done1, Done h res) else (Refused, s)
  | Abandon o, Held _ o' => if decide (o = o') then (Done1, Free) else (Refused, s)
  | _, _ => (Refused, s)
  end.

(** How a slot is stored, with its deadline. *)
Definition slot_fields (s : slot) : gmap string string :=
  match s with
  | Free => ∅
  | Held h o => list_to_map [("format_version", "1"); ("state", "processing");
                             ("request_hash", h); ("owner_token", o)]%string
  | Done h r => list_to_map [("format_version", "1"); ("state", "completed");
                             ("request_hash", h); ("result", r)]%string
  end.

Definition stored_slot (now : Z) (key : string) (s : slot) (st : valkey) : Prop :=
  match s with
  | Free => lookup_entry now key st = None
  | _ => exists d, now < d /\
      lookup_entry now key st = Some {| en_fields := slot_fields s; en_deadline := Some d |}
  end.

Definition answer_reply (r : request) (a : answer) : reply :=
  match r, a with
  | Begin _ _, Granted => RArray [SInt 1]
  | Begin _ _, Replayed res => RArray [SInt 2; SBulk res]
  | Begin _ _, Conflicting => RArray [SInt 3]
  | Begin _ _, Busy => RArray [SInt 4]
  | Begin _ _, _ => RArray [SInt 5]
  | _, Done1 => RInt 1
  | _, _ => RInt 0
  end.

Lemma hget_stored now key f en st :
  lookup_entry now key st = Some en -> hget now key f st = en_fields en !! f.
Proof. unfold hget. by intros ->. Qed.

Lemma lookup_entry_insert now key en st :
  alive now en = true -> lookup_entry now key (<[key := en]> st) = Some en.
Proof. intros Ha. unfold lookup_entry. by rewrite lookup_insert_eq, Ha. Qed.

Lemma lookup_entry_delete now key st : lookup_entry now key (base.delete key st) = None.
Proof. unfold lookup_entry. by rewrite lookup_delete_eq. Qed.

Lemma expire_stored now key ttl en st :
  0 < ttl -> lookup_entry now key st = Some en ->
  lookup_entry now key (expire now key ttl st) =
    Some {| en_fields := en_fields en; en_deadline := Some (now + ttl) |}.
Proof.
  intros Ht He. unfold expire. rewrite He. rewrite (proj2 (Z.leb_gt _ _) Ht).
  apply lookup_entry_insert. unfold alive. cbn. apply Z.ltb_lt. lia.
Qed.

(** ** The scripts implement the protocol *)

Lemma held_fields h o :
  let m := slot_fields (Held h o) in
  m !! "format_version"%string = Some "1"%string /\ m !! "state"%string = Some "processing"%string /\
  m !! "request_hash"%string = Some h /\ m !! "owner_token"%string = Some o /\
  m !! "result"%string = None.
Proof. repeat split; reflexivity. Qed.

Lemma done_fields h r :
  let m := slot_fields (Done h r) in
  m !! "format_version"%string = Some "1"%string /\ m !! "state"%string = Some "completed"%string /\
  m !! "request_hash"%string = Some h /\ m !! "owner_token"%string = None /\
  m !! "result"%string = Some r.
Proof. repeat split; reflexivity. Qed.

(** What each slot answers to [HGET]. *)
Lemma held_hget now key h o d st :
  lookup_entry now key st = Some {| en_fields := slot_fields (Held h o); en_deadline := d |} ->
  hget now key "format_version" st = Some "1"%string /\
  hget now key "state" st = Some "processing"%string /\
  hget now key "request_hash" st = Some h /\ hget now key "owner_token" st = Some o /\
  hget now key "result" st = None.
Proof. intros Hl. by rewrite !(hget_stored _ _ _ _ _ Hl). Qed.

Lemma done_hget now key h r d st :
  lookup_entry now key st = Some {| en_fields := slot_fields (Done h r); en_deadline := d |} ->
  hget now key "format_version" st = Some "1"%string /\
  hget now key "state" st = Some "completed"%string /\
  hget now key "request_hash" st = Some h /\ hget now key "owner_token" st = None /\
  hget now key "result" st = Some r.
Proof. intros Hl. by rewrite !(hget_stored _ _ _ _ _ Hl). Qed.

Lemma free_hget now key f st : lookup_entry now key st = None -> hget now key f st = None.
Proof. unfold hget. by intros ->. Qed.

Lemma owned_held now key h o o' d st :
  lookup_entry now key st = Some {| en_fields := slot_fields (Held h o); en_deadline := d |} ->
  owned now key o' st = bool_decide (o' = o).
Proof.
  intros (Hf & Hst & _ & Ho & _)%held_hget. unfold owned. rewrite Hf, Hst, Ho.
  rewrite !bool_decide_true by done. cbn. apply bool_decide_ext. split; congruence.
Qed.

Lemma owned_other now key o' s st :
  stored_slot now key s st -> (forall h o, s <> Held h o) -> owned now key o' st = false.
Proof.
  unfold owned. destruct s as [|h o|h r]; intros Hs Hn; [| by destruct (Hn h o)|].
  - cbn in Hs. by rewrite !(free_hget _ _ _ _ Hs).
  - destruct Hs as (d & _ & (-> & -> & _)%done_hget). done.
Qed.

(** Other keys of the server are not touched. *)
Definition only_key (key : string) (st st' : valkey) : Prop :=
  forall k, k <> key -> st' !! k = st !! k.

Lemma only_key_refl key st : only_key key st st.
Proof. done. Qed.

Lemma only_key_trans key a b c : only_key key a b -> only_key key b c -> only_key key a c.
Proof. intros H1 H2 k Hk. rewrite (H2 k Hk). by apply H1. Qed.

Lemma only_key_insert key en st : only_key key st (<[key := en]> st).
Proof. intros k Hk. by rewrite lookup_insert_ne. Qed.

Lemma only_key_delete key st : only_key key st (base.delete key st).
Proof. intros k Hk. by rewrite lookup_delete_ne. Qed.

Lemma only_key_expire now key ttl st : only_key key st (expire now key ttl st).
Proof.
  unfold expire. destruct (lookup_entry _ _ _); [|done].
  destruct (ttl <=? 0); [apply only_key_delete|apply only_key_insert].
Qed.

Lemma expire_slot now key ttl s st d :
  0 < ttl -> s <> Free ->
  lookup_entry now key st = Some {| en_fields := slot_fields s; en_deadline := d |} ->
  stored_slot now key s (expire now key ttl st).
Proof.
  intros Ht Hs Hl. pose proof (expire_stored now key ttl _ st Ht Hl) as He.
  destruct s; [done|..]; (exists (now + ttl); split; [lia|exact He]).
Qed.

Lemma begin_refines now key ttl h o s st :
  0 < ttl -> stored_slot now key s st ->
  let '(a, s') := protocol (Begin h o) s in
  let '(rep, st') := begin_script now key h o ttl st in
  rep = answer_reply (Begin h o) a /\ stored_slot now key s' st' /\ only_key key st st'.
Proof.
  intros Ht Hs. unfold begin_script. destruct s as [|h' o'|h' r]; cbn [protocol].
  - cbn in Hs. rewrite (free_hget _ _ _ _ Hs). unfold key_exists. rewrite Hs. cbn [is_some].
    split; [done|]. set (st1 := hset now key _ st).
    assert (Hl : lookup_entry now key st1 =
      Some {| en_fields := slot_fields (Held h o); en_deadline := None |}).
    { unfold st1, hset. rewrite Hs. by apply lookup_entry_insert. }
    split; [by eapply expire_slot|].
    eapply only_key_trans; [apply only_key_insert|apply only_key_expire].
  - pose proof Hs as (d & _ & (-> & -> & -> & -> & ->)%held_hget).
    rewrite bool_decide_false by (intros Hf; by apply Hf). cbn [is_none is_some negb orb andb].
    rewrite bool_decide_true by done. cbn [andb].
    rewrite (bool_decide_false (_ = "completed"%string)) by done. cbn [andb].
    destruct (decide (h = h')) as [->|Hne].
    + by rewrite bool_decide_false by (intros Hf; by apply Hf).
    + by rewrite bool_decide_true by congruence.
  - pose proof Hs as (d & _ & (-> & -> & -> & -> & ->)%done_hget).
    rewrite bool_decide_false by (intros Hf; by apply Hf). cbn [is_none is_some negb orb andb].
    rewrite (bool_decide_false (_ = "processing"%string)) by done. cbn [andb].
    rewrite bool_decide_true by done. cbn [andb].
    destruct (decide (h = h')) as [->|Hne].
    + by rewrite bool_decide_false by (intros Hf; by apply Hf).
    + by rewrite bool_decide_true by congruence.
Qed.

Lemma complete_fields now key h o res d st :
  lookup_entry now key st = Some {| en_fields := slot_fields (Held h o); en_deadline := d |} ->
  alive now {| en_fields := slot_fields (Held h o); en_deadline := d |} = true ->
  lookup_entry now key
    (hdel now key "owner_token"
       (hset now key [("state", "completed"); ("result", res)]%string st)) =
    Some {| en_fields := slot_fields (Done h res); en_deadline := d |}.
Proof.
  intros Hl Ha. unfold hset. rewrite Hl. cbn [default en_fields en_deadline].
  unfold hdel. rewrite lookup_entry_insert by exact Ha. cbn [en_fields en_deadline].
  match goal with
  | |- context [base.delete "owner_token"%string ?m] =>
      change (base.delete "owner_token"%string m) with (slot_fields (Done h res))
  end.
  destruct (decide _) as [E|_].
  - apply (f_equal (lookup "state"%string)) in E.
    destruct (done_fields h res) as (_ & Hst & _). cbv zeta in Hst. rewrite Hst in E. done.
  - apply lookup_entry_insert. exact Ha.
Qed.

Lemma only_key_hdel now key f st : only_key key st (hdel now key f st).
Proof.
  unfold hdel. destruct (lookup_entry _ _ _); [|done].
  destruct (decide _); [apply only_key_delete|apply only_key_insert].
Qed.

Lemma scripts_refine now key ttl r s st :
  0 < ttl -> stored_slot now key s st ->
  let '(a, s') := protocol r s in
  let '(rep, st') := run_script now key ttl r st in
  rep = answer_reply r a /\ stored_slot now key s' st' /\ only_key key st st'.
Proof.
  intros Ht Hs. destruct r as [h o|o|o res h|o]; [by apply begin_refines|..]; cbn [run_script].
  - unfold renew_script. destruct s as [|h' o'|h' r]; cbn [protocol];
      [by rewrite (owned_other _ _ _ _ _ Hs)| |by rewrite (owned_other _ _ _ _ _ Hs)].
    pose proof Hs as (d & Hd & Hl). rewrite (owned_held _ _ _ _ _ _ _ Hl).
    pose proof (held_hget _ _ _ _ _ _ Hl) as (_ & _ & -> & _). cbn [is_some].
    rewrite andb_true_r. destruct (decide (o = o')) as [->|Hne];
      [rewrite bool_decide_true by done|by rewrite bool_decide_false by done].
    split; [done|]. split; [by eapply expire_slot|apply only_key_expire].
  - unfold complete_script. destruct s as [|h' o'|h' r]; cbn [protocol];
      [by rewrite (owned_other _ _ _ _ _ Hs)| |by rewrite (owned_other _ _ _ _ _ Hs)].
    pose proof Hs as (d & Hd & Hl). rewrite (owned_held _ _ _ _ _ _ _ Hl).
    pose proof (held_hget _ _ _ _ _ _ Hl) as (_ & _ & -> & _).
    destruct (decide (o = o' /\ h = h')) as [[-> ->]|Hne].
    + rewrite !bool_decide_true by done. cbn [andb]. split; [done|]. split.
      * eapply (expire_slot _ _ _ _ _ (Some d)); [done|done|].
        apply (complete_fields _ _ _ _ _ _ _ Hl). unfold alive. cbn. by apply Z.ltb_lt.
      * eapply only_key_trans; [|apply only_key_expire].
        eapply only_key_trans; [apply only_key_insert|apply only_key_hdel].
    + destruct (bool_decide_reflect (o = o')) as [->|]; [|done].
      rewrite bool_decide_false; [done|]. intros [=]. naive_solver.
  - unfold abandon_script. destruct s as [|h' o'|h' r]; cbn [protocol];
      [by rewrite (owned_other _ _ _ _ _ Hs)| |by rewrite (owned_other _ _ _ _ _ Hs)].
    pose proof Hs as (d & Hd & Hl). rewrite (owned_held _ _ _ _ _ _ _ Hl).
    destruct (decide (o = o')) as [->|Hne];
      [rewrite bool_decide_true by done|by rewrite bool_decide_false by done].
    unfold del, key_exists. rewrite Hl. cbn [is_some]. split; [done|].
    split; [apply lookup_entry_delete|apply only_key_delete].
Qed.


(** ** Histories of a key *)

Record server := { sv_now : Z; sv_store : valkey; sv_log : list (request * reply) }.

(** Time passes, a request on this key is served, or others use other keys. *)
Inductive server_step (key : string) : server -> server -> Prop :=
| ss_time now now' st log :
    now <= now' ->
    server_step key {| sv_now := now; sv_store := st; sv_log := log |}
                    {| sv_now := now'; sv_store := st; sv_log := log |}
| ss_request now ttl r rep st st' log :
    0 < ttl -> run_script now key ttl r st = (rep, st') ->
    server_step key {| sv_now := now; sv_store := st; sv_log := log |}
                    {| sv_now := now; sv_store := st'; sv_log := (r, rep) :: log |}
| ss_other now st st' log :
    st' !! key = st !! key ->
    server_step key {| sv_now := now; sv_store := st; sv_log := log |}
                    {| sv_now := now; sv_store := st'; sv_log := log |}.

(** The history accounts for the state. *)
Definition explains (log : list (request * reply)) (s : slot) : Prop :=
  match s with
  | Free => True
  | Held h o => (Begin h o, RArray [SInt 1]) ∈ log
  | Done h res => exists o l1 l2, log = l1 ++ (Complete o res h, RInt 1) :: l2 /\
      (Begin h o, RArray [SInt 1]) ∈ l2
  end.

(** Every replay of a history was completed under a lease granted before. *)
Fixpoint accounted (log : list (request * reply)) : Prop :=
  match log with
  | [] => True
  | (r, rep) :: log =>
      (forall h o, r = Begin h o -> rep <> RArray [SInt 5]) /\
      (forall h o res, r = Begin h o -> rep = RArray [SInt 2; SBulk res] ->
         explains log (Done h res)) /\
      accounted log
  end.

Lemma explains_cons x log s : explains log s -> explains (x :: log) s.
Proof.
  destruct s as [|h o|h res]; [done|by right|].
  intros (o & l1 & l2 & -> & Hin). by exists o, (x :: l1), l2.
Qed.

Lemma stored_slot_later now now' key s st :
  now <= now' -> stored_slot now key s st ->
  stored_slot now' key s st \/ stored_slot now' key Free st.
Proof.
  intros Hn Hs. destruct s as [|h o|h r].
  - left. cbn in *. unfold lookup_entry in *. destruct (st !! key) as [en|]; [|done].
    unfold alive in *. destruct (en_deadline en) as [d|]; [|done].
    destruct (Z.ltb_spec now d); [done|]. by rewrite (proj2 (Z.ltb_ge now' d)) by lia.
  - destruct Hs as (d & Hd & Hl). unfold lookup_entry in Hl.
    destruct (st !! key) as [en|] eqn:E; [|done]. destruct (alive now en); [|done].
    injection Hl as ->. destruct (Z.ltb_spec now' d) as [Hlt|Hge].
    + left. exists d. split; [done|]. unfold lookup_entry, alive. rewrite E. cbn.
      by rewrite (proj2 (Z.ltb_lt _ _) Hlt).
    + right. cbn. unfold lookup_entry, alive. rewrite E. cbn.
      by rewrite (proj2 (Z.ltb_ge _ _) Hge).
  - destruct Hs as (d & Hd & Hl). unfold lookup_entry in Hl.
    destruct (st !! key) as [en|] eqn:E; [|done]. destruct (alive now en); [|done].
    injection Hl as ->. destruct (Z.ltb_spec now' d) as [Hlt|Hge].
    + left. exists d. split; [done|]. unfold lookup_entry, alive. rewrite E. cbn.
      by rewrite (proj2 (Z.ltb_lt _ _) Hlt).
    + right. cbn. unfold lookup_entry, alive. rewrite E. cbn.
      by rewrite (proj2 (Z.ltb_ge _ _) Hge).
Qed.

Definition server_inv (key : string) (sv : server) : Prop :=
  accounted (sv_log sv) /\
  exists s, stored_slot (sv_now sv) key s (sv_store sv) /\ explains (sv_log sv) s.

(** The replies of the scripts say what the protocol answered. *)
Lemma answer_reply_begin h o a rep :
  rep = answer_reply (Begin h o) a ->
  (rep = RArray [SInt 1] -> a = Granted) /\
  (forall res, rep = RArray [SInt 2; SBulk res] -> a = Replayed res) /\
  (rep = RArray [SInt 5] -> a = Done1 \/ a = Refused).
Proof. intros ->. destruct a; naive_solver. Qed.

Lemma protocol_explains log r s :
  explains log s ->
  explains ((r, answer_reply r (protocol r s).1) :: log) (protocol r s).2.
Proof.
  intros He. destruct r as [h o|o|o res h|o], s as [|h' o'|h' res']; cbn [protocol];
    try (by apply (explains_cons (_, _))).
  - by left.
  - destruct (decide (o = o' /\ h = h')) as [[-> ->]|]; [|by apply (explains_cons (_, _))].
    exists o', [], log. done.
  - destruct (decide (o = o')); [done|]. by apply (explains_cons (_, _)).
Qed.

Lemma protocol_accounted log r s :
  explains log s -> accounted log -> accounted ((r, answer_reply r (protocol r s).1) :: log).
Proof.
  intros He Ha. cbn [accounted]. split; [|split; [|done]].
  - intros h o -> Hr. destruct s as [|h' o'|h' res']; cbn [protocol fst] in Hr;
      try destruct (decide (h = h')); discriminate Hr.
  - intros h o res -> Hr. destruct s as [|h' o'|h' res']; cbn [protocol fst] in Hr;
      [discriminate Hr|destruct (decide (h = h')); discriminate Hr|].
    destruct (decide (h = h')) as [->|]; [|discriminate Hr]. by injection Hr as <-.
Qed.

Lemma server_step_inv key a b : server_inv key a -> server_step key a b -> server_inv key b.
Proof.
  intros (Ha & s & Hs & He) Hstep. destruct Hstep as [now now' st log Hn|
    now ttl r rep st st' log Ht Hrun|now st st' log Hk]; cbn [sv_now sv_store sv_log] in *.
  - split; [done|].
    destruct (stored_slot_later _ _ _ _ _ Hn Hs); [by exists s|by exists Free].
  - pose proof (scripts_refine now key ttl r s st Ht Hs) as Hr.
    rewrite Hrun in Hr. pose proof (protocol_explains log r s He) as He'.
    pose proof (protocol_accounted log r s He Ha) as Ha'.
    destruct (protocol r s) as [a s']. destruct Hr as (-> & Hs' & _).
    split; [exact Ha'|]. exists s'. done.
  - split; [done|]. exists s. split; [|done]. cbn. destruct s; cbn in *;
      unfold lookup_entry in *; by rewrite Hk.
Qed.

(** C20. Where a replay comes from: however requests of any callers, the passing of
    time and expiry interleave on a key that starts free, no [begin] ever finds
    the entry corrupt, and a result is replayed to a caller with a request hash
    only if exactly that result was completed for exactly that hash by an owner to
    whom the lease had been granted, for that hash, before. *)
Theorem replay_provenance key a sv h o rep l1 l2 :
  lookup_entry (sv_now a) key (sv_store a) = None -> sv_log a = [] ->
  rtc (server_step key) a sv -> sv_log sv = l1 ++ (Begin h o, rep) :: l2 ->
  rep <> RArray [SInt 5] /\
  forall res, rep = RArray [SInt 2; SBulk res] ->
    exists owner l3 l4, l2 = l3 ++ (Complete owner res h, RInt 1) :: l4 /\
      (Begin h owner, RArray [SInt 1]) ∈ l4.
Proof.
  intros Hfree Hlog Hs Hl.
  assert (Hinv : server_inv key sv).
  { assert (Ha : server_inv key a) by (split; [by rewrite Hlog|by exists Free]).
    clear -Hs Ha. induction Hs as [a|a b c Hab _ IH]; [done|].
    apply IH. by eapply server_step_inv. }
  destruct Hinv as [Hacc _]. rewrite Hl in Hacc. clear -Hacc.
  induction l1 as [|[r rep'] l1 IH]; [|by apply IH, Hacc].
  cbn [app accounted] in Hacc. destruct Hacc as (H5 & H2 & _). split; [by eapply H5|].
  intros res Hres. exact (H2 h o res eq_refl Hres).
Qed.


(** ** The adapter *)

Section adapter_laws.
Context `{JsonReader}.

(** A stored result with the keys of its payload in order: the same dicts. *)
Definition sorted_result (c : CompletedIdempotencyResult) : CompletedIdempotencyResult :=
  let s := ci_stored c in
  {| ci_stored :=
       {| sr_result_type := sr_result_type s;
          sr_result_payload := match sr_result_payload s with
                               | Some p => Some (sort_keys (map (fun kv => (kv.1, sort_json kv.2)) p))
                               | None => None
                               end;
          sr_result_version := sr_result_version s; sr_resource_type := sr_resource_type s;
          sr_resource_id := sr_resource_id s; sr_resource_version := sr_resource_version s |};
     ci_request_hash := ci_request_hash c |}.

Lemma sorted_result_valid c :
  CompletedIdempotencyResult_new (ci_request_hash c) (ci_stored c) = Ok c ->
  CompletedIdempotencyResult_new (ci_request_hash c) (ci_stored (sorted_result c)) =
    Ok (sorted_result c).
Proof.
  destruct c as [[rt p rv ty ri rs] h].
  unfold CompletedIdempotencyResult_new, StoredResult_validate, sorted_result.
  cbn [ci_stored ci_request_hash sr_result_type sr_result_payload sr_result_version
    sr_resource_type sr_resource_id sr_resource_version].
  intros Hv. ok_inv. assert (is_none match p with
    | Some p => Some (sort_keys (map (fun kv => (kv.1, sort_json kv.2)) p)) | None => None end
    = is_none p) as -> by (by destruct p).
  repeat match goal with E : ?b = _ |- context [raise_unless ?b _] => rewrite E; clear E end.
  repeat match goal with E : ?b = _ |- context [raise_if ?b _] => rewrite E; clear E end.
  repeat match goal with E : ?b = Ok tt |- context [?b] => rewrite E; clear E end.
  reflexivity.
Qed.

(** The document [_encode_completed] prints, with its keys in order. *)
Definition completed_fields (c : CompletedIdempotencyResult) : list (string * json) :=
  let s := ci_stored (sorted_result c) in
  [("request_hash", JString (hex (ci_request_hash c)));
   ("resource_id", optional_text (sr_resource_id s));
   ("resource_type", optional_text (sr_resource_type s));
   ("resource_version", match sr_resource_version s with Some v => JInt v | None => JNull end);
   ("result_payload", match sr_result_payload s with Some p => JObject p | None => JNull end);
   ("result_type", JString (sr_result_type s));
   ("result_version", JInt (sr_result_version s))]%string.

Lemma read_optional c :
  (forall n, lax_int (JInt n) = Some n) ->
  let s := ci_stored (sorted_result c) in
  let f key := get key (completed_fields c) in
  read_payload (f "result_payload"%string) = Some (sr_result_payload s) /\
  read_text (f "resource_type"%string) = Some (sr_resource_type s) /\
  read_text (f "resource_id"%string) = Some (sr_resource_id s) /\
  read_version (f "resource_version"%string) = Some (sr_resource_version s).
Proof.
  intros Hint. unfold completed_fields, optional_text.
  set (s := ci_stored (sorted_result c)). cbv beta zeta.
  change (get "result_payload" _) with
    (Some (match sr_result_payload s with Some p => JObject p | None => JNull end)).
  change (get "resource_type" _) with (Some (optional_text (sr_resource_type s))).
  change (get "resource_id" _) with (Some (optional_text (sr_resource_id s))).
  change (get "resource_version" _) with
    (Some (match sr_resource_version s with Some v => JInt v | None => JNull end)).
  split; [by destruct (sr_result_payload s)|]. split; [by destruct (sr_resource_type s)|].
  split; [by destruct (sr_resource_id s)|]. destruct (sr_resource_version s); [|done].
  cbn. by rewrite Hint.
Qed.

(** Encoding and decoding a completed result: if the parser reads what
    [json.dumps] printed (as documented: the document, with its keys in the order
    of the text) and integers are read as themselves, then decoding an encoded
    valid result gives the result back, with the keys of its payload in order; so
    what the hot store replays is what the durable path stored. *)
Theorem decode_encode_completed c :
  CompletedIdempotencyResult_new (ci_request_hash c) (ci_stored c) = Ok c ->
  validate_json (encode_completed c) = read_json (encode_completed c) ->
  (forall n, lax_int (JInt n) = Some n) ->
  decode_completed (SBulk (encode_completed c)) = Some (sorted_result c).
Proof.
  intros Hv Hparse Hint. unfold decode_completed. rewrite Hparse.
  unfold encode_completed at 1. rewrite read_dumps_chars.
  assert (sort_json (JObject
    [("result_type", JString (sr_result_type (ci_stored c)));
     ("result_payload", match sr_result_payload (ci_stored c) with
                        | Some p => JObject p | None => JNull end);
     ("result_version", JInt (sr_result_version (ci_stored c)));
     ("resource_type", optional_text (sr_resource_type (ci_stored c)));
     ("resource_id", optional_text (sr_resource_id (ci_stored c)));
     ("resource_version",
        match sr_resource_version (ci_stored c) with Some v => JInt v | None => JNull end);
     ("request_hash", JString (hex (ci_request_hash c)))]%string) =
    JObject (completed_fields c)) as ->.
  { unfold completed_fields, optional_text. cbn [sorted_result ci_stored sr_resource_id
      sr_resource_type sr_resource_version sr_result_payload sr_result_type sr_result_version].
    destruct (sr_result_payload (ci_stored c)), (sr_resource_type (ci_stored c)),
      (sr_resource_id (ci_stored c)), (sr_resource_version (ci_stored c)); reflexivity. }
  unfold mbind, option_bind.
  change (get "request_hash" (completed_fields c))
    with (Some (JString (hex (ci_request_hash c)))).
  change (get "result_type" (completed_fields c))
    with (Some (JString (sr_result_type (ci_stored (sorted_result c))))).
  change (get "result_version" (completed_fields c))
    with (Some (JInt (sr_result_version (ci_stored (sorted_result c))))).
  cbv beta iota. rewrite fromhex_hex. cbv beta iota. rewrite Hint.
  destruct (read_optional c) as (-> & -> & -> & ->); [done|]. cbv beta iota.
  pose proof (sorted_result_valid c Hv) as Hs.
  change (ci_stored (sorted_result c)) with
    {| sr_result_type := sr_result_type (ci_stored (sorted_result c));
       sr_result_payload := sr_result_payload (ci_stored (sorted_result c));
       sr_result_version := sr_result_version (ci_stored (sorted_result c));
       sr_resource_type := sr_resource_type (ci_stored (sorted_result c));
       sr_resource_id := sr_resource_id (ci_stored (sorted_result c));
       sr_resource_version := sr_resource_version (ci_stored (sorted_result c)) |} in Hs.
  by rewrite Hs.
Qed.
End adapter_laws.

(** ** infrastructure/resilience/circuit_breaking_hot_store.py *)

(** [except CircuitBreakerError: raise IdempotencyStorageUnavailableError], for a
    call the breaker admits or not. *)
Definition breaker_guarded {A} (admitted : bool) (answer : res A) : res A :=
  if admitted then answer else raise IdempotencyStorageUnavailableError.

(** [CircuitBreakingHotStore] when the breaker's admission of the call made at a
    tick is given. *)
Definition circuit_breaking_store (admitted : nat -> bool) (inner : HotStore) : HotStore :=
  {| hs_begin n i h owner lease :=
       breaker_guarded (admitted n) (hs_begin inner n i h owner lease);
     hs_renew n i owner lease := breaker_guarded (admitted n) (hs_renew inner n i owner lease);
     hs_complete n i owner c := breaker_guarded (admitted n) (hs_complete inner n i owner c);
     hs_abandon n i owner := breaker_guarded (admitted n) (hs_abandon inner n i owner) |}.

Section adapter_contract.
Context `{JsonReader} `{Sha256}.

Lemma answered_polite raw x :
  answered raw = Err x -> isinstance x IdempotencyStorageUnavailableError = true.
Proof. destruct raw; [done|]. by intros [= <-]. Qed.

Lemma interpret_begin_sound h raw b :
  interpret_begin h raw = Some b ->
  match br_action b with
  | BEGIN_REPLAY => exists c, br_completed b = Some c /\ ci_request_hash c = h
  | _ => br_completed b = None
  end.
Proof.
  unfold interpret_begin. destruct (result_code raw) as [code|]; [|done].
  cbn [mbind option_bind]. destruct raw as [v|values]; [done|].
  destruct (code =? 1); [by intros [= <-]|]. destruct (code =? 2).
  { destruct values as [|u [|v values]]; [done..|].
    destruct (decode_completed v) as [c|]; [|done]. cbn.
    destruct (bool_decide_reflect (ci_request_hash c = h)); [|done].
    intros [= <-]. by exists c. }
  destruct (code =? 3); [by intros [= <-]|]. destruct (code =? 4); [by intros [= <-]|done].
Qed.

(** What the coordinator may rely on, whatever the server, the bytes stored in
    it and the breaker do: the adapter behind the breaker releases leases without
    errors of its own, so it is an obliging store for [coordinator_fence];
    [begin] fails with [ValueError] exactly for an admitted call with a bad digest
    or lease, and otherwise only by being unavailable; a replayed result always
    carries the hash that was asked for; and no other answer carries a result. *)
Theorem hot_store_contract admitted namespace ttl eval :
  let hs := circuit_breaking_store admitted (valkey_store namespace ttl eval) in
  polite hs /\
  forall n i h owner lease,
    match hs_begin hs n i h owner lease with
    | Ok b => is_digest h = true /\ 0 < lease /\
        match br_action b with
        | BEGIN_REPLAY => exists c, br_completed b = Some c /\ ci_request_hash c = h
        | _ => br_completed b = None
        end
    | Err x =>
        if admitted n && (negb (is_digest h) || (lease <=? 0)) then x = EValueError
        else x = IdempotencyStorageUnavailableError
    end.
Proof.
  cbv zeta. split; [split|].
  - intros n i o c x. cbn. unfold breaker_guarded, valkey_complete.
    destruct (admitted n); [apply answered_polite|]. by intros [= <-].
  - intros n i o x. cbn. unfold breaker_guarded, valkey_abandon.
    destruct (admitted n); [apply answered_polite|]. by intros [= <-].
  - intros n i h owner lease. cbn. unfold breaker_guarded. destruct (admitted n); [|done].
    unfold valkey_begin. destruct (is_digest h); [|done]. cbn [raise_unless negb orb].
    destruct (Z.leb_spec lease 0); [done|]. cbn [raise_if mbind result_bind].
    destruct (eval _ _ _ _ ≫= interpret_begin h) as [b|] eqn:E; [|done].
    split; [done|]. split; [done|].
    destruct (eval _ _ _ _) as [raw|]; [|done]. by eapply interpret_begin_sound.
Qed.
End adapter_contract.

(** ** Instances *)

Definition demo_server : server := {| sv_now := 0; sv_store := ∅; sv_log := [] |}.

(** Granted to [a] at 0, completed at 1, replayed to [b] at 2. *)
Definition demo_store1 : valkey := (run_script 0 "k" 30 (Begin "h" "a") ∅).2.
Definition demo_store2 : valkey := (run_script 1 "k" 60 (Complete "a" "r" "h") demo_store1).2.
Definition demo_log : list (request * reply) :=
  [(Begin "h" "b", RArray [SInt 2; SBulk "r"]); (Complete "a" "r" "h", RInt 1);
   (Begin "h" "a", RArray [SInt 1])]%string.


Lemma replay_provenance_witness :
  exists owner l3 l4,
    [(Complete "a" "r" "h", RInt 1); (Begin "h" "a", RArray [SInt 1])]%string =
      l3 ++ (Complete owner "r" "h", RInt 1) :: l4 /\
    (Begin "h" owner, RArray [SInt 1]) ∈ l4.
Proof.
  assert (Hs : rtc (server_step "k") demo_server
    {| sv_now := 2; sv_store := demo_store2; sv_log := demo_log |}).
  { eapply rtc_l; [apply (ss_request "k" 0 30 (Begin "h" "a") (RArray [SInt 1]) ∅ demo_store1 []);
      [lia|vm_compute; reflexivity]|].
    eapply rtc_l; [apply (ss_time "k" 0 1); lia|].
    eapply rtc_l; [apply (ss_request "k" 1 60 (Complete "a" "r" "h") (RInt 1) demo_store1
      demo_store2); [lia|vm_compute; reflexivity]|].
    eapply rtc_l; [apply (ss_time "k" 1 2); lia|].
    eapply rtc_l; [apply (ss_request "k" 2 30 (Begin "h" "b")
      (RArray [SInt 2; SBulk "r"]) demo_store2 demo_store2); [lia|vm_compute; reflexivity]|].
    apply rtc_refl. }
  destruct (replay_provenance "k" demo_server _ "h" "b" (RArray [SInt 2; SBulk "r"]) [] 
    [(Complete "a" "r" "h", RInt 1); (Begin "h" "a", RArray [SInt 1])]%string
    ltac:(reflexivity) ltac:(reflexivity) Hs ltac:(reflexivity)) as [_ H].
  exact (H "r"%string eq_refl).
Defined.

(** A parser that reads exactly what [json.dumps] prints. *)
Definition demo_reader : JsonReader :=
  {| validate_json := read_json;
     lax_int j := match j with JInt n => Some n | _ => None end;
     int_of_text _ := None |}.

Lemma decode_encode_completed_witness :
  @decode_completed demo_reader (SBulk (encode_completed demo_completed)) =
    Some demo_completed.
Proof.
  exact (@decode_encode_completed demo_reader demo_completed eq_refl eq_refl
    (fun n => eq_refl)).
Defined.
