(* ===== verification/Decimals.v ===== *)
(** * Decimals in fingerprints

    The branch of [application/idempotency/fingerprint.py] that brings a [Decimal] to a
    text: [value.normalize()] in Python's default context (28 digits, rounding half to
    even, exponents up to 999999, overflow trapped), then [format(..., "f")].  Which
    decimals this keeps apart is [decimal_text_faithful]; [decimal_text_rounds] shows
    two it does not. *)

From S2P Require Import Prelude Exceptions Text Json.

(** A finite [Decimal] is a sign, a coefficient and an exponent of ten; the others are
    infinities and NaNs. *)
Inductive py_decimal : Set :=
| Finite (negative : bool) (coefficient exponent : Z)
| NotFinite.

(** ** The default context *)

Definition precision : Z := 28.
Definition Emax : Z := 999999.
Definition Emin : Z := -999999.
Definition Etop : Z := Emax - precision + 1.
Definition Etiny : Z := Emin - precision + 1.

(** The number of digits of a coefficient. *)
Definition width (c : Z) : Z := Z.of_nat (length (decimal c)).

(** [c] without its last [k] digits, rounded half to even. *)
Definition round_half_even (c k : Z) : Z :=
  let p := 10 ^ k in
  let q := c / p in
  let r := c mod p in
  if (2 * r <? p) || ((2 * r =? p) && Z.even q) then q else q + 1.

(** [Decimal._fix] of a coefficient that is not zero: overflow raises
    [decimal.Overflow], which is neither a [ValueError] nor a [TypeError]. *)
Definition fix_decimal (c e : Z) : res (Z * Z) :=
  let exp_min := width c + e - precision in
  if Etop <? exp_min then raise EException else
  let exp_min := Z.max exp_min Etiny in
  if e <? exp_min then
    let coefficient := round_half_even c (exp_min - e) in
    let '(coefficient, exp_min) :=
      if precision <? width coefficient then (coefficient / 10, exp_min + 1)
      else (coefficient, exp_min) in
    if Etop <? exp_min then raise EException else mret (coefficient, exp_min)
  else mret (c, e).

(** Zeros at the end go into the exponent, one for each turn. *)
Fixpoint strip_zeros (turns : nat) (c e : Z) : Z * Z :=
  match turns with
  | O => (c, e)
  | S turns => if (c mod 10 =? 0) && (e <? Emax) then strip_zeros turns (c / 10) (e + 1) else (c, e)
  end.

(** [value.normalize()] *)
Definition normalize (c e : Z) : res (Z * Z) :=
  '(c, e) ← fix_decimal c e;
  mret (if c =? 0 then (0, 0) else strip_zeros (length (decimal c)) c e).

(** ** [format(value, "f")] *)

Definition zeros (n : Z) : list Ascii.ascii := repeat (digit 0) (Z.to_nat n).

Definition fixed_point (c e : Z) : list Ascii.ascii :=
  let coefficient := decimal c in
  let dotplace := width c + e in
  if 0 <=? e then coefficient ++ zeros e
  else if dotplace <=? 0 then chars "0." ++ zeros (- dotplace) ++ coefficient
  else take (Z.to_nat dotplace) coefficient ++ chars "." ++ drop (Z.to_nat dotplace) coefficient.

(** The text of a [Decimal] in a fingerprint. *)
Definition decimal_text (d : py_decimal) : res string :=
  match d with
  | NotFinite => raise EValueError
  | Finite negative c e =>
      if c =? 0 then mret "0"%string
      else
        '(c, e) ← normalize c e;
        mret (str ((if negative then chars "-" else []) ++ fixed_point c e))
  end.

Example decimal_text_examples :
  decimal_text (Finite false 1200 (-2)) = Ok "12"%string /\
  decimal_text (Finite true 1230 (-5)) = Ok "-0.0123"%string /\
  decimal_text (Finite false 12345 (-2)) = Ok "123.45"%string /\
  decimal_text (Finite false 1 3) = Ok "1000"%string /\
  decimal_text (Finite false 0 5) = Ok "0"%string.
Proof. by vm_compute. Qed.

(** ** Values *)

(** Two decimals are equal numbers: their coefficients agree once brought to the
    smaller exponent. *)
Definition signed (negative : bool) (c : Z) : Z := if negative then - c else c.

Definition same_number (d d' : py_decimal) : Prop :=
  match d, d' with
  | Finite s c e, Finite s' c' e' =>
      let m := Z.min e e' in
      signed s c * 10 ^ (e - m) = signed s' c' * 10 ^ (e' - m)
  | _, _ => False
  end.

(** A decimal the context represents as it is. *)
Definition exact (d : py_decimal) : Prop :=
  match d with
  | Finite _ c e => 0 <= c /\ width c <= precision /\ Etiny <= e /\ width c + e <= Emax + 1
  | NotFinite => False
  end.

(** ** Reading a fixed-point text *)

Definition all_digits (l : list Ascii.ascii) : Prop := Forall (fun c => is_Some (digit_value c)) l.

(** The digits without the point, as a number, and how many follow it. *)
Definition fixed_value (l : list Ascii.ascii) : Z * Z :=
  let '(i, rest) := read_digits l 0 in
  match rest with
  | [] => (i, 0)
  | _ :: frac => ((read_digits frac i).1, Z.of_nat (length frac))
  end.

Lemma decimal_go_digits fuel v acc : 0 <= v -> all_digits acc -> all_digits (decimal_go fuel v acc).
Proof.
  revert v acc. induction fuel as [|fuel IH]; intros v acc Hv Ha; cbn [decimal_go]; [done|].
  destruct (Z.ltb_spec v 10).
  - constructor; [|done]. rewrite digit_value_digit by lia. by eexists.
  - apply IH; [apply Z.div_pos; lia|]. constructor; [|done].
    rewrite digit_value_digit by (apply Z.mod_pos_bound; lia). by eexists.
Qed.

Lemma decimal_digits v : 0 <= v -> all_digits (decimal v).
Proof. intros Hv. apply decimal_go_digits; [done|constructor]. Qed.

Lemma zeros_digits n : all_digits (zeros n).
Proof. unfold zeros. induction (Z.to_nat n); constructor; [by eexists|done]. Qed.

Lemma read_digits_app a l v :
  all_digits a -> read_digits (a ++ l) v = read_digits l (read_digits a v).1.
Proof.
  intros Ha. revert v. induction Ha as [|c a [d Hd] _ IH]; intros v; [done|].
  cbn. rewrite Hd. apply IH.
Qed.

Lemma read_all_digits a v : all_digits a -> read_digits a v = ((read_digits a v).1, []).
Proof.
  intros Ha. revert v. induction Ha as [|c a [d Hd] _ IH]; intros v; [done|]. cbn. rewrite Hd. apply IH.
Qed.

Lemma read_zeros n v : 0 <= n -> read_digits (zeros n) v = (v * 10 ^ n, []).
Proof.
  intros Hn. unfold zeros. rewrite <- (Z2Nat.id n) at 2 by done. generalize (Z.to_nat n) as k.
  clear. intros k. revert v. induction k as [|k IH]; intros v; [by rewrite Z.mul_1_r|].
  cbn [repeat read_digits]. change (digit_value (digit 0)) with (Some 0). cbn iota beta.
  rewrite IH, Nat2Z.inj_succ, Z.pow_succ_r by lia. f_equal. lia.
Qed.

Lemma read_bounds a v : 0 <= v -> all_digits a ->
  v * 10 ^ Z.of_nat (length a) <= (read_digits a v).1 < (v + 1) * 10 ^ Z.of_nat (length a).
Proof.
  intros Hv Ha. revert v Hv. induction Ha as [|c a [d Hd] _ IH]; intros v Hv; [cbn; lia|].
  cbn [read_digits length]. rewrite Hd.
  assert (0 <= d < 10).
  { revert Hd. unfold digit_value. destruct (_ && _) eqn:E; [|done]. intros [= <-].
    apply andb_prop in E as [?%Z.leb_le ?%Z.leb_le]. lia. }
  specialize (IH (10 * v + d) ltac:(lia)). rewrite Nat2Z.inj_succ, Z.pow_succ_r by lia.
  pose proof (Z.pow_pos_nonneg 10 (Z.of_nat (length a))). nia.
Qed.

Lemma read_decimal_all c : 0 <= c -> read_digits (decimal c) 0 = (c, []).
Proof. intros Hc. rewrite <- (app_nil_r (decimal c)). by apply read_decimal. Qed.

Lemma width_spec c : 0 <= c -> c < 10 ^ width c.
Proof.
  intros Hc. pose proof (read_bounds (decimal c) 0 ltac:(lia) (decimal_digits c Hc)) as Hb.
  rewrite read_decimal_all in Hb by done. unfold width. cbn [fst] in Hb. lia.
Qed.

(** ** The fixed-point text gives the number back *)

Lemma point_stops l : stops (chars "." ++ l).
Proof. done. Qed.

Lemma fixed_value_point c e : 0 < c ->
  fixed_value (fixed_point c e) = if 0 <=? e then (c * 10 ^ e, 0) else (c, - e).
Proof.
  intros Hc. pose proof (decimal_digits c ltac:(lia)) as Hd.
  pose proof (read_decimal_all c ltac:(lia)) as Hr. unfold fixed_point, fixed_value.
  destruct (Z.leb_spec 0 e) as [He|He].
  { rewrite read_digits_app, Hr by done. cbn [fst]. by rewrite read_zeros. }
  destruct (Z.leb_spec (width c + e) 0) as [Hp|Hp].
  - change (chars "0." ++ zeros (- (width c + e)) ++ decimal c)
      with (digit 0 :: chars "." ++ zeros (- (width c + e)) ++ decimal c).
    cbn [read_digits]. change (digit_value (digit 0)) with (Some 0). cbn iota beta.
    rewrite read_digits_stop by apply point_stops. cbn [chars String.list_ascii_of_string app].
    rewrite read_digits_app, read_zeros by (apply zeros_digits || lia). cbn [fst].
    rewrite Z.mul_0_r, Z.add_0_l, Z.mul_0_l, Hr. cbn [fst]. f_equal.
    rewrite length_app. unfold zeros. rewrite repeat_length. fold (length (decimal c)). unfold width in *. lia.
  - set (k := Z.to_nat (width c + e)).
    assert (Hlen : (k <= length (decimal c))%nat) by (unfold k, width in *; lia).
    assert (Ht : all_digits (take k (decimal c))) by (by apply Forall_take).
    rewrite read_digits_app by done. rewrite (read_digits_stop (chars "." ++ _)) by apply point_stops.
    cbn [chars String.list_ascii_of_string app].
    rewrite <- (read_digits_app (take k (decimal c)) (drop k (decimal c)) 0) by done.
    rewrite take_drop, Hr. cbn [fst]. f_equal. rewrite length_drop. unfold k, width in *. lia.
Qed.

Lemma fixed_point_head c e : 0 < c -> exists d l, fixed_point c e = digit d :: l /\ 0 <= d < 10.
Proof.
  intros Hc. unfold fixed_point. destruct (decimal_head c ltac:(lia)) as (d & l & Hd & E).
  destruct (0 <=? e); [rewrite E; by exists d, (l ++ zeros e)|].
  destruct (Z.leb_spec (width c + e) 0); [by eexists 0, _|].
  destruct (Z.to_nat (width c + e)) as [|k] eqn:Ek; [lia|]. rewrite E. by eexists d, _.
Qed.

(** ** Normal forms *)

(** No zero at the end of the coefficient. *)
Definition normal (c : Z) : Prop := 0 < c /\ c mod 10 <> 0.

Lemma strip_zeros_spec turns c e c' e' :
  0 < c < 10 ^ Z.of_nat turns -> Z.of_nat turns + e <= Emax + 1 ->
  strip_zeros turns c e = (c', e') -> normal c' /\ e <= e' /\ c = c' * 10 ^ (e' - e).
Proof.
  revert c e. induction turns as [|turns IH]; intros c e Hc He; [cbn in Hc; lia|].
  rewrite Nat2Z.inj_succ, Z.pow_succ_r in Hc by lia. cbn [strip_zeros].
  destruct (Z.eqb_spec (c mod 10) 0) as [Hm|Hm]; cbn [andb].
  - assert (Hx : c = 10 * (c / 10)) by (pose proof (Z_div_mod_eq_full c 10); lia).
    assert (0 < c / 10 < 10 ^ Z.of_nat turns) by lia.
    destruct (Z.ltb_spec e Emax) as [Hlt|Hlt].
    + intros Hs. destruct (IH (c / 10) (e + 1) ltac:(done) ltac:(lia) Hs) as (Hn & Hle & Hv).
      split; [done|]. split; [lia|]. rewrite Hx, Hv at 1.
      replace (e' - e) with (Z.succ (e' - (e + 1))) by lia. rewrite Z.pow_succ_r by lia. lia.
    + assert (turns = 0)%nat as -> by lia. cbn in *. lia.
  - intros [= <- <-]. split; [by split; [lia|]|]. split; [lia|]. rewrite Z.sub_diag. lia.
Qed.

Lemma fix_exact s c e : exact (Finite s c e) -> fix_decimal c e = Ok (c, e).
Proof.
  intros (_ & Hw & Ht & He). unfold fix_decimal.
  assert ((Etop <? width c + e - precision) = false) as ->
    by (apply Z.ltb_ge; unfold Etop; lia).
  assert ((e <? Z.max (width c + e - precision) Etiny) = false) as -> by (apply Z.ltb_ge; lia).
  done.
Qed.

Lemma normalize_exact s c e : exact (Finite s c e) -> c <> 0 ->
  exists c' e', normalize c e = Ok (c', e') /\ normal c' /\ e <= e' /\ c = c' * 10 ^ (e' - e).
Proof.
  intros Hx Hc. unfold normalize. rewrite (fix_exact _ _ _ Hx).
  unfold mbind, result_bind, mret, result_ret. cbn iota. cbv beta.
  destruct (Z.eqb_spec c 0) as [|_]; [done|].
  destruct Hx as (Hpos & Hw & _ & He). pose proof (width_spec c Hpos).
  destruct (strip_zeros (length (decimal c)) c e) as [c' e'] eqn:E. exists c', e'. split; [done|].
  apply strip_zeros_spec in E; [done| |]; unfold width in *; lia.
Qed.

(** Normal forms of one number are one. *)
Lemma normal_unique c e c' e' :
  normal c -> normal c' ->
  c * 10 ^ (e - Z.min e e') = c' * 10 ^ (e' - Z.min e e') -> c = c' /\ e = e'.
Proof.
  assert (Hwlog : forall c e c' e', normal c -> normal c' -> e <= e' ->
    c * 10 ^ (e - e) = c' * 10 ^ (e' - e) -> c = c' /\ e = e').
  { clear. intros c e c' e' [_ Hc] _ Hle Heq. rewrite Z.sub_diag, Z.mul_1_r in Heq.
    destruct (Z.eq_dec e e') as [->|Hne]; [rewrite Z.sub_diag in Heq; lia|].
    exfalso. apply Hc. rewrite Heq. replace (e' - e) with (Z.succ (e' - e - 1)) by lia.
    rewrite Z.pow_succ_r by lia.
    replace (c' * (10 * 10 ^ (e' - e - 1))) with (c' * 10 ^ (e' - e - 1) * 10) by lia.
    apply Z.mod_mul. lia. }
  intros Hc Hc'. destruct (Z.le_ge_cases e e') as [Hle|Hle].
  - rewrite Z.min_l by done. by apply Hwlog.
  - rewrite Z.min_r by done. intros Heq. destruct (Hwlog c' e' c e) as [-> ->]; auto.
Qed.

(** The text of a normal form names it. *)
Lemma fixed_point_inj c e c' e' :
  normal c -> normal c' -> fixed_point c e = fixed_point c' e' -> c = c' /\ e = e'.
Proof.
  intros Hc Hc' Heq. apply (f_equal fixed_value) in Heq.
  rewrite !fixed_value_point in Heq by (by apply Hc || apply Hc').
  destruct (Z.leb_spec 0 e), (Z.leb_spec 0 e'); apply pair_equal_spec in Heq as [Hn Hs]; try lia.
  apply (normal_unique c e c' e' Hc Hc').
  assert (10 ^ e = 10 ^ (e - Z.min e e') * 10 ^ Z.min e e') by (rewrite <- Z.pow_add_r by lia; f_equal; lia).
  assert (10 ^ e' = 10 ^ (e' - Z.min e e') * 10 ^ Z.min e e') by (rewrite <- Z.pow_add_r by lia; f_equal; lia).
  pose proof (Z.pow_pos_nonneg 10 (Z.min e e') ltac:(lia) ltac:(lia)). nia.
Qed.

(** A number that is not zero, brought to its normal form. *)
Lemma exact_text s c e : exact (Finite s c e) -> c <> 0 ->
  exists c' e', normal c' /\ e <= e' /\ c = c' * 10 ^ (e' - e) /\
    decimal_text (Finite s c e) = Ok (str ((if s then chars "-" else []) ++ fixed_point c' e')).
Proof.
  intros Hx Hc. destruct (normalize_exact _ _ _ Hx Hc) as (c' & e' & Hn & Hc' & Hle & Hv).
  exists c', e'. do 3 (split; [done|]). unfold decimal_text. rewrite Hn.
  by destruct (Z.eqb_spec c 0).
Qed.

(** Equal numbers at two exponents are equal at any exponent below both. *)
Lemma scaled_eq a e b e' m m' :
  m <= e -> m <= e' -> m' <= e -> m' <= e' ->
  a * 10 ^ (e - m) = b * 10 ^ (e' - m) -> a * 10 ^ (e - m') = b * 10 ^ (e' - m').
Proof.
  intros H1 H2 H3 H4 Heq.
  assert (Hw : forall n, n <= m -> a * 10 ^ (e - n) = b * 10 ^ (e' - n)).
  { intros n Hn. replace (e - n) with (e - m + (m - n)) by lia.
    replace (e' - n) with (e' - m + (m - n)) by lia. rewrite !Z.pow_add_r by lia. nia. }
  destruct (Z.le_ge_cases m' m) as [Hle|Hle]; [by apply Hw|].
  replace (e - m) with (e - m' + (m' - m)) in Heq by lia.
  replace (e' - m) with (e' - m' + (m' - m)) in Heq by lia.
  rewrite !Z.pow_add_r in Heq by lia.
  pose proof (Z.pow_pos_nonneg 10 (m' - m) ltac:(lia) ltac:(lia)). nia.
Qed.

Lemma normal_form_signed s c e s' c' e' :
  normal c -> normal c' ->
  (s = s' /\ c = c' /\ e = e' <->
   signed s c * 10 ^ (e - Z.min e e') = signed s' c' * 10 ^ (e' - Z.min e e')).
Proof.
  intros Hc Hc'. pose proof (Z.pow_pos_nonneg 10 (e - Z.min e e') ltac:(lia) ltac:(lia)).
  pose proof (Z.pow_pos_nonneg 10 (e' - Z.min e e') ltac:(lia) ltac:(lia)).
  pose proof (proj1 Hc). pose proof (proj1 Hc'). split; [by intros (-> & -> & ->)|].
  unfold signed. intros Heq.
  assert (c = c' /\ e = e') as [-> ->].
  { apply normal_unique; [done..|]. destruct s, s'; nia. }
  split; [|done]. destruct s, s'; [done|nia|nia|done].
Qed.

Lemma text_sign_inj (s s' : bool) c e c' e' : normal c -> normal c' ->
  (if s then chars "-" else []) ++ fixed_point c e = (if s' then chars "-" else []) ++ fixed_point c' e' ->
  s = s' /\ c = c' /\ e = e'.
Proof.
  intros Hc Hc' Heq.
  destruct (fixed_point_head c e (proj1 Hc)) as (d & l & E & Hd).
  destruct (fixed_point_head c' e' (proj1 Hc')) as (d' & l' & E' & Hd').
  assert (Hminus : forall d, 0 <= d < 10 -> Ascii.ascii_of_nat 45 <> digit d).
  { intros x Hx He. pose proof (digit_value_digit x Hx) as Hv. by rewrite <- He in Hv. }
  destruct s, s'; cbn [chars String.list_ascii_of_string app] in Heq.
  - injection Heq as Heq. split; [done|]. by apply fixed_point_inj.
  - rewrite E' in Heq. injection Heq as Heq _. by destruct (Hminus d').
  - rewrite E in Heq. injection Heq as Heq _. by destruct (Hminus d).
  - split; [done|]. by apply fixed_point_inj.
Qed.

(** Decimals of at most 28 digits, within the exponents of the context, have one text
    exactly when they are equal numbers. *)
Theorem decimal_text_faithful d d' :
  exact d -> exact d' ->
  exists t t', decimal_text d = Ok t /\ decimal_text d' = Ok t' /\ (t = t' <-> same_number d d').
Proof.
  assert (Hzero : forall s c e s' e', exact (Finite s c e) -> c <> 0 ->
    exists t, decimal_text (Finite s c e) = Ok t /\
      (t <> "0"%string) /\ ~ same_number (Finite s c e) (Finite s' 0 e')).
  { intros s c e s' e' Hx Hc. destruct (exact_text s c e Hx Hc) as (a & b & Hn & _ & _ & ->).
    eexists. split; [done|]. split.
    - change "0"%string with (str (chars "0")). intros Heq%str_inj. apply (f_equal (fun l => fixed_value (if s then tail l else l))) in Heq.
      assert (fixed_value (if s then tail (chars "0") else chars "0") = (0, 0)) as H0 by (by destruct s).
      rewrite H0 in Heq. assert (Hpoint : fixed_value (fixed_point a b) = (0, 0)) by (by destruct s).
      rewrite fixed_value_point in Hpoint by apply Hn. destruct Hn as [Hn _].
      destruct (Z.leb_spec 0 b); apply pair_equal_spec in Hpoint as [Ha _]; [|lia].
      pose proof (Z.pow_pos_nonneg 10 b ltac:(lia) ltac:(lia)). nia.
    - cbn. pose proof (Z.pow_pos_nonneg 10 (e - Z.min e e') ltac:(lia) ltac:(lia)).
      unfold signed. destruct s, s'; nia. }
  destruct d as [s c e|], d' as [s' c' e'|]; try done. intros Hx Hx'.
  destruct (Z.eq_dec c 0) as [->|Hc], (Z.eq_dec c' 0) as [->|Hc'].
  - exists "0"%string, "0"%string. do 2 (split; [done|]). split; [|done]. intros _.
    cbn. unfold signed. by destruct s, s'.
  - destruct (Hzero s' c' e' s e Hx' Hc') as (t & -> & Ht & Hn). exists "0"%string, t.
    do 2 (split; [done|]). split; [congruence|]. intros Heq. destruct Hn. cbn in *.
    by rewrite Z.min_comm.
  - destruct (Hzero s c e s' e' Hx Hc) as (t & -> & Ht & Hn). exists t, "0"%string.
    by do 2 (split; [done|]).
  - destruct (exact_text s c e Hx Hc) as (a & b & Hn & Hle & Hv & ->).
    destruct (exact_text s' c' e' Hx' Hc') as (a' & b' & Hn' & Hle' & Hv' & ->).
    do 2 eexists. do 2 (split; [done|]).
    assert (Hsame : same_number (Finite s c e) (Finite s' c' e') <->
      signed s a * 10 ^ (b - Z.min b b') = signed s' a' * 10 ^ (b' - Z.min b b')).
    { assert (Hs : forall s c a k n, c = a * 10 ^ k -> 0 <= k -> 0 <= n ->
        signed s c * 10 ^ n = signed s a * 10 ^ (k + n)).
      { clear. intros s c a k n -> Hk Hn. rewrite Z.pow_add_r by lia. unfold signed. destruct s; lia. }
      cbn. rewrite (Hs s c a (b - e)), (Hs s' c' a' (b' - e')) by (done || lia).
      replace (b - e + (e - Z.min e e')) with (b - Z.min e e') by lia.
      replace (b' - e' + (e' - Z.min e e')) with (b' - Z.min e e') by lia.
      split; apply scaled_eq; lia. }
    rewrite Hsame, <- normal_form_signed by done. split.
    + intros Heq%str_inj. by apply text_sign_inj in Heq.
    + by intros (-> & -> & ->).
Qed.

(** Beyond 28 digits [normalize] rounds: two different numbers get one text. *)
Theorem decimal_text_rounds :
  decimal_text (Finite false (10 ^ 28 + 1) 0) = decimal_text (Finite false (10 ^ 28) 0) /\
  ~ same_number (Finite false (10 ^ 28 + 1) 0) (Finite false (10 ^ 28) 0).
Proof. split; [by vm_compute|]. by vm_compute. Qed.
