(* ===== verification/Fingerprint.v ===== *)
(** * Request fingerprints

    [application/idempotency/fingerprint.py]: a semantic payload is brought to a
    canonical JSON document, printed and hashed.  Decimals are brought to a text by
    [Decimals]; floats are left out. *)

From S2P Require Import Prelude Exceptions Text Json Decimals.

(** ** Payloads *)

Inductive py_key : Set :=
| KeyStr (s : string)
| KeyOther.

(** The Python values a payload is made of.  [PMapping] is a dict or a pydantic
    model; [PSequence] a list or a tuple; [PSet] a set in some iteration order;
    [PEnum] an enumeration member with its value; [PDate] a day counted from
    1970-01-01; [POther] anything the function refuses, bytes among them. *)
Inductive py_value : Set :=
| PNone
| PBool (b : bool)
| PInt (n : Z)
| PStr (s : string)
| PUuid (u : uuid)
| PDatetime (t : datetime)
| PDate (days : Z)
| PDecimal (d : py_decimal)
| PEnum (v : py_value)
| PSequence (l : list py_value)
| PSet (l : list py_value)
| PMapping (l : list (py_key * py_value))
| POther.

Abbreviation json_path := (list string).

Definition date_str (days : Z) : string :=
  let '(y, m, d) := civil_from_days days in
  str (digits 10 4 y ++ chars "-" ++ digits 10 2 m ++ chars "-" ++ digits 10 2 d).

(** [sorted(items, key=key)]: insertion sort is stable, as [sorted] is. *)
Fixpoint insert_by {A} (key : A -> string) (v : A) (l : list A) : list A :=
  match l with
  | [] => [v]
  | x :: l' => if String.leb (key v) (key x) then v :: l else x :: insert_by key v l'
  end.

Definition sort_by {A} (key : A -> string) (l : list A) : list A := foldr (insert_by key) [] l.

Definition sort_by_text : list json -> list json := sort_by dumps.

Definition key_text (k : py_key) : string :=
  match k with KeyStr s => s | KeyOther => "" end.

Definition is_text_key (k : py_key) : bool :=
  match k with KeyStr _ => true | KeyOther => false end.

(** The items of a mapping in key order, each canonicalised; the first failure in
    that order is the one raised. *)
Definition collect (l : list (string * res json)) : res json :=
  items ← mapM (fun kv => v ← kv.2; mret (kv.1, v)) (sort_keys l);
  mret (JObject items).

Section canonical.
Context (unordered_paths : list json_path).

Definition is_unordered (path : json_path) : bool := bool_decide (path ∈ unordered_paths).

(** [_canonicalize] *)
Fixpoint canonicalize (path : json_path) (value : py_value) : res json :=
  match value with
  | PMapping l =>
      if forallb (fun kv => is_text_key kv.1) l
      then collect (map (fun kv =>
             (key_text kv.1, canonicalize (path ++ [key_text kv.1]) kv.2)) l)
      else raise ETypeError
  | PSequence l =>
      items ← mapM (canonicalize (path ++ ["[]"%string])) l;
      mret (JList (if is_unordered path then sort_by_text items else items))
  | PSet l =>
      items ← mapM (canonicalize (path ++ ["{}"%string])) l;
      mret (JList (sort_by_text items))
  | PUuid u => mret (JString (uuid_str u))
  | PDatetime t =>
      raise_unless (is_aware t) EValueError;;
      mret (JString (isoformat (utc (dt_us t))))
  | PDate d => mret (JString (date_str d))
  | PDecimal d => text ← decimal_text d; mret (JString text)
  | PEnum v => canonicalize path v
  | PNone => mret JNull
  | PBool b => mret (JBool b)
  | PInt n => mret (JInt n)
  | PStr s => mret (JString s)
  | POther => raise ETypeError
  end.
End canonical.

Section hashing.
Context `{Sha256}.

Definition hash_idempotency_key (raw_key : string) : res bytes :=
  raise_if (bool_decide (raw_key = ""%string)) EValueError;;
  mret (sha256 (utf8 raw_key)).

Definition compute_request_hash (payload : py_value) (unordered_paths : list json_path) :
    res bytes :=
  canonical ← canonicalize unordered_paths [] payload;
  mret (sha256 (utf8 (dumps canonical))).
End hashing.

(** A dict with string keys. *)
Definition dict (l : list (string * py_value)) : py_value :=
  PMapping (map (fun kv => (KeyStr kv.1, kv.2)) l).

Example canonicalize_example :
  canonicalize [["tags"%string]] []
    (dict [("tags", PSequence [PStr "b"; PStr "a"]); ("id", PUuid 1)]%string) =
  Ok (JObject [("id", JString "00000000-0000-0000-0000-000000000001");
               ("tags", JList [JString "a"; JString "b"])]%string).
Proof. reflexivity. Qed.

(** ** Sorting *)

Lemma leb_trans a b c :
  String.leb a b = true -> String.leb b c = true -> String.leb a c = true.
Proof.
  intros Hab Hbc. apply Is_true_true. assert (H : String.le a c); [|exact H].
  transitivity b; by apply Is_true_true.
Qed.

Section sorting.
Context {A : Type} (key : A -> string).

Lemma insert_by_perm v l : insert_by key v l ≡ₚ v :: l.
Proof.
  induction l as [|x l IH]; cbn; [done|]. destruct (String.leb _ _); [done|].
  rewrite IH. apply Permutation_swap.
Qed.

Lemma sort_by_perm l : sort_by key l ≡ₚ l.
Proof.
  induction l as [|x l IH]; [done|]. cbn [sort_by foldr].
  fold (sort_by key l). by rewrite insert_by_perm, IH.
Qed.

Lemma insert_by_swap a b l :
  (key a = key b -> a = b) ->
  insert_by key a (insert_by key b l) = insert_by key b (insert_by key a l).
Proof.
  intros Hk.
  destruct (String.leb (key a) (key b)) eqn:Hab, (String.leb (key b) (key a)) eqn:Hba.
  - by rewrite (Hk (String.leb_antisym _ _ Hab Hba)).
  - induction l as [|x l IH]; cbn; [by rewrite Hab, Hba|].
    destruct (String.leb (key b) (key x)) eqn:Hbx.
    + rewrite (leb_trans _ _ _ Hab Hbx). cbn. by rewrite Hab, Hba, Hbx.
    + cbn. destruct (String.leb (key a) (key x)) eqn:Hax; cbn.
      * by rewrite Hba, Hbx.
      * by rewrite Hbx, IH.
  - induction l as [|x l IH]; cbn; [by rewrite Hab, Hba|].
    destruct (String.leb (key a) (key x)) eqn:Hax.
    + rewrite (leb_trans _ _ _ Hba Hax). cbn. by rewrite Hab, Hba, Hax.
    + cbn. destruct (String.leb (key b) (key x)) eqn:Hbx; cbn.
      * by rewrite Hab, Hax.
      * by rewrite Hax, IH.
  - destruct (String.leb_total (key a) (key b)); congruence.
Qed.

(** Sorting forgets the order, if equal keys mean equal items. *)
Lemma sort_by_unordered l l' :
  l ≡ₚ l' -> (forall a b, a ∈ l -> b ∈ l -> key a = key b -> a = b) ->
  sort_by key l = sort_by key l'.
Proof.
  intros Hp. induction Hp as [|x l l' Hp IH|x y l|l l' l'' Hp IH Hp' IH']; intros Hk.
  - done.
  - cbn. unfold sort_by in IH. rewrite IH; [done|]. intros a b Ha Hb. apply Hk; by right.
  - cbn. apply insert_by_swap. apply Hk; [left|right; left].
  - rewrite IH by done. apply IH'. intros a b. rewrite <- Hp. apply Hk.
Qed.

Lemma insert_by_head v l :
  Forall (fun x => String.leb (key v) (key x) = true) l -> insert_by key v l = v :: l.
Proof. destruct 1 as [|x l Hx _]; cbn; [done|]. by rewrite Hx. Qed.

Lemma insert_by_sorted v l :
  StronglySorted (fun a b => String.leb (key a) (key b) = true) l ->
  StronglySorted (fun a b => String.leb (key a) (key b) = true) (insert_by key v l).
Proof.
  induction 1 as [|x l Hs IH Hx]; cbn; [by repeat constructor|].
  destruct (String.leb (key v) (key x)) eqn:Hvx.
  - constructor; [by constructor|]. constructor; [done|].
    eapply List.Forall_impl; [|exact Hx]. intros y. by apply leb_trans.
  - constructor; [done|]. rewrite insert_by_perm. constructor; [|done].
    destruct (String.leb_total (key v) (key x)); congruence.
Qed.

Lemma sort_by_sorted l :
  StronglySorted (fun a b => String.leb (key a) (key b) = true) (sort_by key l).
Proof. induction l as [|x l IH]; [constructor|]. by apply insert_by_sorted. Qed.

Lemma sort_by_idem l : sort_by key (sort_by key l) = sort_by key l.
Proof.
  induction (sort_by_sorted l) as [|x m _ IH Hx]; [done|].
  cbn. unfold sort_by in IH. rewrite IH. by apply insert_by_head.
Qed.
End sorting.

Lemma sort_keys_by {A} (l : list (string * A)) : sort_keys l = sort_by fst l.
Proof.
  unfold sort_keys, sort_by. induction l as [|x l IH]; [done|]. cbn. rewrite IH.
  generalize (foldr (insert_by fst) [] l). intros m.
  induction m as [|y m IHm]; [done|]. cbn. destruct (String.leb _ _); [done|]. by rewrite IHm.
Qed.

(** ** Results of a pass over a list *)

Section mapM.
Context {A B : Type} (f : A -> res B).

Lemma mapM_each l k : mapM f l = Ok k <-> Forall2 (fun x y => f x = Ok y) l k.
Proof.
  revert k. induction l as [|x l IH]; intros k; cbn.
  - split; [by intros [= <-]|by inversion 1].
  - destruct (f x) as [y|e] eqn:E; cbn.
    + destruct (mapM f l) as [m|e] eqn:Em; cbn.
      * split; [intros [= <-]; constructor; [done|by apply IH]|].
        inversion 1 as [|? z ? m' Hz Hm]; subst. apply IH in Hm.
        rewrite E in Hz. by injection Hz as ->; injection Hm as ->.
      * split; [done|]. inversion 1 as [|? z ? m' Hz Hm]; subst. by apply IH in Hm.
    + split; [done|]. inversion 1; congruence.
Qed.

Lemma mapM_perm l l' k :
  l ≡ₚ l' -> mapM f l = Ok k -> exists k', mapM f l' = Ok k' /\ k ≡ₚ k'.
Proof.
  intros Hp Hk%mapM_each.
  destruct (Permutation_Forall2 Hp Hk) as (k' & Hk' & Hf).
  exists k'. split; [by apply mapM_each|done].
Qed.
End mapM.

Section py_ind.
Variable P : py_value -> Prop.
Hypothesis Hleaf : forall v, match v with
  | PEnum _ | PSequence _ | PSet _ | PMapping _ => False | _ => True end -> P v.
Hypothesis Henum : forall v, P v -> P (PEnum v).
Hypothesis Hsequence : forall l, Forall P l -> P (PSequence l).
Hypothesis Hset : forall l, Forall P l -> P (PSet l).
Hypothesis Hmapping : forall l, Forall (fun kv => P kv.2) l -> P (PMapping l).

Fixpoint py_nested_ind (v : py_value) : P v :=
  match v with
  | PEnum v => Henum v (py_nested_ind v)
  | PSequence l => Hsequence l ((fix go l : Forall P l :=
      match l with
      | [] => List.Forall_nil _
      | x :: l => List.Forall_cons _ x l (py_nested_ind x) (go l)
      end) l)
  | PSet l => Hset l ((fix go l : Forall P l :=
      match l with
      | [] => List.Forall_nil _
      | x :: l => List.Forall_cons _ x l (py_nested_ind x) (go l)
      end) l)
  | PMapping l => Hmapping l ((fix go l : Forall (fun kv => P kv.2) l :=
      match l with
      | [] => List.Forall_nil _
      | x :: l => List.Forall_cons (fun kv => P kv.2) x l (py_nested_ind x.2) (go l)
      end) l)
  | v => Hleaf v I
  end.
End py_ind.

(** ** Canonical documents *)

Abbreviation keys_in_order :=
  (StronglySorted (fun a b => String.leb a.1 b.1 = true)).

Lemma sort_keys_id {A} (l : list (string * A)) : keys_in_order l -> sort_keys l = l.
Proof.
  rewrite sort_keys_by. induction 1 as [|x l _ IH Hx]; [done|].
  cbn. unfold sort_by in IH. rewrite IH. by apply insert_by_head.
Qed.

Lemma keys_in_order_transfer {A B} (l : list (string * A)) (k : list (string * B)) :
  Forall2 (fun a b => a.1 = b.1) l k -> keys_in_order l -> keys_in_order k.
Proof.
  induction 1 as [|x y l k Hxy Hlk IH]; [constructor|].
  inversion 1 as [|? ? Hs Hx]; subst. constructor; [by apply IH|].
  rewrite <- Hxy. clear -Hlk Hx. induction Hlk as [|a b l k Hab _ IH]; [constructor|].
  inversion Hx; subst. constructor; [congruence|auto].
Qed.

Definition canonical (j : json) : Prop := sort_json j = j.

Lemma map_canonical l : Forall canonical l -> map sort_json l = l.
Proof. induction 1 as [|x l Hx _ IH]; [done|]. cbn. by rewrite Hx, IH. Qed.

(** What [collect] makes of items. *)
Lemma collect_each l j :
  collect l = Ok j ->
  exists items, j = JObject items /\
    Forall2 (fun a b => a.1 = b.1 /\ a.2 = Ok b.2) (sort_keys l) items.
Proof.
  unfold collect. destruct (mapM _ _) as [items|e] eqn:E; [|done]. intros [= <-].
  exists items. split; [done|]. apply mapM_each in E.
  induction E as [|[k r] y m items Hxy _ IH]; constructor; [|done].
  cbn in *. destruct r; [|done]. by injection Hxy as <-.
Qed.

Lemma collect_elem l j kv :
  collect l = Ok j -> kv ∈ l -> exists v, kv.2 = Ok v.
Proof.
  intros (items & _ & Hf)%collect_each Hin.
  rewrite <- (sort_by_perm fst), <- sort_keys_by in Hin.
  apply list_elem_of_lookup in Hin as [n Hn].
  destruct (Forall2_lookup_l _ _ _ _ _ Hf Hn) as (b & _ & _ & Hb). eauto.
Qed.

Lemma collect_canonical l j :
  (forall kv v, kv ∈ l -> kv.2 = Ok v -> canonical v) -> collect l = Ok j -> canonical j.
Proof.
  intros Hl (items & -> & Hf)%collect_each. unfold canonical. cbn [sort_json]. f_equal.
  assert (Hc : Forall (fun kv => canonical kv.2) items).
  { apply Forall_lookup. intros n b Hb.
    destruct (Forall2_lookup_r _ _ _ _ _ Hf Hb) as (a & Ha & _ & Hab).
    eapply (Hl a); [|exact Hab].
    rewrite <- (sort_by_perm fst), <- sort_keys_by. by eapply list_elem_of_lookup_2. }
  assert (Hm : map (fun kv => (kv.1, sort_json kv.2)) items = items).
  { clear Hf. induction Hc as [|[k v] m Hv _ IH]; [done|]. cbn in *. by rewrite Hv, IH. }
  rewrite Hm. apply sort_keys_id.
  eapply (keys_in_order_transfer (sort_keys l)).
  - eapply Forall2_impl; [|exact Hf]. by intros a b [? _].
  - rewrite sort_keys_by. apply sort_by_sorted.
Qed.

Section canonicalize.
Context (unordered_paths : list json_path).

Lemma canonicalize_canonical v : forall path j,
  canonicalize unordered_paths path v = Ok j -> canonical j.
Proof.
  assert (Hlist : forall l, Forall (fun v => forall path j,
      canonicalize unordered_paths path v = Ok j -> canonical j) l ->
      forall path items, mapM (canonicalize unordered_paths path) l = Ok items ->
        Forall canonical items).
  { intros l Hl path items Hf%mapM_each. induction Hf as [|x y l k Hxy _ IH]; [constructor|].
    inversion Hl; subst. constructor; eauto. }
  induction v as [v Hv|v IH|l IH|l IH|l IH] using py_nested_ind; intros path j.
  - destruct v; cbn; try done; try (by intros [= <-]).
    + destruct (is_aware t); cbn; [by intros [= <-]|done].
    + destruct (decimal_text d); cbn; [by intros [= <-]|done].
  - cbn. apply IH.
  - cbn. destruct (mapM _ l) as [items|e] eqn:E; cbn; [|done]. intros [= <-].
    specialize (Hlist l IH _ _ E). unfold canonical. cbn. f_equal. apply map_canonical.
    destruct (is_unordered _ _); [|done]. unfold sort_by_text. by rewrite sort_by_perm.
  - cbn. destruct (mapM _ l) as [items|e] eqn:E; cbn; [|done]. intros [= <-].
    specialize (Hlist l IH _ _ E). unfold canonical. cbn. f_equal. apply map_canonical.
    unfold sort_by_text. by rewrite sort_by_perm.
  - cbn [canonicalize]. destruct (forallb _ l); [|done]. apply collect_canonical.
    intros kv v Hin. apply list_elem_of_fmap in Hin as ((k & w) & -> & Hin). cbn.
    rewrite Forall_forall in IH. apply list_elem_of_In in Hin. exact (IH _ Hin _ _).
Qed.

Lemma dumps_canonical_inj a b : canonical a -> canonical b -> dumps a = dumps b -> a = b.
Proof.
  intros Ha Hb E%(f_equal read_json). rewrite !read_dumps_chars, Ha, Hb in E. congruence.
Qed.

(** Lists that are sorted by their text forget their order. *)
Lemma sort_by_text_perm a b :
  Forall canonical a -> a ≡ₚ b -> sort_by_text a = sort_by_text b.
Proof.
  intros Ha Hp. apply sort_by_unordered; [done|]. intros x y Hx Hy.
  rewrite Forall_forall in Ha. apply dumps_canonical_inj; apply Ha; by apply list_elem_of_In.
Qed.

Lemma canonical_perm path l l' items :
  l ≡ₚ l' -> mapM (canonicalize unordered_paths path) l = Ok items ->
  exists items', mapM (canonicalize unordered_paths path) l' = Ok items' /\
    sort_by_text items' = sort_by_text items.
Proof.
  intros Hp Hm. destruct (mapM_perm _ _ _ _ Hp Hm) as (items' & Hm' & Hi).
  exists items'. split; [done|]. symmetry. apply sort_by_text_perm; [|done].
  apply mapM_each in Hm. clear -Hm. induction Hm as [|x y l k Hxy _ IH]; constructor; [|done].
  by eapply canonicalize_canonical.
Qed.

(** Replacing one item of a pass by one with the same result. *)
Lemma mapM_replace {A B} (f : A -> res B) l1 v w l2 k :
  (forall j, f v = Ok j -> f w = Ok j) ->
  mapM f (l1 ++ v :: l2) = Ok k -> mapM f (l1 ++ w :: l2) = Ok k.
Proof.
  intros Hvw Hm%mapM_each. apply mapM_each.
  apply Forall2_app_inv_l in Hm as (k1 & k2 & H1 & H2 & ->).
  inversion H2 as [|? y ? k2' Hv Hk2]; subst. apply Forall2_app; [done|].
  constructor; auto.
Qed.

Lemma collect_perm l l' : NoDup l.*1 -> l ≡ₚ l' -> collect l = collect l'.
Proof.
  intros Hnd Hp. unfold collect. rewrite !sort_keys_by.
  rewrite (sort_by_unordered fst l l' Hp); [done|]. intros [k x] [k' y] Hx Hy Hk. cbn in Hk.
  subst k'. apply list_elem_of_lookup in Hx as [n Hn], Hy as [m Hm].
  assert (n = m) as ->; [|congruence].
  eapply (NoDup_lookup _ n m k Hnd); by rewrite list_lookup_fmap, ?Hn, ?Hm.
Qed.

Lemma canonicalize_dict path l :
  canonicalize unordered_paths path (dict l) =
    collect (map (fun kv => (kv.1, canonicalize unordered_paths (path ++ [kv.1]) kv.2)) l).
Proof.
  unfold dict. cbn [canonicalize].
  replace (forallb _ _) with true
    by (symmetry; apply forallb_forall; intros kv Hin;
        apply in_map_iff in Hin as (x & <- & _); done).
  by rewrite map_map.
Qed.

(** Two payloads that say the same: one is obtained from the other by reordering
    the items of dicts, the members of sets and the lists at unordered paths, at
    any depth, or by writing a decimal of at most 28 digits another way.  An enumeration
    member is its value. *)
Inductive similar : json_path -> py_value -> py_value -> Prop :=
| sim_refl p v : similar p v v
| sim_trans p u v w : similar p u v -> similar p v w -> similar p u w
| sim_dict p l l' : NoDup l.*1 -> l ≡ₚ l' -> similar p (dict l) (dict l')
| sim_set p l l' : l ≡ₚ l' -> similar p (PSet l) (PSet l')
| sim_list p l l' : p ∈ unordered_paths -> l ≡ₚ l' -> similar p (PSequence l) (PSequence l')
| sim_in_dict p l1 k v w l2 : similar (p ++ [k]) v w ->
    similar p (dict (l1 ++ (k, v) :: l2)) (dict (l1 ++ (k, w) :: l2))
| sim_in_set p l1 v w l2 : similar (p ++ ["{}"%string]) v w ->
    similar p (PSet (l1 ++ v :: l2)) (PSet (l1 ++ w :: l2))
| sim_in_list p l1 v w l2 : similar (p ++ ["[]"%string]) v w ->
    similar p (PSequence (l1 ++ v :: l2)) (PSequence (l1 ++ w :: l2))
| sim_enum p v : similar p (PEnum v) v
| sim_in_enum p v : similar p v (PEnum v)
| sim_decimal p d d' : exact d -> exact d' -> same_number d d' ->
    similar p (PDecimal d) (PDecimal d').

Lemma similar_canonical p v w j :
  similar p v w -> canonicalize unordered_paths p v = Ok j ->
  canonicalize unordered_paths p w = Ok j.
Proof.
  intros Hs. revert j. induction Hs as [| |p l l' Hnd Hp|p l l' Hp|p l l' Hin Hp
    |p l1 k v w l2 Hs IH|p l1 v w l2 Hs IH|p l1 v w l2 Hs IH| | |p d d' Hd Hd' Heq]; intros j; auto.
  - rewrite !canonicalize_dict. rewrite (collect_perm _ (map (fun kv =>
      (kv.1, canonicalize unordered_paths (p ++ [kv.1]) kv.2)) l')); [done| |by apply fmap_Permutation].
    by rewrite <- list_fmap_compose.
  - cbn. destruct (mapM _ l) as [items|] eqn:E; [|done]. intros [= <-].
    destruct (canonical_perm _ _ _ _ Hp E) as (items' & -> & Hi). cbn. by rewrite Hi.
  - cbn. unfold is_unordered. rewrite bool_decide_true by done.
    destruct (mapM _ l) as [items|] eqn:E; [|done]. intros [= <-].
    destruct (canonical_perm _ _ _ _ Hp E) as (items' & -> & Hi). cbn. by rewrite Hi.
  - rewrite !canonicalize_dict, !map_app. cbn [map]. intros Hc.
    destruct (collect_elem _ _ (k, canonicalize unordered_paths (p ++ [k]) v) Hc) as [jv Hv].
    { apply elem_of_app. right. left. }
    cbn in Hv. cbn [fst snd] in Hc |- *. rewrite (IH _ Hv), <- Hv. exact Hc.
  - cbn. destruct (mapM _ (l1 ++ v :: l2)) as [items|] eqn:E; [|done].
    by rewrite (mapM_replace _ _ _ _ _ _ IH E).
  - cbn. destruct (mapM _ (l1 ++ v :: l2)) as [items|] eqn:E; [|done].
    by rewrite (mapM_replace _ _ _ _ _ _ IH E).
  - destruct (decimal_text_faithful d d' Hd Hd') as (t & t' & Et & Et' & Hiff).
    cbn. rewrite Et, Et'. cbn. by rewrite (proj2 Hiff Heq).
Qed.

Lemma decimals_canonical path d d' : exact d -> exact d' ->
  (canonicalize unordered_paths path (PDecimal d) = canonicalize unordered_paths path (PDecimal d') <->
   same_number d d').
Proof.
  intros Hd Hd'. destruct (decimal_text_faithful d d' Hd Hd') as (t & t' & Et & Et' & <-).
  cbn. rewrite Et, Et'. cbn. split; [by intros [= <-]|by intros ->].
Qed.
End canonicalize.

Section fingerprints.
Context `{Sha256}.

(** Two different texts with one digest. *)
Definition collision : Prop := exists a b : bytes, a <> b /\ sha256 a = sha256 b.

Lemma request_hash_same v w h paths :
  compute_request_hash v paths = Ok h -> compute_request_hash w paths = Ok h ->
  (exists j, canonicalize paths [] v = Ok j /\ canonicalize paths [] w = Ok j) \/ collision.
Proof.
  unfold compute_request_hash.
  destruct (canonicalize paths [] v) as [a|] eqn:Ha; [|done].
  destruct (canonicalize paths [] w) as [b|] eqn:Hb; [|done].
  intros [= Eh] [= Eh']. destruct (decide (utf8 (dumps a) = utf8 (dumps b))) as [E|Hn].
  - left. apply utf8_inj in E. exists a. split; [done|]. f_equal. symmetry.
    apply dumps_canonical_inj; [by eapply canonicalize_canonical..|done].
  - right. exists (utf8 (dumps a)), (utf8 (dumps b)). split; [done|congruence].
Qed.

End fingerprints.

(** A stand-in for SHA-256: 32 bytes that depend on the text. *)
Definition demo_sha256 : Sha256 := fun l =>
  take 32 (l ++ repeat x00 32).

