(* ===== verification/Tokens.v ===== *)
(** * Token pairs

    [application/tokens.py], [application/dto/token_pair.py], the refresh-token
    codec [infrastructure/security/opaque_refresh_token_codec.py], and Python's
    reading of a UUID.  Signing access tokens and drawing random text are
    interfaces here. *)

From S2P Require Import Prelude Exceptions Domain Text Effects.

(** ** application/ports/dto/security.py *)

Record AccessPrincipal := { ap_user_id : uuid; ap_role : UserRole }.

Record AccessTokenClaims := {
  ac_issuer : string;
  ac_user_id : uuid;
  ac_audiences : list string;
  ac_issued_at : datetime;
  ac_expires_at : datetime;
  ac_token_id : uuid;
  ac_role : UserRole
}.

Record IssuedRefreshToken := { ir_value : string; ir_digest : bytes }.

(** [IssuedRefreshToken(...)] and its [__post_init__]. *)
Definition IssuedRefreshToken_new (value : string) (digest : bytes) : res IssuedRefreshToken :=
  raise_if (bool_decide (value = ""%string)) TokenIssuanceError;;
  raise_unless (length digest =? 32)%nat TokenIssuanceError;;
  mret {| ir_value := value; ir_digest := digest |}.

(** ** application/dto/token_pair.py *)

Record TokenPair := {
  tp_access_token : string;
  tp_refresh_token : string;
  tp_token_type : string
}.

Record IssuedTokenPair := { itp_pair : TokenPair; itp_refresh_digest : bytes }.

Definition new_pair (access refresh : string) : TokenPair :=
  {| tp_access_token := access; tp_refresh_token := refresh; tp_token_type := "bearer" |}.

(** ** Interfaces *)

(** [AccessTokenIssuerProtocol]: the claims for a principal at an instant, with a
    fresh token identifier. *)
Class AccessTokenIssuer := access_issue : AccessPrincipal -> datetime -> uuid -> res string.

(** [AccessTokenVerifierProtocol], at the instant the verifier's library reads. *)
Class AccessTokenVerifier := access_verify : datetime -> string -> res AccessTokenClaims.

(** [secrets.token_urlsafe(32)] at a tick. *)
Class RandomTokens := token_urlsafe : nat -> string.

(** ** The codec and the issuer *)

Section tokens.
Context {DB : Type} `{Sha256} `{RandomTokens} `{AccessTokenIssuer}.

Definition digest (token : string) : bytes := sha256 (utf8 token).

Definition codec_issue : T DB IssuedRefreshToken :=
  token ← t_tick (fun _ n => token_urlsafe n);
  t_lift (IssuedRefreshToken_new token (digest token)).

Definition issue (user : User) (now : datetime) : T DB IssuedTokenPair :=
  jti ← t_tick new_uuid;
  access ← t_lift (access_issue {| ap_user_id := u_id user; ap_role := u_role user |} now jti);
  refresh ← codec_issue;
  mret {| itp_pair := new_pair access (ir_value refresh);
          itp_refresh_digest := ir_digest refresh |}.
End tokens.

(** ** [UUID(text)] *)

Definition is_char (n : nat) (c : Ascii.ascii) : bool := (Ascii.nat_of_ascii c =? n)%nat.

Fixpoint starts (p l : list Ascii.ascii) : bool :=
  match p, l with
  | [], _ => true
  | c :: p, d :: l => Ascii.eqb c d && starts p l
  | _ :: _, [] => false
  end.

(** [text.replace(p, "")] *)
Fixpoint erase (p : list Ascii.ascii) (skip : nat) (l : list Ascii.ascii) :
    list Ascii.ascii :=
  match l with
  | [] => []
  | c :: l' =>
      match skip with
      | S k => erase p k l'
      | O => if starts p l then erase p (length p - 1) l' else c :: erase p 0 l'
      end
  end.

Fixpoint strip_left (f : Ascii.ascii -> bool) (l : list Ascii.ascii) : list Ascii.ascii :=
  match l with
  | c :: l' => if f c then strip_left f l' else l
  | [] => []
  end.

Definition strip (f : Ascii.ascii -> bool) (l : list Ascii.ascii) : list Ascii.ascii :=
  rev (strip_left f (rev (strip_left f l))).

(** Hexadecimal digits with single underscores between them. *)
Fixpoint hex_number (acc : Z) (after_digit : bool) (l : list Ascii.ascii) : option Z :=
  match l with
  | [] => if after_digit then Some acc else None
  | c :: l =>
      if is_char 95 c then if after_digit then hex_number acc false l else None
      else d ← hex_value c; hex_number (16 * acc + d) true l
  end.

(** [int(text, 16)]: surrounding white space, a sign and a [0x] prefix, which an
    underscore may follow, are accepted. *)
Definition int16 (l : list Ascii.ascii) : option Z :=
  let l := strip Domain.is_space l in
  let '(negative, l) :=
    match l with
    | c :: l' => if is_char 45 c then (true, l') else if is_char 43 c then (false, l')
                 else (false, l)
    | [] => (false, l)
    end in
  let l :=
    match l with
    | z :: x :: l' =>
        if is_char 48 z && (is_char 120 x || is_char 88 x)
        then match l' with u :: l'' => if is_char 95 u then l'' else l' | [] => l' end
        else l
    | _ => l
    end in
  n ← hex_number 0 false l;
  Some (if negative then - n else n).

(** [None] for [ValueError]. *)
Definition uuid_parse (text : string) : option uuid :=
  let l := erase (chars "uuid:") 0 (erase (chars "urn:") 0 (chars text)) in
  let l := List.filter (fun c => negb (is_char 45 c))
             (strip (fun c => is_char 123 c || is_char 125 c) l) in
  if (length l =? 32)%nat then
    n ← int16 l;
    if (0 <=? n) && (n <? 2 ^ 128) then Some n else None
  else None.

(** ** Reading back what was printed *)

Definition lower_hex (c : Ascii.ascii) : bool :=
  match hex_value c with
  | Some _ => negb (is_char 45 c || is_char 43 c || is_char 95 c || is_char 120 c
                    || is_char 88 c || is_char 117 c || is_char 123 c || is_char 125 c
                    || Domain.is_space c)
  | None => false
  end.

Lemma digit_lower_hex d : 0 <= d < 16 -> lower_hex (digit d) = true /\ hex_value (digit d) = Some d.
Proof.
  intros Hd.
  assert (H : forallb (fun d => lower_hex (digit d) && bool_decide (hex_value (digit d) = Some d))
    (seqZ 0 16) = true) by (vm_compute; reflexivity).
  rewrite forallb_forall in H. specialize (H d).
  rewrite <- list_elem_of_In, elem_of_seqZ in H. specialize (H ltac:(lia)).
  by apply andb_true_iff in H as [? ?%bool_decide_eq_true].
Qed.

Lemma digits_lower_hex n v : Forall (fun c => lower_hex c = true) (digits 16 n v).
Proof.
  revert v. induction n as [|n IH]; intros v; [constructor|]. cbn. apply Forall_app.
  split; [done|]. repeat constructor. apply digit_lower_hex, Z.mod_pos_bound. lia.
Qed.

Lemma hex_number_digits n v acc b l :
  0 <= v < 16 ^ Z.of_nat n -> (n <> 0%nat) ->
  hex_number acc b (digits 16 n v ++ l) = hex_number (16 ^ Z.of_nat n * acc + v) true l.
Proof.
  revert v acc b l. induction n as [|n IH]; intros v acc b l Hv Hn; [done|].
  rewrite Nat2Z.inj_succ, Z.pow_succ_r in * by lia. cbn [digits].
  rewrite <- app_assoc.
  assert (Hm : 0 <= v mod 16 < 16) by (apply Z.mod_pos_bound; lia).
  destruct (digit_lower_hex _ Hm) as [Hl Hh].
  assert (Hq : 0 <= v / 16 < 16 ^ Z.of_nat n)
    by (split; [apply Z.div_pos; lia|apply Z.div_lt_upper_bound; lia]).
  assert (Hlast : forall acc b l, hex_number acc b ([digit (v mod 16)] ++ l) =
    hex_number (16 * acc + v mod 16) true l).
  { intros acc' b' l'. cbn. rewrite Hh. cbn. unfold lower_hex in Hl. rewrite Hh in Hl.
    destruct (is_char 95 (digit (v mod 16))); [|done].
    by rewrite !orb_true_r in Hl. }
  destruct (decide (n = 0%nat)) as [->|Hn0].
  - cbn [digits app] in *. rewrite Hlast. f_equal. cbn in Hq |- *.
    rewrite (Z_div_mod_eq_full v 16) at 2. lia.
  - rewrite IH, Hlast by done. f_equal. rewrite (Z_div_mod_eq_full v 16) at 3. lia.
Qed.

Lemma erase_none c p l :
  Forall (fun d => Ascii.eqb c d = false) l -> erase (c :: p) 0 l = l.
Proof. induction 1 as [|d l Hd _ IH]; [done|]. cbn. by rewrite Hd, IH. Qed.

Lemma strip_left_none f l : Forall (fun c => f c = false) l -> strip_left f l = l.
Proof. destruct 1 as [|c l Hc _]; cbn; [done|by rewrite Hc]. Qed.

Lemma strip_none f l : Forall (fun c => f c = false) l -> strip f l = l.
Proof.
  intros Hl. unfold strip. rewrite (strip_left_none f l Hl).
  rewrite strip_left_none; [apply rev_involutive|]. by apply Forall_rev.
Qed.

Lemma filter_all (f : Ascii.ascii -> bool) l :
  Forall (fun c => f c = true) l -> List.filter f l = l.
Proof. induction 1 as [|c l Hc _ IH]; cbn; [done|]. by rewrite Hc, IH. Qed.

Definition not_dash (c : Ascii.ascii) : bool := negb (is_char 45 c).

(** What a printed UUID is made of. *)
Definition uuid_char (c : Ascii.ascii) : bool := lower_hex c || is_char 45 c.

Ltac by_ascii c := destruct c as [[] [] [] [] [] [] [] []]; vm_compute; congruence.

Lemma uuid_char_plain c :
  uuid_char c = true ->
  Ascii.eqb (Ascii.ascii_of_nat 117) c = false /\
  is_char 123 c || is_char 125 c = false.
Proof. intros H. split; revert H; by_ascii c. Qed.

Lemma lower_hex_plain c :
  lower_hex c = true ->
  uuid_char c = true /\ not_dash c = true /\ Domain.is_space c = false /\
  is_char 45 c = false /\ is_char 43 c = false /\ is_char 120 c = false /\
  is_char 88 c = false.
Proof. intros H. repeat split; revert H; by_ascii c. Qed.

Lemma uuid_chars_all u : Forall (fun c => uuid_char c = true) (uuid_chars u).
Proof.
  assert (Hh : Forall (fun c => uuid_char c = true) (digits 16 32 u)).
  { eapply List.Forall_impl; [|apply digits_lower_hex]. intros c Hc. by apply lower_hex_plain. }
  assert (Hd : Forall (fun c => uuid_char c = true) (chars "-")) by
    (apply List.Forall_cons; [vm_compute; reflexivity|apply List.Forall_nil]).
  unfold uuid_chars. repeat (apply Forall_app; split); try done;
    first [by apply Forall_drop|by apply Forall_take|by apply Forall_take, Forall_drop].
Qed.

Lemma take_groups {A} (h : list A) :
  take 8 h ++ take 4 (drop 8 h) ++ take 4 (drop 12 h) ++ take 4 (drop 16 h) ++ drop 20 h = h.
Proof.
  change (drop 20 h) with (drop (16 + 4) h). rewrite <- drop_drop, take_drop.
  change (drop 16 h) with (drop (12 + 4) h). rewrite <- drop_drop, take_drop.
  change (drop 12 h) with (drop (8 + 4) h). rewrite <- drop_drop, take_drop.
  apply take_drop.
Qed.

Lemma uuid_chars_digits u : List.filter not_dash (uuid_chars u) = digits 16 32 u.
Proof.
  assert (Hh : Forall (fun c => not_dash c = true) (digits 16 32 u)).
  { eapply List.Forall_impl; [|apply digits_lower_hex]. intros c Hc. by apply lower_hex_plain. }
  unfold uuid_chars. revert Hh. generalize (digits 16 32 u). intros h Hh.
  rewrite !List.filter_app. change (List.filter not_dash (chars "-")) with (@nil Ascii.ascii).
  cbn [app]. rewrite !filter_all; try first [by apply Forall_drop|by apply Forall_take
    |by apply Forall_take, Forall_drop].
  apply take_groups.
Qed.

Lemma int16_digits u :
  0 <= u < 2 ^ 128 -> int16 (digits 16 32 u) = Some u.
Proof.
  intros Hu. pose proof (digits_lower_hex 32 u) as Hh.
  assert (Hn : hex_number 0 false (digits 16 32 u) = Some u).
  { rewrite <- (app_nil_r (digits 16 32 u)), hex_number_digits; [cbn; f_equal; lia| |done].
    cbn. lia. }
  unfold int16. rewrite strip_none.
  2: { eapply List.Forall_impl; [|exact Hh]. intros c Hc. by apply lower_hex_plain. }
  revert Hh Hn. pose proof (digits_length 16 32 u) as Hl. revert Hl.
  generalize (digits 16 32 u). intros h. destruct h as [|a [|b h]]; [done..|].
  intros _ Hh Hn. inversion Hh as [|? ? Ha Hh']; subst. inversion Hh' as [|? ? Hb _]; subst.
  destruct (lower_hex_plain _ Ha) as (_ & _ & _ & -> & -> & _).
  destruct (lower_hex_plain _ Hb) as (_ & _ & _ & _ & _ & -> & ->).
  cbn [orb]. rewrite andb_false_r, Hn. done.
Qed.

(** [UUID(str(u))] is [u]. *)
Lemma uuid_parse_str u : 0 <= u < 2 ^ 128 -> uuid_parse (uuid_str u) = Some u.
Proof.
  intros Hu. unfold uuid_parse, uuid_str. rewrite chars_str.
  pose proof (uuid_chars_all u) as Ha.
  assert (He : forall p, erase (Ascii.ascii_of_nat 117 :: p) 0 (uuid_chars u) = uuid_chars u).
  { intros p. apply erase_none. eapply List.Forall_impl; [|exact Ha].
    intros c Hc. by apply uuid_char_plain. }
  change (chars "urn:") with (Ascii.ascii_of_nat 117 :: chars "rn:").
  change (chars "uuid:") with (Ascii.ascii_of_nat 117 :: chars "uid:").
  rewrite !He, strip_none.
  2: { eapply List.Forall_impl; [|exact Ha]. intros c Hc. by apply uuid_char_plain. }
  change (fun c => negb (is_char 45 c)) with not_dash.
  rewrite uuid_chars_digits, digits_length. cbn [Nat.eqb].
  rewrite (int16_digits u Hu). cbn [mbind option_bind].
  replace ((0 <=? u) && (u <? 2 ^ 128)) with true by lia. done.
Qed.
