(* ===== verification/Sessions.v ===== *)
(** * Stored sessions and refresh tokens

    The [auth_sessions] and [refresh_tokens] tables with
    [infrastructure/database/repositories/base_repository.py],
    [auth_session_repository.py] and [refresh_token_repository.py], over a database
    that also holds the users and the idempotency records.

    [SELECT ... FOR UPDATE] keeps the row it finds locked until the transaction
    ends.  What such locks keep other transactions from doing is [respects_locks]. *)

From S2P Require Import Prelude Exceptions Domain Retry Text Sql Registration Effects.
From S2P Require Import Accounts Idempotency Database.

(** ** Rows and constraints *)

Definition session_row (s : AuthSession) : SessionRow :=
  {| sn_id := as_id s; sn_created_at := as_created_at s; sn_user_id := as_user_id s;
     sn_idle_expires_at := as_idle_expires_at s; sn_revoked_at := as_revoked_at s |}.

(** [AuthSession.model_validate(row)] builds this and validates it. *)
Definition session_of (r : SessionRow) (token : option RefreshToken) : AuthSession :=
  {| as_id := sn_id r; as_created_at := sn_created_at r; as_user_id := sn_user_id r;
     as_idle_expires_at := sn_idle_expires_at r; as_revoked_at := sn_revoked_at r;
     as_refresh_token := token; as_replacement_token := None |}.

Lemma session_row_of r o : session_row (session_of r o) = r.
Proof. by destruct r. Qed.

Definition after_or_null (t : option datetime) (created_at : datetime) : bool :=
  match t with None => true | Some t => dt_leb created_at t end.

(** The CHECK constraints. *)
Definition session_check (r : SessionRow) : bool :=
  dt_ltb (sn_created_at r) (sn_idle_expires_at r)
  && after_or_null (sn_revoked_at r) (sn_created_at r).

Definition token_check (t : RefreshToken) : bool :=
  (length (rt_token_hash t) =? 32)%nat && after_or_null (rt_used_at t) (rt_created_at t).

Definition ForeignKeyViolation : exn := DBAPIError true (Some "23503"%string) None false.

(** ** Statements *)

(** [session.add(row)] and [flush()]: an INSERT under every constraint. *)
Definition insert_session (r : SessionRow) (db : database) : res (unit * database) :=
  if negb (session_check r) then raise CheckViolation else
  match db_sessions db !! sn_id r, users db !! sn_user_id r with
  | Some _, _ => raise UniqueViolation
  | None, None => raise ForeignKeyViolation
  | None, Some _ => mret (tt, with_sessions (<[sn_id r := r]> (db_sessions db)) db)
  end.

Definition insert_token (t : RefreshToken) (db : database) : res (unit * database) :=
  if negb (token_check t) then raise CheckViolation else
  if existsb (fun u => bool_decide (rt_token_hash u = rt_token_hash t)) (rows (db_tokens db))
  then raise UniqueViolation else
  match db_tokens db !! rt_id t, db_sessions db !! rt_session_id t with
  | Some _, _ => raise UniqueViolation
  | None, None => raise ForeignKeyViolation
  | None, Some _ => mret (tt, with_tokens (<[rt_id t := t]> (db_tokens db)) db)
  end.

(** [flush()] of an updated row: no statement when nothing changed, and
    [StaleDataError] when the row is gone.  The service never changes a key, a
    foreign key or a token's hash of a stored row. *)
Definition update_session (r : SessionRow) (db : database) : res (unit * database) :=
  match db_sessions db !! sn_id r with
  | None => raise OtherSQLAlchemyError
  | Some old =>
      if bool_decide (old = r) then mret (tt, db) else
      if negb (session_check r) then raise CheckViolation else
      mret (tt, with_sessions (<[sn_id r := r]> (db_sessions db)) db)
  end.

Definition update_token (t : RefreshToken) (db : database) : res (unit * database) :=
  match db_tokens db !! rt_id t with
  | None => raise OtherSQLAlchemyError
  | Some old =>
      if bool_decide (old = t) then mret (tt, db) else
      if negb (token_check t) then raise CheckViolation else
      mret (tt, with_tokens (<[rt_id t := t]> (db_tokens db)) db)
  end.

(** ** Repositories inside a transaction *)

Abbreviation AT := (T database).

Definition user_lock (i : Z) := RowLock "users" i.
Definition session_lock (i : Z) := RowLock "auth_sessions" i.
Definition token_lock (i : Z) := RowLock "refresh_tokens" i.

(** [SELECT ... WHERE pred FOR UPDATE] of at most one row: what it answers and
    the lock it keeps on the row. *)
Definition take {A} (lock : A -> row_lock) (answer : option A) (held : gset row_lock) :
    gset row_lock :=
  match answer with None => held | Some a => {[lock a]} ∪ held end.

Definition select_for_update {A} (lock : A -> row_lock) (f : database -> res (option A)) :
    AT (option A) :=
  locking_stmt (take lock) (fun _ _ db => a ← f db; mret (a, db)).

Definition session_to_domain (r : SessionRow) : res AuthSession :=
  stored_state (AuthSession_validate (session_of r None)).
Definition token_to_domain (t : RefreshToken) : res RefreshToken :=
  stored_state (RefreshToken_validate t).

(** [SQLAlchemyAsyncRepository.create] and [update].  Nobody else can change a row
    before the transaction that inserted it commits: it counts as locked. *)
Definition session_create (s : AuthSession) : AT AuthSession :=
  locking_stmt (fun _ held => {[session_lock (as_id s)]} ∪ held)
    (fun _ _ => insert_session (session_row s));;
  t_lift (session_to_domain (session_row s)).

Definition token_create (t : RefreshToken) : AT RefreshToken :=
  locking_stmt (fun _ held => {[token_lock (rt_id t)]} ∪ held)
    (fun _ _ => insert_token t);;
  t_lift (token_to_domain t).

Definition session_update (s : AuthSession) : AT AuthSession :=
  row ← select_for_update (fun r => session_lock (sn_id r))
          (fun db => mret (db_sessions db !! as_id s));
  match row with
  | None => t_lift (raise EntityNotFoundError)
  | Some _ =>
      stmt (fun _ _ => update_session (session_row s));;
      t_lift (session_to_domain (session_row s))
  end.

Definition token_update (t : RefreshToken) : AT RefreshToken :=
  row ← select_for_update (fun r => token_lock (rt_id r))
          (fun db => mret (db_tokens db !! rt_id t));
  match row with
  | None => t_lift (raise EntityNotFoundError)
  | Some _ =>
      stmt (fun _ _ => update_token t);;
      t_lift (token_to_domain t)
  end.

(** [RefreshTokenRepository] *)
Definition found_token (row : option RefreshToken) : res (option RefreshToken) :=
  match row with
  | None => mret None
  | Some r => t ← token_to_domain r; mret (Some t)
  end.

Definition get_by_hash_for_update (token_hash : bytes) : AT (option RefreshToken) :=
  row ← select_for_update (fun r => token_lock (rt_id r)) (fun db =>
          one_or_none (select (fun t => bool_decide (rt_token_hash t = token_hash))
                         (db_tokens db)));
  t_lift (found_token row).

Definition token_get (token_id : uuid) : AT (option RefreshToken) :=
  row ← query (fun db => mret (db_tokens db !! token_id));
  t_lift (found_token row).

(** ** AuthSessionRepository *)

(** [_with_token]: [model_copy] validates the copy. *)
Definition with_token (row : option SessionRow) (token : RefreshToken) :
    res (option AuthSession) :=
  match row with
  | None => mret None
  | Some r =>
      match AuthSession_validate (session_of r None);;
            AuthSession_validate (session_of r (Some token)) with
      | Ok s => mret (Some s)
      | Err x => if isinstance x InvalidDomainStateError then raise StoredStateError else Err x
      end
  end.

Definition create_session (s : AuthSession) : AT AuthSession :=
  session_create s;;
  match as_refresh_token s with
  | Some t => token_create t;; mret s
  | None => mret s
  end.

Definition save (s : AuthSession) : AT unit :=
  session_update s;;
  match as_refresh_token s with
  | Some t => token_update t;; mret tt
  | None => mret tt
  end;;
  match as_replacement_token s with
  | Some t => token_create t;; mret tt
  | None => mret tt
  end.

Definition get_by_refresh_hash_for_update (token_hash : bytes) : AT (option AuthSession) :=
  token ← get_by_hash_for_update token_hash;
  match token with
  | None => mret None
  | Some token =>
      row ← select_for_update (fun r => session_lock (sn_id r))
              (fun db => mret (db_sessions db !! rt_session_id token));
      t_lift (with_token row token)
  end.

Definition get_by_refresh_id (token_id : uuid) : AT (option AuthSession) :=
  token ← token_get token_id;
  match token with
  | None => mret None
  | Some token =>
      row ← query (fun db => mret (db_sessions db !! rt_session_id token));
      t_lift (with_token row token)
  end.

(** ** The invariant of the tables *)

Section invariant.
Context `{EmailSyntax}.

(** Rows are valid, belong to something that exists, and a session has at most one
    unused token: the chain of a login's tokens never forks. *)
Record auth_ok (db : database) : Prop := {
  au_users : users_ok (users db);
  au_session_key : keyed sn_id (db_sessions db);
  au_token_key : keyed rt_id (db_tokens db);
  au_session : forall i r, db_sessions db !! i = Some r -> AuthSession_inv (session_of r None);
  au_token : forall i t, db_tokens db !! i = Some t -> RefreshToken_inv t;
  au_hash : forall i j t u, db_tokens db !! i = Some t -> db_tokens db !! j = Some u ->
    rt_token_hash t = rt_token_hash u -> i = j;
  au_parent : forall i t, db_tokens db !! i = Some t -> exists r,
    db_sessions db !! rt_session_id t = Some r /\
    dt_us (sn_created_at r) <= dt_us (rt_created_at t);
  au_user : forall i r, db_sessions db !! i = Some r ->
    is_Some (users db !! sn_user_id r);
  au_single : forall i j t u, db_tokens db !! i = Some t -> db_tokens db !! j = Some u ->
    rt_session_id t = rt_session_id u -> is_used t = false -> is_used u = false -> i = j
}.

(** What the row locks [l] keep the others from changing.  A locked row stays.  A
    locked session keeps its tokens: adding one needs a KEY SHARE lock on the
    session for the foreign key, and every writer of a token in the service locks
    its session first. *)
Record respects_locks (l : gset row_lock) (db db' : database) : Prop := {
  rl_user : forall i, user_lock i ∈ l -> users db' !! i = users db !! i;
  rl_session : forall i, session_lock i ∈ l -> db_sessions db' !! i = db_sessions db !! i;
  rl_token : forall i, token_lock i ∈ l -> db_tokens db' !! i = db_tokens db !! i;
  rl_family : forall i k t, session_lock i ∈ l -> rt_session_id t = i ->
    db_tokens db' !! k = Some t <-> db_tokens db !! k = Some t
}.

(** ** What the statements do to it *)

Lemma session_to_domain_ok r :
  AuthSession_inv (session_of r None) -> session_to_domain r = Ok (session_of r None).
Proof.
  intros Hi. unfold session_to_domain.
  by rewrite (proj2 (AuthSession_validate_iff _ _) (conj eq_refl Hi)).
Qed.

Lemma token_to_domain_ok t : RefreshToken_inv t -> token_to_domain t = Ok t.
Proof.
  intros Hi. unfold token_to_domain.
  by rewrite (proj2 (RefreshToken_validate_iff _ _) (conj eq_refl Hi)).
Qed.

Lemma insert_session_ok r db u db' :
  auth_ok db -> AuthSession_inv (session_of r None) -> insert_session r db = Ok (u, db') ->
  db_sessions db !! sn_id r = None /\ db' = with_sessions (<[sn_id r := r]> (db_sessions db)) db /\
  auth_ok db'.
Proof.
  intros Hok Hi. unfold insert_session. destruct (session_check r); cbn [negb]; [|done].
  destruct (db_sessions db !! sn_id r) eqn:En; [done|].
  destruct (users db !! sn_user_id r) eqn:Eu; [|done]. intros [= _ <-].
  split; [done|]. split; [done|]. destruct Hok. constructor; cbn; try done.
  - intros i s [[<- <-]|[_ Hl]]%lookup_insert_Some; [done|by apply au_session_key0].
  - intros i s [[<- <-]|[_ Hl]]%lookup_insert_Some; [done|by eapply au_session0].
  - intros i t Ht. destruct (au_parent0 i t Ht) as (s & Hs & Hle). exists s.
    rewrite lookup_insert_ne; [done|]. intros E. congruence.
  - intros i s [[<- <-]|[_ Hl]]%lookup_insert_Some; [by rewrite Eu|by eapply au_user0].
Qed.

Lemma insert_token_ok t db u db' :
  auth_ok db -> RefreshToken_inv t ->
  (exists r, db_sessions db !! rt_session_id t = Some r /\
     dt_us (sn_created_at r) <= dt_us (rt_created_at t)) ->
  (forall i x, db_tokens db !! i = Some x -> rt_session_id x = rt_session_id t ->
     is_used x = true) ->
  insert_token t db = Ok (u, db') ->
  db_tokens db !! rt_id t = None /\ db' = with_tokens (<[rt_id t := t]> (db_tokens db)) db /\
  auth_ok db'.
Proof.
  intros Hok Hi Hp Hs. unfold insert_token. destruct (token_check t); cbn [negb]; [|done].
  destruct (existsb _ _) eqn:Eh; [done|].
  destruct (db_tokens db !! rt_id t) eqn:En; [done|].
  destruct (db_sessions db !! _) eqn:Er; [|done]. intros [= _ <-].
  split; [done|]. split; [done|].
  assert (Hne : forall i x, db_tokens db !! i = Some x -> rt_token_hash x <> rt_token_hash t).
  { intros i x Hx E. rewrite existsb_false in Eh.
    specialize (Eh x (proj2 (elem_of_rows _ _) (ex_intro _ i Hx))).
    by apply bool_decide_eq_false in Eh. }
  destruct Hok. constructor; cbn; try done.
  - intros i x [[<- <-]|[_ Hl]]%lookup_insert_Some; [done|by apply au_token_key0].
  - intros i x [[<- <-]|[_ Hl]]%lookup_insert_Some; [done|by eapply au_token0].
  - intros i j x y [[<- <-]|[Hi' Hx]]%lookup_insert_Some
      [[<- <-]|[Hj' Hy]]%lookup_insert_Some E; try done.
    + by destruct (Hne _ _ Hy).
    + by destruct (Hne _ _ Hx).
    + by eapply au_hash0.
  - intros i x [[<- <-]|[_ Hl]]%lookup_insert_Some; [by rewrite Er|by eapply au_parent0].
  - intros i j x y [[<- <-]|[Hi' Hx]]%lookup_insert_Some
      [[<- <-]|[Hj' Hy]]%lookup_insert_Some E Ux Uy; try done.
    + specialize (Hs _ _ Hy (eq_sym E)). congruence.
    + specialize (Hs _ _ Hx E). congruence.
    + by eapply au_single0.
Qed.

Lemma update_session_ok old r db u db' :
  auth_ok db -> db_sessions db !! sn_id r = Some old ->
  AuthSession_inv (session_of r None) ->
  sn_created_at r = sn_created_at old -> sn_user_id r = sn_user_id old ->
  update_session r db = Ok (u, db') ->
  db' = with_sessions (<[sn_id r := r]> (db_sessions db)) db /\ auth_ok db'.
Proof.
  intros Hok Hold Hi Hc Hu. unfold update_session. rewrite Hold.
  assert (Hput : auth_ok (with_sessions (<[sn_id r := r]> (db_sessions db)) db)).
  { destruct Hok. constructor; cbn; try done.
    - intros i s [[<- <-]|[_ Hl]]%lookup_insert_Some; [done|by apply au_session_key0].
    - intros i s [[<- <-]|[_ Hl]]%lookup_insert_Some; [done|by eapply au_session0].
    - intros i t Ht. destruct (au_parent0 i t Ht) as (s & Hs & Hle).
      destruct (decide (rt_session_id t = sn_id r)) as [E|E].
      + exists r. rewrite E, lookup_insert_eq. split; [done|]. rewrite E in Hs. congruence.
      + exists s. by rewrite lookup_insert_ne.
    - intros i s [[<- <-]|[_ Hl]]%lookup_insert_Some; [rewrite Hu|]; by eapply au_user0. }
  case_bool_decide as E.
  - intros [= _ <-]. subst old. rewrite insert_id in * by done. by destruct db.
  - destruct (session_check r); cbn [negb]; [|done]. by intros [= _ <-].
Qed.

Lemma update_token_ok old t db u db' :
  auth_ok db -> db_tokens db !! rt_id t = Some old -> RefreshToken_inv t ->
  rt_created_at t = rt_created_at old -> rt_session_id t = rt_session_id old ->
  rt_token_hash t = rt_token_hash old -> (is_used t = false -> is_used old = false) ->
  update_token t db = Ok (u, db') ->
  db' = with_tokens (<[rt_id t := t]> (db_tokens db)) db /\ auth_ok db'.
Proof.
  intros Hok Hold Hi Hc Hs Hh Hu. unfold update_token. rewrite Hold.
  assert (Hput : auth_ok (with_tokens (<[rt_id t := t]> (db_tokens db)) db)).
  { assert (Hget : forall i x, <[rt_id t := t]> (db_tokens db) !! i = Some x ->
      exists y, db_tokens db !! i = Some y /\ rt_token_hash x = rt_token_hash y /\
        rt_session_id x = rt_session_id y /\ rt_created_at x = rt_created_at y /\
        (is_used x = false -> is_used y = false)).
    { intros i x [[<- <-]|[_ Hl]]%lookup_insert_Some; eauto 8. }
    destruct Hok. constructor; cbn; try done.
    - intros i s [[<- <-]|[_ Hl]]%lookup_insert_Some; [done|by apply au_token_key0].
    - intros i s [[<- <-]|[_ Hl]]%lookup_insert_Some; [done|by eapply au_token0].
    - intros i j x y Hx Hy E. destruct (Hget _ _ Hx) as (x' & Hx' & Ex & _).
      destruct (Hget _ _ Hy) as (y' & Hy' & Ey & _). eapply au_hash0; [done..|congruence].
    - intros i x Hx. destruct (Hget _ _ Hx) as (x' & Hx' & _ & -> & -> & _).
      by eapply au_parent0.
    - intros i j x y Hx Hy E Ux Uy. destruct (Hget _ _ Hx) as (x' & Hx' & _ & Ex & _ & Fx).
      destruct (Hget _ _ Hy) as (y' & Hy' & _ & Ey & _ & Fy).
      eapply au_single0; [done..|congruence|auto|auto]. }
  case_bool_decide as E.
  - intros [= _ <-]. subst old. rewrite insert_id in * by done. by destruct db.
  - destruct (token_check t); cbn [negb]; [|done]. by intros [= _ <-].
Qed.

Lemma with_token_ok r t :
  AuthSession_inv (session_of r None) -> RefreshToken_inv t ->
  rt_session_id t = sn_id r -> dt_us (sn_created_at r) <= dt_us (rt_created_at t) ->
  with_token (Some r) t = Ok (Some (session_of r (Some t))) /\
  session_ok (session_of r (Some t)).
Proof.
  intros Hr Ht Hid Hle.
  assert (Hi : AuthSession_inv (session_of r (Some t))).
  { destruct Hr. constructor; cbn in *; try done. intros x [= <-]. by split. }
  split.
  - unfold with_token. rewrite (proj2 (AuthSession_validate_iff _ _) (conj eq_refl Hr)).
    cbn [mbind result_bind].
    by rewrite (proj2 (AuthSession_validate_iff _ _) (conj eq_refl Hi)).
  - constructor; cbn; [done| |done]. by intros x [= <-].
Qed.
End invariant.

(** ** Transactions under row locks *)

Section transactions.
Context `{EmailSyntax} (e : env database).

(** Other transactions keep the invariant and the rows this one has locked; clocks
    are aware. *)
Record auth_env : Prop := {
  ae_others : forall n l db, auth_ok db -> auth_ok (others e n l db);
  ae_locks : forall n l db, auth_ok db -> respects_locks l db (others e n l db);
  ae_clock : forall n, is_aware (clock e n) = true;
  ae_db_clock : forall n, is_aware (db_clock e n) = true
}.

Context (He : auth_env).

(** The transaction has locked the session [r] and its token [t]. *)
Record holds (r : SessionRow) (t : RefreshToken) (l : gset row_lock) (db : database) : Prop := {
  ho_ok : auth_ok db;
  ho_token_lock : token_lock (rt_id t) ∈ l;
  ho_session_lock : session_lock (sn_id r) ∈ l;
  ho_token : db_tokens db !! rt_id t = Some t;
  ho_session : db_sessions db !! sn_id r = Some r;
  ho_parent : rt_session_id t = sn_id r
}.

(** Every token of the session is used. *)
Definition all_used (r : SessionRow) (db : database) : Prop :=
  forall k x, db_tokens db !! k = Some x -> rt_session_id x = sn_id r -> is_used x = true.

Definition has_token (x : RefreshToken) (db : database) : Prop :=
  db_tokens db !! rt_id x = Some x.

Lemma holds_others r t n l db : holds r t l db -> holds r t l (others e n l db).
Proof.
  intros [Hok Ht Hs Htok Hses Hp]. destruct (ae_locks He n l db Hok).
  constructor; [by apply (ae_others He)|done..| | |done].
  - by rewrite rl_token0.
  - by rewrite rl_session0.
Qed.

Lemma all_used_others r t n l db :
  holds r t l db -> all_used r db -> all_used r (others e n l db).
Proof.
  intros [Hok _ Hs _ _ _] Ha k x Hx Hid. destruct (ae_locks He n l db Hok).
  eapply Ha; [|exact Hid]. by eapply (rl_family0 (sn_id r)).
Qed.

Lemma has_token_others r t x n l db :
  holds r t l db -> rt_session_id x = sn_id r -> has_token x db ->
  has_token x (others e n l db).
Proof.
  intros [Hok _ Hs _ _ _] Hid Hx. destruct (ae_locks He n l db Hok).
  by eapply (rl_family0 (sn_id r)).
Qed.

Lemma holds_weaken r t a l db : holds r t l db -> holds r t ({[a]} ∪ l) db.
Proof. intros []. constructor; try done; set_solver. Qed.

(** A statement of a transaction that holds [r] and [t] and knows [P]. *)
Lemma holds_stmt {A : Type} takes (f : datetime -> gset Z -> database -> res (A * database)) r t
    (P : database -> Prop) Q :
  (forall n l db, holds r t l db -> P db -> P (others e n l db)) ->
  (forall now lk l db a db', holds r t l db -> P db -> f now lk db = Ok (a, db') ->
     Q a (takes a l) db') ->
  lspec e auth_ok (fun l db => holds r t l db /\ P db) (locking_stmt takes f) Q.
Proof.
  intros HP HQ. apply lspec_stmt.
  - intros n l db. apply (ae_others He).
  - intros n l db [Hh Hp]. split; [by apply holds_others|by apply HP].
  - intros now lk l db a db' _ [Hh Hp]. by apply HQ.
Qed.

Lemma session_update_spec s r t (P : database -> Prop) :
  (forall n l db, holds r t l db -> P db -> P (others e n l db)) ->
  (forall db r', P db -> P (with_sessions r' db)) ->
  as_id s = sn_id r -> as_created_at s = sn_created_at r -> as_user_id s = sn_user_id r ->
  AuthSession_inv (session_of (session_row s) None) ->
  lspec e auth_ok (fun l db => holds r t l db /\ P db) (session_update s)
    (fun _ l db => holds (session_row s) t l db /\ P db).
Proof.
  intros HP HPs Hid Hc Hu Hi. unfold session_update.
  apply (lspec_bind _ _ _ _ _ (fun a l db => a = Some r /\ holds r t l db /\ P db)).
  { apply holds_stmt; [done|]. intros _ _ l db a db' Hh Hp. cbn. rewrite Hid.
    rewrite (ho_session _ _ _ _ Hh). intros [= <- <-]. split; [done|]. split; [|done].
    by apply holds_weaken. }
  intros a. apply lspec_pure. intros ->.
  apply (lspec_bind _ _ _ _ _ (fun _ l db => holds (session_row s) t l db /\ P db)).
  - apply holds_stmt; [done|]. intros _ _ l db a db' Hh Hp Hup.
    destruct (update_session_ok r (session_row s) db a db') as [-> Hok]; try done.
    + by apply (ho_ok _ _ _ _ Hh).
    + cbn. rewrite Hid. by apply (ho_session _ _ _ _ Hh).
    + split; [|by apply HPs]. destruct Hh. constructor; cbn; try done.
      * by rewrite Hid.
      * by rewrite lookup_insert_eq.
      * by rewrite Hid.
  - intros []. apply lspec_lift. intros x l db _ Hp. exact Hp.
Qed.

(** Marking the presented token: if it was the session's unused one, no unused one
    is left. *)
Lemma token_update_spec t' r t :
  rt_id t' = rt_id t -> rt_created_at t' = rt_created_at t ->
  rt_session_id t' = rt_session_id t -> rt_token_hash t' = rt_token_hash t ->
  RefreshToken_inv t' -> (is_used t' = false -> is_used t = false) ->
  lspec e auth_ok (fun l db => holds r t l db /\ True) (token_update t')
    (fun _ l db => holds r t' l db /\
       (is_used t = false -> is_used t' = true -> all_used r db)).
Proof.
  intros Hid Hc Hs Hh Hi Hu. unfold token_update.
  apply (lspec_bind _ _ _ _ _ (fun a l db => a = Some t /\ holds r t l db /\ True)).
  { apply holds_stmt; [done|]. intros _ _ l db a db' Hho _. cbn. rewrite Hid.
    rewrite (ho_token _ _ _ _ Hho). intros [= <- <-]. split; [done|]. split; [|done].
    by apply holds_weaken. }
  intros a. apply lspec_pure. intros ->.
  apply (lspec_bind _ _ _ _ _ (fun _ l db => holds r t' l db /\
    (is_used t = false -> is_used t' = true -> all_used r db))).
  - apply holds_stmt; [done|]. intros _ _ l db a db' Hho _ Hup.
    pose proof (ho_ok _ _ _ _ Hho) as Hok0. pose proof (ho_token _ _ _ _ Hho) as Ht0.
    destruct (update_token_ok t t' db a db') as [-> Hok]; try done.
    { by rewrite Hid. }
    split.
    + destruct Hho. constructor; cbn; try done; try congruence. by rewrite lookup_insert_eq.
    + intros Ut Ut' k x Hx Hx'. cbn in Hx.
      apply lookup_insert_Some in Hx as [[<- <-]|[Hk Hx]]; [done|].
      destruct (is_used x) eqn:Ex; [done|]. destruct Hk. rewrite Hid.
      eapply (au_single _ Hok0); [exact Ht0|exact Hx| |done|done].
      by rewrite Hx', (ho_parent _ _ _ _ Hho).
  - intros []. apply lspec_lift. intros x l db _ Hp. exact Hp.
Qed.

Lemma token_create_spec x r t :
  RefreshToken_inv x -> rt_session_id x = sn_id r ->
  dt_us (sn_created_at r) <= dt_us (rt_created_at x) ->
  lspec e auth_ok (fun l db => holds r t l db /\ all_used r db) (token_create x)
    (fun _ l db => holds r t l db /\ has_token x db).
Proof.
  intros Hi Hid Hle. unfold token_create.
  apply (lspec_bind _ _ _ _ _ (fun _ l db => holds r t l db /\ has_token x db)).
  - apply holds_stmt; [intros n l db; apply all_used_others|].
    intros _ _ l db a db' Hh Ha Hin.
    destruct (insert_token_ok x db a db' (ho_ok _ _ _ _ Hh) Hi) as (Hn & -> & Hok); try done.
    { exists r. rewrite Hid. split; [by apply (ho_session _ _ _ _ Hh)|done]. }
    { intros i y Hy Hyid. eapply Ha; [done|]. by rewrite Hyid. }
    split; [|by unfold has_token; cbn; rewrite lookup_insert_eq].
    apply holds_weaken. destruct Hh. constructor; cbn; try done. rewrite lookup_insert_ne; [done|].
    intros E. congruence.
  - intros []. apply lspec_lift. intros y l db _ Hp. exact Hp.
Qed.

(** ** Finding a session by the digest of a refresh token *)

Definition no_token_for (h : bytes) (db : database) : Prop :=
  forall k t, db_tokens db !! k = Some t -> rt_token_hash t <> h.

Lemma select_hash_none h db :
  one_or_none (select (fun t => bool_decide (rt_token_hash t = h)) (db_tokens db)) = Ok None ->
  no_token_for h db.
Proof.
  intros E k t Ht Hh.
  assert (Hin : t ∈ select (fun t => bool_decide (rt_token_hash t = h)) (db_tokens db))
    by (apply elem_of_select; split; [eauto|by apply bool_decide_eq_true]).
  destruct (select _ _) as [|? [|]]; [by apply elem_of_nil in Hin|done..].
Qed.

Lemma get_by_refresh_hash_known h (P : database -> Prop) :
  (forall n l db, auth_ok db -> P db -> P (others e n l db)) ->
  lspec e auth_ok (fun _ db => auth_ok db /\ P db) (get_by_refresh_hash_for_update h)
    (fun o l db => match o with
       | None => auth_ok db /\ no_token_for h db
       | Some s => exists r t, s = session_of r (Some t) /\ session_ok s /\
           rt_token_hash t = h /\ holds r t l db /\ P db
       end).
Proof.
  intros HP. unfold get_by_refresh_hash_for_update, get_by_hash_for_update.
  apply (lspec_bind _ _ _ _ _ (fun a l db => match a with
    | None => auth_ok db /\ no_token_for h db
    | Some t => rt_token_hash t = h /\ RefreshToken_inv t /\ auth_ok db /\ P db /\
        token_lock (rt_id t) ∈ l /\ db_tokens db !! rt_id t = Some t end)).
  - apply (lspec_bind _ _ _ _ _ (fun a l db => match a with
      | None => auth_ok db /\ no_token_for h db
      | Some t => rt_token_hash t = h /\ auth_ok db /\ P db /\
        token_lock (rt_id t) ∈ l /\ db_tokens db !! rt_id t = Some t end)).
    + apply lspec_stmt; [intros n l db; apply (ae_others He)| |].
      { intros n l db [Hok Hp]. split; [by apply (ae_others He)|by apply HP]. }
      intros _ _ l db a db' _ [Hok Hp]. destruct (one_or_none _) as [[t|]|] eqn:E; [| |done].
      2: { intros [= <- <-]. split; [done|]. by apply select_hash_none. }
      intros [= <- <-]. apply one_or_none_some in E.
      assert (Hin : t ∈ select (fun t => bool_decide (rt_token_hash t = h)) (db_tokens db))
        by (rewrite E; left).
      apply elem_of_select in Hin as [[i Hi] Hh%bool_decide_eq_true].
      pose proof (au_token_key _ Hok _ _ Hi) as Hk. subst i. cbn. set_solver.
    + intros [t|].
      * apply lspec_lift. intros a l db. intros Ha (Hh & Hok & Hp & Hl & Ht).
        pose proof (au_token _ Hok _ _ Ht) as Hi. cbn in Ha.
        rewrite (token_to_domain_ok _ Hi) in Ha. injection Ha as <-. done.
      * apply lspec_lift. intros a l db [= <-]. done.
  - intros [t|]; [|by apply lspec_ret].
    apply (lspec_bind _ _ _ _ _ (fun a l db => exists r, a = Some r /\
      rt_token_hash t = h /\ holds r t l db /\ P db)).
    + apply lspec_stmt; [intros n l db; apply (ae_others He)| |].
      * intros n l db (Hh & Hi & Hok & Hp & Hl & Ht). do 2 (split; [done|]).
        split; [by apply (ae_others He)|]. split; [by apply HP|]. split; [done|].
        by rewrite (rl_token _ _ _ (ae_locks He n l db Hok)).
      * intros _ _ l db a db' _ (Hh & Hi & Hok & Hp & Hl & Ht). intros [= <- <-].
        destruct (au_parent _ Hok _ _ Ht) as (r & Hr & Hle). rewrite Hr.
        exists r. split; [done|]. split; [done|]. split; [|done].
        pose proof (au_session_key _ Hok _ _ Hr) as Hk.
        cbn. constructor; [done|set_solver|set_solver|done|by rewrite Hk|done].
    + intros a. apply lspec_lift. intros o l db Ho (r & -> & Hh & Hho & Hp).
      pose proof (ho_ok _ _ _ _ Hho) as Hok. pose proof (ho_token _ _ _ _ Hho) as Ht.
      destruct (au_parent _ Hok _ _ Ht) as (r' & Hr & Hle).
      rewrite (ho_parent _ _ _ _ Hho), (ho_session _ _ _ _ Hho) in Hr. injection Hr as <-.
      destruct (with_token_ok r t) as [Hw Hs]; [|by eapply au_token|by apply Hho|done|].
      { eapply (au_session _ Hok), (ho_session _ _ _ _ Hho). }
      rewrite Hw in Ho. injection Ho as <-. eauto 9.
Qed.

Lemma get_by_refresh_hash_spec h :
  lspec e auth_ok (fun _ db => auth_ok db) (get_by_refresh_hash_for_update h)
    (fun o l db => match o with
       | None => auth_ok db /\ no_token_for h db
       | Some s => exists r t, s = session_of r (Some t) /\ session_ok s /\
           rt_token_hash t = h /\ holds r t l db
       end).
Proof.
  eapply lspec_weaken; [by apply (get_by_refresh_hash_known h (fun _ => True))|done|].
  intros [s|] l db; [|done]. intros (r & t & ? & ? & ? & ? & _). eauto 8.
Qed.

(** Saving a session that was only revoked, or not changed at all. *)
Lemma save_revoked_spec r t now s' :
  session_ok (session_of r (Some t)) -> revoke (session_of r (Some t)) now = Ok s' ->
  lspec e auth_ok (fun l db => holds r t l db) (save s')
    (fun _ l db => exists r', holds r' t l db /\ sn_revoked_at r' <> None).
Proof.
  intros [Hs Ht _] Hr. destruct (revoke_ok _ _ _ Hs Hr) as (Hi & Hs' & Hn).
  assert (Hsh : as_id s' = sn_id r /\ as_created_at s' = sn_created_at r /\
    as_user_id s' = sn_user_id r /\ as_refresh_token s' = Some t /\
    as_replacement_token s' = None).
  { rewrite Hs'. by destruct (as_revoked_at _). }
  destruct Hsh as (Hid & Hc & Hu & Htok & Hrep).
  assert (Hrow : AuthSession_inv (session_of (session_row s') None)).
  { destruct Hi. constructor; cbn; done. }
  unfold save. rewrite Htok, Hrep.
  apply (lspec_bind _ _ _ _ _ (fun _ l db => holds (session_row s') t l db /\ True)).
  { eapply lspec_weaken; [apply (session_update_spec s' r t (fun _ => True)); done| |].
    - intros l db Hh. done.
    - intros a l db Hh. exact Hh. }
  intros _. apply (lspec_bind _ _ _ _ _ (fun _ l db => holds (session_row s') t l db)).
  - apply (lspec_bind _ _ _ _ _ (fun _ l db => holds (session_row s') t l db)).
    + eapply lspec_weaken; [apply (token_update_spec t (session_row s') t); try done| |].
      * by apply Ht.
      * intros l db Hh. exact Hh.
      * intros a l db [Hh _]. exact Hh.
    + intros _. by apply lspec_ret.
  - intros _. apply lspec_ret. intros l db Hh. by exists (session_row s').
Qed.

(** Saving a rotated session: the presented token is spent and its replacement is
    the session's only unused token. *)
Lemma save_rotated_spec r t new_id now ttl h s' x :
  session_ok (session_of r (Some t)) -> rotate (session_of r (Some t)) new_id now ttl h = Ok (s', x) ->
  is_used t = false /\ live (session_of r (Some t)) now /\
  x = fresh_token (session_of r (Some t)) new_id now h /\
  lspec e auth_ok (fun l db => holds r t l db) (save s')
    (fun _ l db => holds (session_row s') (mark_used t now) l db /\ has_token x db /\
       sn_revoked_at (session_row s') = None /\
       sn_idle_expires_at (session_row s') = dt_add now ttl /\
       sn_id (session_row s') = sn_id r).
Proof.
  intros Hs Hr. pose proof (rotate_rotates _ new_id now ttl h s' x Hs) as [Hrot _].
  specialize (Hrot Hr).
  assert (Hs' : session_ok s') by (by eapply rotates_session_ok).
  destruct Hrot as (t0 & Ht0 & Hu & Httl & Haw & Hlive & Hlen & Hle & Hid & Hh & Ex & Es).
  cbn in Ht0. injection Ht0 as <-. split; [done|]. split; [done|]. split; [done|].
  destruct Hs' as [Hi Htk Hrp].
  assert (Hrow : AuthSession_inv (session_of (session_row s') None)).
  { destruct Hi. constructor; cbn; done. }
  assert (Hmi : RefreshToken_inv (mark_used t now)) by (apply Htk; by rewrite Es).
  assert (Hxi : RefreshToken_inv x) by (apply Hrp; by rewrite Es, Ex).
  assert (Hrev : sn_revoked_at r = None) by apply Hlive.
  unfold save. rewrite Es. cbn [as_refresh_token as_replacement_token with_rotation].
  rewrite <- Es.
  apply (lspec_bind _ _ _ _ _ (fun _ l db => holds (session_row s') t l db /\ True)).
  { eapply lspec_weaken;
      [apply (session_update_spec s' r t (fun _ => True)); try done; by rewrite Es| |].
    - intros l db Hh'. done.
    - intros a l db Hh'. exact Hh'. }
  intros _. apply (lspec_bind _ _ _ _ _ (fun _ l db =>
    holds (session_row s') (mark_used t now) l db /\ all_used (session_row s') db)).
  - eapply lspec_bind.
    + by apply (token_update_spec (mark_used t now) (session_row s') t).
    + intros a. apply lspec_ret. intros l db [Hho Hall]. split; [done|]. by apply Hall.
  - intros _. eapply lspec_bind.
    + apply (token_create_spec x (session_row s') (mark_used t now)); [done| |].
      * by rewrite Ex, Es.
      * rewrite Ex, Es. cbn. apply Hlive.
    + intros a. apply lspec_ret. intros l db [Hho Hx]. split; [done|]. split; [done|].
      by rewrite Es.
Qed.
End transactions.
