(* ===== verification/AuthFlow.v ===== *)
(** * Signing in and out

    The handlers of [application/use_cases/login], [logout] and
    [get_current_user] over the users, sessions and refresh tokens.  The password
    hasher, the access-token issuer and verifier and the source of random text are
    interfaces. *)

From S2P Require Import Prelude Exceptions Domain Retry Text Json Sql Registration Effects.
From S2P Require Import Accounts Idempotency Database Fingerprint Tokens Sessions.

(** [PasswordHasherProtocol.verify_or_dummy], recorded because it is the expensive
    step an attacker can time. *)
Inductive auth_event : Set :=
| PasswordWork (password : string) (stored : option string) (answer : res bool).

Abbreviation AM := (M database auth_event).

(** application/dto/current_user.py *)
Record CurrentUser := {
  cu_id : uuid;
  cu_email : string;
  cu_role : UserRole;
  cu_created_at : datetime
}.

Section handlers.
Context `{EmailSyntax} `{PasswordHasher} `{Sha256} `{RandomTokens} `{AccessTokenIssuer}
  `{AccessTokenVerifier}.
(** [session_idle_ttl], in microseconds. *)
Context (session_idle_ttl : Z).

(** ** Users under a row lock *)

Definition user_for_update (user_id : uuid) : AT (option User) :=
  select_for_update (fun u => user_lock (u_id u))
    (fun db => user_get_for_update user_id (users db)).

(** ** login/handler.py *)

Record LoginCommand := { lc_email : string; lc_password : string }.

(** [UseCaseInput.validate_input] turns a [ValidationError] into
    [InvalidCommandError]; what the e-mail type raises passes through. *)
Definition LoginCommand_new (email password : string) : res LoginCommand :=
  email ← NormalizedEmail_new email;
  raise_unless ((1 <=? String.length password)%nat && (String.length password <=? 128)%nat)
    EInvalidCommand;;
  mret {| lc_email := email; lc_password := password |}.

(** [Argon2PasswordHasher.verify_or_dummy] *)
Definition verify_or_dummy (n : nat) (password : string) (password_hash : option string) :
    res bool :=
  match password_hash with
  | None => hash_password n password;; mret false
  | Some h => verify_password password h
  end.

Definition stored_hash (candidate : option User) : option string :=
  match candidate with
  | Some u => if can_authenticate u then Some (u_password_hash u) else None
  | None => None
  end.

(** The second transaction of [LoginHandler.execute]. *)
Definition login_body (candidate : User) (password_hash : string) : AT TokenPair :=
  user ← user_for_update (u_id candidate);
  match user with
  | None => t_lift (raise InvalidCredentialsError)
  | Some user =>
      if negb (can_authenticate user)
         || negb (bool_decide (u_password_hash user = password_hash))
      then t_lift (raise InvalidCredentialsError)
      else
        now ← t_tick clock;
        issued ← issue user now;
        session_id ← t_tick new_uuid;
        token_id ← t_tick new_uuid;
        session ← t_lift (start session_id token_id (u_id user) (itp_refresh_digest issued)
                            now session_idle_ttl);
        create_session session;;
        mret (itp_pair issued)
  end.

Definition login (command : LoginCommand) : AM TokenPair :=
  candidate ← transaction (query (fun db => user_by_email (lc_email command) (users db)));
  let password_hash := stored_hash candidate in
  verified ← call (fun n => verify_or_dummy n (lc_password command) password_hash)
               (PasswordWork (lc_password command) password_hash);
  match candidate, password_hash with
  | Some candidate, Some h =>
      if verified : bool then transaction (login_body candidate h)
      else lift (raise InvalidCredentialsError)
  | _, _ => lift (raise InvalidCredentialsError)
  end.

(** ** logout/handler.py *)

Definition logout_body (refresh_token : string) : AT unit :=
  session ← get_by_refresh_hash_for_update (digest refresh_token);
  match session with
  | None => mret tt
  | Some session =>
      now ← t_tick clock;
      session ← t_lift (revoke session now);
      save session
  end.

Definition logout (refresh_token : option string) : AM unit :=
  match refresh_token with
  | None => mret tt
  | Some refresh_token => transaction (logout_body refresh_token)
  end.

(** ** get_current_user/handler.py *)

Definition CurrentUser_of (u : User) : res CurrentUser :=
  email ← NormalizedEmail_new (u_email u);
  mret {| cu_id := u_id u; cu_email := email; cu_role := u_role u;
          cu_created_at := u_created_at u |}.

Definition get_current_user (access_token : string) : AM CurrentUser :=
  now ← get_now;
  claims ← lift (access_verify now access_token);
  user ← transaction (
    user ← query (fun db => user_get (ac_user_id claims) (users db));
    match user with
    | None => t_lift (raise InvalidTokenError)
    | Some u => if can_authenticate u then mret u else t_lift (raise InvalidTokenError)
    end);
  lift (CurrentUser_of user).
End handlers.

(** ** Correctness *)

Section correctness.
Context `{EmailSyntax} `{PasswordHasher} `{Sha256} `{RandomTokens} `{AccessTokenIssuer}
  `{AccessTokenVerifier}.
Context (session_idle_ttl : Z) (e : env database) (He : auth_env e).

(** Every stored token with this digest belongs to a revoked session. *)
Definition family_revoked (h : bytes) (db : database) : Prop :=
  forall k t, db_tokens db !! k = Some t -> rt_token_hash t = h ->
    exists r, db_sessions db !! rt_session_id t = Some r /\ sn_revoked_at r <> None.

Lemma holds_family_revoked r t l db :
  holds r t l db -> sn_revoked_at r <> None -> family_revoked (rt_token_hash t) db.
Proof.
  intros [Hok _ _ Ht Hs Hp] Hr k x Hx Hh.
  rewrite (au_hash _ Hok _ _ _ _ Hx Ht Hh) in Hx. assert (x = t) as -> by congruence.
  exists r. by rewrite Hp.
Qed.

Lemma logout_body_spec token :
  lspec e auth_ok (fun _ db => auth_ok db) (logout_body token)
    (fun _ _ db => auth_ok db /\ family_revoked (digest token) db).
Proof.
  unfold logout_body.
  eapply lspec_bind; [exact (get_by_refresh_hash_spec e He (digest token))|].
  intros [s|]; cbv beta.
  - apply (lspec_bind _ _ _ _ _ (fun _ l db => exists r t, s = session_of r (Some t) /\
      session_ok s /\ rt_token_hash t = digest token /\ holds r t l db)).
    { by apply lspec_tick. }
    intros now t0 Ha HI (r & t & -> & Hs & Hh & Hho). revert t0 Ha HI Hho.
    change (lspec e auth_ok (fun l db => holds r t l db)
      (s' ← t_lift (revoke (session_of r (Some t)) now); save s')
      (fun _ _ db => auth_ok db /\ family_revoked (digest token) db)).
    apply (lspec_bind _ _ _ _ _ (fun s' l db =>
      revoke (session_of r (Some t)) now = Ok s' /\ holds r t l db)).
    { apply lspec_lift. by intros s' l db -> Hho. }
    intros s'. apply lspec_pure. intros Hr.
    eapply lspec_weaken; [by apply (save_revoked_spec e He r t now s')|done|].
    intros _ l db (r' & Hho & Hn). split; [by apply Hho|].
    rewrite <- Hh. by apply (holds_family_revoked r' t l).
  - apply lspec_ret. intros l db [Hok Hn]. split; [done|]. intros k t Ht Hh.
    by destruct (Hn k t Ht).
Qed.

Lemma logout_run token (w : world database auth_event) :
  auth_ok (w_db w) ->
  match logout (Some token) e w with
  | (Ok _, w') => auth_ok (w_db w') /\ family_revoked (digest token) (w_db w')
  | (Err _, w') => auth_ok (w_db w')
  end.
Proof.
  intros Hok.
  exact (mspec_locking_transaction e (logout_body token) auth_ok auth_ok
    (fun _ db => family_revoked (digest token) db) (ae_db_clock e He) (fun _ H => H)
    (logout_body_spec token) w Hok).
Qed.

(** C38. Signing out: whatever runs besides, once [logout] has answered, every stored
    refresh token with the digest of the presented one belongs to a revoked
    session; an unknown token is accepted in silence.  Success or failure, the
    tables keep their invariant. *)
Theorem logout_revokes token (w : world database auth_event) :
  auth_ok (w_db w) ->
  match logout (Some token) e w with
  | (Ok _, w') => auth_ok (w_db w') /\ family_revoked (digest token) (w_db w')
  | (Err _, w') => auth_ok (w_db w')
  end.
Proof. apply logout_run. Qed.

(** *** Signing in *)

(** The session and the token a login stores. *)
Definition login_session (session_id user_id : uuid) (now : datetime) : SessionRow :=
  {| sn_id := session_id; sn_created_at := now; sn_user_id := user_id;
     sn_idle_expires_at := dt_add now session_idle_ttl; sn_revoked_at := None |}.

Definition login_token (token_id session_id : uuid) (h : bytes) (now : datetime) :
    RefreshToken :=
  {| rt_id := token_id; rt_created_at := now; rt_session_id := session_id;
     rt_token_hash := h; rt_used_at := None |}.

Lemma start_shape sid tid uid h now s :
  start sid tid uid h now session_idle_ttl = Ok s ->
  s = session_of (login_session sid uid now) (Some (login_token tid sid h now)) /\
  AuthSession_inv (session_of (login_session sid uid now) None) /\
  RefreshToken_inv (login_token tid sid h now).
Proof.
  unfold start. intros Hs. ok_inv.
  apply RefreshToken_validate_iff in Hok0 as [-> Ht].
  apply AuthSession_validate_iff in Hs as [-> Hs].
  split; [done|]. split; [|exact Ht]. destruct Hs. by constructor.
Qed.

(** The committed state of a successful login of [u]. *)
Definition signed_in (u : User) (pair : TokenPair) (db : database) : Prop :=
  users db !! u_id u = Some u /\ can_authenticate u = true /\
  exists sid tid now,
    db_sessions db !! sid = Some (login_session sid (u_id u) now) /\
    db_tokens db !! tid =
      Some (login_token tid sid (digest (tp_refresh_token pair)) now).

(** The account is locked, and from the second step on the new session too. *)
Definition locked_user (u : User) (l : gset row_lock) (db : database) : Prop :=
  auth_ok db /\ user_lock (u_id u) ∈ l /\ users db !! u_id u = Some u.

Definition opened (u : User) (r : SessionRow) (l : gset row_lock) (db : database) : Prop :=
  locked_user u l db /\ session_lock (sn_id r) ∈ l /\ db_sessions db !! sn_id r = Some r /\
  forall k x, db_tokens db !! k = Some x -> rt_session_id x <> sn_id r.

Lemma locked_user_others u n l db : locked_user u l db -> locked_user u l (others e n l db).
Proof.
  intros (Hok & Hl & Hu). split; [by apply (ae_others _ He)|]. split; [done|].
  by rewrite (rl_user _ _ _ (ae_locks _ He n l db Hok)).
Qed.

Lemma opened_others u r n l db : opened u r l db -> opened u r l (others e n l db).
Proof.
  intros (Hu & Hl & Hr & Hn). pose proof (ae_locks _ He n l db (proj1 Hu)) as Hrl.
  split; [by apply locked_user_others|]. split; [done|].
  split; [by rewrite (rl_session _ _ _ Hrl)|]. intros k x Hx E. apply (Hn k x); [|done].
  by eapply (rl_family _ _ _ Hrl (sn_id r)).
Qed.

Lemma user_get_for_update_found i db u :
  users_ok (users db) -> user_get_for_update i (users db) = Ok (Some u) ->
  users db !! i = Some u /\ u_id u = i.
Proof.
  intros [Hk Hr _]. unfold user_get_for_update, one_user.
  destruct (one_or_none _) as [[x|]|] eqn:E; [|done..]. apply one_or_none_some in E.
  assert (Hin : x ∈ select (fun r => u_id r =? i) (users db)) by (rewrite E; left).
  apply elem_of_select in Hin as [[j Hj] Hi%Z.eqb_eq].
  cbn. rewrite (user_to_domain_ok _ (Hr _ _ Hj)). intros [= <-].
  pose proof (Hk _ _ Hj) as Hkj. split; [|done]. by rewrite <- Hi, Hkj.
Qed.

Lemma user_for_update_spec i :
  lspec e auth_ok (fun _ db => auth_ok db) (user_for_update i)
    (fun o l db => match o with None => auth_ok db
                   | Some u => u_id u = i /\ locked_user u l db end).
Proof.
  apply lspec_stmt; [intros n l db; apply (ae_others _ He)..|].
  intros _ _ l db o db' _ Hok. destruct (user_get_for_update _ _) as [o'|] eqn:E; [|done].
  intros [= <- <-]. destruct o' as [u|]; [|done].
  destruct (user_get_for_update_found _ _ _ (au_users _ Hok) E) as [Hu Hi].
  split; [done|]. split; [done|]. subst i. cbn. set_solver.
Qed.

Lemma lspec_keep {A : Type} (body : AT A) (P : gset row_lock -> database -> Prop)
    (phi : A -> Prop) :
  (forall t, match body e t with
             | (Ok a, t') => phi a /\ tx_base t' = tx_base t /\ tx_view t' = tx_view t /\
                 tx_locks t' = tx_locks t /\ tx_now t' = tx_now t
             | (Err _, t') => tx_base t' = tx_base t
             end) ->
  lspec e auth_ok P body (fun a l db => phi a /\ P l db).
Proof.
  intros Hb t Ha HI HP. specialize (Hb t). destruct (body e t) as [[a|x] t'].
  - by destruct Hb as (Hphi & -> & -> & -> & ->).
  - by rewrite Hb.
Qed.

(** Issuing a pair touches no table; the digest is that of the refresh token. *)
Lemma issue_spec u now P :
  lspec e auth_ok P (issue u now)
    (fun i l db => itp_refresh_digest i = digest (tp_refresh_token (itp_pair i)) /\ P l db).
Proof.
  apply lspec_keep. intros t. unfold issue, codec_issue, mbind, T_bind, t_tick, t_lift.
  destruct (access_issue _ _ _) as [a|]; [|done]. unfold IssuedRefreshToken_new.
  destruct (raise_if _ _); cbn; [|done]. by destruct (raise_unless _ _).
Qed.

Lemma create_session_spec u r t :
  AuthSession_inv (session_of r None) -> RefreshToken_inv t -> rt_session_id t = sn_id r ->
  dt_us (sn_created_at r) <= dt_us (rt_created_at t) ->
  lspec e auth_ok (fun l db => locked_user u l db) (create_session (session_of r (Some t)))
    (fun _ l db => locked_user u l db /\ db_sessions db !! sn_id r = Some r /\
       db_tokens db !! rt_id t = Some t).
Proof.
  intros Hr Ht Hid Hle. unfold create_session, session_create. rewrite session_row_of.
  cbn [as_refresh_token session_of].
  apply (lspec_bind _ _ _ _ _ (fun _ l db => opened u r l db)).
  { apply (lspec_bind _ _ _ _ _ (fun _ l db => opened u r l db)).
    - apply lspec_stmt; [intros n l db; apply (ae_others _ He)|
        intros n l db; apply locked_user_others|].
      intros _ _ l db a db' _ (Hok & Hl & Hu) Hin.
      destruct (insert_session_ok _ db a db' Hok Hr Hin) as (Hn & -> & Hok').
      split; [split; [done|split; [set_solver|done]]|]. split; [cbn; set_solver|].
      split; [cbn; by rewrite lookup_insert_eq|]. intros k x Hx E.
      destruct (au_parent _ Hok k x Hx) as (r' & Hr' & _). cbn in Hn. congruence.
    - intros a. apply lspec_lift. by intros s l db _ Ho. }
  intros _. apply (lspec_bind _ _ _ _ _ (fun _ l db => locked_user u l db /\
    db_sessions db !! sn_id r = Some r /\ db_tokens db !! rt_id t = Some t)).
  2: { intros _. apply lspec_ret. intros l db Hl. exact Hl. }
  apply (lspec_bind _ _ _ _ _ (fun _ l db => locked_user u l db /\
    db_sessions db !! sn_id r = Some r /\ db_tokens db !! rt_id t = Some t)).
  2: { intros a. apply lspec_lift. intros x l db _ Hl. exact Hl. }
  apply lspec_stmt; [intros n l db; apply (ae_others _ He)|
    intros n l db; apply opened_others|].
  intros _ _ l db a db' _ ((Hok & Hl & Hu) & Hsl & Hs & Hn) Hin.
  destruct (insert_token_ok t db a db' Hok Ht) as (_ & -> & Hok'); [| |done|].
  - exists r. by rewrite Hid.
  - intros k x Hx Hx'. destruct (Hn k x Hx). by rewrite Hx'.
  - split; [split; [done|split; [set_solver|done]]|]. split; [done|].
    cbn. by rewrite lookup_insert_eq.
Qed.

Lemma login_body_spec c h :
  lspec e auth_ok (fun _ db => auth_ok db) (login_body session_idle_ttl c h)
    (fun pair _ db => auth_ok db /\
       exists u, u_id u = u_id c /\ u_password_hash u = h /\ signed_in u pair db).
Proof.
  unfold login_body. eapply lspec_bind; [exact (user_for_update_spec (u_id c))|].
  intros [u|]; cbv beta; [|by apply lspec_lift].
  destruct (negb (can_authenticate u) || _) eqn:E; [by apply lspec_lift|].
  apply orb_false_iff in E as [Ha%negb_false_iff Hh%negb_false_iff%bool_decide_eq_true].
  apply lspec_pure. intros Hid.
  apply (lspec_bind _ _ _ _ _ (fun _ l db => locked_user u l db)); [by apply lspec_tick|].
  intros now. eapply lspec_bind; [exact (issue_spec u now (locked_user u))|]. intros i. cbv beta.
  apply lspec_pure. intros Hdig.
  apply (lspec_bind _ _ _ _ _ (fun _ l db => locked_user u l db)); [by apply lspec_tick|].
  intros sid.
  apply (lspec_bind _ _ _ _ _ (fun _ l db => locked_user u l db)); [by apply lspec_tick|].
  intros tid.
  apply (lspec_bind _ _ _ _ _ (fun s l db =>
    start sid tid (u_id u) (itp_refresh_digest i) now session_idle_ttl = Ok s /\
    locked_user u l db)).
  { apply lspec_lift. by intros s l db -> Hl. }
  intros s. apply lspec_pure. intros (-> & Hr & Ht)%start_shape.
  eapply lspec_bind.
  { apply (create_session_spec u); [exact Hr|exact Ht|done|]. cbn. lia. }
  intros a. apply lspec_ret. intros l db ((Hok & _ & Hu) & Hs & Htok).
  split; [done|]. exists u. split; [done|]. split; [done|]. split; [done|]. split; [done|].
  exists sid, tid, now. split; [exact Hs|]. rewrite <- Hdig. exact Htok.
Qed.

(** The account a login was checked against, as it was found by e-mail. *)
Definition checked (command : LoginCommand) (u : User) (db : database) : Prop :=
  exists c, users db !! u_id u = Some c /\ u_email c = lc_email command /\
    u_password_hash u = u_password_hash c /\ can_authenticate c = true /\
    verify_password (lc_password command) (u_password_hash c) = Ok true.

Lemma user_by_email_found email db u :
  users_ok (users db) -> user_by_email email (users db) = Ok (Some u) ->
  users db !! u_id u = Some u /\ u_email u = email.
Proof.
  intros [Hk Hr _]. unfold user_by_email, one_user.
  destruct (one_or_none _) as [[x|]|] eqn:E; [|done..]. apply one_or_none_some in E.
  assert (Hin : x ∈ select (fun r => bool_decide (u_email r = email)) (users db))
    by (rewrite E; left).
  apply elem_of_select in Hin as [[j Hj] Hi%bool_decide_eq_true].
  cbn. rewrite (user_to_domain_ok _ (Hr _ _ Hj)). intros [= <-].
  pose proof (Hk _ _ Hj) as Hkj. split; [|done]. by rewrite Hkj.
Qed.

Lemma find_candidate email :
  mspec e (fun w => auth_ok (w_db w))
    (transaction (Ev := auth_event) (query (fun db => user_by_email email (users db))))
    (fun o w => auth_ok (w_db w) /\ match o with
       | None => True
       | Some c => u_email c = email /\
           exists db, auth_ok db /\ users db !! u_id c = Some c end)
    (fun _ w => auth_ok (w_db w)).
Proof.
  apply (mspec_locking_transaction (Ev := auth_event) e _ auth_ok auth_ok (fun o _ =>
    match o with
    | None => True
    | Some c => u_email c = email /\ exists db, auth_ok db /\ users db !! u_id c = Some c
    end)); [apply (ae_db_clock _ He)|done|].
  apply lspec_stmt; [intros n l db; apply (ae_others _ He)..|].
  intros _ _ l db o db' _ Hok. destruct (user_by_email _ _) as [o'|] eqn:E; [|done].
  intros [= <- <-]. split; [done|]. destruct o' as [c|]; [|done].
  destruct (user_by_email_found _ _ _ (au_users _ Hok) E) as [Hc He']. split; [done|]. by exists db.
Qed.

Lemma login_run command (w : world database auth_event) :
  auth_ok (w_db w) ->
  match login session_idle_ttl command e w with
  | (Ok tokens, w') =>
      auth_ok (w_db w') /\
      exists u db, signed_in u tokens (w_db w') /\ auth_ok db /\ checked command u db
  | (Err _, w') => auth_ok (w_db w')
  end.
Proof.
  intros Hok. pose proof (find_candidate (lc_email command) w Hok) as Hc.
  unfold login, mbind, M_bind. destruct (transaction _ e w) as [[o|x] w1]; [|exact Hc].
  destruct Hc as [Hok1 Hc]. unfold call, lift.
  destruct (verify_or_dummy _ _ _) as [verified|] eqn:Ev; [|exact Hok1].
  destruct o as [c|]; cbn [stored_hash] in *; [|exact Hok1].
  destruct (can_authenticate c) eqn:Ea; [|exact Hok1].
  destruct verified; [|exact Hok1]. destruct Hc as (Hem & db & Hdb & Hcu).
  match goal with |- match transaction _ _ ?w2 with _ => _ end =>
    pose proof (mspec_locking_transaction (Ev := auth_event) e
      (login_body session_idle_ttl c (u_password_hash c)) auth_ok auth_ok
      _ (ae_db_clock e He) (fun _ H => H) (login_body_spec c (u_password_hash c)) w2 Hok1) as Hb
  end.
  destruct (transaction _ e _) as [[tokens|x] w2]; [|exact Hb].
  destruct Hb as (Hok2 & u & Hid & Hh & Hin). split; [done|]. exists u, db. split; [done|].
  split; [done|]. exists c. by rewrite Hid.
Qed.

(** Signing in: whatever runs besides, a pair is returned only for an account
    found by the command's e-mail whose password hash accepts the password, and
    when it is, that account is at the commit still active with that very hash, and
    the session and the unused refresh token stored for it are the returned pair's:
    the token's digest is that of the returned refresh token, and the session is
    not revoked and expires [session_idle_ttl] after it was opened.  Success or
    failure, the tables keep their invariant. *)
Theorem login_spec command (w : world database auth_event) :
  auth_ok (w_db w) ->
  match login session_idle_ttl command e w with
  | (Ok tokens, w') =>
      auth_ok (w_db w') /\
      exists u db, signed_in u tokens (w_db w') /\ auth_ok db /\ checked command u db
  | (Err _, w') => auth_ok (w_db w')
  end.
Proof. apply login_run. Qed.

End correctness.

(** ** Examples *)

Definition demo_hasher : PasswordHasher := {|
  hash_password _ p := Ok ("argon2:" ++ p)%string;
  verify_password p h := Ok (bool_decide (h = ("argon2:" ++ p)%string))
|}.

(** The tick itself: random text, as far as an example goes. *)
Definition demo_tokens : RandomTokens := fun n => str (int_chars (Z.of_nat n)).
Definition demo_issuer : AccessTokenIssuer := fun p now jti => Ok "access"%string.

Definition demo_account : User :=
  {| u_id := 3; u_created_at := utc 10; u_updated_at := None;
     u_email := "ann@example.org"; u_password_hash := "argon2:secret"; u_role := USER;
     u_status := ACTIVE |}.

Definition demo_auth_db : database :=
  with_users {[3 := demo_account]} empty_db.

Definition demo_auth_world : world database auth_event :=
  {| w_db := demo_auth_db; w_tick := 100; w_trace := [] |}.

Definition demo_login : LoginCommand :=
  {| lc_email := "ann@example.org"; lc_password := "secret" |}.

Lemma demo_auth_env : @auth_env demo_email_syntax (quiet_env database).
Proof. by constructor. Qed.

Lemma demo_auth_ok : @auth_ok demo_email_syntax demo_auth_db.
Proof.
  constructor; cbn; try (intros *; rewrite lookup_empty; done).
  - constructor.
    + by intros i u [<- <-]%lookup_singleton_Some.
    + intros i u [<- <-]%lookup_singleton_Some. vm_compute. reflexivity.
    + intros i j a b [<- <-]%lookup_singleton_Some [<- <-]%lookup_singleton_Some. done.
  - intros i r. unfold keyed. by rewrite lookup_empty.
  - intros i r. by rewrite lookup_empty.
Qed.

Abbreviation demo_run command :=
  (@login demo_email_syntax demo_hasher demo_sha256 demo_tokens demo_issuer 1000000
     command (quiet_env database) demo_auth_world).

Lemma login_spec_witness :
  (exists tokens, (demo_run demo_login).1 = Ok tokens) /\
  match demo_run demo_login with
  | (Ok tokens, w') => @auth_ok demo_email_syntax (w_db w') /\
      exists u db, @signed_in demo_sha256 1000000 u tokens (w_db w') /\
        @auth_ok demo_email_syntax db /\ @checked demo_hasher demo_login u db
  | (Err _, w') => @auth_ok demo_email_syntax (w_db w')
  end.
Proof.
  split; [eexists; vm_compute; reflexivity|].
  exact (@login_spec demo_email_syntax demo_hasher demo_sha256 demo_tokens demo_issuer
    1000000 (quiet_env database) demo_auth_env demo_login demo_auth_world demo_auth_ok).
Defined.

(** The state in which the demo user has just signed in. *)
Abbreviation demo_signed_in := (demo_run demo_login).2.

Lemma demo_signed_in_ok : @auth_ok demo_email_syntax (w_db demo_signed_in).
Proof.
  pose proof (@login_run demo_email_syntax demo_hasher demo_sha256 demo_tokens demo_issuer
    1000000 (quiet_env database) demo_auth_env demo_login demo_auth_world demo_auth_ok) as H.
  destruct (demo_run demo_login) as [[t|x] w']; cbn; tauto.
Qed.

Definition demo_signed_db : database := w_db demo_signed_in.

Lemma demo_signed_db_ok : @auth_ok demo_email_syntax demo_signed_db.
Proof. exact demo_signed_in_ok. Qed.

Lemma logout_revokes_witness :
  let w := demo_signed_in in
  match @logout demo_sha256 (Some "108"%string) (quiet_env database) w with
  | (Ok _, w') => @auth_ok demo_email_syntax (w_db w') /\
      family_revoked (@digest demo_sha256 "108"%string) (w_db w') /\
      exists t, db_tokens (w_db w') !! 1110 = Some t /\
        rt_token_hash t = @digest demo_sha256 "108"%string
  | (Err _, w') => False
  end.
Proof.
  intros w.
  pose proof (@logout_revokes demo_email_syntax demo_sha256 (quiet_env database) demo_auth_env
    "108"%string w demo_signed_in_ok) as H.
  assert (E : match @logout demo_sha256 (Some "108"%string)
                     (quiet_env database) w with
              | (Ok _, w') => exists t, db_tokens (w_db w') !! 1110 = Some t /\
                  rt_token_hash t = @digest demo_sha256 "108"%string
              | (Err _, w') => False end).
  { vm_compute. eexists. split; reflexivity. }
  destruct (@logout _ _ _ _) as [[[]|x] w']; [|destruct E]. tauto.
Defined.
