(* ===== verification/Refresh.v ===== *)
(** * Refreshing a session

    [application/use_cases/refresh/handler.py]: the rotation of a refresh token as
    the operation of the idempotency coordinator, and the replay of its protected
    result. *)

From S2P Require Import Prelude Exceptions Domain Retry Text Json Sql Registration Effects.
From S2P Require Import Accounts Idempotency Database Coordinator Fingerprint Tokens Sessions AuthFlow.

Definition PUBLIC_REFRESH_SUBJECT : string := "public-refresh".
Definition REFRESH_OPERATION : string := "auth.refresh".
Definition SUCCESS_RESULT : string := "auth.refresh.success".
Definition REJECTED_RESULT : string := "auth.refresh.rejected".

Abbreviation json_dict := (list (string * json)).

(** [ReplayResultProtectorProtocol]: protecting draws a nonce, so it may answer
    differently at each tick. *)
Class ReplayProtector := {
  protect : nat -> list (string * string) -> bytes -> res json_dict;
  restore : json_dict -> bytes -> res (list (string * string))
}.

Definition replay_aad (identity : IdempotencyIdentity) (request_hash : bytes)
    (result_type : string) (result_version : Z) : bytes :=
  utf8 (dumps_ascii (JObject
    [("format_version", JInt 1);
     ("subject_id", JString (ii_subject_id identity));
     ("operation", JString (ii_operation identity));
     ("key_hash", JString (hex (ii_key_hash identity)));
     ("request_hash", JString (hex request_hash));
     ("result_type", JString result_type);
     ("result_version", JInt result_version)]%string)).

#[global] Arguments replay_aad : simpl never.

(** [pair.model_dump(mode="json")] *)
Definition pair_payload (p : TokenPair) : list (string * string) :=
  [("access_token", tp_access_token p); ("refresh_token", tp_refresh_token p);
   ("token_type", tp_token_type p)]%string.

Fixpoint field (key : string) (l : list (string * string)) : option string :=
  match l with
  | [] => None
  | (k, v) :: l => if bool_decide (k = key) then Some v else field key l
  end.

(** [TokenPair.model_validate(payload)] *)
Definition pair_of_payload (payload : list (string * string)) : res TokenPair :=
  match field "access_token" payload, field "refresh_token" payload with
  | Some access, Some refresh =>
      mret {| tp_access_token := access; tp_refresh_token := refresh;
              tp_token_type := default "bearer"%string (field "token_type" payload) |}
  | _, _ => raise EValidationError
  end.

Section refresh.
Context `{EmailSyntax} `{Sha256} `{RandomTokens} `{AccessTokenIssuer} `{ReplayProtector}.
Context (session_idle_ttl : Z).

Definition rejected_result : res StoredResult :=
  StoredResult_validate
    {| sr_result_type := REJECTED_RESULT;
       sr_result_payload := Some [("code", JString "invalid_refresh")]%string;
       sr_result_version := 1; sr_resource_type := None; sr_resource_id := None;
       sr_resource_version := None |}.

Definition success_result (envelope : json_dict) (replacement : RefreshToken) :
    res StoredResult :=
  StoredResult_validate
    {| sr_result_type := SUCCESS_RESULT; sr_result_payload := Some envelope;
       sr_result_version := 1; sr_resource_type := Some "refresh_token"%string;
       sr_resource_id := Some (uuid_str (rt_id replacement));
       sr_resource_version := None |}.

(** The rest of [TransactionalRefreshOperation.execute] once the session accepts. *)
Definition rotate_session (session : AuthSession) (user : User) (now : datetime)
    (identity : IdempotencyIdentity) (request_hash : bytes) : AT StoredResult :=
  issued ← issue user now;
  new_id ← t_tick new_uuid;
  rotated ← t_lift (rotate session new_id now session_idle_ttl (itp_refresh_digest issued));
  save rotated.1;;
  envelope ← t_tick (fun _ n => protect n (pair_payload (itp_pair issued))
                                  (replay_aad identity request_hash SUCCESS_RESULT 1));
  envelope ← t_lift envelope;
  t_lift (success_result envelope rotated.2).

(** The rest of it once the token's session is found. *)
Definition refresh_found (session : AuthSession) (identity : IdempotencyIdentity)
    (request_hash : bytes) : AT StoredResult :=
  user ← query (fun db => user_get (as_user_id session) (users db));
  now ← t_tick clock;
  accepted ← t_lift (accepts_refresh session now
               (match user with Some u => can_authenticate u | None => false end));
  if negb accepted.1 then
    save accepted.2;;
    t_lift rejected_result
  else
    match user with
    | None => t_lift (raise InvalidRefreshTokenError)
    | Some user => rotate_session accepted.2 user now identity request_hash
    end.

(** [TransactionalRefreshOperation.execute] *)
Definition refresh_operation (raw_token : string) (identity : IdempotencyIdentity)
    (request_hash : bytes) : AT StoredResult :=
  session ← get_by_refresh_hash_for_update (digest raw_token);
  match session with
  | None => t_lift (raise InvalidRefreshTokenError)
  | Some session => refresh_found session identity request_hash
  end.

(** ** RefreshHandler *)

Context (retention_seconds : Z) (beats : nat -> nat) (hot_store : option HotStore)
  (lease_seconds : Z).

Record RefreshCommand := { rc_refresh_token : string; rc_key_hash : bytes }.

Definition RefreshCommand_new (refresh_token : string) (key_hash : bytes) :
    res RefreshCommand :=
  raise_unless (is_digest key_hash) EInvalidCommand;;
  mret {| rc_refresh_token := refresh_token; rc_key_hash := key_hash |}.

Definition refresh_identity (key_hash : bytes) : res IdempotencyIdentity :=
  IdempotencyIdentity_validate
    {| ii_subject_id := PUBLIC_REFRESH_SUBJECT; ii_operation := REFRESH_OPERATION;
       ii_key_hash := key_hash |}.

Definition refresh_request_hash (refresh_token : string) : res bytes :=
  compute_request_hash
    (dict [("refresh_token_digest", PStr (hex (digest refresh_token)))]%string) [].

Abbreviation RFM := (M database idem_event).

(** The transaction that checks that the result may still be replayed. *)
Definition replay_check (token_id : uuid) : AT unit :=
  session ← get_by_refresh_id token_id;
  match session with
  | None => t_lift (raise InvalidRefreshTokenError)
  | Some session =>
      now ← t_tick clock;
      ok ← t_lift (can_replay session now);
      if ok : bool then mret tt else t_lift (raise InvalidRefreshTokenError)
  end.

(** The [try] block at the end of [RefreshHandler.execute]. *)
Definition replay_body (identity : IdempotencyIdentity) (request_hash : bytes)
    (stored : StoredResult) (payload : json_dict) (resource_id : string) : RFM TokenPair :=
  token_id ← lift (match uuid_parse resource_id with
                   | Some u => mret u
                   | None => raise EValueError
                   end);
  transaction (replay_check token_id);;
  restored ← lift (restore payload (replay_aad identity request_hash
                     (sr_result_type stored) (sr_result_version stored)));
  lift (pair_of_payload restored).

Definition replay_stored (identity : IdempotencyIdentity) (request_hash : bytes)
    (stored : StoredResult) : RFM TokenPair :=
  if bool_decide (sr_result_type stored = REJECTED_RESULT)
  then lift (raise InvalidRefreshTokenError)
  else
    match bool_decide (sr_result_type stored = SUCCESS_RESULT),
          sr_result_payload stored, sr_resource_id stored with
    | true, Some payload, Some resource_id =>
        answer ← attempt (replay_body identity request_hash stored payload resource_id);
        match answer with
        | Ok tokens => mret tokens
        | Err x => if isinstance x EValueError
                   then lift (raise RefreshReplayUnavailableError) else lift (raise x)
        end
    | _, _, _ => lift (raise RefreshReplayUnavailableError)
    end.

(** [RefreshHandler.execute] *)
Definition refresh (command : RefreshCommand) : RFM TokenPair :=
  identity ← lift (refresh_identity (rc_key_hash command));
  request_hash ← lift (refresh_request_hash (rc_refresh_token command));
  result ← coordinate retention_seconds beats hot_store identity request_hash
             (refresh_operation (rc_refresh_token command) identity request_hash)
             lease_seconds;
  match er_outcome result with
  | CONFLICT => lift (raise IdempotencyKeyConflictError)
  | IN_PROGRESS => lift (raise IdempotencyRequestInProgressError)
  | EXECUTED | REPLAY =>
      match er_completed result with
      | None => lift (raise ERuntimeError)
      | Some completed => replay_stored identity request_hash (ci_stored completed)
      end
  end.
End refresh.

(** ** The operation *)

Section operation.
Context `{EmailSyntax} `{Sha256} `{RandomTokens} `{AccessTokenIssuer} `{ReplayProtector}.
Context (session_idle_ttl : Z) (e : env database) (He : auth_env e).

(** The presented token is stored and was used before. *)
Definition reused (h : bytes) (db : database) : Prop :=
  exists k t, db_tokens db !! k = Some t /\ rt_token_hash t = h /\ is_used t = true.

(** A refusal revokes the whole family of the presented token. *)
Definition refused (h : bytes) (stored : StoredResult) (db : database) : Prop :=
  sr_result_type stored = REJECTED_RESULT /\ family_revoked h db /\
  exists k t, db_tokens db !! k = Some t /\ rt_token_hash t = h.

Definition was_live (session_id : Z) (t : RefreshToken) (now : datetime) (db : database) : Prop :=
  exists r, db_sessions db !! session_id = Some r /\ live (session_of r (Some t)) now.

(** A rotation of the session [r]: the presented token [t], found unused in the live
    session in [db0], is spent, and [x] is the session's only unused token, whose digest is that of
    the refresh token the result protects under the request. *)
Definition rotated (identity : IdempotencyIdentity) (request_hash h : bytes)
    (stored : StoredResult) (db0 db : database) : Prop :=
  exists r t x now n pair envelope,
    auth_ok db0 /\ db_tokens db0 !! rt_id t = Some t /\ is_used t = false /\
    rt_token_hash t = h /\ was_live (sn_id r) t now db0 /\
    db_tokens db !! rt_id t = Some (mark_used t now) /\
    db_tokens db !! rt_id x = Some x /\ is_used x = false /\
    rt_session_id x = sn_id r /\ rt_session_id t = sn_id r /\
    db_sessions db !! sn_id r = Some r /\ sn_revoked_at r = None /\
    sn_idle_expires_at r = dt_add now session_idle_ttl /\
    rt_token_hash x = digest (tp_refresh_token pair) /\
    protect n (pair_payload pair) (replay_aad identity request_hash SUCCESS_RESULT 1) =
      Ok envelope /\
    success_result envelope x = Ok stored.

(** The same while the row locks are held. *)
Definition refused_held (h : bytes) (stored : StoredResult) (l : gset row_lock)
    (db : database) : Prop :=
  sr_result_type stored = REJECTED_RESULT /\
  exists r t, holds r t l db /\ rt_token_hash t = h /\ sn_revoked_at r <> None.

Definition rotated_held (identity : IdempotencyIdentity) (request_hash h : bytes)
    (stored : StoredResult) (db0 : database) (l : gset row_lock) (db : database) : Prop :=
  exists r t x now n pair envelope,
    holds r (mark_used t now) l db /\ has_token x db /\
    auth_ok db0 /\ db_tokens db0 !! rt_id t = Some t /\ is_used t = false /\
    rt_token_hash t = h /\ was_live (sn_id r) t now db0 /\
    is_used x = false /\ rt_session_id x = sn_id r /\
    sn_revoked_at r = None /\ sn_idle_expires_at r = dt_add now session_idle_ttl /\
    rt_token_hash x = digest (tp_refresh_token pair) /\
    protect n (pair_payload pair) (replay_aad identity request_hash SUCCESS_RESULT 1) =
      Ok envelope /\
    success_result envelope x = Ok stored.

(** What the operation has settled, [P] being known of the tables it began with. *)
Definition settled (P : database -> Prop) (identity : IdempotencyIdentity)
    (request_hash h : bytes) (stored : StoredResult) (l : gset row_lock) (db : database) : Prop :=
  refused_held h stored l db \/
  exists db0, P db0 /\ rotated_held identity request_hash h stored db0 l db.

Lemma settled_ok P identity request_hash h stored l db :
  settled P identity request_hash h stored l db -> auth_ok db.
Proof.
  intros [(_ & r & t & Hho & _)|(db0 & _ & r & t & x & now & n & p & v & Hho & _)];
    by apply Hho.
Qed.

Lemma settled_others P identity request_hash h stored n l db :
  settled P identity request_hash h stored l db ->
  settled P identity request_hash h stored l (others e n l db).
Proof.
  intros [(Hty & r & t & Hho & Hrest)|(db0 & Hp & r & t & x & now & m & p & v & Hho & Hx & Hrest)].
  - left. split; [done|]. exists r, t. split; [by apply holds_others|done].
  - right. exists db0. split; [done|]. exists r, t, x, now, m, p, v.
    split; [by apply holds_others|]. split; [|done].
    eapply has_token_others; [done|exact Hho| |done]. apply Hrest.
Qed.

Lemma holds_records r t l db rec :
  holds r t l db -> holds r t l (with_records rec db).
Proof. intros [[] ? ? ? ? ?]. constructor; [constructor|..]; done. Qed.

Lemma settled_records P identity request_hash h stored l db rec :
  settled P identity request_hash h stored l db ->
  settled P identity request_hash h stored l (with_records rec db).
Proof.
  intros [(Hty & r & t & Hho & Hrest)|(db0 & Hp & r & t & x & now & m & p & v & Hho & Hx & Hrest)].
  - left. split; [done|]. exists r, t. split; [by apply holds_records|done].
  - right. exists db0. split; [done|]. exists r, t, x, now, m, p, v.
    split; [by apply holds_records|]. split; [exact Hx|done].
Qed.

(** Once committed. *)
Lemma settled_committed P identity request_hash h stored l db :
  settled P identity request_hash h stored l db ->
  refused h stored db \/
  exists db0, P db0 /\ rotated identity request_hash h stored db0 db.
Proof.
  intros [(Hty & r & t & Hho & Hh & Hn)|(db0 & Hp & r & t & x & now & m & p & v & Hho & Hx & Hrest)].
  - left. split; [done|]. rewrite <- Hh. split; [by apply (holds_family_revoked r t l)|].
    exists (rt_id t), t. split; [by apply Hho|done].
  - right. exists db0. split; [done|]. exists r, t, x, now, m, p, v.
    destruct Hrest as (? & ? & ? & ? & ? & ? & ? & ? & ? & ? & ? & ?).
    destruct Hho as [_ _ _ Htok Hses Hpar]. split_and!; done.
Qed.

Lemma lspec_query_keep {A : Type} (f : database -> res A) (P : gset row_lock -> database -> Prop) :
  (forall n l db, P l db -> P l (others e n l db)) ->
  lspec e auth_ok P (query f) (fun _ l db => P l db).
Proof.
  intros HP. apply lspec_stmt; [intros n l db; apply (ae_others _ He)|done|].
  intros _ _ l db a db' _ Hp. destruct (f db); [|done]. by intros [= _ <-].
Qed.

Lemma rotate_session_spec r t user now identity request_hash db0 :
  session_ok (session_of r (Some t)) ->
  auth_ok db0 -> db_tokens db0 !! rt_id t = Some t ->
  db_sessions db0 !! sn_id r = Some r ->
  lspec e auth_ok (fun l db => holds r t l db)
    (rotate_session session_idle_ttl (session_of r (Some t)) user now identity request_hash)
    (fun stored l db => rotated_held identity request_hash (rt_token_hash t) stored db0 l db).
Proof.
  intros Hs Hok0 Ht0 Hr0. unfold rotate_session.
  eapply lspec_bind; [exact (issue_spec e user now (fun l db => holds r t l db))|].
  intros i. cbv beta. apply lspec_pure. intros Hdig.
  apply (lspec_bind _ _ _ _ _ (fun _ l db => holds r t l db)); [by apply lspec_tick|].
  intros new_id.
  apply (lspec_bind _ _ _ _ _ (fun rot l db =>
    rotate (session_of r (Some t)) new_id now session_idle_ttl (itp_refresh_digest i) = Ok rot /\
    holds r t l db)).
  { apply lspec_lift. by intros rot l db -> Hho. }
  intros [s' x]. apply lspec_pure. intros Hrot.
  destruct (save_rotated_spec e He r t _ _ _ _ _ _ Hs Hrot) as (Hu & Hlive & Ex & Hsave).
  cbn [fst snd]. eapply lspec_bind; [exact Hsave|]. intros a. cbv beta.
  apply (lspec_bind _ _ _ _ _ (fun envelope l db =>
    (exists n, envelope = protect n (pair_payload (itp_pair i))
                 (replay_aad identity request_hash SUCCESS_RESULT 1)) /\
    holds (session_row s') (mark_used t now) l db /\ has_token x db /\
    sn_revoked_at (session_row s') = None /\
    sn_idle_expires_at (session_row s') = dt_add now session_idle_ttl /\
    sn_id (session_row s') = sn_id r)).
  { apply lspec_tick. intros n l db Hh. split; [by eexists|exact Hh]. }
  intros envelope. apply lspec_pure. intros (n & ->).
  destruct (protect _ _ _) as [envelope|] eqn:Ep.
  2: { apply (lspec_bind _ _ _ _ _ (fun _ _ _ => False)); [by apply lspec_lift|].
       intros ? ? ? ? []. }
  apply (lspec_bind _ _ _ _ _ (fun a l db => a = envelope /\
    holds (session_row s') (mark_used t now) l db /\ has_token x db /\
    sn_revoked_at (session_row s') = None /\
    sn_idle_expires_at (session_row s') = dt_add now session_idle_ttl /\
    sn_id (session_row s') = sn_id r)).
  { apply lspec_lift. by intros ? l db [= <-] Hh. }
  intros ?. apply lspec_pure. intros ->.
  apply lspec_lift. intros stored l db Hst (Hho & Hx & Hrev & Hidle & Hid).
  exists (session_row s'), t, x, now, n, (itp_pair i), envelope.
  rewrite <- Hdig. split_and!; try done; try by rewrite Ex.
  exists r. by rewrite Hid.
Qed.

Lemma refused_kept r t stored l db :
  holds r t l db -> sn_revoked_at r <> None -> rejected_result = Ok stored ->
  refused_held (rt_token_hash t) stored l db.
Proof.
  intros Hho Hr. unfold rejected_result. vm_compute (StoredResult_validate _).
  intros [= <-]. split; [done|]. by exists r, t.
Qed.

Lemma refresh_found_spec r t identity request_hash db0 (P : database -> Prop) :
  session_ok (session_of r (Some t)) -> auth_ok db0 -> P db0 ->
  db_tokens db0 !! rt_id t = Some t -> db_sessions db0 !! sn_id r = Some r ->
  lspec e auth_ok (fun l db => holds r t l db)
    (refresh_found session_idle_ttl (session_of r (Some t)) identity request_hash)
    (settled P identity request_hash (rt_token_hash t)).
Proof.
  intros Hs Hok0 Hp0 Htok0 Hses0. unfold refresh_found. eapply lspec_bind.
  { apply (lspec_query_keep _ (fun l db => holds r t l db)).
    intros n l db. by apply holds_others. }
  intros user. cbv beta.
  apply (lspec_bind _ _ _ _ _ (fun _ l db => holds r t l db)); [by apply lspec_tick|].
  intros now. eapply lspec_bind.
  { apply (lspec_lift _ _ _ _ (fun a l db =>
      accepts_refresh (session_of r (Some t)) now
        (match user with Some u => can_authenticate u | None => false end) = Ok a /\
      holds r t l db)). by intros a l db -> Hho. }
  intros [accepted s']. cbv beta. apply lspec_pure. intros Hacc. cbn [fst snd].
  apply accepts_refresh_cases in Hacc as [(-> & -> & Hauth & Hlive)|(-> & Hrev)]; cbn [negb].
  - destruct user as [user|]; [|done].
    eapply lspec_weaken; [exact (rotate_session_spec r t user now identity request_hash db0
      Hs Hok0 Htok0 Hses0)|done|].
    intros stored l db Hrot. right. by exists db0.
  - eapply lspec_bind; [exact (save_revoked_spec e He r t now s' Hs Hrev)|].
    intros a. cbv beta. apply lspec_lift. intros stored l db Hst (r' & Hho & Hn).
    left. by apply (refused_kept r' t stored l).
Qed.

(** The operation, in a transaction where [P] is known of the tables. *)
Lemma refresh_operation_known raw identity request_hash (P : database -> Prop) :
  (forall n l db, auth_ok db -> P db -> P (others e n l db)) ->
  lspec e auth_ok (fun _ db => auth_ok db /\ P db)
    (refresh_operation session_idle_ttl raw identity request_hash)
    (settled P identity request_hash (digest raw)).
Proof.
  intros HP. unfold refresh_operation.
  eapply lspec_bind; [exact (get_by_refresh_hash_known e He (digest raw) P HP)|].
  intros [s|]; cbv beta; [|by apply lspec_lift].
  intros t0 Ha HI (r & t & -> & Hs & Hh & Hho & Hp). rewrite <- Hh.
  exact (refresh_found_spec r t identity request_hash (tx_view t0) P Hs
    (ho_ok _ _ _ _ Hho) Hp (ho_token _ _ _ _ Hho) (ho_session _ _ _ _ Hho) t0 Ha HI Hho).
Qed.

(** ** The transaction of the durable fence *)

Lemma completed_new_inv h stored c :
  CompletedIdempotencyResult_new h stored = Ok c -> ci_stored c = stored.
Proof.
  unfold CompletedIdempotencyResult_new, StoredResult_validate. intros Hc. ok_inv.
  subst. done.
Qed.

Context (retention_seconds : Z).

Lemma execute_body_known raw identity request_hash (P : database -> Prop) :
  (forall n l db, auth_ok db -> P db -> P (others e n l db)) ->
  lspec e auth_ok (fun _ db => auth_ok db /\ P db)
    (execute_body retention_seconds identity request_hash
       (refresh_operation session_idle_ttl raw identity request_hash))
    (fun c l db => settled P identity request_hash (digest raw) (ci_stored c) l db).
Proof.
  intros HP. unfold execute_body, try_add_completed.
  eapply lspec_bind; [exact (refresh_operation_known raw identity request_hash P HP)|].
  intros stored.
  apply (lspec_bind _ _ _ _ _ (fun c l db => ci_stored c = stored /\
    settled P identity request_hash (digest raw) (ci_stored c) l db)).
  { apply lspec_lift. intros c l db Hc%completed_new_inv Hs. by rewrite Hc. }
  intros c. apply lspec_pure. intros Hc.
  apply (lspec_bind _ _ _ _ _ (fun _ l db =>
    settled P identity request_hash (digest raw) (ci_stored c) l db)).
  { apply (lspec_bind _ _ _ _ _ (fun _ l db =>
      settled P identity request_hash (digest raw) (ci_stored c) l db)); [by apply lspec_tick|].
    intros now. apply (lspec_bind _ _ _ _ _ (fun _ l db =>
      settled P identity request_hash (digest raw) (ci_stored c) l db)); [by apply lspec_tick|].
    intros id. apply lspec_stmt; [intros n l db; apply (ae_others _ He)|
      intros n l db; apply settled_others|].
    intros _ _ l db a db' _ Hs. destruct (insert_record _ _ _) as [[b t]|]; [|done].
    intros [= _ <-]. by apply settled_records. }
  intros added. apply (lspec_bind _ _ _ _ _ (fun _ l db =>
    settled P identity request_hash (digest raw) (ci_stored c) l db)).
  { destruct added; [by apply lspec_ret|by apply lspec_lift]. }
  intros []. by apply lspec_ret.
Qed.

(** What a committed refresh has done: it refused the presented token and revoked
    its session, or rotated it, [P] being known of the tables it began with. *)
Definition refresh_done (P : database -> Prop) (identity : IdempotencyIdentity)
    (request_hash h : bytes) (stored : StoredResult) (db : database) : Prop :=
  refused h stored db \/
  exists db0, P db0 /\ rotated identity request_hash h stored db0 db.

Lemma refresh_transaction raw identity request_hash (P : database -> Prop) :
  (forall n l db, auth_ok db -> P db -> P (others e n l db)) ->
  mspec e (fun w => auth_ok (w_db w) /\ P (w_db w))
    (transaction (Ev := idem_event) (execute_body retention_seconds identity request_hash
       (refresh_operation session_idle_ttl raw identity request_hash)))
    (fun c w => auth_ok (w_db w) /\
       refresh_done P identity request_hash (digest raw) (ci_stored c) (w_db w))
    (fun _ w => auth_ok (w_db w)).
Proof.
  intros HP. apply (mspec_locking_transaction e _ auth_ok (fun db => auth_ok db /\ P db)
    (fun c db => refresh_done P identity request_hash (digest raw) (ci_stored c) db));
    [apply (ae_db_clock _ He)|by intros db []|].
  eapply lspec_weaken; [exact (execute_body_known raw identity request_hash P HP)|done|].
  intros c l db Hs. cbv beta in Hs.
  split; [exact (settled_ok _ _ _ _ _ _ _ Hs)|exact (settled_committed _ _ _ _ _ _ _ Hs)].
Qed.

(** C5. Refreshing, at the commit: whatever else runs, if the transaction of the
    durable fence commits, then either the presented token was refused, and then
    the stored result says so and every token of its digest belongs to a revoked
    session, or it was the unused token of a live session, and then it is now
    spent, its replacement is stored unused under the digest of the refresh token
    that the result protects for this very request, and the session is not revoked
    and its idle time starts again.  Committed or not, the tables keep their
    invariant, so a session never has two unused tokens. *)
Theorem refresh_rotates_or_refuses raw identity request_hash (w : world database idem_event) :
  auth_ok (w_db w) ->
  match transaction (execute_body retention_seconds identity request_hash
          (refresh_operation session_idle_ttl raw identity request_hash)) e w with
  | (Ok c, w') =>
      auth_ok (w_db w') /\
      (refused (digest raw) (ci_stored c) (w_db w') \/
       exists db0, rotated identity request_hash (digest raw) (ci_stored c) db0 (w_db w'))
  | (Err _, w') => auth_ok (w_db w')
  end.
Proof.
  intros Hok.
  pose proof (refresh_transaction raw identity request_hash (fun _ => True)
    (fun _ _ _ _ _ => I) w (conj Hok I)) as H'.
  destruct (transaction _ e w) as [[c|x] w']; [|exact H'].
  destruct H' as [Hok' [Hr|(db0 & _ & Hr)]]; eauto.
Qed.

(** C6. Reuse detection: if the presented token is stored and was used before, and
    the others never take that back, then a refresh that commits is a refusal that
    revokes the token's session; it never issues anything. *)
Theorem reuse_revokes raw identity request_hash (w : world database idem_event) :
  (forall n l db, auth_ok db -> reused (digest raw) db -> reused (digest raw) (others e n l db)) ->
  auth_ok (w_db w) -> reused (digest raw) (w_db w) ->
  match transaction (execute_body retention_seconds identity request_hash
          (refresh_operation session_idle_ttl raw identity request_hash)) e w with
  | (Ok c, w') => refused (digest raw) (ci_stored c) (w_db w')
  | (Err _, w') => auth_ok (w_db w')
  end.
Proof.
  intros Hkeep Hok Hre.
  pose proof (refresh_transaction raw identity request_hash (reused (digest raw)) Hkeep w
    (conj Hok Hre)) as H'.
  destruct (transaction _ e w) as [[c|x] w']; [|exact H'].
  destruct H' as [_ [Hr|(db0 & (k & u & Hk & Hhk & Huk) & Hr)]]; [done|exfalso].
  destruct Hr as (r & t & x & now & n & p & v & Hok0 & Ht & Hut & Hh & _).
  assert (k = rt_id t) as -> by (eapply (au_hash _ Hok0); [done..|congruence]).
  congruence.
Qed.

(** ** The handler *)

Context (beats : nat -> nat) (hot_store : option HotStore) (lease_seconds : Z).

(** The replacement token was found unused, and then its session was found live. *)
Definition replayable (token_id : uuid) : Prop :=
  exists db1 db2 r t now,
    auth_ok db1 /\ db_tokens db1 !! token_id = Some t /\ is_used t = false /\
    auth_ok db2 /\ db_sessions db2 !! rt_session_id t = Some r /\
    live (session_of r (Some t)) now.

Lemma get_by_refresh_id_spec token_id :
  lspec e auth_ok (fun _ db => auth_ok db) (get_by_refresh_id token_id)
    (fun o _ db => auth_ok db /\ forall s, o = Some s -> exists db1 db2 r t,
       auth_ok db1 /\ db_tokens db1 !! token_id = Some t /\
       auth_ok db2 /\ db_sessions db2 !! rt_session_id t = Some r /\
       s = session_of r (Some t)).
Proof.
  assert (Hread : forall A (f : database -> res A), lspec e auth_ok (fun _ db => auth_ok db)
    (query f) (fun a _ db => auth_ok db /\ exists db1, auth_ok db1 /\ f db1 = Ok a)).
  { intros A f. apply lspec_stmt; [intros n l db; apply (ae_others _ He)..|].
    intros _ _ l db a db' _ Hok. destruct (f db) as [a'|] eqn:E; [|done].
    intros [= <- <-]. eauto. }
  unfold get_by_refresh_id, token_get.
  apply (lspec_bind _ _ _ _ _ (fun o _ db => auth_ok db /\ forall t, o = Some t ->
    exists db1, auth_ok db1 /\ db_tokens db1 !! token_id = Some t)).
  { eapply lspec_bind; [apply Hread|]. intros row. cbv beta.
    apply lspec_lift. intros o l db Ho [Hok (db1 & Hok1 & [= Hrow])]. split; [done|].
    intros t ->. destruct row as [x|]; [|done]. cbn in Ho.
    rewrite (token_to_domain_ok _ (au_token _ Hok1 _ _ Hrow)) in Ho. injection Ho as <-. eauto. }
  intros [t|]; [|apply lspec_ret; by intros l db [Hok _]].
  apply (lspec_bind _ _ _ _ _ (fun row _ db => auth_ok db /\
    (exists db1, auth_ok db1 /\ db_tokens db1 !! token_id = Some t) /\
    exists db2, auth_ok db2 /\ db_sessions db2 !! rt_session_id t = row)).
  { intros t0 Ha HI [Hok Ht]. pose proof (Hread _ (fun db => mret
      (db_sessions db !! rt_session_id t)) t0 Ha HI Hok) as H'.
    destruct (query _ e t0) as [[row|x] t1]; [|done].
    destruct H' as (Ha' & HI' & Hok' & db2 & Hok2 & [= Hrow]). eauto 10. }
  intros row. apply lspec_lift. intros o l db Ho (Hok & (db1 & Hok1 & Ht) & db2 & Hok2 & Hrow).
  split; [done|]. intros s ->. unfold with_token in Ho. destruct row as [r|]; [|done].
  exists db1, db2, r, t. split_and!; try done.
  destruct (AuthSession_validate (session_of r None)) as [s0|y]; cbn in Ho;
    [|by destruct (isinstance y _)].
  destruct (AuthSession_validate _) as [s1|y] eqn:E; [|by destruct (isinstance y _)].
  injection Ho as ->. by apply AuthSession_validate_iff in E as [-> _].
Qed.

Lemma replay_check_spec token_id :
  lspec e auth_ok (fun _ db => auth_ok db) (replay_check token_id)
    (fun _ _ db => auth_ok db /\ replayable token_id).
Proof.
  unfold replay_check. eapply lspec_bind; [exact (get_by_refresh_id_spec token_id)|].
  intros [s|]; cbv beta; [|by apply lspec_lift].
  apply (lspec_bind _ _ _ _ _ (fun _ _ db => auth_ok db /\
    exists db1 db2 r t, auth_ok db1 /\ db_tokens db1 !! token_id = Some t /\
       auth_ok db2 /\ db_sessions db2 !! rt_session_id t = Some r /\
       s = session_of r (Some t))).
  { apply lspec_tick. intros _ l db [Hok Hs]. split; [done|]. by apply Hs. }
  intros now. apply (lspec_bind _ _ _ _ _ (fun ok _ db => auth_ok db /\
    (ok = true -> replayable token_id))).
  - apply lspec_lift. intros ok l db Hc (Hok & db1 & db2 & r & t & Hok1 & Ht & Hok2 & Hr & ->).
    split; [done|]. intros ->. exists db1, db2, r, t, now. unfold can_replay in Hc.
    cbn [require_token session_of as_refresh_token] in Hc.
    cbn [mbind result_bind] in Hc. destruct (is_used t) eqn:Eu; [done|].
    apply is_active_ok in Hc as [_ Hl]. split_and!; try done. by apply Hl.
  - intros [|]; [|by apply lspec_lift]. apply lspec_ret. intros l db [Hok Hre]. auto.
Qed.

(** What an answer to a refresh rests on: a stored success whose replacement token
    may still be replayed, and whose protected payload, opened for this request, is
    the pair. *)
Definition replayed (identity : IdempotencyIdentity) (request_hash : bytes)
    (tokens : TokenPair) : Prop :=
  exists stored payload resource_id token_id restored,
    sr_result_type stored = SUCCESS_RESULT /\ sr_result_payload stored = Some payload /\
    sr_resource_id stored = Some resource_id /\ uuid_parse resource_id = Some token_id /\
    replayable token_id /\
    restore payload (replay_aad identity request_hash SUCCESS_RESULT (sr_result_version stored)) =
      Ok restored /\
    pair_of_payload restored = Ok tokens.

Abbreviation on_db P := (fun w : world database idem_event => P (w_db w)).

Lemma replay_stored_spec identity request_hash stored :
  mspec e (on_db auth_ok) (replay_stored identity request_hash stored)
    (fun tokens w => auth_ok (w_db w) /\ replayed identity request_hash tokens)
    (fun _ => on_db auth_ok).
Proof.
  unfold replay_stored. case_bool_decide as Hrej; [by apply mspec_lift|].
  case_bool_decide as Hsuc; [|by apply mspec_lift].
  destruct (sr_result_payload stored) as [payload|] eqn:Ep; [|by apply mspec_lift].
  destruct (sr_resource_id stored) as [rid|] eqn:Er; [|by apply mspec_lift].
  apply (mspec_bind _ _ _ _ (fun answer w => auth_ok (w_db w) /\
    forall tokens, answer = Ok tokens -> replayed identity request_hash tokens)).
  - apply mspec_attempt. unfold replay_body.
    apply (mspec_bind _ _ _ _ (fun u w => uuid_parse rid = Some u /\ auth_ok (w_db w))).
    { apply mspec_lift; [|by intros x w _ Hok].
      intros u w Hu Hok. split; [|done]. destruct (uuid_parse rid); [|done]. by injection Hu as <-. }
    intros u. apply (mspec_bind _ _ _ _ (fun _ w =>
      auth_ok (w_db w) /\ uuid_parse rid = Some u /\ replayable u)).
    { intros w [Hu Hok].
      pose proof (mspec_locking_transaction (Ev := idem_event) e (replay_check u) auth_ok auth_ok
        (fun _ _ => replayable u) (ae_db_clock e He) (fun _ H => H) (replay_check_spec u) w Hok)
        as Ht.
      destruct (transaction _ e w) as [[a|x] w']; [|by split]. by destruct Ht as [? ?]. }
    intros _. apply (mspec_bind _ _ _ _ (fun restored w =>
      auth_ok (w_db w) /\ uuid_parse rid = Some u /\ replayable u /\
      restore payload (replay_aad identity request_hash (sr_result_type stored)
        (sr_result_version stored)) = Ok restored)).
    { apply mspec_lift; [by intros r w -> (? & ? & ?)|by intros x w _ []]. }
    intros restored. apply mspec_lift; [|by intros x w _ []].
    intros tokens w Hp (Hok & Hu & Hre & Hrest). split; [done|]. intros tokens' [= <-].
    exists stored, payload, rid, u, restored. rewrite <- Hsuc. by split_and!.
  - intros [tokens|x].
    + apply mspec_ret. intros w [Hok Hr]. auto.
    + destruct (isinstance x EValueError); apply mspec_lift; try done; by intros ? w _ [].
Qed.

Lemma refresh_handler_spec command (w : world database idem_event) :
  auth_ok (w_db w) ->
  match refresh session_idle_ttl retention_seconds beats hot_store lease_seconds command e w with
  | (Ok tokens, w') =>
      auth_ok (w_db w') /\ exists identity request_hash,
        refresh_identity (rc_key_hash command) = Ok identity /\
        refresh_request_hash (rc_refresh_token command) = Ok request_hash /\
        replayed identity request_hash tokens
  | (Err _, w') => auth_ok (w_db w')
  end.
Proof.
  revert w. change (mspec e (on_db auth_ok)
    (refresh session_idle_ttl retention_seconds beats hot_store lease_seconds command)
    (fun tokens w => auth_ok (w_db w) /\ exists identity request_hash,
        refresh_identity (rc_key_hash command) = Ok identity /\
        refresh_request_hash (rc_refresh_token command) = Ok request_hash /\
        replayed identity request_hash tokens)
    (fun _ => on_db auth_ok)).
  unfold refresh. apply (mspec_bind _ _ _ _ (fun identity w =>
    refresh_identity (rc_key_hash command) = Ok identity /\ auth_ok (w_db w)));
    [by apply mspec_lift|].
  intros identity. apply (mspec_bind _ _ _ _ (fun request_hash w =>
    refresh_identity (rc_key_hash command) = Ok identity /\
    refresh_request_hash (rc_refresh_token command) = Ok request_hash /\ auth_ok (w_db w))).
  { apply mspec_lift; [|by intros x w _ []]. by intros h w -> []. }
  intros request_hash.
  apply (mspec_bind _ _ _ _ (fun _ w =>
    refresh_identity (rc_key_hash command) = Ok identity /\
    refresh_request_hash (rc_refresh_token command) = Ok request_hash /\ auth_ok (w_db w))).
  { intros w (Hi & Hh & Hok).
    pose proof (coordinate_keeps e retention_seconds beats auth_ok (fun _ _ => True)
      identity request_hash
      (refresh_operation session_idle_ttl (rc_refresh_token command) identity request_hash)
      (ae_others _ He)) as Hc.
    specialize (Hc ltac:(intros v Hv;
      pose proof (refresh_transaction (rc_refresh_token command) identity request_hash
        (fun _ => True) (fun _ _ _ _ _ => I) v (conj Hv I)) as H';
      destruct (transaction _ e v) as [[c|x] v']; [|exact H']; split; [apply H'|exact I])).
    specialize (Hc hot_store lease_seconds w Hok).
    destruct (coordinate _ _ _ _ _ _ _ e w) as [[r|x] w']; [|exact Hc].
    split; [done|]. split; [done|]. apply Hc. }
  intros result. destruct (er_outcome result); try (by apply mspec_raise; intros w (_ & _ & ?)).
  - destruct (er_completed result) as [c|]; [|by apply mspec_raise; intros w (_ & _ & ?)].
    intros w (Hi & Hh & Hok).
    pose proof (replay_stored_spec identity request_hash (ci_stored c) w Hok) as Hr.
    destruct (replay_stored _ _ _ e w) as [[tokens|x] w']; [|exact Hr].
    destruct Hr. eauto 8.
  - destruct (er_completed result) as [c|]; [|by apply mspec_raise; intros w (_ & _ & ?)].
    intros w (Hi & Hh & Hok).
    pose proof (replay_stored_spec identity request_hash (ci_stored c) w Hok) as Hr.
    destruct (replay_stored _ _ _ e w) as [[tokens|x] w']; [|exact Hr].
    destruct Hr. eauto 8.
Qed.

(** The refresh endpoint's handler, with any hot store and whatever runs besides:
    a pair is returned only if it was opened, under data that binds the
    idempotency key and the presented token, from a stored success whose
    replacement token had just been found unused and its session live.  So a
    replay stops when the replacement is spent, the session revoked or idle too
    long.  Success or failure, the tables keep their invariant. *)
Theorem refresh_replays_safely command (w : world database idem_event) :
  auth_ok (w_db w) ->
  match refresh session_idle_ttl retention_seconds beats hot_store lease_seconds command e w with
  | (Ok tokens, w') =>
      auth_ok (w_db w') /\ exists identity request_hash,
        refresh_identity (rc_key_hash command) = Ok identity /\
        refresh_request_hash (rc_refresh_token command) = Ok request_hash /\
        replayed identity request_hash tokens
  | (Err _, w') => auth_ok (w_db w')
  end.
Proof. apply refresh_handler_spec. Qed.
End operation.

(** ** Examples *)

(** Protection without secrecy: the payload next to the data it is bound to. *)
Definition demo_protector : ReplayProtector := {|
  protect _ p aad := Ok [("aad", JString (hex aad));
                         ("payload", JObject (map (fun kv => (kv.1, JString kv.2)) p))]%string;
  restore envelope aad :=
    match envelope with
    | [(_, JString a); (_, JObject l)] =>
        if bool_decide (a = hex aad)
        then Ok (map (fun kv => (kv.1, match kv.2 with JString s => s | _ => ""%string end)) l)
        else Err (RefreshReplayUnavailableError : exn)
    | _ => Err (RefreshReplayUnavailableError : exn)
    end
|}.

Definition demo_key : bytes := repeat x07 32.

Abbreviation demo_refresh raw w :=
  (@refresh demo_email_syntax demo_sha256 demo_tokens demo_issuer demo_protector 1000000
     3600 (fun _ => 0%nat) None 30 {| rc_refresh_token := raw; rc_key_hash := demo_key |}
     (quiet_env database) w).

Definition demo_refresh_world : world database idem_event :=
  {| w_db := demo_signed_db; w_tick := 200; w_trace := [] |}.

(** Refreshing twice under one key answers the same pair. *)
Lemma refresh_replays_safely_witness :
  let w := demo_refresh_world in
  let first := demo_refresh "108"%string w in
  (exists tokens, first.1 = Ok tokens /\ (demo_refresh "108"%string first.2).1 = Ok tokens) /\
  match first with
  | (Ok tokens, w') => @auth_ok demo_email_syntax (w_db w') /\
      exists identity request_hash,
        refresh_identity demo_key = Ok identity /\
        @refresh_request_hash demo_sha256 "108"%string = Ok request_hash /\
        @replayed demo_email_syntax demo_protector identity request_hash tokens
  | (Err _, w') => @auth_ok demo_email_syntax (w_db w')
  end.
Proof.
  intros w first. split; [eexists; split; vm_compute; reflexivity|].
  exact (@refresh_replays_safely demo_email_syntax demo_sha256 demo_tokens demo_issuer
    demo_protector 1000000 (quiet_env database) demo_auth_env 3600 (fun _ => 0%nat) None 30
    {| rc_refresh_token := "108"; rc_key_hash := demo_key |} w demo_signed_db_ok).
Defined.

Definition demo_refresh_identity : IdempotencyIdentity :=
  {| ii_subject_id := PUBLIC_REFRESH_SUBJECT; ii_operation := REFRESH_OPERATION;
     ii_key_hash := demo_key |}.

Abbreviation demo_commit raw hash w :=
  (@transaction database idem_event _ (execute_body 3600 demo_refresh_identity hash
     (@refresh_operation demo_email_syntax demo_sha256 demo_tokens demo_issuer demo_protector
        1000000 raw demo_refresh_identity hash)) (quiet_env database) w).

Lemma refresh_rotates_or_refuses_witness :
  let w := demo_refresh_world in
  (exists c, (demo_commit "108"%string (repeat x09 32) w).1 = Ok c) /\
  match demo_commit "108"%string (repeat x09 32) w with
  | (Ok c, w') =>
      @auth_ok demo_email_syntax (w_db w') /\
      (refused (@digest demo_sha256 "108"%string) (ci_stored c) (w_db w') \/
       exists db0, @rotated demo_email_syntax demo_sha256 demo_protector 1000000
         demo_refresh_identity (repeat x09 32) (@digest demo_sha256 "108"%string)
         (ci_stored c) db0 (w_db w'))
  | (Err _, w') => @auth_ok demo_email_syntax (w_db w')
  end.
Proof.
  intros w. split; [eexists; vm_compute; reflexivity|].
  exact (@refresh_rotates_or_refuses demo_email_syntax demo_sha256 demo_tokens demo_issuer
    demo_protector 1000000 (quiet_env database) demo_auth_env 3600 "108"%string
    demo_refresh_identity (repeat x09 32) w demo_signed_db_ok).
Defined.

(** The same tables with the first token already spent. *)
Definition demo_spent_db : database :=
  w_db (demo_commit "108"%string (repeat x09 32) demo_refresh_world).2.

Definition demo_spent_world : world database idem_event :=
  {| w_db := demo_spent_db; w_tick := 300; w_trace := [] |}.

Lemma demo_spent_db_ok : @auth_ok demo_email_syntax demo_spent_db.
Proof.
  pose proof (@refresh_transaction demo_email_syntax demo_sha256 demo_tokens demo_issuer
    demo_protector 1000000 (quiet_env database) demo_auth_env 3600 "108"%string
    demo_refresh_identity (repeat x09 32) (fun _ => True) (fun _ _ _ _ _ => I)
    demo_refresh_world (conj demo_signed_db_ok I)) as H.
  unfold demo_spent_db. destruct (demo_commit _ _ _) as [[c|x] w']; [exact (proj1 H)|exact H].
Qed.

Definition demo_other_identity : IdempotencyIdentity :=
  {| ii_subject_id := PUBLIC_REFRESH_SUBJECT; ii_operation := REFRESH_OPERATION;
     ii_key_hash := repeat x08 32 |}.

Abbreviation demo_reuse :=
  (@transaction database idem_event _ (execute_body 3600 demo_other_identity (repeat x09 32)
     (@refresh_operation demo_email_syntax demo_sha256 demo_tokens demo_issuer demo_protector
        1000000 "108"%string demo_other_identity (repeat x09 32))) (quiet_env database)
     demo_spent_world).

Lemma reuse_revokes_witness :
  (exists c, demo_reuse.1 = Ok c) /\
  match demo_reuse with
  | (Ok c, w') => refused (@digest demo_sha256 "108"%string) (ci_stored c) (w_db w')
  | (Err _, w') => @auth_ok demo_email_syntax (w_db w')
  end.
Proof.
  split; [eexists; vm_compute; reflexivity|].
  apply (@reuse_revokes demo_email_syntax demo_sha256 demo_tokens demo_issuer
    demo_protector 1000000 (quiet_env database) demo_auth_env 3600 "108"%string
    demo_other_identity (repeat x09 32) demo_spent_world).
  - by intros n l db _ Hr.
  - exact demo_spent_db_ok.
  - exists 1110. eexists. split; [vm_compute; reflexivity|]. split; vm_compute; reflexivity.
Defined.
