(* ===== verification/Schema.v ===== *)
(** * The relational schema

    The tables of [infrastructure/database/models] as they are declared: columns with
    their SQL types, constraints and indexes, and the CHECK constraints as the text the
    declarations carry.  That text is parsed here and evaluated in SQL's three-valued
    logic, in which a comparison with NULL is unknown and an unknown constraint is not
    violated.  [schema_enforced] shows that this accepts exactly the rows the
    repositories' models accept and finds exactly their conflicts.  The revisions of
    [alembic/versions] are at the end. *)

From S2P Require Import Prelude Exceptions Domain Text Sql Registration Outbox Accounts.
From S2P Require Import Retry Effects Idempotency Database RegisterFlow Coordinator Tokens Sessions AuthFlow Refresh.

(** ** Conditions *)

(** A cell that is not NULL. *)
Inductive cell :=
| CellUuid (u : uuid)
| CellText (s : string)
| CellBytes (b : bytes)
| CellInt (z : Z)
| CellTime (d : datetime)
| CellJson (j : json).

(** A row: what its columns hold, [None] for NULL. *)
Definition row := string -> option cell.

Inductive comparison_operator := OpEq | OpGt | OpGe.

Inductive operand :=
| Column (name : string)
| IntLiteral (z : Z)
| TextLiteral (s : string)
| OctetLength (name : string).

Inductive condition :=
| Compare (op : comparison_operator) (a b : operand)
| IsNull (name : string)
| IsNotNull (name : string)
| InList (name : string) (values : list string)
| And (a b : condition)
| Or (a b : condition).

Inductive truth := Holds | Fails | Unknown.

Definition of_bool (b : bool) : truth := if b then Holds else Fails.

Definition truth_and (a b : truth) : truth :=
  match a, b with
  | Fails, _ | _, Fails => Fails
  | Holds, Holds => Holds
  | _, _ => Unknown
  end.

Definition truth_or (a b : truth) : truth :=
  match a, b with
  | Holds, _ | _, Holds => Holds
  | Fails, Fails => Fails
  | _, _ => Unknown
  end.

Definition eval_operand (r : row) (o : operand) : option cell :=
  match o with
  | Column name => r name
  | IntLiteral z => Some (CellInt z)
  | TextLiteral s => Some (CellText s)
  | OctetLength name =>
      match r name with
      | Some (CellBytes b) => Some (CellInt (Z.of_nat (length b)))
      | _ => None
      end
  end.

Definition compare_Z (op : comparison_operator) (a b : Z) : bool :=
  match op with OpEq => a =? b | OpGt => b <? a | OpGe => b <=? a end.

(** A comparison of cells; one between different types is refused when the table is
    created, which [Fails] stands for. *)
Definition compare_cells (op : comparison_operator) (a b : cell) : truth :=
  match a, b with
  | CellInt a, CellInt b => of_bool (compare_Z op a b)
  | CellTime a, CellTime b => of_bool (compare_Z op (dt_us a) (dt_us b))
  | CellText a, CellText b =>
      match op with OpEq => of_bool (bool_decide (a = b)) | _ => Fails end
  | _, _ => Fails
  end.

Fixpoint eval (r : row) (c : condition) : truth :=
  match c with
  | Compare op a b =>
      match eval_operand r a, eval_operand r b with
      | Some a, Some b => compare_cells op a b
      | _, _ => Unknown
      end
  | IsNull name => of_bool (is_none (r name))
  | IsNotNull name => of_bool (is_some (r name))
  | InList name values =>
      match r name with
      | Some (CellText s) => of_bool (bool_decide (s ∈ values))
      | Some _ => Fails
      | None => Unknown
      end
  | And a b => truth_and (eval r a) (eval r b)
  | Or a b => truth_or (eval r a) (eval r b)
  end.

(** ** The text of a condition *)

Inductive token :=
| Word (s : string)
| Number (z : Z)
| Quoted (s : string)
| Symbol (s : string).

Definition space_char (c : Ascii.ascii) : bool :=
  match Ascii.nat_of_ascii c with 9%nat | 10%nat | 13%nat | 32%nat => true | _ => false end.

Definition digit_char (c : Ascii.ascii) : bool :=
  (48 <=? Ascii.nat_of_ascii c)%nat && (Ascii.nat_of_ascii c <=? 57)%nat.

Definition word_char (c : Ascii.ascii) : bool :=
  let n := Ascii.nat_of_ascii c in
  (97 <=? n)%nat && (n <=? 122)%nat || (65 <=? n)%nat && (n <=? 90)%nat || (n =? 95)%nat || digit_char c.

(** The quote of a string, and [<], [=] and [>]. *)
Definition apostrophe (c : Ascii.ascii) : bool := (Ascii.nat_of_ascii c =? 39)%nat.
Definition operator_char (c : Ascii.ascii) : bool :=
  let n := Ascii.nat_of_ascii c in (60 <=? n)%nat && (n <=? 62)%nat.

(** The longest prefix of such characters, and what follows. *)
Fixpoint span (f : Ascii.ascii -> bool) (l : list Ascii.ascii) :
    list Ascii.ascii * list Ascii.ascii :=
  match l with
  | [] => ([], [])
  | c :: rest => if f c then let '(a, b) := span f rest in (c :: a, b) else ([], l)
  end.

Definition number_of (l : list Ascii.ascii) : Z :=
  foldl (fun n c => n * 10 + Z.of_nat (Ascii.nat_of_ascii c - 48)) 0 l.

Fixpoint tokens (fuel : nat) (l : list Ascii.ascii) : option (list token) :=
  match fuel, l with
  | _, [] => Some []
  | O, _ => None
  | S fuel, c :: rest =>
      if space_char c then tokens fuel rest
      else if digit_char c then
        let '(digits, rest) := span digit_char l in
        cons (Number (number_of digits)) <$> tokens fuel rest
      else if word_char c then
        let '(word, rest) := span word_char l in
        cons (Word (str word)) <$> tokens fuel rest
      else if apostrophe c then
        let '(text, rest) := span (fun c => negb (apostrophe c)) rest in
        cons (Quoted (str text)) <$> tokens fuel (tail rest)
      else
        let '(operator, rest) := if operator_char c then span operator_char l else ([c], rest) in
        cons (Symbol (str operator)) <$> tokens fuel rest
  end.

Definition operand_tokens (ts : list token) : option (operand * list token) :=
  match ts with
  | Word "octet_length" :: Symbol "(" :: Word name :: Symbol ")" :: ts => Some (OctetLength name, ts)
  | Word name :: ts => Some (Column name, ts)
  | Number z :: ts => Some (IntLiteral z, ts)
  | Quoted s :: ts => Some (TextLiteral s, ts)
  | _ => None
  end%string.

Definition operator_of (symbol : string) : option comparison_operator :=
  match symbol with
  | "=" => Some OpEq | ">" => Some OpGt | ">=" => Some OpGe
  | _ => None
  end%string.

(** The strings of [IN (...)], after the opening parenthesis. *)
Fixpoint in_list (ts : list token) : option (list string * list token) :=
  match ts with
  | Quoted s :: Symbol ")" :: ts => Some ([s], ts)
  | Quoted s :: Symbol "," :: ts => '(l, ts) ← in_list ts; Some (s :: l, ts)
  | _ => None
  end%string.

Definition predicate_tokens (ts : list token) : option (condition * list token) :=
  match ts with
  | Word name :: Word "IS" :: Word "NULL" :: ts => Some (IsNull name, ts)
  | Word name :: Word "IS" :: Word "NOT" :: Word "NULL" :: ts => Some (IsNotNull name, ts)
  | Word name :: Word "IN" :: Symbol "(" :: ts =>
      '(values, ts) ← in_list ts; Some (InList name values, ts)
  | _ =>
      '(a, ts) ← operand_tokens ts;
      match ts with
      | Symbol symbol :: ts =>
          op ← operator_of symbol;
          '(b, ts) ← operand_tokens ts;
          Some (Compare op a b, ts)
      | _ => None
      end
  end%string.

(** [OR] binds less than [AND]; both associate. *)
Fixpoint or_tokens (fuel : nat) (ts : list token) : option (condition * list token) :=
  match fuel with
  | O => None
  | S fuel =>
      '(a, ts) ← and_tokens fuel ts;
      match ts with
      | Word "OR" :: ts => '(b, ts) ← or_tokens fuel ts; Some (Or a b, ts)
      | _ => Some (a, ts)
      end
  end%string
with and_tokens (fuel : nat) (ts : list token) : option (condition * list token) :=
  match fuel with
  | O => None
  | S fuel =>
      '(a, ts) ← match ts with
                 | Symbol "(" :: ts =>
                     '(a, ts) ← or_tokens fuel ts;
                     match ts with Symbol ")" :: ts => Some (a, ts) | _ => None end
                 | _ => predicate_tokens ts
                 end;
      match ts with
      | Word "AND" :: ts => '(b, ts) ← and_tokens fuel ts; Some (And a b, ts)
      | _ => Some (a, ts)
      end
  end%string.

(** The condition a text stands for.  Each step of the parser takes at least a token
    or steps from [or_tokens] to [and_tokens], so twice the characters is fuel enough. *)
Definition parse (text : string) : option condition :=
  ts ← tokens (length (chars text)) (chars text);
  '(c, ts) ← or_tokens (2 * length (chars text)) ts;
  match ts with [] => Some c | _ => None end.

Example parse_pair :
  parse "(a IS NULL AND b IS NULL) OR a IN ('X', 'Y') AND octet_length(b) >= 32" =
  Some (Or (And (IsNull "a") (IsNull "b"))
           (And (InList "a" ["X"; "Y"]) (Compare OpGe (OctetLength "b") (IntLiteral 32))))%string.
Proof. vm_compute. reflexivity. Qed.

(** ** Declarations *)

Inductive sql_type :=
| Uuid
| String (length : nat)
| LargeBinary (length : nat)
| Integer
| SmallInteger
| Timestamptz
| Jsonb
| SAEnum (name : string) (values : list string).

(** The arguments of [mapped_column] after the type. *)
Inductive column_option :=
| primary_key
| nullable (b : bool)
| unique
| index
| ForeignKey (table column : string) (ondelete : string)
| server_default (expression : string)
| onupdate (expression : string).

#[global] Instance column_option_eq_dec : EqDecision column_option.
Proof. solve_decision. Defined.

(** [name: Mapped[...] = mapped_column(type, ...)]; [optional] when the annotation
    allows [None]. *)
Record mapped_column := Mapped {
  mc_name : string;
  mc_optional : bool;
  mc_type : sql_type;
  mc_options : list column_option
}.

Inductive table_arg :=
| CheckConstraint (text name : string)
| UniqueConstraint (columns : list string) (name : string)
| Index (name : string) (columns : list string) (where_ : option string).

Record table := {
  tb_name : string;
  tb_columns : list mapped_column;
  tb_args : list table_arg
}.

(** A column is nullable when it says so, else when its annotation is optional. *)
Definition column_nullable (c : mapped_column) : bool :=
  if bool_decide (primary_key ∈ mc_options c) then false
  else if bool_decide (nullable true ∈ mc_options c) then true
  else if bool_decide (nullable false ∈ mc_options c) then false
  else mc_optional c.

(** A constraint is violated by a row for which its condition fails. *)
Definition check_passes (r : row) (a : table_arg) : bool :=
  match a with
  | CheckConstraint text _ =>
      match parse text with
      | Some c => match eval r c with Fails => false | _ => true end
      | None => false
      end
  | _ => true
  end.

(** NOT NULL and CHECK. *)
Definition admits (t : table) (r : row) : bool :=
  forallb (fun c => column_nullable c || is_some (r (mc_name c))) (tb_columns t)
  && forallb (check_passes r) (tb_args t).

(** The columns no two rows may agree on: NULLs never agree. *)
Definition unique_keys (t : table) : list (list string) :=
  [mc_name <$> filter (fun c => primary_key ∈ mc_options c) (tb_columns t)]
  ++ ((fun c => [mc_name c]) <$> filter (fun c => unique ∈ mc_options c) (tb_columns t))
  ++ flat_map (fun a => match a with UniqueConstraint columns _ => [columns] | _ => [] end) (tb_args t).

Definition cells_agree (a b : option cell) : bool :=
  match a, b with
  | Some (CellUuid a), Some (CellUuid b) => a =? b
  | Some (CellText a), Some (CellText b) => bool_decide (a = b)
  | Some (CellBytes a), Some (CellBytes b) => bool_decide (a = b)
  | Some (CellInt a), Some (CellInt b) => a =? b
  | Some (CellTime a), Some (CellTime b) => dt_us a =? dt_us b
  | _, _ => false
  end.

Definition conflicts (t : table) (a b : row) : bool :=
  existsb (fun key => forallb (fun c => cells_agree (a c) (b c)) key) (unique_keys t).

(** ** models *)

Section models.
#[local] Open Scope string_scope.

Definition UuidMixin : list mapped_column := [Mapped "id" false Uuid [primary_key]].
Definition CreatedAtMixin : list mapped_column :=
  [Mapped "created_at" false Timestamptz [server_default "now()"]].
Definition TimestampMixin : list mapped_column :=
  CreatedAtMixin ++ [Mapped "updated_at" true Timestamptz [onupdate "now()"]].

Definition UserORM : table := {|
  tb_name := "users";
  tb_columns := UuidMixin ++ TimestampMixin ++ [
    Mapped "email" false (String 320) [unique; index];
    Mapped "password_hash" false (String 255) [];
    Mapped "role" false (SAEnum "userrole" ["USER"; "ADMIN"]) [server_default "USER"];
    Mapped "status" false (SAEnum "userstatus" ["ACTIVE"; "DISABLED"]) [server_default "ACTIVE"]];
  tb_args := []
|}.

Definition AuthSessionORM : table := {|
  tb_name := "auth_sessions";
  tb_columns := UuidMixin ++ CreatedAtMixin ++ [
    Mapped "user_id" false Uuid [ForeignKey "users" "id" "CASCADE"; index];
    Mapped "idle_expires_at" false Timestamptz [];
    Mapped "revoked_at" true Timestamptz []];
  tb_args := [
    CheckConstraint "idle_expires_at > created_at" "ck_auth_sessions_idle_expires_after_created";
    CheckConstraint "revoked_at IS NULL OR revoked_at >= created_at"
      "ck_auth_sessions_revoked_after_created";
    Index "ix_auth_sessions_idle_expires_at_active" ["idle_expires_at"] (Some "revoked_at IS NULL");
    Index "ix_auth_sessions_revoked_at_not_null" ["revoked_at"] (Some "revoked_at IS NOT NULL")]
|}.

Definition RefreshTokenORM : table := {|
  tb_name := "refresh_tokens";
  tb_columns := UuidMixin ++ CreatedAtMixin ++ [
    Mapped "session_id" false Uuid [ForeignKey "auth_sessions" "id" "CASCADE"; index];
    Mapped "token_hash" false (LargeBinary 32) [unique; index];
    Mapped "used_at" true Timestamptz []];
  tb_args := [
    CheckConstraint "octet_length(token_hash) = 32" "ck_refresh_tokens_token_hash_length";
    CheckConstraint "used_at IS NULL OR used_at >= created_at" "ck_refresh_tokens_used_after_created"]
|}.

Definition IdempotencyRecordORM : table := {|
  tb_name := "idempotency_records";
  tb_columns := [
    Mapped "id" false Uuid [primary_key];
    Mapped "subject_id" false (String 255) [nullable false];
    Mapped "operation" false (String 100) [nullable false];
    Mapped "key_hash" false (LargeBinary 32) [nullable false];
    Mapped "request_hash" false (LargeBinary 32) [nullable false];
    Mapped "fingerprint_version" false SmallInteger [server_default "1"; nullable false];
    Mapped "result_type" false (String 100) [nullable false];
    Mapped "result_payload" true Jsonb [];
    Mapped "result_version" false Integer [server_default "1"; nullable false];
    Mapped "resource_type" true (String 100) [];
    Mapped "resource_id" true (String 255) [];
    Mapped "resource_version" true Integer [];
    Mapped "created_at" false Timestamptz [server_default "now()"; nullable false];
    Mapped "completed_at" false Timestamptz [server_default "now()"; nullable false];
    Mapped "expires_at" false Timestamptz [nullable false]];
  tb_args := [
    UniqueConstraint ["subject_id"; "operation"; "key_hash"] "uq_idempotency_records_identity";
    CheckConstraint "octet_length(key_hash) = 32" "ck_idempotency_records_key_hash_sha256";
    CheckConstraint "octet_length(request_hash) = 32" "ck_idempotency_records_request_hash_sha256";
    CheckConstraint "fingerprint_version > 0" "ck_idempotency_records_fingerprint_version";
    CheckConstraint "result_version > 0" "ck_idempotency_records_result_version";
    CheckConstraint "(resource_type IS NULL AND resource_id IS NULL) OR (resource_type IS NOT NULL AND resource_id IS NOT NULL)"
      "ck_idempotency_records_resource_pair";
    CheckConstraint "resource_version IS NULL OR (resource_type IS NOT NULL AND resource_id IS NOT NULL AND resource_version > 0)"
      "ck_idempotency_records_resource_version";
    CheckConstraint "result_payload IS NOT NULL OR (resource_type IS NOT NULL AND resource_id IS NOT NULL)"
      "ck_idempotency_records_replayable_result";
    CheckConstraint "completed_at >= created_at" "ck_idempotency_records_completion_time";
    CheckConstraint "expires_at > completed_at" "ck_idempotency_records_expiration";
    Index "ix_idempotency_records_expires_at" ["expires_at"; "id"] None]
|}.

Definition OutboxMessageORM : table := {|
  tb_name := "outbox";
  tb_columns := UuidMixin ++ TimestampMixin ++ [
    Mapped "kind" false (SAEnum "outboxkind" ["COMMAND"; "EVENT"]) [];
    Mapped "topic" false (String 255) [];
    Mapped "key" false (String 255) [];
    Mapped "type" false (String 100) [];
    Mapped "payload" false Jsonb [];
    Mapped "status" false (SAEnum "outboxstatus" ["PENDING"; "CLAIMED"; "SUCCESS"; "QUARANTINED"]) [];
    Mapped "attempts" false Integer [];
    Mapped "last_error_class" true (String 255) [];
    Mapped "available_at" false Timestamptz [];
    Mapped "claim_token" true Uuid [];
    Mapped "claim_expires_at" true Timestamptz [];
    Mapped "terminal_at" true Timestamptz [];
    Mapped "redrive_count" false Integer []];
  tb_args := [
    CheckConstraint
      "(
                status = 'PENDING'
                AND claim_token IS NULL
                AND claim_expires_at IS NULL
                AND terminal_at IS NULL
            ) OR (
                status = 'CLAIMED'
                AND claim_token IS NOT NULL
                AND claim_expires_at IS NOT NULL
                AND terminal_at IS NULL
            ) OR (
                status IN ('SUCCESS', 'QUARANTINED')
                AND claim_token IS NULL
                AND claim_expires_at IS NULL
                AND terminal_at IS NOT NULL
            )"
      "ck_outbox_lifecycle";
    CheckConstraint "attempts >= 0 AND redrive_count >= 0" "ck_outbox_counters_nonnegative";
    Index "ix_outbox_dispatch" ["status"; "available_at"; "created_at"; "id"] None;
    Index "ix_outbox_claim_recovery" ["status"; "claim_expires_at"; "id"] None;
    Index "ix_outbox_key_order" ["key"; "created_at"; "id"; "status"] None;
    Index "ix_outbox_status_terminal_at" ["status"; "terminal_at"; "id"] None]
|}.

Definition RegistrationOperationORM : table := {|
  tb_name := "registration_operations";
  tb_columns := UuidMixin ++ TimestampMixin ++ [
    Mapped "user_id" false Uuid [nullable false];
    Mapped "email" false (String 320) [nullable false];
    Mapped "password_hash" true (String 255) [];
    Mapped "key_hash" false (LargeBinary 32) [nullable false];
    Mapped "status" false
      (SAEnum "registrationstatus" ["PENDING"; "CLAIMED"; "COMPLETED"; "BLOCKED"]) [nullable false];
    Mapped "attempts" false Integer [nullable false];
    Mapped "available_at" false Timestamptz [nullable false];
    Mapped "claim_token" true Uuid [];
    Mapped "claim_expires_at" true Timestamptz [];
    Mapped "last_error_class" true (String 255) [];
    Mapped "terminal_at" true Timestamptz [];
    Mapped "redrive_count" false Integer [nullable false]];
  tb_args := [
    UniqueConstraint ["user_id"] "uq_registration_operations_user_id";
    UniqueConstraint ["email"] "uq_registration_operations_email";
    UniqueConstraint ["key_hash"] "uq_registration_operations_key_hash";
    CheckConstraint "octet_length(key_hash) = 32" "ck_registration_operations_key_hash_sha256";
    CheckConstraint "attempts >= 0 AND redrive_count >= 0"
      "ck_registration_operations_counters_nonnegative";
    CheckConstraint
      "(
                status = 'PENDING'
                AND password_hash IS NOT NULL
                AND claim_token IS NULL
                AND claim_expires_at IS NULL
                AND terminal_at IS NULL
            ) OR (
                status = 'CLAIMED'
                AND password_hash IS NOT NULL
                AND claim_token IS NOT NULL
                AND claim_expires_at IS NOT NULL
                AND terminal_at IS NULL
            ) OR (
                status = 'COMPLETED'
                AND password_hash IS NULL
                AND claim_token IS NULL
                AND claim_expires_at IS NULL
                AND terminal_at IS NOT NULL
            ) OR (
                status = 'BLOCKED'
                AND password_hash IS NOT NULL
                AND claim_token IS NULL
                AND claim_expires_at IS NULL
                AND terminal_at IS NOT NULL
            )"
      "ck_registration_operations_lifecycle";
    Index "ix_registration_operations_dispatch" ["status"; "available_at"; "created_at"; "id"] None;
    Index "ix_registration_operations_claim_recovery" ["status"; "claim_expires_at"; "id"] None]
|}.

(** [Base.metadata.sorted_tables]: what a foreign key names comes first. *)
Definition metadata : list table :=
  [UserORM; AuthSessionORM; RefreshTokenORM; IdempotencyRecordORM; OutboxMessageORM;
   RegistrationOperationORM].

(** ** Rows *)

(** The member names the database's enumerations hold. *)
Definition kind_name (k : OutboxKind) : string :=
  match k with COMMAND => "COMMAND" | EVENT => "EVENT" end.
Definition outbox_status_name (s : OutboxStatus) : string :=
  match s with
  | OB_PENDING => "PENDING" | OB_CLAIMED => "CLAIMED"
  | OB_SUCCESS => "SUCCESS" | OB_QUARANTINED => "QUARANTINED"
  end.
Definition registration_status_name (s : RegistrationStatus) : string :=
  match s with
  | REG_PENDING => "PENDING" | REG_CLAIMED => "CLAIMED"
  | REG_COMPLETED => "COMPLETED" | REG_BLOCKED => "BLOCKED"
  end.
Definition role_name (r : UserRole) : string := match r with USER => "USER" | ADMIN => "ADMIN" end.
Definition user_status_name (s : UserStatus) : string :=
  match s with ACTIVE => "ACTIVE" | DISABLED => "DISABLED" end.

Definition user_row (u : User) : row := fun name =>
  match name with
  | "id" => Some (CellUuid (u_id u))
  | "created_at" => Some (CellTime (u_created_at u))
  | "updated_at" => CellTime <$> u_updated_at u
  | "email" => Some (CellText (u_email u))
  | "password_hash" => Some (CellText (u_password_hash u))
  | "role" => Some (CellText (role_name (u_role u)))
  | "status" => Some (CellText (user_status_name (u_status u)))
  | _ => None
  end.

Definition auth_session_row (s : SessionRow) : row := fun name =>
  match name with
  | "id" => Some (CellUuid (sn_id s))
  | "created_at" => Some (CellTime (sn_created_at s))
  | "user_id" => Some (CellUuid (sn_user_id s))
  | "idle_expires_at" => Some (CellTime (sn_idle_expires_at s))
  | "revoked_at" => CellTime <$> sn_revoked_at s
  | _ => None
  end.

Definition refresh_token_row (t : RefreshToken) : row := fun name =>
  match name with
  | "id" => Some (CellUuid (rt_id t))
  | "created_at" => Some (CellTime (rt_created_at t))
  | "session_id" => Some (CellUuid (rt_session_id t))
  | "token_hash" => Some (CellBytes (rt_token_hash t))
  | "used_at" => CellTime <$> rt_used_at t
  | _ => None
  end.

Definition idempotency_row (r : IdempotencyRecord) : row := fun name =>
  match name with
  | "id" => Some (CellUuid (ir_id r))
  | "subject_id" => Some (CellText (ir_subject_id r))
  | "operation" => Some (CellText (ir_operation r))
  | "key_hash" => Some (CellBytes (ir_key_hash r))
  | "request_hash" => Some (CellBytes (ir_request_hash r))
  | "fingerprint_version" => Some (CellInt (ir_fingerprint_version r))
  | "result_type" => Some (CellText (sr_result_type (ir_stored r)))
  | "result_payload" => (fun d => CellJson (JObject d)) <$> sr_result_payload (ir_stored r)
  | "result_version" => Some (CellInt (sr_result_version (ir_stored r)))
  | "resource_type" => CellText <$> sr_resource_type (ir_stored r)
  | "resource_id" => CellText <$> sr_resource_id (ir_stored r)
  | "resource_version" => CellInt <$> sr_resource_version (ir_stored r)
  | "created_at" => Some (CellTime (ir_created_at r))
  | "completed_at" => Some (CellTime (ir_completed_at r))
  | "expires_at" => Some (CellTime (ir_expires_at r))
  | _ => None
  end.

Definition outbox_row (m : OutboxMessage) : row := fun name =>
  match name with
  | "id" => Some (CellUuid (om_id m))
  | "created_at" => Some (CellTime (om_created_at m))
  | "updated_at" => CellTime <$> om_updated_at m
  | "kind" => Some (CellText (kind_name (om_kind m)))
  | "topic" => Some (CellText (om_topic m))
  | "key" => Some (CellText (om_key m))
  | "type" => Some (CellText (om_type m))
  | "payload" => Some (CellJson (om_payload m))
  | "status" => Some (CellText (outbox_status_name (om_status m)))
  | "attempts" => Some (CellInt (om_attempts m))
  | "last_error_class" => CellText <$> om_last_error_class m
  | "available_at" => Some (CellTime (om_available_at m))
  | "claim_token" => CellUuid <$> om_claim_token m
  | "claim_expires_at" => CellTime <$> om_claim_expires_at m
  | "terminal_at" => CellTime <$> om_terminal_at m
  | "redrive_count" => Some (CellInt (om_redrive_count m))
  | _ => None
  end.

Definition registration_row (r : RegistrationOperation) : row := fun name =>
  match name with
  | "id" => Some (CellUuid (ro_id r))
  | "created_at" => Some (CellTime (ro_created_at r))
  | "updated_at" => CellTime <$> ro_updated_at r
  | "user_id" => Some (CellUuid (ro_user_id r))
  | "email" => Some (CellText (ro_email r))
  | "password_hash" => CellText <$> ro_password_hash r
  | "key_hash" => Some (CellBytes (ro_key_hash r))
  | "status" => Some (CellText (registration_status_name (ro_status r)))
  | "attempts" => Some (CellInt (ro_attempts r))
  | "available_at" => Some (CellTime (ro_available_at r))
  | "claim_token" => CellUuid <$> ro_claim_token r
  | "claim_expires_at" => CellTime <$> ro_claim_expires_at r
  | "last_error_class" => CellText <$> ro_last_error_class r
  | "terminal_at" => CellTime <$> ro_terminal_at r
  | "redrive_count" => Some (CellInt (ro_redrive_count r))
  | _ => None
  end.
End models.

(** ** The constraints the repositories rely on *)

Definition not_null (t : table) (r : row) : bool :=
  forallb (fun c => column_nullable c || is_some (r (mc_name c))) (tb_columns t).

Lemma admits_checks t r : not_null t r = true -> admits t r = forallb (check_passes r) (tb_args t).
Proof. unfold admits, not_null. by intros ->. Qed.

(** Evaluate the CHECK constraints of a table, whose rows have no NULL where none may
    be. *)
Ltac read_checks :=
  rewrite admits_checks by (vm_compute; reflexivity);
  cbn [tb_args AuthSessionORM RefreshTokenORM IdempotencyRecordORM OutboxMessageORM
       RegistrationOperationORM UserORM forallb check_passes];
  repeat match goal with
    |- context [parse ?text] =>
      let c := eval vm_compute in (parse text) in
      replace (parse text) with c by (vm_compute; reflexivity)
  end;
  cbn [eval eval_operand].

Lemma digest_cell (b : bytes) : (Z.of_nat (length b) =? 32) = (length b =? 32)%nat.
Proof. destruct (Nat.eqb_spec (length b) 32); lia. Qed.

Lemma outbox_admits m : admits OutboxMessageORM (outbox_row m) = ck_outbox m.
Proof.
  read_checks. unfold ck_outbox, ck_outbox_lifecycle, in_status.
  destruct m as [id kind topic key type payload status attempts err av tok exp term red cr up]; cbn.
  by destruct status, tok, exp, term; cbn; destruct (0 <=? attempts), (0 <=? red).
Qed.

Lemma registration_admits op : admits RegistrationOperationORM (registration_row op) = ck_registration op.
Proof.
  read_checks. unfold ck_registration, ck_registration_lifecycle, has_status.
  destruct op as [id uid email hash key status attempts av tok exp err term red cr up]; cbn.
  rewrite digest_cell.
  by destruct status, hash, tok, exp, term; cbn;
    destruct (length key =? 32)%nat, (0 <=? attempts), (0 <=? red).
Qed.

Lemma idempotency_admits r : admits IdempotencyRecordORM (idempotency_row r) = record_check r.
Proof.
  read_checks. unfold record_check. 
  destruct r as [id subject op key req fv [rt payload rv ty rid ver] cr co ex]; cbn.
  rewrite !digest_cell. unfold dt_leb, dt_ltb.
  destruct (length key =? 32)%nat, (length req =? 32)%nat, (0 <? fv), (0 <? rv); cbn; try done.
  all: destruct payload, ty, rid, ver as [v|]; cbn; try done.
  all: try (destruct (0 <? v); cbn; try done).
  all: by destruct (dt_us cr <=? dt_us co), (dt_us co <? dt_us ex).
Qed.

Lemma session_admits s : admits AuthSessionORM (auth_session_row s) = session_check s.
Proof.
  read_checks. unfold session_check, after_or_null, dt_leb, dt_ltb.
  destruct s as [id cr uid idle [rev|]]; cbn; destruct (dt_us cr <? dt_us idle); cbn; try done.
  by destruct (dt_us cr <=? dt_us rev).
Qed.

Lemma token_admits t : admits RefreshTokenORM (refresh_token_row t) = token_check t.
Proof.
  read_checks. unfold token_check, after_or_null, dt_leb.
  destruct t as [id cr sid hash [used|]]; cbn; rewrite digest_cell;
    destruct (length hash =? 32)%nat; cbn; try done.
  by destruct (dt_us cr <=? dt_us used).
Qed.

Lemma user_admits u : admits UserORM (user_row u) = true.
Proof. by read_checks. Qed.

(** Evaluate the keys of a table. *)
Ltac read_keys :=
  unfold conflicts;
  match goal with |- context [unique_keys ?t] =>
    let keys := eval vm_compute in (unique_keys t) in
    replace (unique_keys t) with keys by (vm_compute; reflexivity)
  end; cbn; rewrite ?orb_false_r, ?andb_true_r, ?orb_assoc, ?andb_assoc.

Definition record_identity (r : IdempotencyRecord) : IdempotencyIdentity :=
  {| ii_subject_id := ir_subject_id r; ii_operation := ir_operation r; ii_key_hash := ir_key_hash r |}.

(** C14. The database enforces what the repositories' models take for granted.  The CHECK
    and NOT NULL constraints of the six tables, as declared text evaluated in SQL's
    three-valued logic, accept a row exactly when the boolean check of the model does,
    and two rows violate a primary key or a unique constraint exactly when the model
    finds them in conflict. *)
Theorem schema_enforced :
  (forall u, admits UserORM (user_row u) = true) /\
  (forall s, admits AuthSessionORM (auth_session_row s) = session_check s) /\
  (forall t, admits RefreshTokenORM (refresh_token_row t) = token_check t) /\
  (forall r, admits IdempotencyRecordORM (idempotency_row r) = record_check r) /\
  (forall m, admits OutboxMessageORM (outbox_row m) = ck_outbox m) /\
  (forall op, admits RegistrationOperationORM (registration_row op) = ck_registration op) /\
  (forall a b, conflicts UserORM (user_row a) (user_row b) =
     (u_id a =? u_id b) || bool_decide (u_email a = u_email b)) /\
  (forall a b, conflicts AuthSessionORM (auth_session_row a) (auth_session_row b) =
     (sn_id a =? sn_id b)) /\
  (forall a b, conflicts RefreshTokenORM (refresh_token_row a) (refresh_token_row b) =
     (rt_id a =? rt_id b) || bool_decide (rt_token_hash a = rt_token_hash b)) /\
  (forall a b, conflicts IdempotencyRecordORM (idempotency_row a) (idempotency_row b) =
     (ir_id a =? ir_id b) || same_identity (record_identity b) a) /\
  (forall a b, conflicts OutboxMessageORM (outbox_row a) (outbox_row b) = (om_id a =? om_id b)) /\
  (forall a b, conflicts RegistrationOperationORM (registration_row a) (registration_row b) =
     ro_conflict a b).
Proof.
  split; [exact user_admits|]. split; [exact session_admits|]. split; [exact token_admits|].
  split; [exact idempotency_admits|]. split; [exact outbox_admits|].
  split; [exact registration_admits|].
  repeat (split; [intros a b; by read_keys|]). intros a b. by read_keys.
Qed.

(** ** Column widths *)

(** PostgreSQL limits VARCHAR columns by characters and integers by their size; BYTEA has
    no limit, whatever [LargeBinary] says. *)
Definition cell_fits (type : sql_type) (c : cell) : bool :=
  match type, c with
  | Uuid, CellUuid _ | LargeBinary _, CellBytes _ | Timestamptz, CellTime _ | Jsonb, CellJson _ => true
  | String n, CellText s => (String.length s <=? n)%nat
  | Integer, CellInt z => (- 2 ^ 31 <=? z) && (z <? 2 ^ 31)
  | SmallInteger, CellInt z => (- 2 ^ 15 <=? z) && (z <? 2 ^ 15)
  | SAEnum _ values, CellText s => bool_decide (s ∈ values)
  | _, _ => false
  end.

(** An optional cell. *)
Definition optional_fits (type : sql_type) (c : option cell) : bool :=
  match c with Some c => cell_fits type c | None => true end.

Definition fits (t : table) (r : row) : bool :=
  forallb (fun c => optional_fits (mc_type c) (r (mc_name c)))
    (tb_columns t).

Definition optional_within (n : nat) (s : option string) : bool :=
  match s with Some s => (String.length s <=? n)%nat | None => true end.

Lemma str_length l : String.length (str l) = length l.
Proof. induction l as [|c l IH]; [done|]. cbn. by f_equal. Qed.

Lemma uuid_str_length u : String.length (uuid_str u) = 36%nat.
Proof.
  unfold uuid_str. rewrite str_length. unfold uuid_chars.
  assert (Hl : length (digits 16 32 u) = 32%nat) by apply digits_length.
  rewrite !length_app, !length_take, !length_drop, Hl. reflexivity.
Qed.

(** No class name of the service comes near 255 characters. *)
Lemma class_name_fits x : (String.length (class_name x) <=? 255)%nat = true.
Proof. destruct x as [| | | | | | | |e| |e|e|e|e|e|e| | | | |]; try destruct e; reflexivity. Qed.

Lemma optional_uuid o : optional_fits Uuid (CellUuid <$> o) = true.
Proof. by destruct o. Qed.
Lemma optional_time o : optional_fits Timestamptz (CellTime <$> o) = true.
Proof. by destruct o. Qed.
Lemma optional_json {A} (f : A -> json) o : optional_fits Jsonb ((fun a => CellJson (f a)) <$> o) = true.
Proof. by destruct o. Qed.
Lemma optional_text n o : optional_fits (String n) (CellText <$> o) = optional_within n o.
Proof. by destruct o. Qed.

(** The names of a member of an enumeration are those of the column's type. *)
Lemma enum_known {E} (name : E -> string) (values : list string) (m : E) :
  (forall m, bool_decide (name m ∈ values) = true) -> bool_decide (name m ∈ values) = true.
Proof. auto. Qed.

(** Evaluate the widths of a table's columns. *)
Ltac read_widths :=
  unfold fits; cbn -[cell_fits optional_fits];
  rewrite ?optional_uuid, ?optional_time, ?optional_json, ?optional_text;
  cbn -[Z.pow bool_decide];
  repeat match goal with |- context [bool_decide (?name ?m ∈ ?l)] =>
    rewrite (enum_known name l m) by (intros []; reflexivity)
  end;
  rewrite ?andb_assoc, ?andb_true_r; cbn [andb].

Lemma outbox_fits m :
  fits OutboxMessageORM (outbox_row m) =
  (String.length (om_topic m) <=? 255)%nat && (String.length (om_key m) <=? 255)%nat
  && (String.length (om_type m) <=? 100)%nat
  && cell_fits Integer (CellInt (om_attempts m)) && optional_within 255 (om_last_error_class m)
  && cell_fits Integer (CellInt (om_redrive_count m)).
Proof.
  destruct m as [id kind topic key type payload status attempts err av tok exp term red cr up].
  by read_widths.
Qed.

Lemma registration_fits r :
  fits RegistrationOperationORM (registration_row r) =
  (String.length (ro_email r) <=? 320)%nat && optional_within 255 (ro_password_hash r)
  && cell_fits Integer (CellInt (ro_attempts r)) && optional_within 255 (ro_last_error_class r)
  && cell_fits Integer (CellInt (ro_redrive_count r)).
Proof.
  destruct r as [id uid email hash key status attempts av tok exp err term red cr up].
  by read_widths.
Qed.

Lemma user_fits u :
  fits UserORM (user_row u) =
  (String.length (u_email u) <=? 320)%nat && (String.length (u_password_hash u) <=? 255)%nat.
Proof. destruct u as [id cr up email hash role status]. by read_widths. Qed.

Lemma idempotency_fits r :
  fits IdempotencyRecordORM (idempotency_row r) =
  (String.length (ir_subject_id r) <=? 255)%nat && (String.length (ir_operation r) <=? 100)%nat
  && cell_fits SmallInteger (CellInt (ir_fingerprint_version r))
  && (String.length (sr_result_type (ir_stored r)) <=? 100)%nat
  && cell_fits Integer (CellInt (sr_result_version (ir_stored r)))
  && optional_within 100 (sr_resource_type (ir_stored r))
  && optional_within 255 (sr_resource_id (ir_stored r))
  && match sr_resource_version (ir_stored r) with
     | Some v => cell_fits Integer (CellInt v)
     | None => true
     end.
Proof.
  destruct r as [id subject op key req fv [rt payload rv ty rid ver] cr co ex].
  destruct ver; by read_widths.
Qed.

Lemma text_within_length n s : text_within n s = true -> (String.length s <=? n)%nat = true.
Proof. unfold text_within. by intros [_ ?]%andb_prop. Qed.

(** A number an INTEGER column holds. *)
Definition small (z : Z) : bool := cell_fits Integer (CellInt z).

(** A validated result in a record fits, but for the bounds only the columns have. *)
Lemma record_fits id i i' h stored c now retention :
  IdempotencyIdentity_validate i = Ok i' -> CompletedIdempotencyResult_new h stored = Ok c ->
  fits IdempotencyRecordORM (idempotency_row (record_row id i c now retention)) =
  small (sr_result_version stored) && optional_within 255 (sr_resource_id stored)
  && match sr_resource_version stored with Some v => small v | None => true end.
Proof.
  intros Hi Hc. rewrite idempotency_fits.
  unfold IdempotencyIdentity_validate in Hi. unfold CompletedIdempotencyResult_new in Hc.
  destruct (StoredResult_validate stored) as [s|] eqn:Es; [|done].
  unfold StoredResult_validate in Es. ok_inv. subst. cbn [record_row ir_stored ci_stored
    ir_subject_id ir_operation ir_fingerprint_version].
  rewrite !text_within_length by done.
  assert (optional_within 100 (sr_resource_type a) = true) as ->.
  { destruct (sr_resource_type a) as [t|]; [|done]. cbn in Hok3. ok_inv. by apply text_within_length. }
  unfold small. cbn [andb]. by rewrite andb_true_r.
Qed.

Lemma rejected_fits stored : rejected_result = Ok stored ->
  sr_result_version stored = 1 /\ sr_resource_id stored = None /\ sr_resource_version stored = None.
Proof. by intros [= <-]. Qed.

Lemma success_fits envelope t stored : success_result envelope t = Ok stored ->
  sr_result_version stored = 1 /\ sr_resource_id stored = Some (uuid_str (rt_id t)) /\
  sr_resource_version stored = None.
Proof. by intros [= <-]. Qed.

(** C40. The rows the service inserts fit their columns: those of events whose topic has
    at most 255 characters, of users and registrations whose address has at most 320 and
    whose password hash at most 255, of all sessions and tokens, and of the records of
    refreshed sessions.  A retry, a block or a quarantine of a row that fits writes
    the name of an exception class, which fits, and fits again while its attempts can be
    counted.  Of an arbitrary validated result the record fits exactly when its resource
    id has at most 255 characters and its versions 32 bits, which the validator does not
    ask for. *)
Theorem written_rows_fit :
  (forall topic producer ev, (String.length topic <= 255)%nat ->
     fits OutboxMessageORM (outbox_row (event_row topic producer ev)) = true) /\
  (forall operation_id user_id email password_hash key_hash now owner expires,
     (String.length email <= 320)%nat -> (String.length password_hash <= 255)%nat ->
     let op := candidate operation_id user_id email password_hash key_hash now owner expires in
     fits RegistrationOperationORM (registration_row op) = true /\
     fits UserORM (user_row (new_user op password_hash)) = true) /\
  (forall s, fits AuthSessionORM (auth_session_row s) = true) /\
  (forall t, fits RefreshTokenORM (refresh_token_row t) = true) /\
  (forall key_hash i envelope t stored h c id now retention,
     refresh_identity key_hash = Ok i ->
     rejected_result = Ok stored \/ success_result envelope t = Ok stored ->
     CompletedIdempotencyResult_new h stored = Ok c ->
     fits IdempotencyRecordORM (idempotency_row (record_row id i c now retention)) = true) /\
  (forall op now at_ error, fits RegistrationOperationORM (registration_row op) = true ->
     ro_attempts op + 1 < 2 ^ 31 ->
     fits RegistrationOperationORM (registration_row (set_retry now at_ (class_name error) op)) = true /\
     fits RegistrationOperationORM (registration_row (set_blocked now at_ (class_name error) op)) = true) /\
  (forall m now at_ error, fits OutboxMessageORM (outbox_row m) = true -> om_attempts m + 1 < 2 ^ 31 ->
     fits OutboxMessageORM (outbox_row (om_set_retry now at_ (class_name error) m)) = true /\
     fits OutboxMessageORM (outbox_row (om_set_quarantined now at_ (class_name error) m)) = true) /\
  (forall i i' h stored c id now retention,
     IdempotencyIdentity_validate i = Ok i' -> CompletedIdempotencyResult_new h stored = Ok c ->
     fits IdempotencyRecordORM (idempotency_row (record_row id i c now retention)) =
       small (sr_result_version stored) && optional_within 255 (sr_resource_id stored)
       && match sr_resource_version stored with Some v => small v | None => true end).
Proof.
  split; [|split; [|split; [|split; [|split; [|split; [|split]]]]]].
  - intros topic producer ev Ht%Nat.leb_le. rewrite outbox_fits. unfold event_row, partition_key.
    cbn [om_topic om_key om_type om_attempts om_last_error_class om_redrive_count].
    by rewrite uuid_str_length, Ht.
  - intros operation_id user_id email password_hash key_hash now owner expires
      He%Nat.leb_le Hp%Nat.leb_le op.
    rewrite registration_fits, user_fits. unfold op, candidate, new_user, optional_within.
    cbn [ro_email ro_password_hash ro_attempts ro_last_error_class ro_redrive_count u_email
         u_password_hash].
    by rewrite He, Hp.
  - intros s. by unfold fits; cbn -[optional_fits]; rewrite optional_time.
  - intros t. by unfold fits; cbn -[optional_fits]; rewrite optional_time.
  - intros key_hash i envelope t stored h c id now retention Hi Hs Hc.
    unfold refresh_identity in Hi.
    assert (IdempotencyIdentity_validate i = Ok i) as Hv.
    { pose proof Hi as Hj. unfold IdempotencyIdentity_validate in Hj. ok_inv. by subst. }
    rewrite (record_fits _ _ _ _ _ _ _ _ Hv Hc).
    assert (sr_result_version stored = 1 /\ sr_resource_version stored = None /\
      optional_within 255 (sr_resource_id stored) = true) as (-> & -> & ->); [|done].
    destruct Hs as [(? & -> & ?)%rejected_fits|(? & -> & ?)%success_fits]; [done|].
    split; [done|]. split; [done|]. cbn [optional_within]. by rewrite uuid_str_length.
  - intros op now at_ error. rewrite !registration_fits. cbn -[Z.pow class_name String.length].
    rewrite class_name_fits, !andb_true_iff, !Z.leb_le, !Z.ltb_lt. intros. destruct_and!.
    repeat split; done || lia.
  - intros m now at_ error. rewrite !outbox_fits. cbn -[Z.pow class_name String.length].
    rewrite class_name_fits, !andb_true_iff, !Z.leb_le, !Z.ltb_lt. intros. destruct_and!.
    repeat split; done || lia.
  - intros i i' h stored c id now retention. apply record_fits.
Qed.

(** A record whose resource id no column holds passes the validator. *)
Definition demo_long_result : StoredResult :=
  {| sr_result_type := "resource"; sr_result_payload := None; sr_result_version := 1;
     sr_resource_type := Some "document"; sr_resource_version := None;
     sr_resource_id := Some (str (repeat Ascii.zero 256)) |}%string.

Lemma written_rows_fit_witness :
  fits OutboxMessageORM (outbox_row (event_row "users" "identity"
    {| ev_user_id := 1; ev_registered_at := utc 0; ev_correlation_id := 2;
       ev_causation_id := None; ev_event_id := 3 |})) = true /\
  (exists c, CompletedIdempotencyResult_new demo_request demo_long_result = Ok c /\
     fits IdempotencyRecordORM (idempotency_row (record_row 7 demo_identity c (utc 0) 60)) = false).
Proof.
  destruct written_rows_fit as (Hev & _ & _ & _ & _ & _ & _ & Hrec). split.
  - apply Hev. cbn. lia.
  - eexists. split; [vm_compute; reflexivity|].
    rewrite (Hrec demo_identity demo_identity demo_request demo_long_result);
      vm_compute; reflexivity.
Defined.

(** ** Migrations *)

(** The tables and the enumeration types of a database. *)
Record schema := { sc_tables : gmap string table; sc_types : gset string }.

#[global] Instance table_arg_eq_dec : EqDecision table_arg.
Proof. solve_decision. Defined.

Definition enum_types (t : table) : gset string :=
  list_to_set (flat_map (fun c => match mc_type c with SAEnum name _ => [name] | _ => [] end)
    (tb_columns t)).

(** [table.create(checkfirst=True)]: a table of that name is left as it is. *)
Definition create_table (t : table) (s : schema) : schema :=
  match sc_tables s !! tb_name t with
  | Some _ => s
  | None => {| sc_tables := <[tb_name t := t]> (sc_tables s); sc_types := sc_types s ∪ enum_types t |}
  end.

(** [table.drop(checkfirst=True)] *)
Definition drop_table (t : table) (s : schema) : schema :=
  {| sc_tables := delete (tb_name t) (sc_tables s); sc_types := sc_types s |}.

(** [DROP TYPE IF EXISTS name] *)
Definition drop_type (name : string) (s : schema) : schema :=
  {| sc_tables := sc_tables s; sc_types := sc_types s ∖ {[name]} |}.

(** [Base.metadata.create_all] and [drop_all], which drops the types as well. *)
Definition create_all (s : schema) : schema := foldl (fun s t => create_table t s) s metadata.
Definition drop_all (s : schema) : schema :=
  foldr (fun t s => {| sc_tables := sc_tables (drop_table t s);
                       sc_types := sc_types s ∖ enum_types t |}) s metadata.

Record revision := {
  rv_revision : string;
  rv_down_revision : option string;
  rv_upgrade : schema -> schema;
  rv_downgrade : schema -> schema
}.

Definition identity_baseline : revision := {|
  rv_revision := "0001_identity_baseline"; rv_down_revision := None;
  rv_upgrade := create_all; rv_downgrade := drop_all
|}.

Definition registration_operations_revision : revision := {|
  rv_revision := "0002_registration_operations";
  rv_down_revision := Some "0001_identity_baseline"%string;
  rv_upgrade := create_table RegistrationOperationORM;
  rv_downgrade s := drop_type "registrationstatus" (drop_table RegistrationOperationORM s)
|}.

(** The revisions from the base to the head, and what [upgrade head] and
    [downgrade base] run. *)
Definition versions : list revision := [identity_baseline; registration_operations_revision].
Definition upgrade_head (s : schema) : schema := foldl (fun s r => rv_upgrade r s) s versions.
Definition downgrade_base (s : schema) : schema := foldr rv_downgrade s versions.

Definition empty_schema : schema := {| sc_tables := ∅; sc_types := ∅ |}.

(** The database of a deployment that ran the baseline before registrations had a
    table. *)
Definition first_baseline : schema :=
  foldl (fun s t => create_table t s) empty_schema
    [UserORM; AuthSessionORM; RefreshTokenORM; IdempotencyRecordORM; OutboxMessageORM].

Lemma create_lookup t s name :
  sc_tables (create_table t s) !! name =
  if decide (name = tb_name t) then Some (default t (sc_tables s !! name)) else sc_tables s !! name.
Proof.
  unfold create_table. case_decide as Hn; [subst name|]; destruct (sc_tables s !! tb_name t) eqn:E; cbn.
  - by rewrite E.
  - by rewrite lookup_insert_eq.
  - done.
  - by rewrite lookup_insert_ne.
Qed.

Lemma create_all_lookup l s name :
  sc_tables (foldl (fun s t => create_table t s) s l) !! name =
  match sc_tables s !! name with
  | Some t => Some t
  | None => list_find (fun t => tb_name t = name) l ≫= fun it => Some it.2
  end.
Proof.
  revert s. induction l as [|t l IH]; intros s; cbn [foldl].
  { by destruct (sc_tables s !! name). }
  rewrite IH, create_lookup. cbn [list_find].
  case_decide as Hn; [subst name|]; destruct (sc_tables s !! _) eqn:E; cbn; try done.
  - by rewrite decide_True.
  - rewrite decide_False by done. by destruct (list_find _ l) as [[]|].
Qed.

Definition declared (name : string) : option table :=
  list_find (fun t => tb_name t = name) metadata ≫= fun it => Some it.2.

Lemma upgrade_lookup s name :
  sc_tables (upgrade_head s) !! name =
  match sc_tables s !! name with Some t => Some t | None => declared name end.
Proof.
  unfold upgrade_head. cbn [foldl versions rv_upgrade identity_baseline registration_operations_revision].
  rewrite create_lookup. unfold create_all. rewrite create_all_lookup. fold (declared name).
  case_decide as Hn; [subst name|done]. by destruct (sc_tables s !! _).
Qed.

Lemma downgrade_lookup s name :
  sc_tables (downgrade_base s) !! name =
  match declared name with Some _ => None | None => sc_tables s !! name end.
Proof.
  unfold downgrade_base, declared.
  cbn [foldr versions rv_downgrade identity_baseline registration_operations_revision drop_all
       metadata list_find drop_table drop_type sc_tables].
  unfold drop_all, metadata. cbn [foldr drop_table sc_tables list_find].
  repeat case_decide; subst; cbn;
    repeat first [rewrite lookup_delete_eq|rewrite lookup_delete_ne by done]; try done.
Qed.

(** C35. The migrations lead every database to the declared tables.  [upgrade head] keeps
    the tables a database has and adds exactly the declared ones it lacks; from an empty
    database it gives the declared tables and types, and so does the second revision
    alone on a database whose baseline is older than the registrations' table, while on
    a new one it finds its table made by the first.  [downgrade base] takes away every
    declared table and no other, and from an empty database's head nothing is left; the
    second revision taken back and applied again gives the head again.  The revisions
    form one chain. *)
Theorem migrations_converge :
  (forall s name, sc_tables (upgrade_head s) !! name =
     match sc_tables s !! name with Some t => Some t | None => declared name end) /\
  (forall s name, sc_tables (downgrade_base s) !! name =
     match declared name with Some _ => None | None => sc_tables s !! name end) /\
  sc_types (upgrade_head empty_schema) =
    list_to_set ["userrole"; "userstatus"; "outboxkind"; "outboxstatus"; "registrationstatus"]%string /\
  rv_upgrade registration_operations_revision first_baseline = upgrade_head empty_schema /\
  rv_upgrade registration_operations_revision (create_all empty_schema) = create_all empty_schema /\
  downgrade_base (upgrade_head empty_schema) = empty_schema /\
  rv_upgrade registration_operations_revision
    (rv_downgrade registration_operations_revision (upgrade_head empty_schema)) =
    upgrade_head empty_schema /\
  rv_down_revision <$> versions = None :: ((fun r => Some (rv_revision r)) <$> removelast versions).
Proof.
  split; [exact upgrade_lookup|]. split; [exact downgrade_lookup|].
  split; [vm_compute; reflexivity|]. split; [vm_compute; reflexivity|].
  split; [vm_compute; reflexivity|]. split; [vm_compute; reflexivity|].
  split; [vm_compute; reflexivity|]. reflexivity.
Qed.
