(* ===== verification/Profile.v ===== *)
(** * Provisioning a user's profile

    [infrastructure/http/profile_provisioner.py]: at most two PUT requests to the
    User Profile service behind a circuit breaker of its own.  The breaker is shared
    with every other call ([CircuitBreaker]), so whether it admits a request is the
    environment's choice; what each admitted request tells it is recorded. *)

From S2P Require Import Prelude Exceptions Retry Text CircuitBreaker.
From Stdlib Require Import SpecFloat.

(** [float(text)]: [None] for [ValueError]. *)
Class FloatText := float_of_text : string -> option float.

(** What [client.put] does: a response with its status and [Retry-After] header, an
    [httpx2.TransportError], or another exception. *)
Inductive put_answer : Set :=
| Responded (status_code : Z) (retry_after : option string)
| TransportFailed
| PutRaised (error : exn).

(** [_ProfileCallError] and everything else [_put_profile] may raise. *)
Inductive call_error : Set :=
| ProfileCallError (retryable : bool) (retry_after_seconds : option float)
| OtherError (error : exn).

Inductive profile_event : Set :=
| PutProfile (path : string) (registered_at : string)
| Settled (o : outcome)
| Slept (seconds : float).

Record provisioner_config := {
  pc_configured : bool;
  pc_retry_delay_seconds : float;
  pc_retry_max_delay_seconds : float
}.

(** [HTTPProfileProvisioner.__init__] *)
Definition provisioner_init (cfg : provisioner_config) : res provisioner_config :=
  raise_if (flt (pc_retry_delay_seconds cfg) f0) EValueError;;
  raise_if (fle (pc_retry_max_delay_seconds cfg) f0) EValueError;;
  raise_if (flt (pc_retry_max_delay_seconds cfg) (pc_retry_delay_seconds cfg)) EValueError;;
  mret cfg.

Definition retryable_status (status_code : Z) : bool :=
  bool_decide (status_code ∈ [423; 429; 500; 502; 503; 504]).

(** [_is_profile_dependency_failure], and how the breaker takes the call's end. *)
Definition breaker_outcome (r : result call_error unit) : outcome :=
  match r with
  | Ok _ => Succeeded
  | Err (ProfileCallError retryable _) => if retryable then Failed else Classified
  | Err (OtherError error) => if is_exception error then Classified else Interrupted
  end.

Section provisioner.
Context `{FloatText} (cfg : provisioner_config).

Definition retry_after_seconds (status_code : Z) (retry_after : option string) :
    option float :=
  if bool_decide (status_code ∈ [423; 429]) then
    text ← retry_after;
    x ← float_of_text text;
    Some (fmax x f0)
  else None.

(** [_put_profile], from the answer of the client. *)
Definition put_profile (answer : put_answer) : result call_error unit :=
  match answer with
  | TransportFailed => Err (ProfileCallError true None)
  | PutRaised error => Err (OtherError error)
  | Responded status_code retry_after =>
      if status_code =? 204 then Ok tt
      else Err (ProfileCallError (retryable_status status_code)
                  (retry_after_seconds status_code retry_after))
  end.

Definition is_zero (x : float) : bool := match x with S754_zero _ => true | _ => false end.

(** [error.retry_after_seconds or 0.0], and the pause before the second attempt. *)
Definition pause (retry_after : option float) : float :=
  let retry_after := match retry_after with
                     | Some x => if is_zero x then f0 else x
                     | None => f0
                     end in
  fmin (fmax (pc_retry_delay_seconds cfg) retry_after) (pc_retry_max_delay_seconds cfg).

Definition profile_path (user_id : uuid) : string :=
  ("/internal/v1/profiles/" ++ uuid_str user_id)%string.

(** The attempts left: [admitted] and [answers] are what the breaker and the client
    do at each of them. *)
Fixpoint attempts (user_id : uuid) (payload : string) (admitted : nat -> bool)
    (answers : nat -> put_answer) (remaining attempt : nat) : res unit * list profile_event :=
  match remaining with
  | O => (Err (ProfileProvisioningUnavailableError : exn), [])
  | S remaining =>
      if negb (admitted attempt) then (Err (ProfileProvisioningUnavailableError : exn), [])
      else
        let r := put_profile (answers attempt) in
        let events := [PutProfile (profile_path user_id) payload; Settled (breaker_outcome r)] in
        match r with
        | Ok _ => (Ok tt, events)
        | Err (OtherError error) => (Err error, events)
        | Err (ProfileCallError false _) =>
            (Err (ProfileProvisioningRejectedError : exn), events)
        | Err (ProfileCallError true retry_after) =>
            match remaining with
            | O => (Err (ProfileProvisioningUnavailableError : exn), events)
            | S _ =>
                let '(r, rest) := attempts user_id payload admitted answers remaining (S attempt) in
                (r, events ++ [Slept (pause retry_after)] ++ rest)
            end
        end
  end.

(** [create_profile] *)
Definition provision (user_id : uuid) (registered_at : datetime) (admitted : nat -> bool)
    (answers : nat -> put_answer) : res unit * list profile_event :=
  if negb (pc_configured cfg) then (Err (ProfileProvisioningUnavailableError : exn), [])
  else attempts user_id (isoformat registered_at) admitted answers 2 0.
End provisioner.

(** ** Correctness *)

Definition is_put (ev : profile_event) : bool :=
  match ev with PutProfile _ _ => true | _ => false end.

Definition sleeps (l : list profile_event) : list float :=
  l ≫= (fun ev => match ev with Slept s => [s] | _ => [] end).

Definition settled_outcomes (l : list profile_event) : list outcome :=
  l ≫= (fun ev => match ev with Settled o => [o] | _ => [] end).

(** The answer that ends the attempts, and the error it ends them with. *)
Definition final_answer (a : put_answer) : res unit :=
  match a with
  | TransportFailed => Err (ProfileProvisioningUnavailableError : exn)
  | PutRaised error => Err error
  | Responded status_code _ =>
      if status_code =? 204 then Ok tt
      else if retryable_status status_code then Err (ProfileProvisioningUnavailableError : exn)
      else Err (ProfileProvisioningRejectedError : exn)
  end.

Definition retryable (a : put_answer) : bool :=
  match a with
  | TransportFailed => true
  | PutRaised _ => false
  | Responded status_code _ => negb (status_code =? 204) && retryable_status status_code
  end.

Lemma put_profile_final `{FloatText} a :
  match put_profile a with
  | Ok _ => final_answer a = Ok tt /\ retryable a = false
  | Err (OtherError x) => final_answer a = Err x /\ retryable a = false
  | Err (ProfileCallError b _) =>
      final_answer a = Err (if b then ProfileProvisioningUnavailableError : exn
                            else ProfileProvisioningRejectedError : exn) /\ retryable a = b
  end.
Proof.
  destruct a as [s ra| |x]; cbn; try done. destruct (s =? 204); [done|]. cbn.
  by destruct (retryable_status s).
Qed.

Lemma pause_bounds cfg ra :
  pause cfg ra = pc_retry_max_delay_seconds cfg \/
  flt (pc_retry_max_delay_seconds cfg) (pause cfg ra) = false.
Proof.
  unfold pause. set (m := fmax _ _). unfold fmin.
  destruct (flt (pc_retry_max_delay_seconds cfg) m) eqn:E; auto.
Qed.

(** The conjuncts of [provision_spec] on a concrete trace. *)
Ltac provision_case :=
  split_and!; cbn; try done; try lia;
  try (by intros s ?%elem_of_nil); try (by intros k o; rewrite lookup_nil);
  try (intros s ->%list_elem_of_singleton; apply pause_bounds).

Lemma breaker_outcome_failed `{FloatText} a :
  breaker_outcome (put_profile a) = Failed <-> retryable a = true.
Proof.
  pose proof (put_profile_final a) as Hf.
  destruct (put_profile a) as [[]|[[|] ra|x]]; cbn; destruct Hf as [_ ->]; try done.
  by destruct (is_exception x).
Qed.

Lemma first_outcome `{FloatText} answers k o :
  [breaker_outcome (put_profile (answers 0%nat))] !! k = Some o ->
  o = Failed <-> retryable (answers k) = true.
Proof. destruct k as [|k]; [|done]. intros [= <-]. apply breaker_outcome_failed. Qed.

Lemma both_outcomes `{FloatText} answers k o :
  [breaker_outcome (put_profile (answers 0%nat)); breaker_outcome (put_profile (answers 1%nat))]
    !! k = Some o ->
  o = Failed <-> retryable (answers k) = true.
Proof.
  destruct k as [|[|k]]; [| |done]; intros [= <-]; apply breaker_outcome_failed.
Qed.

(** C37. Provisioning is bounded and tells apart the ways it can fail.  An
    unconfigured provisioner and an open circuit send nothing and report the
    service unavailable.  The first answer decides unless it is worth a retry (a
    transport failure, 423, 429, 500, 502, 503 or 504); then there is one pause,
    never longer than the configured maximum whatever [Retry-After] says, and the
    second answer decides: 204 is success, a retryable answer is an unavailable
    service, any other status a rejection, and an exception that is not the
    transport's passes through.  The circuit breaker is told of each request, and a
    request counts as a failure for it exactly when its answer was retryable. *)
Theorem provision_spec `{FloatText} cfg user_id registered_at admitted answers :
  let '(r, trace) := provision cfg user_id registered_at admitted answers in
  (length (List.filter is_put trace) <= 2)%nat /\
  (forall s, s ∈ sleeps trace ->
     s = pc_retry_max_delay_seconds cfg \/ flt (pc_retry_max_delay_seconds cfg) s = false) /\
  length (settled_outcomes trace) = length (List.filter is_put trace) /\
  (forall k o, settled_outcomes trace !! k = Some o -> o = Failed <-> retryable (answers k) = true) /\
  if negb (pc_configured cfg) || negb (admitted 0%nat) then
    r = Err (ProfileProvisioningUnavailableError : exn) /\ trace = []
  else if negb (retryable (answers 0%nat)) then
    r = final_answer (answers 0%nat) /\ sleeps trace = []
  else if negb (admitted 1%nat) then
    r = Err (ProfileProvisioningUnavailableError : exn) /\ length (sleeps trace) = 1%nat
  else r = final_answer (answers 1%nat) /\ length (sleeps trace) = 1%nat.
Proof.
  unfold provision. destruct (pc_configured cfg); cbn [negb orb]; [|by provision_case].
  cbn [attempts]. destruct (admitted 0%nat); cbn [negb]; [|by provision_case].
  pose proof (first_outcome answers) as Hone. pose proof (both_outcomes answers) as Htwo.
  pose proof (put_profile_final (answers 0%nat)) as Hf.
  destruct (put_profile (answers 0%nat)) as [[]|[[|] ra|x]] eqn:E0;
    destruct Hf as [Hfinal ->]; try rewrite Hfinal; [by provision_case| |by provision_case..].
  cbn [negb]. destruct (admitted 1%nat); cbn [negb]; [|by provision_case].
  pose proof (put_profile_final (answers 1%nat)) as Hf1.
  destruct (put_profile (answers 1%nat)) as [[]|[[|] ra1|x1]] eqn:E1;
    destruct Hf1 as [-> _]; by provision_case.
Qed.
