(* ===== verification/RequestId.v ===== *)
(** * Request correlation

    [entrypoints/http/middlewares]: the policy that accepts or generates a request
    id ([request_id_policy.py]), the state of one response ([request_lifecycle.py])
    and the ASGI middleware around the application ([request_id.py]).

    An ASGI application is the tree of what it does with [send]: it returns, raises,
    or sends a message and goes on with what [send] ended (which may be an
    exception it survives).  The transport's answer to a send is any function of what
    happened so far.  The trace keeps the context changes, the observer's calls and
    the messages that reach the transport, in order; durations are not kept. *)

From S2P Require Import Prelude Exceptions Text.

(** ** Policy *)

Definition in_range (lo hi : nat) (c : Ascii.ascii) : bool :=
  (lo <=? Ascii.nat_of_ascii c)%nat && (Ascii.nat_of_ascii c <=? hi)%nat.

Definition one_of (s : string) (c : Ascii.ascii) : bool := bool_decide (c ∈ chars s).

Definition alphanumeric (c : Ascii.ascii) : bool :=
  in_range 48 57 c || in_range 65 90 c || in_range 97 122 c.

(** [[A-Za-z0-9][A-Za-z0-9._:-]*] *)
Definition safe_char (c : Ascii.ascii) : bool := alphanumeric c || one_of "._:-" c.

Definition SAFE_REQUEST_ID (value : string) : bool :=
  match chars value with
  | [] => false
  | c :: rest => alphanumeric c && forallb safe_char rest
  end.

Record resolver := { max_length : Z; generator : string }.

(** [ValidatedRequestIdResolver.__post_init__]; [generator] is the value the
    generator draws for this request. *)
Definition resolver_init (r : resolver) : res resolver :=
  raise_if (max_length r <? 1) EValueError;; mret r.

Definition is_valid (r : resolver) (value : string) : bool :=
  (Z.of_nat (String.length value) <=? max_length r) && SAFE_REQUEST_ID value.

Definition resolve (r : resolver) (candidate : option string) : res string :=
  match candidate with
  | Some value =>
      if is_valid r value then Ok value
      else if is_valid r (generator r) then Ok (generator r) else Err EValueError
  | None => if is_valid r (generator r) then Ok (generator r) else Err EValueError
  end.

(** ** The response's state *)

Record HttpResponseState := {
  status_code : Z;
  response_started : bool;
  failed : bool;
  client_disconnected : bool
}.

Definition initial_response : HttpResponseState :=
  {| status_code := 500; response_started := false; failed := false;
     client_disconnected := false |}.

Definition mark_failure (s : HttpResponseState) : HttpResponseState :=
  {| status_code := if response_started s then status_code s else 500;
     response_started := response_started s; failed := true;
     client_disconnected := client_disconnected s |}.

Definition mark_client_disconnected (s : HttpResponseState) : HttpResponseState :=
  {| status_code := status_code s; response_started := response_started s;
     failed := true; client_disconnected := true |}.

(** [start]: what it raises, and the state it leaves. *)
Definition start (code : Z) (s : HttpResponseState) : res unit * HttpResponseState :=
  if response_started s then (Err ERuntimeError, mark_failure s)
  else (Ok tt, {| status_code := code; response_started := true;
                  failed := failed s || (500 <=? code);
                  client_disconnected := client_disconnected s |}).

(** ** ASGI *)

Definition raw_headers := list (string * string).

Inductive message : Set :=
| ResponseStart (status : Z) (headers : raw_headers)
| ResponseBody (body : bytes) (more_body : bool)
| OtherMessage (type : string).

Inductive asgi : Type :=
| Return
| Raise (error : exn)
| Send (m : message) (k : res unit -> asgi).

Record metadata := { rm_request_id : string; rm_method : string; rm_path : string }.

Inductive event : Set :=
| ContextCleared
| ContextBound (request_id : string)
| ContextUnbound
| RequestStarted (request : metadata)
| RequestFailed (request : metadata) (response : HttpResponseState) (error : exn)
| RequestDisconnected (request : metadata) (response : HttpResponseState)
| RequestFinished (request : metadata) (response : HttpResponseState)
| Sent (m : message).

(** Starlette's header accessors. *)
Class HeaderOps := {
  getlist : raw_headers -> string -> list string;
  setitem : raw_headers -> string -> string -> raw_headers
}.

Class HeaderLaws `{HeaderOps} : Prop :=
  getlist_setitem : forall h name value, getlist (setitem h name value) name = [value].

Section middleware.
Context `{HeaderOps} {V : Type} (text : string -> V).

Record scope := {
  sc_type : string;
  sc_method : option string;
  sc_path : option string;
  sc_headers : raw_headers;
  sc_state : option (gmap string V)
}.

Record middleware := {
  mw_app : scope -> asgi;
  mw_resolver : resolver;
  mw_internal_error_response : scope -> asgi;
  mw_header_name : string;
  mw_state_key : string
}.

(** [[!#$%&'*+\-.^_`|~0-9A-Za-z]+] *)
Definition HTTP_HEADER_NAME (name : string) : bool :=
  match chars name with
  | [] => false
  | l => forallb (fun c => alphanumeric c || one_of "!#$%&'*+-.^_`|~" c) l
  end.

(** [RequestIdMiddleware.__init__] *)
Definition middleware_init (mw : middleware) : res middleware :=
  raise_unless (HTTP_HEADER_NAME (mw_header_name mw)) EValueError;;
  raise_if (bool_decide (mw_state_key mw = ""%string)) EValueError;;
  mret mw.

Definition resolve_request_id (mw : middleware) (sc : scope) : res string :=
  resolve (mw_resolver mw)
    (match getlist (sc_headers sc) (mw_header_name mw) with
     | [candidate] => Some candidate
     | _ => None
     end).

Definition copy_scope (mw : middleware) (sc : scope) (request_id : string) : scope :=
  {| sc_type := sc_type sc; sc_method := sc_method sc; sc_path := sc_path sc;
     sc_headers := sc_headers sc;
     sc_state := Some (<[mw_state_key mw := text request_id]> (default ∅ (sc_state sc))) |}.

(** One request in flight. *)
Record flight := { fl_response : HttpResponseState; fl_trace : list event }.

Definition report (e : event) (w : flight) : flight :=
  {| fl_response := fl_response w; fl_trace := fl_trace w ++ [e] |}.

Definition with_response (s : HttpResponseState) (w : flight) : flight :=
  {| fl_response := s; fl_trace := fl_trace w |}.

Section request.
Context (mw : middleware) (request : metadata) (transport : list event -> res unit).

(** [send], then the [except OSError] of [send_with_request_id]. *)
Definition deliver (m : message) (w : flight) : res unit * flight :=
  let w := report (Sent m) w in
  match transport (fl_trace w) with
  | Ok _ => (Ok tt, w)
  | Err e =>
      if isinstance e EOSError then
        let s := mark_client_disconnected (fl_response w) in
        (Err e, report (RequestDisconnected request s) (with_response s w))
      else (Err e, w)
  end.

Definition send_with_request_id (m : message) (w : flight) : res unit * flight :=
  match m with
  | ResponseStart status headers =>
      match start status (fl_response w) with
      | (Err e, s) => (Err e, with_response s w)
      | (Ok _, s) =>
          deliver (ResponseStart status
                     (setitem headers (mw_header_name mw) (rm_request_id request)))
            (with_response s w)
      end
  | _ => deliver m w
  end.

Fixpoint run_app (p : asgi) (w : flight) : res unit * flight :=
  match p with
  | Return => (Ok tt, w)
  | Raise e => (Err e, w)
  | Send m k => let '(r, w) := send_with_request_id m w in run_app (k r) w
  end.

(** The [except] clauses of [__call__]. *)
Definition handle_error (error : exn) (error_response : asgi) (w : flight) :
    res unit * flight :=
  let w := with_response (mark_failure (fl_response w)) w in
  if negb (is_exception error) then (Err error, w)
  else if client_disconnected (fl_response w) then (Err error, w)
  else
    let w := report (RequestFailed request (fl_response w) error) w in
    if response_started (fl_response w) then (Err error, w)
    else run_app error_response w.

(** The [finally] clause. *)
Definition finish (w : flight) : flight :=
  let s := if response_started (fl_response w) then fl_response w
           else mark_failure (fl_response w) in
  report (RequestFinished request s) (with_response s w).

Definition serve (app error_response : asgi) (w : flight) : res unit * flight :=
  let w := report (RequestStarted request) w in
  let '(r, w) := run_app app w in
  let r := match r with
           | Ok _ => if response_started (fl_response w) then Ok tt else Err ERuntimeError
           | Err e => Err e
           end in
  let '(r, w) := match r with
                 | Ok _ => (Ok tt, w)
                 | Err e => handle_error e error_response w
                 end in
  (r, finish w).

(** [StructlogRequestContext.bind] around [body]. *)
Definition in_context (body : flight -> res unit * flight) (w : flight) : res unit * flight :=
  let w := report (ContextBound (rm_request_id request)) (report ContextCleared w) in
  let '(r, w) := body w in
  (r, report ContextCleared (report ContextUnbound w)).
End request.

(** [RequestIdMiddleware.__call__] for an HTTP scope. *)
Definition call (mw : middleware) (transport : list event -> res unit) (sc : scope) :
    res unit * list event :=
  match resolve_request_id mw sc with
  | Err e => (Err e, [])
  | Ok request_id =>
      let request := {| rm_request_id := request_id;
                        rm_method := default ""%string (sc_method sc);
                        rm_path := default ""%string (sc_path sc) |} in
      let request_scope := copy_scope mw sc request_id in
      let '(r, w) := in_context request
        (serve mw request transport (mw_app mw request_scope)
           (mw_internal_error_response mw request_scope))
        {| fl_response := initial_response; fl_trace := [] |} in
      (r, fl_trace w)
  end.

(** Any other scope goes straight to the application, on the server's own [send]. *)
Fixpoint forward (transport : list event -> res unit) (p : asgi) (trace : list event) :
    res unit * list event :=
  match p with
  | Return => (Ok tt, trace)
  | Raise e => (Err e, trace)
  | Send m k => let trace := trace ++ [Sent m] in forward transport (k (transport trace)) trace
  end.

Definition asgi_call (mw : middleware) (transport : list event -> res unit) (sc : scope) :
    res unit * list event :=
  if bool_decide (sc_type sc = "http"%string) then call mw transport sc
  else forward transport (mw_app mw sc) [].
End middleware.

(** ** What is logged *)

(** A field of a log event; durations are measured, not modelled. *)
Inductive log_field : Set :=
| LogText (s : string)
| LogInt (n : Z)
| LogBool (b : bool)
| LogDuration.

(** A call of the logger: [info] or [exception], the event, its fields, and the request
    id the log context adds to it. *)
Record log_line := {
  ll_exception : bool;
  ll_event : string;
  ll_fields : list (string * log_field);
  ll_request_id : option string
}.

(** [StructlogRequestLifecycleObserver], one method per event. *)
Definition observe (e : event) (context : option string) : option log_line :=
  match e with
  | RequestStarted request =>
      Some {| ll_exception := false; ll_event := "request started";
              ll_fields := [("method", LogText (rm_method request));
                            ("path", LogText (rm_path request))];
              ll_request_id := context |}
  | RequestFailed request response error =>
      Some {| ll_exception := true; ll_event := "request failed";
              ll_fields := [("method", LogText (rm_method request));
                            ("path", LogText (rm_path request));
                            ("response_started", LogBool (response_started response));
                            ("error_type", LogText (class_name error))];
              ll_request_id := context |}
  | RequestDisconnected request response =>
      Some {| ll_exception := false; ll_event := "request disconnected";
              ll_fields := [("method", LogText (rm_method request));
                            ("path", LogText (rm_path request));
                            ("response_started", LogBool (response_started response))];
              ll_request_id := context |}
  | RequestFinished request response =>
      Some {| ll_exception := false; ll_event := "request finished";
              ll_fields := [("method", LogText (rm_method request));
                            ("path", LogText (rm_path request));
                            ("status_code", LogInt (status_code response));
                            ("duration_ms", LogDuration);
                            ("failed", LogBool (failed response));
                            ("client_disconnected", LogBool (client_disconnected response))];
              ll_request_id := context |}
  | _ => None
  end%string.

(** [StructlogRequestContext.bind]: what the context holds after an event. *)
Definition context_after (e : event) (context : option string) : option string :=
  match e with
  | ContextBound request_id => Some request_id
  | ContextCleared | ContextUnbound => None
  | _ => context
  end.

(** The lines of a trace. *)
Fixpoint logged (context : option string) (trace : list event) : list log_line :=
  match trace with
  | [] => []
  | e :: trace => option_list (observe e context) ++ logged (context_after e context) trace
  end.

(** ** Correctness of the policy *)

(** [_generate_request_id] draws a random UUID. *)
Definition generate_request_id (u : uuid) : string := uuid_str u.

Lemma digit_safe d : 0 <= d < 16 -> alphanumeric (digit d) = true.
Proof.
  intros H. assert (In d (seqZ 0 16)) as Hin by (apply list_elem_of_In, elem_of_seqZ; lia).
  assert (forallb (fun x => alphanumeric (digit x)) (seqZ 0 16) = true) as Hall
    by reflexivity.
  by apply (proj1 (forallb_forall _ _) Hall).
Qed.

Lemma digits_safe n v : Forall (fun c => alphanumeric c = true) (digits 16 n v).
Proof.
  revert v. induction n as [|n IH]; intros v; [constructor|]. cbn.
  apply Forall_app. split; [apply IH|]. repeat constructor.
  apply digit_safe, Z.mod_pos_bound. lia.
Qed.

Lemma safe_request_id_chars value :
  SAFE_REQUEST_ID value = true -> forallb safe_char (chars value) = true.
Proof.
  unfold SAFE_REQUEST_ID. destruct (chars value) as [|c l]; [done|].
  rewrite andb_true_iff. intros [Hc Hl]. cbn. by rewrite Hl, andb_true_r; unfold safe_char; rewrite Hc.
Qed.

Lemma alphanumeric_safe c : alphanumeric c = true -> safe_char c = true.
Proof. unfold safe_char. by intros ->. Qed.

Lemma length_chars s : String.length s = length (chars s).
Proof. induction s as [|c s IH]; [done|]. cbn. by rewrite IH. Qed.

Lemma uuid_chars_safe u : Forall (fun c => safe_char c = true) (uuid_chars u).
Proof.
  assert (Hs : Forall (fun c => safe_char c = true) (digits 16 32 u)).
  { exact (Forall_impl _ alphanumeric_safe (digits_safe 32 u)). }
  unfold uuid_chars. cbn zeta.
  repeat (apply Forall_app; split); auto using Forall_take, Forall_drop;
    by repeat constructor.
Qed.

Lemma generated_is_valid r u : 36 <= max_length r -> is_valid r (generate_request_id u) = true.
Proof.
  intros Hmax. unfold is_valid, generate_request_id, SAFE_REQUEST_ID, uuid_str.
  rewrite length_chars, chars_str.
  assert (Hlen : length (uuid_chars u) = 36%nat).
  { unfold uuid_chars. cbn zeta.
    rewrite !length_app, !length_take, !length_drop, digits_length. reflexivity. }
  rewrite Hlen. assert ((Z.of_nat 36 <=? max_length r) = true) as -> by (apply Z.leb_le; lia).
  cbn [andb].
  pose proof (uuid_chars_safe u) as Hall. unfold uuid_chars in *. cbn zeta in *.
  pose proof (digits_safe 32 u) as Hs. pose proof (digits_length 16 32 u) as Hl.
  destruct (digits 16 32 u) as [|c h]; [done|]. apply Forall_inv in Hs.
  cbn [take app] in *. rewrite Hs. cbn [andb]. apply Forall_inv_tail in Hall.
  apply forallb_forall. intros x Hx. exact (proj1 (List.Forall_forall _ _) Hall x Hx).
Qed.

Lemma resolve_valid r candidate id :
  resolve r candidate = Ok id ->
  is_valid r id = true /\
  ((candidate = Some id) \/
   (id = generator r /\ forall value, candidate = Some value -> is_valid r value = false)).
Proof.
  unfold resolve. intros H. destruct candidate as [value|].
  - destruct (is_valid r value) eqn:E; [injection H as <-; auto|].
    destruct (is_valid r (generator r)) eqn:E'; [|done]. injection H as <-.
    split; [done|]. right. split; [done|]. by intros ? [= <-].
  - destruct (is_valid r (generator r)) eqn:E; [|done]. injection H as <-.
    split; [done|]. by right.
Qed.

(** ** Correctness of the middleware *)

(** The response starts that reached the transport. *)
Definition starts (l : list event) : list (Z * raw_headers) :=
  l ≫= (fun e => match e with Sent (ResponseStart c h) => [(c, h)] | _ => [] end).

Lemma starts_app a b : starts (a ++ b) = starts a ++ starts b.
Proof. apply bind_app. Qed.

Definition disconnections (l : list event) : list event :=
  List.filter (fun e => match e with RequestDisconnected _ _ => true | _ => false end) l.

#[local] Arguments starts : simpl never.
#[local] Arguments disconnections : simpl never.

(** What happens between the start and the end of a request. *)
Definition inner (e : event) : bool :=
  match e with Sent _ | RequestDisconnected _ _ | RequestFailed _ _ _ => true | _ => false end.

Section lifecycle.
Context `{HeaderLaws} {V : Type} (text : string -> V).
Context (mw : middleware (V := V)) (request : metadata) (transport : list event -> res unit).

(** The response's state says what reached the transport. *)
Definition consistent (w : flight) : Prop :=
  let s := fl_response w in
  match starts (fl_trace w) with
  | [] => response_started s = false /\ status_code s = 500
  | [(c, h)] =>
      response_started s = true /\ status_code s = c /\
      getlist h (mw_header_name mw) = [rm_request_id request] /\
      (500 <= c -> failed s = true)
  | _ => False
  end /\
  (client_disconnected s = true <-> disconnections (fl_trace w) <> []) /\
  (client_disconnected s = true -> failed s = true).

(** Later in the same request. *)
Definition later (w w' : flight) : Prop :=
  (exists l, fl_trace w' = fl_trace w ++ l /\ Forall (fun e => inner e = true) l) /\
  (response_started (fl_response w) = true -> response_started (fl_response w') = true) /\
  (client_disconnected (fl_response w) = true -> client_disconnected (fl_response w') = true) /\
  (failed (fl_response w) = true -> failed (fl_response w') = true).

Lemma later_refl w : later w w.
Proof. split_and!; try done. exists []. by rewrite app_nil_r. Qed.

Lemma later_trans a b c : later a b -> later b c -> later a c.
Proof.
  intros ((l & El & Hl) & H1 & H2 & H3) ((m & Em & Hm) & G1 & G2 & G3).
  split_and!; auto. exists (l ++ m). rewrite Em, El, <- app_assoc.
  split; [done|]. by apply Forall_app.
Qed.

Lemma consistent_mark_failure w :
  consistent w -> consistent (with_response (mark_failure (fl_response w)) w).
Proof.
  intros (Hs & Hd & Hf). split; [|split]; cbn; [|exact Hd|done].
  destruct (starts (fl_trace w)) as [|[c h] [|? ?]]; [|destruct Hs as (Hr & Hc & Hg & _)|done].
  - destruct Hs as [-> _]. done.
  - by rewrite Hr.
Qed.

Lemma later_mark_failure w : later w (with_response (mark_failure (fl_response w)) w).
Proof. split_and!; cbn; try done. exists []. by rewrite app_nil_r. Qed.

Lemma later_report w e : inner e = true -> later w (report e w).
Proof. intros He. split_and!; cbn; try done. exists [e]. split; [done|]. by constructor. Qed.

Lemma consistent_disconnected w :
  consistent w ->
  let s := mark_client_disconnected (fl_response w) in
  consistent (report (RequestDisconnected request s) (with_response s w)).
Proof.
  intros (Hs & _ & _) s. unfold consistent. cbn. unfold disconnections.
  rewrite starts_app, app_nil_r, filter_app. split_and!; [|split; [|done]|done].
  - by destruct (starts (fl_trace w)) as [|[c h] [|? ?]]; intuition.
  - intros _. by destruct (List.filter _ _).
Qed.

Lemma consistent_sent_other m w :
  (forall c h, m <> ResponseStart c h) -> consistent w -> consistent (report (Sent m) w).
Proof.
  intros Hm (Hs & Hd & Hf). unfold consistent. cbn. unfold disconnections in *.
  rewrite starts_app, filter_app. destruct m as [c h|b more|ty]; [by destruct (Hm c h)|..];
    cbn; rewrite !app_nil_r; auto.
Qed.

Lemma consistent_sent_start c h w :
  response_started (fl_response w) = false -> consistent w ->
  consistent (report (Sent (ResponseStart c (setitem h (mw_header_name mw) (rm_request_id request))))
    (with_response (start c (fl_response w)).2 w)).
Proof.
  intros Hr (Hs & Hd & Hf). unfold consistent. cbn. unfold start, disconnections in *.
  rewrite Hr, starts_app, filter_app. cbn. rewrite app_nil_r.
  destruct (starts (fl_trace w)) as [|[c' h'] [|? ?]]; [|destruct Hs; congruence|done].
  split_and!; [|exact Hd|by intros ->%Hf].
  cbn. split_and!; [done..|apply getlist_setitem|].
  intros Hc. apply orb_true_iff. right. by apply Z.leb_le.
Qed.

Lemma deliver_spec m w :
  consistent (report (Sent m) w) ->
  let '(r, w') := deliver request transport m w in
  consistent w' /\ later (report (Sent m) w) w'.
Proof.
  intros Hw. unfold deliver. destruct (transport _) as [?|e]; [by auto using later_refl|].
  destruct (isinstance e EOSError); [|by auto using later_refl].
  split; [by apply consistent_disconnected|].
  split_and!; cbn; try done. eexists. split; [reflexivity|]. by repeat constructor.
Qed.

Lemma send_spec m w :
  consistent w ->
  let '(r, w') := send_with_request_id mw request transport m w in
  consistent w' /\ later w w' /\
  (forall c h, m = ResponseStart c h -> response_started (fl_response w') = true).
Proof.
  intros Hw.
  assert (Hother : (forall c h, m <> ResponseStart c h) ->
    let '(r, w') := deliver request transport m w in
    consistent w' /\ later w w' /\
    (forall c h, m = ResponseStart c h -> response_started (fl_response w') = true)).
  { intros Hm. pose proof (deliver_spec m w (consistent_sent_other m w Hm Hw)) as Hd.
    destruct (deliver _ _ _ _) as [r w']. destruct Hd as [Hc Hl]. split_and!; [done| |].
    - exact (later_trans _ _ _ (later_report w (Sent m) eq_refl) Hl).
    - intros c h ->. by destruct (Hm c h). }
  destruct m as [c h|b more|ty]; [|by apply Hother..]. clear Hother. cbn.
  destruct (response_started (fl_response w)) eqn:Hr.
  - unfold start. rewrite Hr. split_and!; [by apply consistent_mark_failure|
      apply later_mark_failure|by intros; cbn].
  - pose proof (consistent_sent_start c h w Hr Hw) as Hc. unfold start in *. rewrite Hr in *. cbn [snd] in *.
    pose proof (deliver_spec _ _ Hc) as Hd. destruct (deliver _ _ _ _) as [r w'].
    destruct Hd as [Hc' Hl]. split_and!; [done| |intros; by apply Hl].
    refine (later_trans _ _ _ _ Hl). split_and!; cbn; [|done|done|by intros ->].
    eexists. split; [reflexivity|]. by repeat constructor.
Qed.

Lemma run_app_spec p w :
  consistent w ->
  let '(r, w') := run_app mw request transport p w in consistent w' /\ later w w'.
Proof.
  revert w. induction p as [|e|m k IH]; intros w Hw; [split; [done|apply later_refl]..|].
  cbn. pose proof (send_spec m w Hw) as Hs.
  destruct (send_with_request_id _ _ _ _ _) as [r w1]. destruct Hs as (Hc & Hl & _).
  specialize (IH r w1 Hc). destruct (run_app _ _ _ _ _) as [r' w2]. destruct IH as [Hc' Hl'].
  split; [done|]. by eapply later_trans.
Qed.

(** How a request that ends with [r] was ended. *)
Definition ended (r : res unit) (w : flight) : Prop :=
  match r with
  | Ok _ => response_started (fl_response w) = true
  | Err e =>
      failed (fl_response w) = true /\
      (response_started (fl_response w) = true \/ is_exception e = false \/
       client_disconnected (fl_response w) = true)
  end.

Lemma handle_error_spec e error_response w :
  (exists h k, error_response = Send (ResponseStart 500 h) k) -> consistent w ->
  let '(r, w') := handle_error mw request transport e error_response w in
  consistent w' /\ later w w' /\ ended r w'.
Proof.
  intros (h & k & ->) Hw. unfold handle_error.
  pose proof (consistent_mark_failure w Hw) as Hm. pose proof (later_mark_failure w) as Hl.
  set (w1 := with_response (mark_failure (fl_response w)) w) in *.
  assert (Hf : failed (fl_response w1) = true) by done.
  destruct (is_exception e) eqn:Hex; cbn [negb]; [|by (split; [done|split; [done|]]); cbn; auto].
  destruct (client_disconnected (fl_response w1)) eqn:Hd; [by (split; [done|split; [done|]]); cbn; auto|].
  set (w2 := report (RequestFailed request (fl_response w1) e) w1).
  assert (Hw2 : consistent w2).
  { unfold consistent, disconnections. cbn. rewrite starts_app, filter_app, !app_nil_r. exact Hm. }
  assert (Hl2 : later w w2) by (refine (later_trans _ _ _ Hl (later_report w1 _ _)); done).
  destruct (response_started (fl_response w2)) eqn:Hr; [by (split; [done|split; [done|]]); cbn; auto|].
  cbn [run_app]. pose proof (send_spec (ResponseStart 500 h) w2 Hw2) as Hs.
  destruct (send_with_request_id _ _ _ _ _) as [r w3]. destruct Hs as (Hc3 & Hl3 & Hst).
  pose proof (run_app_spec (k r) w3 Hc3) as Hk. destruct (run_app _ _ _ _ _) as [r4 w4].
  destruct Hk as [Hc4 (? & Hst4 & ? & Hf4)].
  assert (Hstarted : response_started (fl_response w4) = true) by eauto.
  split_and!; [done| |].
  - eapply later_trans; [exact Hl2|]. by eapply later_trans; [exact Hl3|].
  - destruct r4; [done|]. split; [|by left]. apply Hf4, Hl3. done.
Qed.

Lemma serve_spec app error_response w :
  (exists h k, error_response = Send (ResponseStart 500 h) k) -> consistent w ->
  let '(r, w') := serve mw request transport app error_response w in
  exists w1, w' = finish request w1 /\ consistent w1 /\ ended r w1 /\
    later (report (RequestStarted request) w) w1.
Proof.
  intros Herr Hw. unfold serve.
  assert (Hw0 : consistent (report (RequestStarted request) w)).
  { destruct Hw as (Hs & Hd & Hf). unfold consistent, disconnections. cbn.
    rewrite starts_app, filter_app, !app_nil_r. by split_and!. }
  pose proof (run_app_spec app _ Hw0) as Hrun. destruct (run_app _ _ _ _ _) as [r w1].
  destruct Hrun as [Hc Hl].
  assert (Hh : forall e, let '(r, w') := handle_error mw request transport e error_response w1 in
    exists w2, finish request w' = finish request w2 /\ consistent w2 /\ ended r w2 /\
      later (report (RequestStarted request) w) w2).
  { intros e. pose proof (handle_error_spec e error_response w1 Herr Hc) as H1.
    destruct (handle_error _ _ _ _ _ _) as [r' w2]. destruct H1 as (Hc2 & Hl2 & Ha).
    exists w2. split_and!; [done..|]. by eapply later_trans. }
  destruct r as [[]|e].
  - destruct (response_started (fl_response w1)) eqn:Hr; [by exists w1|].
    specialize (Hh ERuntimeError). by destruct (handle_error _ _ _ _ _ _).
  - specialize (Hh e). by destruct (handle_error _ _ _ _ _ _).
Qed.

(** The state the request is finished with. *)
Definition final_response (w : flight) : HttpResponseState :=
  if response_started (fl_response w) then fl_response w else mark_failure (fl_response w).

Lemma finished_status r w pre mid :
  consistent w -> ended r w -> fl_trace w = pre ++ mid -> starts pre = [] ->
  let final := final_response w in
  match starts mid with
  | [] => status_code final = 500 /\ failed final = true /\
          exists e, r = Err e /\ (is_exception e = false \/ client_disconnected final = true)
  | [(c, h)] => status_code final = c /\
                getlist h (mw_header_name mw) = [rm_request_id request] /\
                (500 <= c -> failed final = true)
  | _ => False
  end.
Proof.
  intros (Hs & _ & _) Ha Etrace Epre final. subst final. unfold final_response.
  rewrite Etrace, starts_app, Epre in Hs. cbn [app] in Hs.
  destruct (starts mid) as [|[c h] [|? ?]]; [| |done].
  - destruct Hs as [Hst Hc]. rewrite Hst. cbn. rewrite Hst. split_and!; [done..|].
    destruct r as [|e]; cbn in Ha; [congruence|]. destruct Ha as [_ [|Ha]]; [congruence|]. eauto.
  - destruct Hs as (-> & Hc & Hg & Hf). by split_and!.
Qed.

Lemma finished_disconnected w pre mid :
  consistent w -> fl_trace w = pre ++ mid -> disconnections pre = [] ->
  client_disconnected (final_response w) = true <-> disconnections mid <> [].
Proof.
  intros (_ & Hd & _) Etrace Epre. rewrite Etrace in Hd. unfold disconnections in *.
  rewrite filter_app, Epre in Hd. cbn [app] in Hd. unfold final_response.
  by destruct (response_started (fl_response w)).
Qed.

Lemma finished_failed r w : ended r w -> is_ok r = false -> failed (final_response w) = true.
Proof.
  intros Ha Hr. destruct r as [|e]; [done|]. destruct Ha as [Hf _]. unfold final_response.
  by destruct (response_started (fl_response w)).
Qed.

Lemma resolved (sc : scope (V := V)) id :
  resolve_request_id mw sc = Ok id ->
  is_valid (mw_resolver mw) id = true /\
  (getlist (sc_headers sc) (mw_header_name mw) = [id] \/ id = generator (mw_resolver mw)).
Proof.
  intros [Hv Hc]%resolve_valid. split; [done|].
  destruct (getlist _ _) as [|x [|? ?]]; destruct Hc as [Hc|[-> _]]; auto; [done| |done].
  injection Hc as ->. auto.
Qed.

Lemma unresolved (sc : scope (V := V)) e :
  resolve_request_id mw sc = Err e ->
  e = EValueError /\ is_valid (mw_resolver mw) (generator (mw_resolver mw)) = false.
Proof.
  unfold resolve_request_id, resolve. intros H1.
  destruct (is_valid (mw_resolver mw) (generator (mw_resolver mw))) eqn:E;
    repeat case_match; by simplify_eq.
Qed.
End lifecycle.

Lemma logged_inner context mid rest :
  Forall (fun e => inner e = true) mid ->
  exists lines, logged context (mid ++ rest) = lines ++ logged context rest /\
    Forall (fun l => ll_request_id l = context) lines.
Proof.
  induction 1 as [|e mid He _ (lines & IH & Hl)]; [by exists []|].
  cbn [app logged]. assert (context_after e context = context) as -> by by destruct e.
  rewrite IH. exists (option_list (observe e context) ++ lines).
  split; [by rewrite app_assoc|]. apply Forall_app. split; [|done].
  destruct e; repeat constructor.
Qed.

Lemma logged_request request mid final :
  Forall (fun e => inner e = true) mid ->
  let trace := [ContextCleared; ContextBound (rm_request_id request); RequestStarted request] ++
               mid ++ [RequestFinished request final; ContextUnbound; ContextCleared] in
  Forall (fun l => ll_request_id l = Some (rm_request_id request)) (logged None trace) /\
  exists lines, logged None trace =
    option_list (observe (RequestStarted request) (Some (rm_request_id request))) ++ lines ++
    option_list (observe (RequestFinished request final) (Some (rm_request_id request))).
Proof.
  intros Hmid. cbn [app logged context_after observe option_list].
  destruct (logged_inner (Some (rm_request_id request)) mid
    [RequestFinished request final; ContextUnbound; ContextCleared] Hmid) as (lines & -> & Hl).
  split; [|by exists lines]. constructor; [done|]. apply Forall_app. split; [done|].
  by repeat constructor.
Qed.


(** ** A concrete request *)

Definition demo_header_ops : HeaderOps := {|
  getlist h name := (List.filter (fun kv => String.eqb kv.1 name) h).*2;
  setitem h name value :=
    List.filter (fun kv => negb (String.eqb kv.1 name)) h ++ [(name, value)]
|}.

Lemma demo_header_laws : @HeaderLaws demo_header_ops.
Proof.
  intros h name value. cbn. rewrite filter_app, fmap_app. cbn. rewrite String.eqb_refl. cbn.
  replace (List.filter _ (List.filter _ h)) with (@nil (string * string)); [done|].
  induction h as [|[k v] h IH]; [done|]. cbn.
  destruct (String.eqb k name) eqn:E; cbn; [done|]. by rewrite E.
Qed.

Definition demo_sends (status : Z) (k : res unit -> asgi) : asgi :=
  Send (ResponseStart status [("content-type", "application/json")]%string) k.

(** An application that sends half a response, and one that fails before it answers. *)
Definition demo_middleware (app : asgi) : middleware (V := string) :=
  {| mw_app := fun _ => app;
     mw_resolver := {| max_length := 128; generator := generate_request_id 7 |};
     mw_internal_error_response := fun _ =>
       demo_sends 500 (fun r => match r with
                                | Ok _ => Send (ResponseBody [] false) (fun _ => Return)
                                | Err e => Raise e
                                end);
     mw_header_name := "x-request-id";
     mw_state_key := "request_id" |}.

Definition demo_scope : scope (V := string) :=
  {| sc_type := "http"; sc_method := Some "GET"%string; sc_path := Some "/"%string;
     sc_headers := [("x-request-id", "a:b 1"); ("x-request-id", "c")]%string; sc_state := None |}.

Definition demo_failing_app : asgi := Raise EKeyError.

Example failing_app_answers_500 :
  starts (@call demo_header_ops _ id (demo_middleware demo_failing_app) (fun _ => Ok tt)
            demo_scope).2 =
  [(500, [("content-type", "application/json");
          ("x-request-id", "00000000-0000-0000-0000-000000000007")]%string)].
Proof. vm_compute. reflexivity. Qed.

