(* ===== verification/ErrorResponses.v ===== *)
(** * Responses

    The parts of an HTTP response the service decides, the public errors
    ([entrypoints/http/schemas/errors.py]) and the table that maps exceptions to them
    ([entrypoints/http/routers/exception_handlers.py]).  A response's headers are a
    map: the service writes each name in one case only. *)

From S2P Require Import Prelude Exceptions Domain Text Json AuthFlow.

(** ** Public errors *)

Inductive AuthApiErrorCode : Set :=
| VALIDATION_ERROR
| INTERNAL_ERROR
| EMAIL_ALREADY_EXISTS
| INVALID_CREDENTIALS
| INVALID_TOKEN
| INVALID_REFRESH_TOKEN
| IDEMPOTENCY_KEY_CONFLICT
| IDEMPOTENCY_REQUEST_IN_PROGRESS
| IDEMPOTENCY_UNAVAILABLE
| REFRESH_REPLAY_UNAVAILABLE
| USER_NOT_FOUND
| PROFILE_PROVISIONING_UNAVAILABLE.

#[global] Instance AuthApiErrorCode_eq_dec : EqDecision AuthApiErrorCode.
Proof. solve_decision. Defined.

Definition code_value (c : AuthApiErrorCode) : string :=
  match c with
  | VALIDATION_ERROR => "request.validation_error"
  | INTERNAL_ERROR => "request.internal_error"
  | EMAIL_ALREADY_EXISTS => "auth.email_already_exists"
  | INVALID_CREDENTIALS => "auth.invalid_credentials"
  | INVALID_TOKEN => "auth.invalid_token"
  | INVALID_REFRESH_TOKEN => "auth.invalid_refresh_token"
  | IDEMPOTENCY_KEY_CONFLICT => "auth.idempotency_key_conflict"
  | IDEMPOTENCY_REQUEST_IN_PROGRESS => "auth.idempotency_request_in_progress"
  | IDEMPOTENCY_UNAVAILABLE => "auth.idempotency_unavailable"
  | REFRESH_REPLAY_UNAVAILABLE => "auth.refresh_replay_unavailable"
  | USER_NOT_FOUND => "auth.user_not_found"
  | PROFILE_PROVISIONING_UNAVAILABLE => "auth.profile_provisioning_unavailable"
  end.

(** ** Responses *)

(** A [Set-Cookie] field: a deletion has no value. *)
Record set_cookie := {
  ck_key : string;
  ck_value : option string;
  ck_httponly : bool;
  ck_secure : bool;
  ck_samesite : string;
  ck_max_age : option Z;
  ck_path : string
}.

Inductive body : Set :=
| NoBody
| ApiErrorResponse (code : AuthApiErrorCode) (detail : string)
| RegisterResponse (user_id : uuid)
| PendingRegistrationResponse (registration_id user_id : uuid) (status : string)
| TestLoginResponse (access_token refresh_token : string)
| MeResponse (user : CurrentUser).

Record response := {
  rs_status : Z;
  rs_headers : gmap string string;
  rs_cookies : list set_cookie;
  rs_body : body
}.

(** [response.headers[name] = value] *)
Definition set_header (name value : string) (r : response) : response :=
  {| rs_status := rs_status r; rs_headers := <[name := value]> (rs_headers r);
     rs_cookies := rs_cookies r; rs_body := rs_body r |}.

Definition add_cookie (c : set_cookie) (r : response) : response :=
  {| rs_status := rs_status r; rs_headers := rs_headers r;
     rs_cookies := rs_cookies r ++ [c]; rs_body := rs_body r |}.

(** [Response(status_code=...)] *)
Definition Response_new (status : Z) : response :=
  {| rs_status := status; rs_headers := ∅; rs_cookies := []; rs_body := NoBody |}.

(** ** The table *)

Definition NO_STORE_HEADERS : list (string * string) :=
  [("Cache-Control", "no-store"); ("Pragma", "no-cache")]%string.

Record HttpErrorSpec := {
  es_status_code : Z;
  es_code : AuthApiErrorCode;
  es_detail : string;
  es_headers : list (string * string)
}.

Definition error_spec (status_code : Z) (code : AuthApiErrorCode) (detail : string) :
    HttpErrorSpec :=
  {| es_status_code := status_code; es_code := code; es_detail := detail;
     es_headers := NO_STORE_HEADERS |}.

Definition VALIDATION_ERROR_SPEC : HttpErrorSpec :=
  error_spec 422 VALIDATION_ERROR "request validation failed".

Definition HTTP_ERROR_SPECS : list (exn * HttpErrorSpec) :=
  [(EInvalidCommand, VALIDATION_ERROR_SPEC);
   (InvalidEmailError : exn, VALIDATION_ERROR_SPEC);
   (InvalidPasswordError : exn, VALIDATION_ERROR_SPEC);
   (ProfileProvisioningUnavailableError : exn,
    error_spec 503 PROFILE_PROVISIONING_UNAVAILABLE "registration is temporarily unavailable");
   (ERequestValidation, error_spec 422 VALIDATION_ERROR "request validation failed");
   (UserAlreadyExistsError : exn,
    error_spec 409 EMAIL_ALREADY_EXISTS "user with this email already exists");
   (InvalidCredentialsError : exn,
    error_spec 401 INVALID_CREDENTIALS "invalid email or password");
   (InvalidTokenError : exn, error_spec 401 INVALID_TOKEN "invalid or expired token");
   (InvalidRefreshTokenError : exn,
    error_spec 401 INVALID_REFRESH_TOKEN "refresh token is invalid");
   (IdempotencyKeyConflictError : exn,
    error_spec 409 IDEMPOTENCY_KEY_CONFLICT "idempotency key was used with another request");
   (IdempotencyRequestInProgressError : exn,
    error_spec 423 IDEMPOTENCY_REQUEST_IN_PROGRESS
      "request with this idempotency key is still processing");
   (IdempotencyStorageUnavailableError : exn,
    error_spec 503 IDEMPOTENCY_UNAVAILABLE "request safety service is temporarily unavailable");
   (RefreshReplayUnavailableError : exn,
    error_spec 503 REFRESH_REPLAY_UNAVAILABLE "refresh replay is temporarily unavailable");
   (UserNotFoundError : exn, error_spec 404 USER_NOT_FOUND "user not found")].

Definition INTERNAL_ERROR_SPEC : HttpErrorSpec :=
  error_spec 500 INTERNAL_ERROR "internal server error".

(** [_response_from_spec] *)
Definition response_from_spec (spec : HttpErrorSpec) : response :=
  {| rs_status := es_status_code spec; rs_headers := list_to_map (es_headers spec);
     rs_cookies := []; rs_body := ApiErrorResponse (es_code spec) (es_detail spec) |}.

Definition create_internal_error_response : response :=
  response_from_spec INTERNAL_ERROR_SPEC.

(** The dictionary: the entry of one class, or [KeyError]. *)
Fixpoint spec_of (l : list (exn * HttpErrorSpec)) (error_type : exn) : res HttpErrorSpec :=
  match l with
  | [] => raise EKeyError
  | (c, spec) :: l => if decide (c = error_type) then mret spec else spec_of l error_type
  end.

Definition create_error_response (error_type : exn) : res response :=
  spec ← spec_of HTTP_ERROR_SPECS error_type; mret (response_from_spec spec).

(** [register_exception_handlers]: the spec behind the handler of each class. *)
Definition active_spec (retry_after_seconds : Z) (error_type : exn) (spec : HttpErrorSpec) :
    HttpErrorSpec :=
  if decide (error_type = IdempotencyRequestInProgressError) then
    {| es_status_code := es_status_code spec; es_code := es_code spec;
       es_detail := es_detail spec;
       es_headers := es_headers spec ++ [("Retry-After"%string, str (int_chars retry_after_seconds))] |}
  else spec.

Definition registered_handlers (retry_after_seconds : Z) : list (exn * HttpErrorSpec) :=
  (fun p => (p.1, active_spec retry_after_seconds p.1 p.2)) <$> HTTP_ERROR_SPECS.

(** The framework's choice among the registered handlers. *)
Class HandlerLookup := find_handler : list (exn * HttpErrorSpec) -> exn -> option HttpErrorSpec.

(** Starlette takes the handler of the first class, in method resolution order, that
    has one. *)
Fixpoint first_handler (handlers : list (exn * HttpErrorSpec)) (classes : list exn) :
    option HttpErrorSpec :=
  match classes with
  | [] => None
  | c :: classes =>
      match spec_of handlers c with
      | Ok spec => Some spec
      | Err _ => first_handler handlers classes
      end
  end.

Class HandlerLaws `{HandlerLookup} : Prop :=
  find_handler_mro handlers error : find_handler handlers error = first_handler handlers (mro error).

(** The response an endpoint's exception ends in: a registered handler's, or the
    internal error that [RequestIdMiddleware] was given. *)
Definition error_response `{HandlerLookup} (retry_after_seconds : Z) (error : exn) : response :=
  match find_handler (registered_handlers retry_after_seconds) error with
  | Some spec => response_from_spec spec
  | None => create_internal_error_response
  end.

(** ** Correctness *)

Definition no_store (r : response) : Prop :=
  rs_headers r !! "Cache-Control"%string = Some "no-store"%string /\
  rs_headers r !! "Pragma"%string = Some "no-cache"%string.

(** The entries of the table an exception is an instance of. *)
Definition listed (error : exn) : list (exn * HttpErrorSpec) :=
  List.filter (fun p => isinstance error p.1) HTTP_ERROR_SPECS.

Lemma error_response_listed `{HandlerLaws} retry_after_seconds error :
  match listed error with
  | [] => error_response retry_after_seconds error = create_internal_error_response
  | [p] => error_response retry_after_seconds error =
           response_from_spec (active_spec retry_after_seconds p.1 p.2)
  | _ => False
  end.
Proof.
  unfold error_response. rewrite find_handler_mro. unfold registered_handlers, active_spec.
  generalize (str (int_chars retry_after_seconds)). intros text.
  destruct error as [| | | | | | | |[]| |[]|[]|[]|[]|[]|[]| | | | |]; vm_compute; reflexivity.
Qed.

Lemma error_response_no_store `{HandlerLaws} retry_after_seconds error :
  no_store (error_response retry_after_seconds error) /\
  rs_cookies (error_response retry_after_seconds error) = [].
Proof.
  unfold no_store, error_response. rewrite find_handler_mro. unfold registered_handlers, active_spec.
  generalize (str (int_chars retry_after_seconds)). intros text.
  destruct error as [| | | | | | | |[]| |[]|[]|[]|[]|[]|[]| | | | |]; vm_compute; auto.
Qed.

(** The public errors are unambiguous and leak nothing.  No exception is an
    instance of two classes of the table, so the order of registration and the
    framework's walk through the class hierarchy cannot matter: the response is that
    of the one listed class, the same for every subclass of it, and for an exception
    that is an instance of none it is the internal error.  Every one of
    these responses forbids caching and sets no cookie, and only a request in
    progress is told when to come back. *)
Theorem error_responses_unambiguous `{HandlerLaws} retry_after_seconds error :
  let r := error_response retry_after_seconds error in
  match listed error with
  | [] => r = create_internal_error_response
  | [p] => r = response_from_spec (active_spec retry_after_seconds p.1 p.2)
  | _ => False
  end /\
  no_store r /\ rs_cookies r = [] /\
  rs_headers r !! "Retry-After"%string =
    (if isinstance error IdempotencyRequestInProgressError
     then Some (str (int_chars retry_after_seconds)) else None).
Proof.
  intros r. destruct (error_response_no_store retry_after_seconds error) as [Hn Hc].
  split_and!; [apply error_response_listed|exact Hn|exact Hc|].
  subst r. unfold error_response. rewrite find_handler_mro.
  unfold registered_handlers, active_spec.
  generalize (str (int_chars retry_after_seconds)). intros text.
  destruct error as [| | | | | | | |[]| |[]|[]|[]|[]|[]|[]| | | | |]; vm_compute; reflexivity.
Qed.

(** ** A concrete lookup *)

Definition demo_lookup : HandlerLookup := fun handlers error => first_handler handlers (mro error).

Lemma demo_handler_laws : @HandlerLaws demo_lookup.
Proof. by intros handlers error. Qed.

Lemma error_responses_unambiguous_witness :
  rs_status (@error_response demo_lookup 5 RefreshTokenReuseError) = 401 /\
  rs_headers (@error_response demo_lookup 5 IdempotencyRequestInProgressError)
    !! "Retry-After"%string = Some "5"%string.
Proof.
  split; [vm_compute; reflexivity|].
  destruct (@error_responses_unambiguous demo_lookup demo_handler_laws 5
    IdempotencyRequestInProgressError) as (_ & _ & _ & ->). vm_compute. reflexivity.
Defined.
