(* ===== verification/Endpoints.v ===== *)
(** * The authentication endpoints

    [entrypoints/http/routers/v1/auth.py] with the request schemas and
    [use_cases/register/command.py]: what each endpoint accepts, which command it
    runs, which cookies and headers its response has, and which response each
    exception ends in.  A request body is the decoded pair of its two strings, or
    [None] when it is not one; the idempotency key header and the refresh cookie are
    optional strings; the bearer credentials are the access token. *)

From S2P Require Import Prelude Exceptions Domain Retry Text Json Registration Effects Accounts.
From S2P Require Import RegisterFlow Idempotency Database Coordinator HotStore Fingerprint Tokens Sessions.
From S2P Require Import AuthFlow Refresh ErrorResponses.

Record SecuritySettings := {
  AUTH_COOKIE_SECURE : bool;
  AUTH_COOKIE_SAMESITE : string;
  ACCESS_TOKEN_TTL_SECONDS : Z;
  AUTH_SESSION_IDLE_TTL_SECONDS : Z
}.

(** [_set_no_store_headers] *)
Definition set_no_store_headers (r : response) : response :=
  set_header "Pragma" "no-cache" (set_header "Cache-Control" "no-store" r).

Definition access_cookie (settings : SecuritySettings) (value : option string)
    (max_age : option Z) : set_cookie :=
  {| ck_key := "access_token"; ck_value := value; ck_httponly := true;
     ck_secure := AUTH_COOKIE_SECURE settings; ck_samesite := AUTH_COOKIE_SAMESITE settings;
     ck_max_age := max_age; ck_path := "/" |}.

Definition refresh_cookie (settings : SecuritySettings) (value : option string)
    (max_age : option Z) : set_cookie :=
  {| ck_key := "refresh_token"; ck_value := value; ck_httponly := true;
     ck_secure := AUTH_COOKIE_SECURE settings; ck_samesite := AUTH_COOKIE_SAMESITE settings;
     ck_max_age := max_age; ck_path := "/api/v1/auth" |}.

(** [_set_tokens_cookies] *)
Definition set_tokens_cookies (tokens : TokenPair) (settings : SecuritySettings) (r : response) :
    response :=
  let r := add_cookie (access_cookie settings (Some (tp_access_token tokens))
                         (Some (ACCESS_TOKEN_TTL_SECONDS settings))) r in
  let r := add_cookie (refresh_cookie settings (Some (tp_refresh_token tokens))
                         (Some (AUTH_SESSION_IDLE_TTL_SECONDS settings))) r in
  set_no_store_headers r.

(** [_delete_auth_cookies] *)
Definition delete_auth_cookies (settings : SecuritySettings) (r : response) : response :=
  set_no_store_headers
    (add_cookie (refresh_cookie settings None None)
       (add_cookie (access_cookie settings None None) r)).

(** [min_length] and [max_length] of a string. *)
Definition length_between (lo hi : nat) (s : string) : bool :=
  (lo <=? String.length s)%nat && (String.length s <=? hi)%nat.

(** The required header [Idempotency-Key]. *)
Definition idempotency_key_header (header : option string) : res string :=
  match header with
  | Some key => raise_unless (length_between 8 128 key) ERequestValidation;; mret key
  | None => raise ERequestValidation
  end.

Section endpoints.
Context `{EmailSyntax} `{PasswordHasher} `{Sha256} `{RandomTokens} `{AccessTokenIssuer}
  `{AccessTokenVerifier} `{ReplayProtector} `{FloatPow} `{ProfileProvisioner} `{HandlerLookup}.
Context (settings : SecuritySettings) (retry_after_seconds : Z).

(** What validating the request raises: an e-mail that is not one stops it at once,
    every other defect is collected into one [RequestValidationError]. *)
Definition credentials_request (lo : nat) (payload : option (string * string)) :
    res (string * string) :=
  match payload with
  | None => raise ERequestValidation
  | Some (email, password) =>
      email ← NormalizedEmail_new email;
      raise_unless (length_between lo 128 password) ERequestValidation;;
      mret (email, password)
  end.

(** [RegisterRequest] and the header of [register]. *)
Definition register_request (payload : option (string * string)) (header : option string) :
    res (string * string * string) :=
  credentials ← credentials_request 8 payload;
  key ← idempotency_key_header header;
  mret (credentials, key).

Record RegisterUserCommand := {
  ru_email : string;
  ru_password : string;
  ru_key_hash : bytes
}.

Definition RegisterUserCommand_new (email password : string) (key_hash : bytes) :
    res RegisterUserCommand :=
  email ← NormalizedEmail_new email;
  password ← validate_registration_password password;
  raise_unless (is_digest key_hash) EInvalidCommand;;
  mret {| ru_email := email; ru_password := password; ru_key_hash := key_hash |}.

(** An endpoint's exception becomes a response; a cancellation does not. *)
Definition respond {DB Ev} (endpoint : M DB Ev response) : M DB Ev response :=
  answer ← attempt endpoint;
  match answer with
  | Ok r => mret r
  | Err x => if is_exception x then mret (error_response retry_after_seconds x)
             else lift (raise x)
  end.

Definition register_response (result : RegistrationResult) : response :=
  let r := set_no_store_headers (Response_new 201) in
  match rr_outcome result with
  | OUT_PENDING =>
      let retry_after := match rr_retry_after_seconds result with
                         | Some n => if n =? 0 then 1 else n
                         | None => 1
                         end in
      let r := set_header "Retry-After" (str (int_chars retry_after)) r in
      {| rs_status := 202; rs_headers := rs_headers r; rs_cookies := rs_cookies r;
         rs_body := PendingRegistrationResponse (rr_operation_id result) (rr_user_id result)
                      "PENDING" |}
  | OUT_COMPLETED =>
      {| rs_status := rs_status r; rs_headers := rs_headers r; rs_cookies := rs_cookies r;
         rs_body := RegisterResponse (rr_user_id result) |}
  end.

(** The command of [POST /register], run by its handler. *)
Definition submit_registration (cfg : reg_config) (payload : option (string * string))
    (header : option string) : RM RegistrationResult :=
  request ← lift (register_request payload header);
  let '(email, password, key) := request in
  key_hash ← lift (hash_idempotency_key key);
  command ← lift (RegisterUserCommand_new email password key_hash);
  register cfg (ru_email command) (ru_password command) (ru_key_hash command).

(** [POST /register] *)
Definition register_endpoint (cfg : reg_config) (payload : option (string * string))
    (header : option string) : RM response :=
  respond (
    result ← submit_registration cfg payload header;
    mret (register_response result)).

Abbreviation idle_ttl := (AUTH_SESSION_IDLE_TTL_SECONDS settings * 1000000).

(** The command and the handler that [POST /login] and [POST /login/test] run. *)
Definition sign_in (payload : option (string * string)) : M database auth_event TokenPair :=
  request ← lift (credentials_request 1 payload);
  command ← lift (LoginCommand_new request.1 request.2);
  login idle_ttl command.

Definition login_endpoint (payload : option (string * string)) : M database auth_event response :=
  respond (
    tokens ← sign_in payload;
    mret (set_tokens_cookies tokens settings (Response_new 204))).

Definition login_test_endpoint (payload : option (string * string)) :
    M database auth_event response :=
  respond (
    tokens ← sign_in payload;
    let r := set_no_store_headers (Response_new 200) in
    mret {| rs_status := rs_status r; rs_headers := rs_headers r; rs_cookies := rs_cookies r;
            rs_body := TestLoginResponse (tp_access_token tokens) (tp_refresh_token tokens) |}).

(** [POST /refresh] *)
Definition refresh_endpoint (retention_seconds : Z) (beats : nat -> nat)
    (hot_store : option HotStore) (lease_seconds : Z) (cookie header : option string) :
    M database idem_event response :=
  respond (
    idempotency_key ← lift (idempotency_key_header header);
    match cookie with
    | None => lift (raise InvalidRefreshTokenError)
    | Some refresh_token =>
        answer ← attempt (
          key_hash ← lift (hash_idempotency_key
                             (str (Tokens.strip Domain.is_space (chars idempotency_key))));
          command ← lift (RefreshCommand_new refresh_token key_hash);
          refresh idle_ttl retention_seconds beats hot_store lease_seconds command);
        match answer with
        | Ok tokens => mret (set_tokens_cookies tokens settings (Response_new 204))
        | Err x =>
            if isinstance x InvalidRefreshTokenError then
              r ← lift (create_error_response InvalidRefreshTokenError);
              mret (delete_auth_cookies settings r)
            else lift (raise x)
        end
    end).

(** [POST /logout] *)
Definition logout_endpoint (cookie : option string) : M database auth_event response :=
  respond (
    logout cookie;;
    mret (delete_auth_cookies settings (Response_new 204))).

(** [GET /me] *)
Definition me_endpoint (credentials : option string) : M database auth_event response :=
  respond (
    match credentials with
    | None => lift (raise InvalidTokenError)
    | Some access_token =>
        user ← get_current_user access_token;
        email ← lift (NormalizedEmail_new (cu_email user));
        let r := set_no_store_headers (Response_new 200) in
        mret {| rs_status := rs_status r; rs_headers := rs_headers r;
                rs_cookies := rs_cookies r;
                rs_body := MeResponse {| cu_id := cu_id user; cu_email := email;
                                         cu_role := cu_role user;
                                         cu_created_at := cu_created_at user |} |}
    end).
End endpoints.

(** ** Responses are never cached *)

(** Every value a program returns satisfies [P], whatever happens. *)
Definition returns {DB Ev A} (P : A -> Prop) (m : M DB Ev A) : Prop :=
  forall e w a w', m e w = (Ok a, w') -> P a.

Section returning.
Context {DB Ev : Type}.

Lemma returns_ret {A} (P : A -> Prop) (a : A) : P a -> returns P (mret a : M DB Ev A).
Proof. intros Ha e w b w' [= <- _]. exact Ha. Qed.

Lemma returns_raise {A} (P : A -> Prop) x : returns P (lift (raise x) : M DB Ev A).
Proof. by intros e w b w' [=]. Qed.

Lemma returns_bind {A B} (P : B -> Prop) (m : M DB Ev A) (f : A -> M DB Ev B) :
  (forall a, returns P (f a)) -> returns P (m ≫= f).
Proof.
  intros Hf e w b w' H. unfold mbind, M_bind in H.
  destruct (m e w) as [[a|x] w1]; [|done]. by eapply Hf.
Qed.
End returning.

Lemma set_no_store_ok r : no_store (set_no_store_headers r).
Proof. split; cbn; by simplify_map_eq. Qed.

Lemma set_tokens_no_store tokens settings r : no_store (set_tokens_cookies tokens settings r).
Proof. apply set_no_store_ok. Qed.

Lemma delete_cookies_no_store settings r : no_store (delete_auth_cookies settings r).
Proof. apply set_no_store_ok. Qed.

Lemma register_response_no_store result : no_store (register_response result).
Proof.
  unfold register_response. destruct (rr_outcome result); [apply set_no_store_ok|].
  split; cbn; by simplify_map_eq.
Qed.

(** ** [str.strip] of a blank string *)

Lemma strip_left_nil f l : Tokens.strip_left f l = [] <-> forallb f l = true.
Proof.
  induction l as [|c l IH]; cbn; [done|]. by destruct (f c); cbn.
Qed.

Lemma strip_left_head f l c m : Tokens.strip_left f l = c :: m -> f c = false.
Proof.
  induction l as [|d l IH]; cbn; [done|]. destruct (f d) eqn:E; [done|]. by intros [= <- _].
Qed.

Lemma strip_nil f l : Tokens.strip f l = [] <-> forallb f l = true.
Proof.
  rewrite <- strip_left_nil. unfold Tokens.strip. split; [|by intros ->].
  intros H. apply (f_equal (@rev _)) in H. rewrite rev_involutive in H. cbn in H.
  apply strip_left_nil in H. destruct (Tokens.strip_left f l) as [|c m] eqn:E; [done|].
  apply strip_left_head in E. cbn in H. rewrite forallb_app in H.
  apply andb_true_iff in H as [_ H]. cbn in H. by rewrite E in H.
Qed.

Lemma strip_blank key :
  str (Tokens.strip Domain.is_space (chars key)) = ""%string <-> Domain.is_blank key = true.
Proof.
  rewrite <- (strip_nil Domain.is_space (chars key)). split; [|by intros ->].
  by destruct (Tokens.strip _ _).
Qed.

(** ** Answers to a registration *)

(** A pending registration says when to come back. *)
Definition says_when (result : RegistrationResult) : Prop :=
  match rr_outcome result with
  | OUT_PENDING => exists n, rr_retry_after_seconds result = Some n /\ 1 <= n
  | OUT_COMPLETED => True
  end.

Lemma pending_says_when operation now retry_at : says_when (pending_result operation now retry_at).
Proof. eexists. split; [reflexivity|]. lia. Qed.

(** Walk through a program to its returns. *)
Ltac returns_step :=
  lazymatch goal with
  | |- returns _ (mbind _ _) => apply returns_bind; intros ?
  | |- returns _ (mret (pending_result _ _ _)) => apply returns_ret, pending_says_when
  | |- returns _ (mret _) => apply returns_ret
  | |- returns _ (lift (raise _)) => apply returns_raise
  | |- returns _ (if ?b then _ else _) => destruct b
  | |- returns _ (match ?m with _ => _ end) => destruct m
  end.

Section registrations.
Context `{EmailSyntax} `{FloatPow} `{PasswordHasher} `{ProfileProvisioner} (cfg : reg_config).

Lemma retry_or_block_says_when operation owner_token error :
  returns says_when (retry_or_block cfg operation owner_token error).
Proof. unfold retry_or_block. repeat returns_step. Qed.

Lemma resume_says_when operation owner_token :
  returns says_when (resume cfg operation owner_token).
Proof.
  unfold resume, profile_failed, finalization_failed.
  repeat returns_step; try done; apply retry_or_block_says_when.
Qed.

Lemma register_says_when email password key_hash :
  returns says_when (register cfg email password key_hash).
Proof.
  unfold register, resume_existing. repeat returns_step; try done; apply resume_says_when.
Qed.
End registrations.

Section responses.
Context `{EmailSyntax} `{PasswordHasher} `{Sha256} `{RandomTokens} `{AccessTokenIssuer}
  `{AccessTokenVerifier} `{ReplayProtector} `{FloatPow} `{ProfileProvisioner} `{HandlerLaws}.
Context `{!EmailLaws} (settings : SecuritySettings) (retry_after_seconds : Z).

(** An endpoint always answers, with a response that must not be cached; only a
    cancellation gets past it. *)
Definition uncached {DB Ev} (m : M DB Ev response) : Prop :=
  forall e w, match m e w with
              | (Ok r, _) => no_store r
              | (Err x, _) => is_exception x = false
              end.

Lemma respond_uncached {DB Ev} (m : M DB Ev response) :
  returns no_store m -> uncached (respond retry_after_seconds m).
Proof.
  intros Hm e w. unfold respond, attempt, mbind, M_bind.
  destruct (m e w) as [[r|x] w'] eqn:E; [exact (Hm _ _ _ _ E)|].
  destruct (is_exception x) eqn:Ex; [|exact Ex]. apply error_response_no_store.
Qed.

(** Whatever the request, the database, the other services and the other
    transactions do, every endpoint answers, unless it is cancelled, and its answer
    forbids caching: tokens, account data and errors are never stored on the way. *)
Theorem endpoints_never_cached cfg payload header cookie credentials retention_seconds beats
    hot_store lease_seconds :
  uncached (register_endpoint retry_after_seconds cfg payload header) /\
  uncached (login_endpoint settings retry_after_seconds payload) /\
  uncached (login_test_endpoint settings retry_after_seconds payload) /\
  uncached (refresh_endpoint settings retry_after_seconds retention_seconds beats hot_store
              lease_seconds cookie header) /\
  uncached (logout_endpoint settings retry_after_seconds cookie) /\
  uncached (me_endpoint retry_after_seconds credentials).
Proof.
  split_and!; apply respond_uncached.
  - apply returns_bind. intros ?. apply returns_ret, register_response_no_store.
  - apply returns_bind. intros ?. apply returns_ret, set_tokens_no_store.
  - apply returns_bind. intros ?. apply returns_ret. exact (set_no_store_ok (Response_new 200)).
  - apply returns_bind. intros ?. destruct cookie; [|apply returns_raise].
    apply returns_bind. intros [tokens|x]; [apply returns_ret, set_tokens_no_store|].
    destruct (isinstance x _); [|apply returns_raise].
    apply returns_bind. intros ?. apply returns_ret, delete_cookies_no_store.
  - apply returns_bind. intros ?. apply returns_ret, delete_cookies_no_store.
  - destruct credentials; [|apply returns_raise]. do 2 (apply returns_bind; intros ?).
    apply returns_ret. exact (set_no_store_ok (Response_new 200)).
Qed.

(** ** What a response says about the effects *)

(** The two cookies of a fresh pair, and their deletion. *)
Definition token_cookies (tokens : TokenPair) : list set_cookie :=
  [access_cookie settings (Some (tp_access_token tokens)) (Some (ACCESS_TOKEN_TTL_SECONDS settings));
   refresh_cookie settings (Some (tp_refresh_token tokens))
     (Some (AUTH_SESSION_IDLE_TTL_SECONDS settings))].

Definition deleted_cookies : list set_cookie :=
  [access_cookie settings None None; refresh_cookie settings None None].

(** An error's response: the cookies the client has are left alone. *)
Definition is_error (r : response) : Prop :=
  rs_cookies r = [] /\ exists x, is_exception x = true /\ r = error_response retry_after_seconds x.

Lemma error_is_error x : is_exception x = true -> is_error (error_response retry_after_seconds x).
Proof. intros Hx. split; [apply error_response_no_store|eauto]. Qed.

Lemma respond_eq {DB Ev} (m : M DB Ev response) e w :
  respond retry_after_seconds m e w =
    match m e w with
    | (Ok r, w') => (Ok r, w')
    | (Err x, w') =>
        (if is_exception x then Ok (error_response retry_after_seconds x) else Err x, w')
    end.
Proof.
  unfold respond, attempt, mbind, M_bind. destruct (m e w) as [[r|x] w']; [done|].
  by destruct (is_exception x).
Qed.

Abbreviation idle_ttl := (AUTH_SESSION_IDLE_TTL_SECONDS settings * 1000000).

Lemma sign_in_run e payload (w : world database auth_event) :
  auth_env e -> auth_ok (w_db w) ->
  match sign_in settings payload e w with
  | (Ok tokens, w') =>
      auth_ok (w_db w') /\
      exists command u db, signed_in idle_ttl u tokens (w_db w') /\ auth_ok db /\
        checked command u db /\
        exists email password, payload = Some (email, password) /\
          lc_password command = password /\ length_between 1 128 password = true
  | (Err _, w') => auth_ok (w_db w')
  end.
Proof.
  intros He Hok. unfold sign_in, lift, mbind, M_bind.
  destruct payload as [[email password]|]; cbn [credentials_request]; [|exact Hok].
  destruct (NormalizedEmail_new email) as [email1|x]; cbn; [|exact Hok].
  destruct (length_between 1 128 password) eqn:El; cbn; [|exact Hok].
  unfold LoginCommand_new. destruct (NormalizedEmail_new email1) as [email2|x];
    cbn [mbind result_bind]; [|exact Hok].
  unfold length_between in El. rewrite El.
  cbn [raise_unless mbind result_bind mret result_ret].
  set (command := {| lc_email := email2; lc_password := password |}).
  pose proof (login_run idle_ttl e He command w Hok) as Hl.
  destruct (login _ _ e w) as [[tokens|x] w']; [|exact Hl].
  destruct Hl as (Hok' & u & db & Hs & Hdb & Hc). split; [done|].
  exists command, u, db. split_and!; [done..|]. by exists email, password.
Qed.


Lemma key_header_error header x :
  idempotency_key_header header = Err x -> x = ERequestValidation.
Proof.
  destruct header as [key|]; cbn; [|by intros [= <-]].
  destruct (length_between 8 128 key); cbn; [done|by intros [= <-]].
Qed.

(** The [try] block of the endpoint. *)
Definition refresh_attempt (retention_seconds : Z) (beats : nat -> nat)
    (hot_store : option HotStore) (lease_seconds : Z) (refresh_token key : string) :
    M database idem_event TokenPair :=
  key_hash ← lift (hash_idempotency_key (str (Tokens.strip Domain.is_space (chars key))));
  command ← lift (RefreshCommand_new refresh_token key_hash);
  refresh idle_ttl retention_seconds beats hot_store lease_seconds command.

Lemma refresh_attempt_run e retention_seconds beats hot_store lease_seconds refresh_token key
    (w : world database idem_event) :
  auth_env e -> auth_ok (w_db w) ->
  match refresh_attempt retention_seconds beats hot_store lease_seconds refresh_token key e w with
  | (Ok tokens, w') =>
      auth_ok (w_db w') /\ exists key_hash identity request_hash,
        hash_idempotency_key (str (Tokens.strip Domain.is_space (chars key))) = Ok key_hash /\
        refresh_identity key_hash = Ok identity /\
        refresh_request_hash refresh_token = Ok request_hash /\
        replayed identity request_hash tokens
  | (Err _, w') => auth_ok (w_db w')
  end.
Proof.
  intros He Hok. unfold refresh_attempt, lift, mbind, M_bind.
  destruct (hash_idempotency_key _) as [key_hash|x]; [|exact Hok].
  unfold RefreshCommand_new. destruct (is_digest key_hash); cbn [raise_unless mbind result_bind];
    [|exact Hok].
  cbn [mret result_ret].
  set (command := {| rc_refresh_token := refresh_token; rc_key_hash := key_hash |}).
  pose proof (refresh_handler_spec idle_ttl e He retention_seconds beats hot_store lease_seconds
    command w Hok) as Hr.
  destruct (refresh _ _ _ _ _ _ e w) as [[tokens|x] w']; [|exact Hr].
  destruct Hr as (Hok' & identity & request_hash & Hr). split; [done|].
  by exists key_hash, identity, request_hash.
Qed.


(** A key header that the endpoint accepts can still be an internal error: a key
    of eight to 128 characters, all of which [str.strip] removes, passes the
    length check, is empty once stripped, and makes [hash_idempotency_key] raise a
    [ValueError] that no handler is registered for.  The client is answered 500,
    nothing has been done, and its cookies stay.  Any other accepted key is hashed. *)
Theorem refresh_blank_key (e : env database) retention_seconds beats hot_store lease_seconds
    refresh_token key (w : world database idem_event) :
  length_between 8 128 key = true ->
  if Domain.is_blank key then
    refresh_endpoint settings retry_after_seconds retention_seconds beats hot_store lease_seconds
      (Some refresh_token) (Some key) e w = (Ok create_internal_error_response, w)
  else
    is_ok (hash_idempotency_key (str (Tokens.strip Domain.is_space (chars key)))) = true.
Proof.
  intros Hlen. destruct (Domain.is_blank key) eqn:Eb.
  - unfold refresh_endpoint. rewrite respond_eq. unfold lift, mbind, M_bind, attempt.
    cbn [idempotency_key_header]. rewrite Hlen. cbn [raise_unless mbind result_bind mret result_ret].
    rewrite (proj2 (strip_blank key) Eb). cbn [hash_idempotency_key]. cbv [str String.string_of_list_ascii].
    cbn. do 2 f_equal. exact (error_response_listed retry_after_seconds EValueError).
  - unfold hash_idempotency_key. case_bool_decide as Ek; [|done].
    apply strip_blank in Ek. congruence.
Qed.

Lemma register_request_ok payload header email password key :
  register_request payload header = Ok (email, password, key) ->
  exists email0, payload = Some (email0, password) /\ header = Some key /\
    NormalizedEmail_new email0 = Ok email.
Proof.
  unfold register_request, credentials_request, idempotency_key_header. intros Hr.
  destruct payload as [[email0 password0]|]; [|done]. ok_inv.
  destruct header as [key0|]; [|done]. ok_inv. simplify_eq. by exists email0.
Qed.

Lemma submit_registration_run cfg e payload header (w : world database reg_event) :
  good_env e -> consistent Settled (w_db w) ->
  match submit_registration cfg payload header e w with
  | (Ok result, w') =>
      (consistent Settled (w_db w') /\ extends (w_db w) (w_db w')) /\
      exists email0 password key email,
        payload = Some (email0, password) /\ header = Some key /\
        NormalizedEmail_new email0 = Ok email /\
        completed_for email result (w_db w') /\ says_when result
  | (Err _, w') => consistent Settled (w_db w') /\ extends (w_db w) (w_db w')
  end.
Proof.
  intros He Hc. unfold submit_registration, lift, mbind, M_bind.
  assert (Hrun : running (w_db w) (w_db w)) by (split; auto with identity).
  destruct (register_request payload header) as [[[email1 password] key]|x] eqn:Ereq; [|exact Hrun].
  apply register_request_ok in Ereq as (email0 & -> & -> & Hem).
  destruct (hash_idempotency_key key) as [key_hash|x]; [|exact Hrun].
  unfold RegisterUserCommand_new. rewrite (normalized_stable _ _ Hem). cbn [mbind result_bind].
  destruct (validate_registration_password password) as [password1|x]; [|exact Hrun].
  destruct (is_digest key_hash); cbn [raise_unless]; [|exact Hrun].
  cbn [mbind result_bind mret result_ret ru_email ru_password ru_key_hash].
  pose proof (hspec_run e (w_db w) _ _ w
    (register_keeps cfg e He (w_db w) email0 email1 password1 key_hash (fun _ => True) Hem) Hrun) as Hr.
  pose proof (register_says_when cfg email1 password1 key_hash e w) as Hw.
  destruct (register _ _ _ _ e w) as [[result|x] w']; [|exact (proj1 Hr)].
  destruct Hr as [Hr Hdone]. split; [exact Hr|].
  exists email0, password, key, email1. split_and!; try done; [by apply Hdone|by eapply Hw].
Qed.

End responses.

(** ** Concrete requests *)

Section demo.
#[local] Existing Instance demo_email_syntax.
#[local] Existing Instance AuthFlow.demo_hasher.
#[local] Existing Instance demo_sha256.
#[local] Existing Instance demo_tokens.
#[local] Existing Instance demo_issuer.
#[local] Existing Instance demo_protector.
#[local] Existing Instance demo_profiles.
#[local] Existing Instance demo_lookup.
#[local] Existing Instance demo_handler_laws.
#[local] Instance demo_verifier : AccessTokenVerifier := fun _ _ => Err (TokenExpiredError : exn).

Definition demo_settings : SecuritySettings :=
  {| AUTH_COOKIE_SECURE := true; AUTH_COOKIE_SAMESITE := "lax";
     ACCESS_TOKEN_TTL_SECONDS := 900; AUTH_SESSION_IDLE_TTL_SECONDS := 1 |}.

Abbreviation demo_login_run payload :=
  (login_endpoint demo_settings 5 payload (quiet_env database) demo_auth_world).

Definition demo_payload : option (string * string) := Some ("ann@example.org", "secret")%string.

(** The run's status, and whether it sets the cookies. *)
Definition summary {DB Ev} (run : res response * world DB Ev) : option (Z * list (option string)) :=
  match run.1 with Ok r => Some (rs_status r, ck_value <$> rs_cookies r) | Err _ => None end.

Lemma endpoints_never_cached_witness :
  summary (demo_login_run None) = Some (422, []) /\
  uncached (login_endpoint demo_settings 5 demo_payload).
Proof.
  split; [vm_compute; reflexivity|].
  apply (endpoints_never_cached demo_settings 5 demo_config demo_payload None None None 3600
    (fun _ => 0%nat) None 30).
Defined.


Abbreviation demo_refresh_run cookie key :=
  (refresh_endpoint demo_settings 5 3600 (fun _ => 0%nat) None 30 cookie key (quiet_env database)
     demo_refresh_world).


Example demo_refresh_succeeds :
  summary (demo_refresh_run (Some "108"%string) (Some "key-0001"%string)) =
    Some (204, [Some "access"; Some "209"]%string).
Proof. vm_compute. reflexivity. Qed.

(** Eight no-break spaces. *)
Definition demo_blank_key : string := str (repeat (Ascii.ascii_of_nat 160) 8).

Lemma refresh_blank_key_witness :
  demo_refresh_run (Some "108"%string) (Some demo_blank_key) =
    (Ok create_internal_error_response, demo_refresh_world).
Proof.
  pose proof (refresh_blank_key demo_settings 5 (quiet_env database) 3600 (fun _ => 0%nat) None 30 "108"%string
    demo_blank_key demo_refresh_world eq_refl) as Hr.
  exact Hr.
Defined.

Abbreviation demo_register_run payload :=
  (register_endpoint 5 demo_config payload (Some "key-0001"%string) (quiet_env database) start_world).

End demo.
