(* ===== verification/AccessTokens.v ===== *)
(** * Access tokens

    The adapters of [infrastructure/security] that load the RSA keys
    ([rsa_keys.py]), issue access tokens ([access_token_issuer.py]) and verify them
    ([access_token_verifier.py]), with the claims of
    [application/ports/dto/security.py] and the way [infrastructure/di/security.py]
    puts them together.  PyJWT, the key library, pydantic's lenient readers and the
    file system are parameters; what the service relies on is stated as laws. *)

From S2P Require Import Prelude Exceptions Domain Text HotStore Tokens.

(** ** The libraries *)

(** What a PEM file holds. *)
Inductive pem (K : Type) : Type :=
| NotAKey
| OtherKey
| RsaKey (k : K).
Arguments NotAKey {K}.
Arguments OtherKey {K}.
Arguments RsaKey {K} k.

(** [Path.read_bytes]: [None] for an [OSError]. *)
Class FileSystem := read_bytes : string -> option bytes.

(** The values of a payload to be signed. *)
Inductive claim : Set :=
| ClText (s : string)
| ClTexts (l : list string)
| ClDate (d : datetime).

Abbreviation json_dict := (list (string * json)).

Record decode_options := {
  do_algorithms : list string;
  do_issuer : string;
  do_audience : string;
  do_leeway : Z;
  do_require : list string
}.

(** [jwt.decode]: the payload, [ExpiredSignatureError], or one of the other
    exceptions the adapter catches. *)
Inductive decoded : Set :=
| Payload (p : json_dict)
| ExpiredSignature
| DecodeFailed.

Class Keys := {
  PrivateKey : Type;
  PublicKey : Type;
  load_pem_private_key : bytes -> pem PrivateKey;
  load_pem_public_key : bytes -> pem PublicKey;
  private_key_size : PrivateKey -> Z;
  public_key_size : PublicKey -> Z;
  public_numbers : PublicKey -> Z * Z;
  public_key_of : PrivateKey -> PublicKey
}.

Class Jwt `{Keys} := {
  get_unverified_header : string -> option json_dict;
  jwt_decode : datetime -> string -> PublicKey -> decode_options -> decoded;
  jwt_encode : list (string * claim) -> PrivateKey -> string -> list (string * string) ->
    option string
}.

(** pydantic's readers: [strip_whitespace], a UUID from text, and an instant from a
    number. *)
Class LaxReaders := {
  strip_whitespace : string -> string;
  lax_uuid : string -> option uuid;
  lax_timestamp : Z -> option datetime
}.

(** ** rsa_keys.py *)

Definition MIN_RSA_KEY_SIZE_BITS : Z := 2048.

Definition py_strip (s : string) : string := str (Tokens.strip Domain.is_space (chars s)).

Definition is_empty (s : string) : bool := bool_decide (s = ""%string).

Section adapters.
Context `{Jwt} `{LaxReaders} `{FileSystem}.

(** Both loaders differ in the parser and the size only. *)
Definition load_key {K} (parse : bytes -> pem K) (size : K -> Z) (path : string) : res K :=
  match read_bytes path with
  | None => raise InvalidTokenSigningKeyError
  | Some text =>
      match parse text with
      | NotAKey | OtherKey => raise InvalidTokenSigningKeyError
      | RsaKey k =>
          raise_if (size k <? MIN_RSA_KEY_SIZE_BITS) InvalidTokenSigningKeyError;;
          mret k
      end
  end.

Definition load_rsa_private_key (path : string) : res PrivateKey :=
  load_key load_pem_private_key private_key_size path.

Definition load_rsa_public_key (path : string) : res PublicKey :=
  load_key load_pem_public_key public_key_size path.

Definition load_rsa_key_pair (private_key_path public_key_path : string) :
    res (PrivateKey * PublicKey) :=
  private_key ← load_rsa_private_key private_key_path;
  public_key ← load_rsa_public_key public_key_path;
  raise_unless (bool_decide (public_numbers (public_key_of private_key) =
                             public_numbers public_key)) InvalidTokenSigningKeyError;;
  mret (private_key, public_key).

(** ** access_token_issuer.py *)

Definition ALGORITHM : string := "RS256".
Definition TOKEN_TYPE : string := "at+jwt".

Record jwt_issuer := {
  is_private_key : PrivateKey;
  is_key_id : string;
  is_issuer : string;
  is_audiences : list string;
  is_access_token_ttl : Z
}.

(** [PyJWTAccessTokenIssuer.__init__]; a set is a list without duplicates. *)
Definition issuer_init (private_key : PrivateKey) (key_id issuer : string)
    (audiences : list string) (access_token_ttl : Z) : res jwt_issuer :=
  let normalized_key_id := py_strip key_id in
  let normalized_issuer := py_strip issuer in
  let normalized_audiences := remove_dups (py_strip <$> audiences) in
  raise_if (is_empty normalized_key_id) InvalidTokenConfigurationError;;
  raise_if (is_empty normalized_issuer) InvalidTokenConfigurationError;;
  raise_if (bool_decide (normalized_audiences = []) || existsb is_empty normalized_audiences)
    InvalidTokenConfigurationError;;
  raise_if (access_token_ttl <=? 0) InvalidTokenConfigurationError;;
  mret {| is_private_key := private_key; is_key_id := normalized_key_id;
          is_issuer := normalized_issuer; is_audiences := normalized_audiences;
          is_access_token_ttl := access_token_ttl |}.

(** [sorted] on distinct strings. *)
Fixpoint insert_text (s : string) (l : list string) : list string :=
  match l with
  | [] => [s]
  | x :: l' => if String.leb s x then s :: l else x :: insert_text s l'
  end.

Definition sort_texts (l : list string) : list string := foldr insert_text [] l.

Definition role_value (r : UserRole) : string :=
  match r with USER => "USER" | ADMIN => "ADMIN" end.

(** [now.astimezone(UTC)] *)
Definition as_utc (now : datetime) : datetime := utc (dt_us now).

Definition token_payload (i : jwt_issuer) (principal : AccessPrincipal) (now : datetime)
    (jti : uuid) : list (string * claim) :=
  let issued_at := as_utc now in
  [("iss", ClText (is_issuer i));
   ("sub", ClText (uuid_str (ap_user_id principal)));
   ("aud", ClTexts (sort_texts (is_audiences i)));
   ("iat", ClDate issued_at);
   ("exp", ClDate (dt_add issued_at (is_access_token_ttl i)));
   ("jti", ClText (uuid_str jti));
   ("role", ClText (role_value (ap_role principal)))]%string.

Definition token_headers (i : jwt_issuer) : list (string * string) :=
  [("typ", TOKEN_TYPE); ("kid", is_key_id i)]%string.

(** [issue]: the adapter's [AccessTokenIssuer]. *)
Definition issue_access_token (i : jwt_issuer) : AccessTokenIssuer :=
  fun principal now jti =>
    raise_unless (is_aware now) TokenIssuanceError;;
    match jwt_encode (token_payload i principal now jti) (is_private_key i) ALGORITHM
            (token_headers i) with
    | Some token => mret token
    | None => raise TokenIssuanceError
    end.

(** ** AccessTokenClaims *)

Definition non_blank_claim (j : json) : option string :=
  match j with
  | JString s => let s := strip_whitespace s in if is_empty s then None else Some s
  | _ => None
  end.

Definition uuid_claim (j : json) : option uuid :=
  match j with JString s => lax_uuid s | _ => None end.

Definition role_claim (j : json) : option UserRole :=
  match j with
  | JString s => if bool_decide (s = "USER"%string) then Some USER
                 else if bool_decide (s = "ADMIN"%string) then Some ADMIN else None
  | _ => None
  end.

Definition date_claim (j : json) : option datetime :=
  match j with JInt n => lax_timestamp n | _ => None end.

(** [normalize_audiences], and then the set of its items. *)
Definition audience_items (j : json) : res (list json) :=
  match j with
  | JString _ => mret [j]
  | JList l => mret l
  | _ => raise InvalidTokenDataError
  end.

(** [validate_numeric_date]: a number, and no boolean. *)
Definition numeric_date (j : json) : res unit :=
  match j with JInt _ => mret tt | _ => raise InvalidTokenDataError end.

(** A present field must pass its [before] validator. *)
Definition on_present {A} (o : option json) (f : json -> res A) : res unit :=
  match o with Some j => f j;; mret tt | None => mret tt end.

Definition or_invalid {A} (o : option A) : res A :=
  match o with Some a => mret a | None => raise EValidationError end.

Fixpoint each {A B} (f : A -> option B) (l : list A) : option (list B) :=
  match l with
  | [] => Some []
  | a :: l => b ← f a; rest ← each f l; Some (b :: rest)
  end.

(** [AccessTokenClaims.model_validate]: an [InvalidTokenDataError] of a [before]
    validator ends the validation at once; the other defects are collected into a
    [ValidationError]. *)
Definition claims_validate (payload : json_dict) : res AccessTokenClaims :=
  on_present (get "aud" payload) audience_items;;
  on_present (get "iat" payload) numeric_date;;
  on_present (get "exp" payload) numeric_date;;
  issuer ← or_invalid (get "iss" payload ≫= non_blank_claim);
  user_id ← or_invalid (get "sub" payload ≫= uuid_claim);
  items ← or_invalid (get "aud" payload) ≫= audience_items;
  audiences ← or_invalid (each non_blank_claim items);
  raise_if (bool_decide (audiences = [])) EValidationError;;
  issued_at ← or_invalid (get "iat" payload ≫= date_claim);
  expires_at ← or_invalid (get "exp" payload ≫= date_claim);
  token_id ← or_invalid (get "jti" payload ≫= uuid_claim);
  role ← or_invalid (get "role" payload ≫= role_claim);
  raise_if (dt_leb expires_at issued_at) InvalidTokenDataError;;
  mret {| ac_issuer := issuer; ac_user_id := user_id; ac_audiences := remove_dups audiences;
          ac_issued_at := issued_at; ac_expires_at := expires_at; ac_token_id := token_id;
          ac_role := role |}.

(** ** access_token_verifier.py *)

Definition REQUIRED_CLAIMS : list string :=
  ["iss"; "sub"; "aud"; "iat"; "exp"; "jti"; "role"]%string.

Record jwt_verifier := {
  ve_public_keys : gmap string PublicKey;
  ve_issuer : string;
  ve_audience : string;
  ve_leeway : Z
}.

(** The loop over the key ring's items. *)
Fixpoint normalize_keys (items : list (string * PublicKey)) (keys : gmap string PublicKey) :
    res (gmap string PublicKey) :=
  match items with
  | [] => mret keys
  | (key_id, public_key) :: items =>
      let normalized_key_id := py_strip key_id in
      raise_if (is_empty normalized_key_id) InvalidTokenConfigurationError;;
      raise_if (is_some (keys !! normalized_key_id)) InvalidTokenConfigurationError;;
      raise_if (public_key_size public_key <? MIN_RSA_KEY_SIZE_BITS) InvalidTokenSigningKeyError;;
      normalize_keys items (<[normalized_key_id := public_key]> keys)
  end.

(** [PyJWTAccessTokenVerifier.__init__]; the leeway is in microseconds. *)
Definition verifier_init (public_keys : list (string * PublicKey)) (issuer audience : string)
    (leeway : option Z) : res jwt_verifier :=
  let effective_leeway := default 0 leeway in
  let normalized_issuer := py_strip issuer in
  let normalized_audience := py_strip audience in
  raise_if (is_empty normalized_issuer || is_empty normalized_audience)
    InvalidTokenConfigurationError;;
  raise_if (effective_leeway <? 0) InvalidTokenConfigurationError;;
  raise_if (bool_decide (length public_keys = 0%nat)) InvalidTokenConfigurationError;;
  keys ← normalize_keys public_keys ∅;
  mret {| ve_public_keys := keys; ve_issuer := normalized_issuer;
          ve_audience := normalized_audience; ve_leeway := effective_leeway |}.

Definition is_text (o : option json) (s : string) : bool :=
  match o with Some (JString t) => bool_decide (t = s) | _ => false end.

(** [_select_public_key] *)
Definition select_public_key (v : jwt_verifier) (token : string) : res PublicKey :=
  raise_if (is_empty token) TokenMalformedError;;
  match get_unverified_header token with
  | None => raise TokenMalformedError
  | Some header =>
      raise_unless (is_text (get "alg" header) ALGORITHM) TokenMalformedError;;
      raise_unless (is_text (get "typ" header) TOKEN_TYPE) TokenMalformedError;;
      match get "kid" header with
      | Some (JString key_id) =>
          match ve_public_keys v !! key_id with
          | None => raise TokenMalformedError
          | Some public_key => mret public_key
          end
      | _ => raise TokenMalformedError
      end
  end.

Definition options_of (v : jwt_verifier) : decode_options :=
  {| do_algorithms := [ALGORITHM]; do_issuer := ve_issuer v; do_audience := ve_audience v;
     do_leeway := ve_leeway v; do_require := REQUIRED_CLAIMS |}.

(** [verify]: the adapter's [AccessTokenVerifier]. *)
Definition verify_access_token (v : jwt_verifier) : AccessTokenVerifier := fun now token =>
  public_key ← select_public_key v token;
  match jwt_decode now token public_key (options_of v) with
  | ExpiredSignature => raise TokenExpiredError
  | DecodeFailed => raise TokenMalformedError
  | Payload payload =>
      match claims_validate payload with
      | Ok claims => mret claims
      | Err x => if isinstance x EValidationError then raise InvalidTokenDataError else raise x
      end
  end.

(** ** infrastructure/di/security.py *)

Record token_settings := {
  JWT_PRIVATE_KEY_PATH : string;
  JWT_PUBLIC_KEY_PATH : string;
  JWT_ACTIVE_KEY_ID : string;
  JWT_ISSUER : string;
  JWT_SERVICE_AUDIENCE : string;
  JWT_AUDIENCES : list string;
  JWT_CLOCK_SKEW_SECONDS : Z;
  JWT_TTL_SECONDS : Z
}.

(** The issuer and the verifier of one process. *)
Definition provide_tokens (settings : token_settings) : res (jwt_issuer * jwt_verifier) :=
  keys ← load_rsa_key_pair (JWT_PRIVATE_KEY_PATH settings) (JWT_PUBLIC_KEY_PATH settings);
  i ← issuer_init keys.1 (JWT_ACTIVE_KEY_ID settings) (JWT_ISSUER settings)
        (JWT_AUDIENCES settings) (JWT_TTL_SECONDS settings * 1000000);
  v ← verifier_init [(JWT_ACTIVE_KEY_ID settings, keys.2)] (JWT_ISSUER settings)
        (JWT_SERVICE_AUDIENCE settings) (Some (JWT_CLOCK_SKEW_SECONDS settings * 1000000));
  mret (i, v).
End adapters.

(** ** What the service relies on *)

Definition claim_json (c : claim) : json :=
  match c with
  | ClText s => JString s
  | ClTexts l => JList (JString <$> l)
  | ClDate d => JInt (dt_us d / 1000000)
  end.

Definition json_claims (payload : list (string * claim)) : json_dict :=
  (fun kv => (kv.1, claim_json kv.2)) <$> payload.

Definition names_audience (audience : string) (j : json) : Prop :=
  match j with
  | JString s => s = audience
  | JList l => JString audience ∈ l
  | _ => False
  end.

(** The checks of [jwt.decode] on the registered claims, at the instant it reads. *)
Record accepted (now : datetime) (opts : decode_options) (p : json_dict) : Prop := {
  ac_required : forall c, c ∈ do_require opts -> is_Some (get c p);
  ac_iss : get "iss" p = Some (JString (do_issuer opts));
  ac_aud : exists j, get "aud" p = Some j /\ names_audience (do_audience opts) j;
  ac_iat : forall n, get "iat" p = Some (JInt n) -> n * 1000000 <= dt_us now + do_leeway opts;
  ac_exp : forall n, get "exp" p = Some (JInt n) -> dt_us now - do_leeway opts < n * 1000000
}.

(** PyJWT: a payload comes out only under a key that signed the token and after these
    checks; a token that was encoded decodes to its payload, with dates in whole seconds,
    when they pass; its header holds the algorithm and the headers given. *)
Class JwtLaws `{Jwt} (signed : PublicKey -> string -> Prop) : Prop := {
  decode_sound now token pk opts p :
    jwt_decode now token pk opts = Payload p -> signed pk token /\ accepted now opts p;
  decode_encode now token claims sk pk alg headers opts :
    jwt_encode claims sk alg headers = Some token ->
    public_numbers pk = public_numbers (public_key_of sk) -> alg ∈ do_algorithms opts ->
    accepted now opts (json_claims claims) ->
    jwt_decode now token pk opts = Payload (json_claims claims);
  encode_header token claims sk alg typ kid :
    jwt_encode claims sk alg [("typ", typ); ("kid", kid)]%string = Some token ->
    token <> ""%string /\ exists h, get_unverified_header token = Some h /\
      get "alg" h = Some (JString alg) /\ get "typ" h = Some (JString typ) /\
      get "kid" h = Some (JString kid)
}.

(** pydantic: a canonical UUID and a timestamp of this era are read as they are, and
    text without white space at its ends is not changed. *)
Class LaxLaws `{LaxReaders} : Prop := {
  lax_uuid_str u : 0 <= u < 2 ^ 128 -> lax_uuid (uuid_str u) = Some u;
  lax_timestamp_seconds n : 0 <= n <= 20000000000 -> lax_timestamp n = Some (utc (n * 1000000));
  strip_stripped s : strip_whitespace (py_strip s) = py_strip s
}.

(** ** Correctness *)

Section correctness.
Context `{Jwt} `{LaxReaders} `{FileSystem} (signed : PublicKey -> string -> Prop).
Context `{!JwtLaws signed}.

Lemma select_public_key_ok v token pk :
  select_public_key v token = Ok pk ->
  exists h kid, get_unverified_header token = Some h /\
    get "alg" h = Some (JString ALGORITHM) /\ get "typ" h = Some (JString TOKEN_TYPE) /\
    get "kid" h = Some (JString kid) /\ ve_public_keys v !! kid = Some pk.
Proof.
  assert (Ht : forall o s, is_text o s = true -> o = Some (JString s)).
  { intros [j|] s Hs; [|done]. destruct j; try done. by apply bool_decide_eq_true in Hs as ->. }
  unfold select_public_key. intros Hs. ok_inv.
  destruct (get_unverified_header token) as [h|] eqn:Eh; [|done]. ok_inv.
  destruct (get "kid" h) as [[]|] eqn:Ek; try done.
  destruct (ve_public_keys v !! _) as [k|] eqn:Epk; [|done]. ok_inv. subst.
  do 2 eexists. split_and!; eauto.
Qed.

Lemma select_public_key_err v token x :
  select_public_key v token = Err x -> x = (TokenMalformedError : exn).
Proof.
  unfold select_public_key, raise_if, raise_unless. intros Hx.
  repeat case_match; cbn in Hx; simplify_eq; done.
Qed.

Lemma or_invalid_ok {A} (o : option A) a : or_invalid o = Ok a -> o = Some a.
Proof. destruct o; cbn; [by intros [= ->]|done]. Qed.

Lemma claims_validate_err payload x :
  claims_validate payload = Err x -> x = EValidationError \/ x = (InvalidTokenDataError : exn).
Proof.
  assert (Ho : forall A (o : option A) y, or_invalid o = Err y -> y = EValidationError).
  { intros A [a|] y; cbn; [done|by intros [= <-]]. }
  assert (Hp : forall A (o : option json) (f : json -> res A) y,
    (forall j z, f j = Err z -> z = (InvalidTokenDataError : exn)) ->
    on_present o f = Err y -> y = (InvalidTokenDataError : exn)).
  { intros A [j|] f y Hf; cbn; [|done]. destruct (f j) eqn:E; cbn; [done|].
    intros [= <-]. by eapply Hf. }
  assert (Ha : forall j z, audience_items j = Err z -> z = (InvalidTokenDataError : exn)).
  { intros [] z; cbn; try done; by intros [= <-]. }
  assert (Hn : forall j z, numeric_date j = Err z -> z = (InvalidTokenDataError : exn)).
  { intros [] z; cbn; try done; by intros [= <-]. }
  assert (Hr : forall b y z, raise_if b y = Err z -> z = y).
  { intros [] y z; cbn; [by intros [= <-]|done]. }
  unfold claims_validate. intros Hx.
  repeat (apply bind_err_inv in Hx as [Hx|(? & _ & Hx)];
    [solve [left; eapply Ho; exact Hx | right; eapply Hp; [|exact Hx]; eassumption
           | apply Hr in Hx as ->; auto
           | apply bind_err_inv in Hx as [Hx|(? & _ & Hx)];
             [left; eapply Ho; exact Hx|right; eapply Ha; exact Hx]]|]).
  done.
Qed.
Lemma bind_some {A B} (m : option A) (f : A -> option B) b :
  m ≫= f = Some b -> exists a, m = Some a /\ f a = Some b.
Proof. destruct m; [eauto|done]. Qed.

Lemma claims_validate_ok payload c :
  claims_validate payload = Ok c ->
  (exists j, get "iss" payload = Some j /\ non_blank_claim j = Some (ac_issuer c)) /\
  (exists j, get "sub" payload = Some j /\ uuid_claim j = Some (ac_user_id c)) /\
  (exists n, get "exp" payload = Some (JInt n) /\ lax_timestamp n = Some (ac_expires_at c)) /\
  dt_us (ac_issued_at c) < dt_us (ac_expires_at c).
Proof.
  unfold claims_validate. intros Hc.
  repeat (apply bind_ok_inv in Hc as (? & ? & Hc)).
  injection Hc as <-. cbn.
  repeat match goal with
  | H1 : or_invalid _ = Ok _ |- _ => apply or_invalid_ok in H1
  | H1 : raise_if _ _ = Ok _ |- _ => apply raise_if_ok in H1
  end.
  repeat match goal with
  | H1 : _ ≫= _ = Some _ |- _ => apply bind_some in H1 as (? & ? & ?)
  end.
  split_and!; [by eauto..| |by apply dt_leb_gt].
  match goal with Hd : date_claim ?j = Some _, He : get "exp" payload = Some ?j |- _ =>
    destruct j; try done; eauto end.
Qed.

(** ** Issuing, then verifying *)

Context `{!LaxLaws}.

Lemma elem_of_insert_text a s l : a ∈ insert_text s l <-> a = s \/ a ∈ l.
Proof.
  induction l as [|x l IH]; cbn; [set_solver|]. destruct (String.leb s x); set_solver.
Qed.

Lemma elem_of_sort_texts a l : a ∈ sort_texts l <-> a ∈ l.
Proof.
  induction l as [|x l IH]; [done|]. cbn. rewrite elem_of_insert_text. set_solver.
Qed.

Lemma each_texts (f : json -> option string) l :
  (forall a, a ∈ l -> f (JString a) = Some a) -> each f (JString <$> l) = Some l.
Proof.
  induction l as [|a l IH]; intros Hf; [done|]. cbn [fmap list_fmap each].
  rewrite (Hf a) by set_solver. cbn. rewrite IH by set_solver. done.
Qed.

(** What the constructors establish. *)
Lemma issuer_init_ok sk kid iss auds ttl i :
  issuer_init sk kid iss auds ttl = Ok i ->
  i = {| is_private_key := sk; is_key_id := py_strip kid; is_issuer := py_strip iss;
         is_audiences := remove_dups (py_strip <$> auds); is_access_token_ttl := ttl |} /\
  py_strip iss <> ""%string /\ is_audiences i <> [] /\
  (forall a, a ∈ is_audiences i -> a <> ""%string /\ exists b, a = py_strip b) /\ 0 < ttl.
Proof.
  unfold issuer_init. intros Hi. ok_inv. subst i.
  repeat match goal with H1 : raise_if _ _ = Ok _ |- _ => apply raise_if_ok in H1 end.
  bools. unfold is_empty in *. repeat match goal with
    | H1 : bool_decide _ = false |- _ => apply bool_decide_eq_false in H1
    | H1 : _ /\ _ |- _ => destruct H1 end.
  split_and!; try done. cbn [is_audiences]. intros a Ha. split.
  - intros ->. match goal with H1 : existsb _ _ = false |- _ => rename H1 into He end.
    rewrite <- not_true_iff_false in He. apply He, existsb_exists. exists ""%string.
    split; [by apply list_elem_of_In|by apply bool_decide_eq_true].
  - apply elem_of_remove_dups, list_elem_of_fmap in Ha as (b & -> & _). eauto.
Qed.

Lemma verifier_init_ok kid pk iss aud leeway v :
  verifier_init [(kid, pk)] iss aud (Some leeway) = Ok v ->
  v = {| ve_public_keys := {[py_strip kid := pk]}; ve_issuer := py_strip iss;
         ve_audience := py_strip aud; ve_leeway := leeway |} /\ 0 <= leeway.
Proof.
  unfold verifier_init. intros Hv. ok_inv. subst v.
  cbn [normalize_keys] in *. ok_inv. subst. cbn in *. split; [done|]. bools. lia.
Qed.

Lemma load_rsa_key_pair_ok private_path public_path keys :
  load_rsa_key_pair private_path public_path = Ok keys ->
  public_numbers keys.2 = public_numbers (public_key_of keys.1).
Proof.
  unfold load_rsa_key_pair. intros Hk. ok_inv. subst keys.
  match goal with H1 : bool_decide _ = true |- _ => by apply bool_decide_eq_true in H1 end.
Qed.

(** The claims of a token of [principal], as the issuer writes them. *)
Lemma issued_claims i principal now jti a0 ttl_seconds :
  0 <= ap_user_id principal < 2 ^ 128 -> 0 <= jti < 2 ^ 128 ->
  a0 ∈ is_audiences i -> is_access_token_ttl i = ttl_seconds * 1000000 -> 0 < ttl_seconds ->
  0 <= dt_us now -> dt_us now + is_access_token_ttl i <= 20000000000000000 ->
  (exists b, is_issuer i = py_strip b) -> is_issuer i <> ""%string ->
  (forall a, a ∈ is_audiences i -> a <> ""%string /\ exists b, a = py_strip b) ->
  claims_validate (json_claims (token_payload i principal now jti)) =
    Ok {| ac_issuer := is_issuer i; ac_user_id := ap_user_id principal;
          ac_audiences := remove_dups (sort_texts (is_audiences i));
          ac_issued_at := utc (dt_us now / 1000000 * 1000000);
          ac_expires_at := utc ((dt_us now / 1000000 + ttl_seconds) * 1000000);
          ac_token_id := jti; ac_role := ap_role principal |}.
Proof.
  intros Hu Hj Hin Httl Hpos Hnow Hmax [b Hb] Hne Hauds.
  assert (Htext : forall a, a <> ""%string -> (exists b, a = py_strip b) ->
    non_blank_claim (JString a) = Some a).
  { intros a Ha [b' ->]. cbn. rewrite strip_stripped. unfold is_empty.
    by rewrite bool_decide_eq_false_2. }
  assert (Hexp : (dt_us now + is_access_token_ttl i) / 1000000 = dt_us now / 1000000 + ttl_seconds).
  { rewrite Httl. apply Z.div_add. lia. }
  assert (Hq : 0 <= dt_us now / 1000000) by (apply Z.div_pos; lia).
  assert (Hq2 : dt_us now / 1000000 + ttl_seconds <= 20000000000).
  { rewrite <- Hexp. apply Z.div_le_upper_bound; lia. }
  set (p := json_claims (token_payload i principal now jti)).
  assert (Eaud : get "aud" p = Some (JList (JString <$> sort_texts (is_audiences i)))) by done.
  assert (Eiat : get "iat" p = Some (JInt (dt_us now / 1000000))) by done.
  assert (Eexp : get "exp" p = Some (JInt ((dt_us now + is_access_token_ttl i) / 1000000))) by done.
  assert (Eiss : get "iss" p ≫= non_blank_claim = Some (is_issuer i))
    by exact (Htext (is_issuer i) Hne (ex_intro _ b Hb)).
  assert (Esub : get "sub" p ≫= uuid_claim = Some (ap_user_id principal))
    by exact (lax_uuid_str _ Hu).
  assert (Ejti : get "jti" p ≫= uuid_claim = Some jti) by exact (lax_uuid_str _ Hj).
  assert (Erole : get "role" p ≫= role_claim = Some (ap_role principal))
    by (change (role_claim (JString (role_value (ap_role principal))) = Some (ap_role principal));
        by destruct (ap_role principal)).
  assert (Eeach : each non_blank_claim (JString <$> sort_texts (is_audiences i)) =
    Some (sort_texts (is_audiences i))).
  { apply each_texts. intros a Ha. apply (proj1 (elem_of_sort_texts _ _)) in Ha. by apply Htext; apply Hauds. }
  unfold claims_validate. rewrite Eiss, Esub, Ejti, Erole, Eaud, Eiat, Eexp, Hexp.
  cbn [on_present audience_items numeric_date or_invalid mbind result_bind option_bind mret
    result_ret date_claim].
  rewrite Eeach, !lax_timestamp_seconds by lia. cbn [or_invalid mbind result_bind mret result_ret].
  rewrite bool_decide_eq_false_2.
  2: { intros E. apply elem_of_sort_texts in Hin. rewrite E in Hin. by apply elem_of_nil in Hin. }
  cbn [raise_if mbind result_bind].
  assert (dt_leb (utc ((dt_us now / 1000000 + ttl_seconds) * 1000000))
            (utc (dt_us now / 1000000 * 1000000)) = false) as -> by (apply dt_leb_gt; cbn; lia).
  reflexivity.
Qed.

Lemma issued_accepted i principal now now' jti v ttl_seconds :
  is_access_token_ttl i = ttl_seconds * 1000000 ->
  ve_issuer v = is_issuer i -> ve_audience v ∈ is_audiences i ->
  dt_us now <= dt_us now' + ve_leeway v ->
  dt_us now' + 1000000 <= dt_us now + is_access_token_ttl i + ve_leeway v ->
  accepted now' (options_of v) (json_claims (token_payload i principal now jti)).
Proof.
  intros Httl Hiss Haud Hiat Hexp.
  pose proof (Z.mul_div_le (dt_us now) 1000000 ltac:(lia)).
  pose proof (Z.mul_succ_div_gt (dt_us now + is_access_token_ttl i) 1000000 ltac:(lia)).
  constructor.
  - intros c Hc. cbn in Hc. repeat (apply elem_of_cons in Hc as [->|Hc]; [by eexists|]).
    by apply elem_of_nil in Hc.
  - cbn [options_of do_issuer]. rewrite Hiss. reflexivity.
  - eexists. split; [reflexivity|]. cbn -[sort_texts]. apply list_elem_of_fmap_2.
    by apply elem_of_sort_texts.
  - intros n. change (Some (JInt (dt_us now / 1000000)) = Some (JInt n) ->
      n * 1000000 <= dt_us now' + ve_leeway v). intros [= <-]. lia.
  - intros n. change (Some (JInt ((dt_us now + is_access_token_ttl i) / 1000000)) = Some (JInt n) ->
      dt_us now' - ve_leeway v < n * 1000000). intros [= <-]. lia.
Qed.

End correctness.

(** ** A concrete token *)

#[global] Instance claim_eq_dec : EqDecision claim.
Proof. solve_decision. Defined.

Section demo.
#[local] Instance demo_keys : Keys := {|
  PrivateKey := Z; PublicKey := Z;
  load_pem_private_key _ := RsaKey 1; load_pem_public_key _ := RsaKey 1;
  private_key_size _ := 2048; public_key_size _ := 2048;
  public_numbers k := (k, 65537); public_key_of k := k
|}.
#[local] Instance demo_files : FileSystem := fun _ => Some [].
#[local] Instance demo_readers : LaxReaders := {|
  strip_whitespace s := s;
  lax_uuid := uuid_parse;
  lax_timestamp n := Some (utc (n * 1000000))
|}.

Definition demo_token_settings : token_settings :=
  {| JWT_PRIVATE_KEY_PATH := "private"; JWT_PUBLIC_KEY_PATH := "public";
     JWT_ACTIVE_KEY_ID := "k1 "; JWT_ISSUER := "identity"; JWT_SERVICE_AUDIENCE := "identity";
     JWT_AUDIENCES := ["identity"; "gateway"]; JWT_CLOCK_SKEW_SECONDS := 30;
     JWT_TTL_SECONDS := 900 |}.

Definition demo_principal : AccessPrincipal := {| ap_user_id := 3; ap_role := USER |}.

(** The one token of this world. *)
Definition demo_jwt_issuer : jwt_issuer :=
  {| is_private_key := 1 : PrivateKey; is_key_id := "k1"; is_issuer := "identity";
     is_audiences := ["identity"; "gateway"]%string; is_access_token_ttl := 900000000 |}.

Definition demo_claims : list (string * claim) :=
  token_payload demo_jwt_issuer demo_principal (utc 5700000) 9.

Definition demo_accepts (now : datetime) (opts : decode_options) : bool :=
  forallb (fun c => is_some (get c (json_claims demo_claims))) (do_require opts)
  && bool_decide (do_issuer opts = "identity"%string)
  && bool_decide (do_audience opts ∈ ["gateway"; "identity"]%string)
  && (5000000 <=? dt_us now + do_leeway opts) && (dt_us now - do_leeway opts <? 905000000).

#[local] Instance demo_jwt : Jwt := {|
  get_unverified_header token :=
    if bool_decide (token = "t"%string)
    then Some [("alg", JString ALGORITHM); ("typ", JString TOKEN_TYPE); ("kid", JString "k1")]%string
    else None;
  jwt_decode now token pk opts :=
    if bool_decide (token = "t"%string) && (pk =? 1) && demo_accepts now opts
    then Payload (json_claims demo_claims) else DecodeFailed;
  jwt_encode claims sk alg headers :=
    if bool_decide (claims = demo_claims) && (sk =? 1) && bool_decide (alg = ALGORITHM)
       && bool_decide (headers = [("typ", TOKEN_TYPE); ("kid", "k1")]%string)
    then Some "t"%string else None
|}.

Definition demo_signed_by (pk : PublicKey) (token : string) : Prop := pk = (1 : PublicKey) /\ token = "t"%string.

Lemma demo_accepts_iff now opts :
  demo_accepts now opts = true <-> accepted now opts (json_claims demo_claims).
Proof.
  unfold demo_accepts. bools. rewrite !bool_decide_eq_true, forallb_forall. split.
  - intros ((((Hr & Hi) & Ha) & Hiat) & Hexp). constructor.
    + intros c Hc%list_elem_of_In. apply is_some_true. by apply Hr.
    + by rewrite Hi.
    + eexists. split; [reflexivity|]. change (JString (do_audience opts) ∈
        JString <$> ["gateway"; "identity"]%string). by apply list_elem_of_fmap_2.
    + intros n [= <-]. exact Hiat.
    + intros n [= <-]. exact Hexp.
  - intros [Hr Hi (j & [= <-] & Ha) Hiat Hexp]. split_and!.
    + intros c Hc%list_elem_of_In. apply is_some_true. by apply Hr.
    + by injection Hi.
    + change (JString (do_audience opts) ∈ JString <$> ["gateway"; "identity"]%string) in Ha.
      apply list_elem_of_fmap in Ha as (a & [= ->] & Ha). exact Ha.
    + exact (Hiat 5 eq_refl).
    + exact (Hexp 905 eq_refl).
Qed.

#[local] Instance demo_jwt_laws : JwtLaws demo_signed_by.
Proof.
  constructor.
  - intros now token pk opts p. cbn.
    destruct (bool_decide (token = "t"%string)) eqn:Et; [|done].
    destruct (pk =? 1) eqn:Ek; [|done]. destruct (demo_accepts now opts) eqn:Ea; [|done].
    apply bool_decide_eq_true in Et. apply Z.eqb_eq in Ek.
    cbn [andb]. intros [= <-]. split; [done|]. by apply demo_accepts_iff.
  - intros now token claims sk pk alg headers opts. cbn. case_match eqn:E; [|done].
    bools. destruct E as (((Hc%bool_decide_eq_true & Hk%Z.eqb_eq) & _) & _).
    intros [= <-] [= ->] _ Ha. subst. apply demo_accepts_iff in Ha. by rewrite Ha.
  - intros token claims sk alg typ kid. cbn. case_match eqn:E; [|done].
    bools. destruct E as ((_ & Ha%bool_decide_eq_true) & Hh%bool_decide_eq_true).
    intros [= <-]. injection Hh as -> ->. subst. split; [done|]. by eexists.
Qed.

#[local] Instance demo_lax_laws : LaxLaws.
Proof.
  constructor.
  - intros u Hu. by apply uuid_parse_str.
  - done.
  - done.
Qed.
Definition demo_jwt_verifier : jwt_verifier :=
  {| ve_public_keys := {["k1"%string := 1 : PublicKey]}; ve_issuer := "identity";
     ve_audience := "identity"; ve_leeway := 30000000 |}.


End demo.
