(* ===== verification/ReplayProtection.v ===== *)
(** * Protecting a replayable result

    [infrastructure/security/replay_result_protector.py]: the adapter behind
    [ReplayProtector], the loading of its keys, and the Base64 of the standard library
    it writes.  AES-GCM, random bytes and the JSON parser are parameters. *)

From S2P Require Import Prelude Exceptions Text Json HotStore Tokens Refresh.

(** ** [base64.b64encode] and [base64.b64decode(..., validate=True)] *)

Definition b64_char (v : Z) : Ascii.ascii :=
  if v <? 26 then ch (Z.to_nat (65 + v))
  else if v <? 52 then ch (Z.to_nat (71 + v))
  else if v <? 62 then ch (Z.to_nat (v - 4))
  else if v =? 62 then ch 43 else ch 47.

Definition b64_value (c : Ascii.ascii) : option Z :=
  let n := Z.of_nat (Ascii.nat_of_ascii c) in
  if (65 <=? n) && (n <=? 90) then Some (n - 65)
  else if (97 <=? n) && (n <=? 122) then Some (n - 71)
  else if (48 <=? n) && (n <=? 57) then Some (n + 4)
  else if n =? 43 then Some 62
  else if n =? 47 then Some 63
  else None.

Definition PAD : Ascii.ascii := ch 61.

Fixpoint b64_chars (l : bytes) : list Ascii.ascii :=
  match l with
  | [] => []
  | [a] =>
      let a := byte_value a in
      [b64_char (a / 4); b64_char (a mod 4 * 16); PAD; PAD]
  | [a; b] =>
      let a := byte_value a in let b := byte_value b in
      [b64_char (a / 4); b64_char (a mod 4 * 16 + b / 16); b64_char (b mod 16 * 4); PAD]
  | a :: b :: c :: l =>
      let a := byte_value a in let b := byte_value b in let c := byte_value c in
      b64_char (a / 4) :: b64_char (a mod 4 * 16 + b / 16) ::
      b64_char (b mod 16 * 4 + c / 64) :: b64_char (c mod 64) :: b64_chars l
  end.

Definition b64encode (l : bytes) : string := str (b64_chars l).

(** In strict mode only whole groups of four are accepted, padded at the very end; the bits
    under the padding are not looked at. *)
Fixpoint b64_bytes (l : list Ascii.ascii) : option bytes :=
  match l with
  | [] => Some []
  | w :: x :: y :: z :: l =>
      w ← b64_value w;
      x ← b64_value x;
      let first := byte_of (w * 4 + x / 16) in
      if Ascii.eqb y PAD then
        if Ascii.eqb z PAD then match l with [] => Some [first] | _ => None end else None
      else
        y ← b64_value y;
        let second := byte_of (x mod 16 * 16 + y / 4) in
        if Ascii.eqb z PAD then match l with [] => Some [first; second] | _ => None end
        else
          z ← b64_value z;
          rest ← b64_bytes l;
          Some (first :: second :: byte_of (y mod 4 * 64 + z) :: rest)
  | _ => None
  end.

Definition b64decode (s : string) : option bytes := b64_bytes (chars s).

(** ** The libraries *)

(** [AESGCM(key).encrypt(nonce, data, aad)] and [decrypt], which answers [None] for
    [InvalidTag] and for a nonce of an unsupported length; [os.urandom(12)] at a tick. *)
Class AesGcm := {
  gcm_encrypt : bytes -> bytes -> bytes -> bytes -> bytes;
  gcm_decrypt : bytes -> bytes -> bytes -> bytes -> option bytes;
  urandom12 : nat -> bytes
}.

(** [TypeAdapter(dict[str, str]).validate_json] reads the parser's document; and
    [str(value)] of a list or a dict. *)
Class ReplayReaders := {
  parse_json : bytes -> option json;
  py_repr : json -> string
}.

(** ** AESGCMReplayResultProtector *)

Record protector := { pr_active_key_id : string; pr_keys : gmap string bytes }.

(** [__init__] *)
Definition protector_init (active_key_id : string) (keys : gmap string bytes) : res protector :=
  raise_if (is_none (keys !! active_key_id)
            || negb (forallb (fun kv => (length kv.2 =? 32)%nat) (map_to_list keys))) EValueError;;
  mret {| pr_active_key_id := active_key_id; pr_keys := keys |}.

Section protector.
Context `{AesGcm} `{ReplayReaders}.

Definition payload_text (payload : list (string * string)) : bytes :=
  utf8 (dumps_ascii (JObject ((fun kv => (kv.1, JString kv.2)) <$> payload))).

(** [protect] *)
Definition protect_payload (p : protector) (n : nat) (payload : list (string * string))
    (aad : bytes) : res json_dict :=
  match pr_keys p !! pr_active_key_id p with
  | None => raise EKeyError
  | Some key =>
      let nonce := urandom12 n in
      let ciphertext := gcm_encrypt key nonce (payload_text payload) aad in
      mret [("version", JInt 1); ("algorithm", JString "AES-256-GCM");
            ("key_id", JString (pr_active_key_id p));
            ("nonce", JString (b64encode nonce));
            ("ciphertext", JString (b64encode ciphertext))]%string
  end.

(** [value != 1]: Python's [True] equals one. *)
Definition is_one (j : option json) : bool :=
  match j with Some (JInt n) => n =? 1 | Some (JBool b) => b | _ => false end.

(** [str(value)] *)
Definition py_str (j : json) : string :=
  match j with
  | JString s => s
  | JInt n => str (int_chars n)
  | JBool b => if b then "True" else "False"
  | JNull => "None"
  | JList _ | JObject _ => py_repr j
  end.

(** [envelope[key]] *)
Definition item_of (key : string) (envelope : json_dict) : res json :=
  match get key envelope with Some j => mret j | None => raise EKeyError end.

Definition or_value_error {A} (o : option A) : res A :=
  match o with Some a => mret a | None => raise EValueError end.

(** A dict from its items in order: a repeated key keeps its place and takes the last
    value. *)
Fixpoint set_item (key value : string) (l : list (string * string)) : list (string * string) :=
  match l with
  | [] => [(key, value)]
  | (k, v) :: l => if bool_decide (k = key) then (k, value) :: l
                   else (k, v) :: set_item key value l
  end.

Fixpoint text_items (items : list (string * json)) (acc : list (string * string)) :
    option (list (string * string)) :=
  match items with
  | [] => Some acc
  | (k, JString s) :: items => text_items items (set_item k s acc)
  | _ => None
  end.

(** [_PAYLOAD_ADAPTER.validate_json] *)
Definition read_payload_text (text : bytes) : option (list (string * string)) :=
  j ← parse_json text;
  match j with JObject items => text_items items [] | _ => None end.

(** The [try] block of [restore]. *)
Definition open_envelope (p : protector) (envelope : json_dict) (aad : bytes) :
    res (list (string * string)) :=
  raise_if (negb (is_one (get "version" envelope))
            || negb (match get "algorithm" envelope with
                     | Some (JString s) => bool_decide (s = "AES-256-GCM"%string)
                     | _ => false
                     end)) EValueError;;
  key_id ← item_of "key_id" envelope;
  key ← match pr_keys p !! py_str key_id with Some k => mret k | None => raise EKeyError end;
  nonce ← item_of "nonce" envelope ≫= fun j => or_value_error (b64decode (py_str j));
  ciphertext ← item_of "ciphertext" envelope ≫= fun j => or_value_error (b64decode (py_str j));
  plaintext ← or_value_error (gcm_decrypt key nonce ciphertext aad);
  or_value_error (read_payload_text plaintext).

(** [restore] *)
Definition restore_payload (p : protector) (envelope : json_dict) (aad : bytes) :
    res (list (string * string)) :=
  match open_envelope p envelope aad with
  | Ok payload => mret payload
  | Err x =>
      if isinstance x EKeyError || isinstance x ETypeError || isinstance x EValueError
      then raise RefreshReplayUnavailableError else raise x
  end.

(** The adapter behind the interface of the refresh handler. *)
Definition aes_gcm_protector (p : protector) : ReplayProtector :=
  {| protect := protect_payload p; restore := restore_payload p |}.
End protector.

(** [load_replay_key], from the bytes of the file. *)
Definition load_replay_key (raw : bytes) : res bytes :=
  if (length raw =? 32)%nat then mret raw
  else
    match b64_bytes (Tokens.strip Text.is_space (ch <$> (Z.to_nat ∘ byte_value <$> raw))) with
    | None => raise EValueError
    | Some decoded =>
        if (length decoded =? 32)%nat then mret decoded else raise EValueError
    end.

(** ** Base64 round trip *)

Lemma b64_char_spec v :
  0 <= v < 64 -> b64_value (b64_char v) = Some v /\ Ascii.eqb (b64_char v) PAD = false.
Proof.
  intros Hv. assert (Hin : In v (seqZ 0 64)) by (apply list_elem_of_In, elem_of_seqZ; lia).
  assert (Hall : forallb (fun x => bool_decide (b64_value (b64_char x) = Some x)
    && negb (Ascii.eqb (b64_char x) PAD)) (seqZ 0 64) = true) by reflexivity.
  pose proof (proj1 (forallb_forall _ _) Hall v Hin) as H.
  apply andb_true_iff in H as [H1%bool_decide_eq_true H2%negb_true_iff]. done.
Qed.

Lemma byte_value_range b : 0 <= byte_value b < 256.
Proof. unfold byte_value. pose proof (Byte.to_N_bounded b). lia. Qed.

Lemma byte_of_value b : byte_of (byte_value b) = b.
Proof. by destruct b. Qed.

Lemma byte_of_eq b v : v = byte_value b -> byte_of v = b.
Proof. intros ->. apply byte_of_value. Qed.

Ltac div_lia := Z.to_euclidean_division_equations; lia.

(** Read the next character back. *)
Ltac b64_step v :=
  let Hp := fresh "Hp" in destruct (b64_char_spec v) as [-> Hp]; [div_lia|];
  cbn [mbind option_bind]; try rewrite Hp.

Lemma b64_bytes_chars l : b64_bytes (b64_chars l) = Some l.
Proof.
  induction l as [l IH] using (induction_ltof1 _ (@length byte)). unfold ltof in IH.
  destruct l as [|a [|b [|c l]]]; [done|..]; cbn [b64_chars b64_bytes];
    pose proof (byte_value_range a) as Ha; pose proof (byte_of_eq a) as Ea.
  - b64_step (byte_value a / 4). b64_step (byte_value a mod 4 * 16).
    change (Ascii.eqb PAD PAD) with true. rewrite Ea by div_lia. done.
  - pose proof (byte_value_range b) as Hb. pose proof (byte_of_eq b) as Eb.
    b64_step (byte_value a / 4). b64_step (byte_value a mod 4 * 16 + byte_value b / 16).
    b64_step (byte_value b mod 16 * 4). change (Ascii.eqb PAD PAD) with true.
    rewrite Ea, Eb by div_lia. done.
  - pose proof (byte_value_range b) as Hb. pose proof (byte_of_eq b) as Eb.
    pose proof (byte_value_range c) as Hc. pose proof (byte_of_eq c) as Ec.
    b64_step (byte_value a / 4). b64_step (byte_value a mod 4 * 16 + byte_value b / 16).
    b64_step (byte_value b mod 16 * 4 + byte_value c / 64). b64_step (byte_value c mod 64).
    rewrite IH by (cbn; lia). cbn [option_bind]. rewrite Ea, Eb, Ec by div_lia. done.
Qed.

Lemma b64decode_encode l : b64decode (b64encode l) = Some l.
Proof. unfold b64decode, b64encode. rewrite chars_str. apply b64_bytes_chars. Qed.

(** ** What the service relies on *)

(** AES-GCM opens what it sealed, and what it opens is what it would have sealed. *)
Class AesGcmLaws `{AesGcm} : Prop := {
  gcm_opens k n p aad :
    length k = 32%nat -> length n = 12%nat -> gcm_decrypt k n (gcm_encrypt k n p aad) aad = Some p;
  gcm_authentic k n c p aad : gcm_decrypt k n c aad = Some p -> gcm_encrypt k n p aad = c;
  urandom12_length n : length (urandom12 n) = 12%nat
}.

(** The parser reads what [json.dumps] wrote of this payload: its items, in the order
    of the text. *)
Definition parses `{ReplayReaders} (payload : list (string * string)) : Prop :=
  parse_json (payload_text payload) =
    Some (JObject ((fun kv => (kv.1, JString kv.2)) <$> sort_keys payload)).

(** ** Correctness *)

Lemma elem_of_insert_key {A} (kv x : string * A) l : x ∈ insert_key kv l <-> x = kv \/ x ∈ l.
Proof.
  induction l as [|y l IH]; cbn; [set_solver|]. destruct (String.leb kv.1 y.1); set_solver.
Qed.

Lemma sort_keys_perm {A} (l : list (string * A)) : sort_keys l ≡ₚ l.
Proof.
  assert (Hi : forall kv (m : list (string * A)), insert_key kv m ≡ₚ kv :: m).
  { intros kv m. induction m as [|y m IH]; cbn; [done|]. destruct (String.leb kv.1 y.1); [done|].
    rewrite IH. apply perm_swap. }
  induction l as [|kv l IH]; [done|]. unfold sort_keys in *. cbn. by rewrite Hi, IH.
Qed.

Lemma set_item_new key value l : key ∉ l.*1 -> set_item key value l = l ++ [(key, value)].
Proof.
  induction l as [|[k v] l IH]; cbn; intros Hk; [done|].
  rewrite bool_decide_eq_false_2 by set_solver. by rewrite IH by set_solver.
Qed.

Lemma text_items_texts l acc :
  NoDup (acc.*1 ++ l.*1) ->
  text_items ((fun kv => (kv.1, JString kv.2)) <$> l) acc = Some (acc ++ l).
Proof.
  revert acc. induction l as [|[k v] l IH]; intros acc Hd; cbn.
  - by rewrite app_nil_r.
  - cbn in Hd. rewrite set_item_new.
    + rewrite IH; [by rewrite <- app_assoc|]. rewrite fmap_app, <- app_assoc. exact Hd.
    + apply list.NoDup_app in Hd as (_ & Hd & _). intros Hk. specialize (Hd k Hk). set_solver.
Qed.

Section correctness.
Context `{AesGcmLaws} `{ReplayReaders}.

Lemma read_payload_text_payload l :
  parses l -> NoDup l.*1 -> read_payload_text (payload_text l) = Some (sort_keys l).
Proof.
  intros Hp Hd. unfold read_payload_text. rewrite Hp. cbn.
  apply text_items_texts. cbn. by rewrite sort_keys_perm.
Qed.

Lemma protector_init_ok active keys p :
  protector_init active keys = Ok p ->
  pr_active_key_id p = active /\ pr_keys p = keys /\ is_Some (keys !! active) /\
  forall i k, keys !! i = Some k -> length k = 32%nat.
Proof.
  unfold protector_init. intros Hp. ok_inv. subst p. bools. destruct Hok as [Ha Hk].
  split_and!; try done.
  - apply is_some_true. unfold is_none in Ha. by apply negb_false_iff in Ha.
  - intros i k Hi. rewrite forallb_forall in Hk.
    specialize (Hk (i, k)). rewrite <- list_elem_of_In, elem_of_map_to_list in Hk.
    by apply Nat.eqb_eq, Hk.
Qed.

(** C30. A protected payload opens again: under the data it was bound to, whatever
    order its envelope was stored in, by the protector that made it or by any later
    one whose key ring still holds that key under its identifier, so that the
    active key can be rotated without losing a replay.  It opens to the same
    texts, with their names in order, and a token pair comes back as itself. *)
Theorem protected_payload_opens active keys active' keys' p p' n payload aad envelope' :
  protector_init active keys = Ok p -> protector_init active' keys' = Ok p' ->
  keys' !! active = keys !! active -> NoDup payload.*1 -> parses payload ->
  exists envelope,
    protect_payload p n payload aad = Ok envelope /\
    ((forall name, get name envelope' = get name envelope) ->
     restore_payload p' envelope' aad = Ok (sort_keys payload) /\
     forall tokens, payload = pair_payload tokens ->
       restore_payload p' envelope' aad ≫= pair_of_payload = Ok tokens).
Proof.
  intros Hp Hp' Hsame Hd Hparse.
  apply protector_init_ok in Hp as (Ea & Ek & [key Hkey] & Hlen).
  apply protector_init_ok in Hp' as (_ & Ek' & _ & _).
  unfold protect_payload. rewrite Ek, Ea, Hkey. eexists. split; [reflexivity|].
  pose proof (gcm_opens key (urandom12 n) (payload_text payload) aad (Hlen _ _ Hkey)
    (urandom12_length n)) as Hopen.
  set (c := gcm_encrypt _ _ _ _) in *. set (envelope := [_; _; _; _; _]). intros Hget.
  assert (E1 : get "version" envelope = Some (JInt 1)) by done.
  assert (E2 : get "algorithm" envelope = Some (JString "AES-256-GCM")) by done.
  assert (E3 : get "key_id" envelope = Some (JString active)) by done.
  assert (E4 : get "nonce" envelope = Some (JString (b64encode (urandom12 n)))) by done.
  assert (E5 : get "ciphertext" envelope = Some (JString (b64encode c))) by done.
  unfold restore_payload, open_envelope, item_of. rewrite !Hget, E1, E2, E3, E4, E5.
  cbn [is_one py_str mret result_ret mbind result_bind]. rewrite bool_decide_eq_true_2 by done.
  cbn [raise_if negb orb Z.eqb Pos.eqb mbind result_bind]. rewrite Ek', Hsame, Hkey.
  rewrite !b64decode_encode. cbn [or_value_error mret result_ret mbind result_bind].
  rewrite Hopen. cbn [or_value_error mret result_ret mbind result_bind].
  rewrite read_payload_text_payload by done. split; [done|]. intros [] ->. by vm_compute.
Qed.

Lemma or_value_error_ok {A} (o : option A) a : or_value_error o = Ok a -> o = Some a.
Proof. destruct o; cbn; [by intros [= ->]|done]. Qed.

Lemma envelope_bytes_ok name envelope b :
  (item_of name envelope ≫= fun j => or_value_error (b64decode (py_str j))) = Ok b ->
  b64decode <$> (py_str <$> get name envelope) = Some (Some b).
Proof.
  unfold item_of. intros (j & Hj & Hb)%bind_ok_inv. apply or_value_error_ok in Hb.
  destruct (get name envelope) as [j'|]; [|done]. injection Hj as ->. cbn. by rewrite Hb.
Qed.

(** Nothing else opens.  If an envelope opens, its ciphertext is, to the bit, what
    AES-GCM makes of the payload's text under a key of the ring, the envelope's
    nonce and this very associated data, so an envelope that was moved to another
    request, result type or version, or altered, opens only if the cipher collides.
    An envelope that does not open, however it is malformed, is reported as an
    unavailable replay and never as another error. *)
Theorem opened_envelope_authentic p envelope aad :
  match restore_payload p envelope aad with
  | Ok payload =>
      exists key_id key nonce ciphertext plaintext,
        pr_keys p !! key_id = Some key /\
        b64decode <$> (py_str <$> get "nonce" envelope) = Some (Some nonce) /\
        b64decode <$> (py_str <$> get "ciphertext" envelope) = Some (Some ciphertext) /\
        ciphertext = gcm_encrypt key nonce plaintext aad /\
        read_payload_text plaintext = Some payload
  | Err x => x = (RefreshReplayUnavailableError : exn)
  end.
Proof.
  unfold restore_payload. destruct (open_envelope p envelope aad) as [payload|x] eqn:E.
  - cbn. unfold open_envelope in E.
    apply bind_ok_inv in E as (? & _ & E). apply bind_ok_inv in E as (j & _ & E).
    apply bind_ok_inv in E as (key & Hkey & E).
    apply bind_ok_inv in E as (nonce & Hnonce & E). apply envelope_bytes_ok in Hnonce.
    apply bind_ok_inv in E as (ciphertext & Hc & E). apply envelope_bytes_ok in Hc.
    apply bind_ok_inv in E as (plaintext & Hp & E).
    apply or_value_error_ok in Hp. apply or_value_error_ok in E.
    exists (py_str j), key, nonce, ciphertext, plaintext. split_and!; try done.
    + destruct (pr_keys p !! py_str j); [by injection Hkey as ->|done].
    + symmetry. by apply gcm_authentic.
  - assert (Hx : x = EKeyError \/ x = EValueError).
    { assert (Hi : forall name y, item_of name envelope = Err y -> y = EKeyError).
      { intros name y. unfold item_of. by destruct (get name envelope); intros [=]. }
      assert (Hv : forall A (o : option A) y, or_value_error o = Err y -> y = EValueError).
      { intros A [a|] y; [done|by intros [=]]. }
      assert (Hb : forall name y, (item_of name envelope ≫= fun j =>
        or_value_error (b64decode (py_str j))) = Err y -> y = EKeyError \/ y = EValueError).
      { intros name y [Hy|(j & _ & Hy)]%bind_err_inv; eauto. }
      unfold open_envelope in E.
      apply bind_err_inv in E as [E|(? & _ & E)].
      { unfold raise_if in E. case_match; by simplify_eq; auto. }
      apply bind_err_inv in E as [E|(? & _ & E)]; [eauto|].
      apply bind_err_inv in E as [E|(? & _ & E)];
        [case_match; [done|]; injection E as <-; auto|].
      apply bind_err_inv in E as [E|(? & _ & E)]; [eauto|].
      apply bind_err_inv in E as [E|(? & _ & E)]; [eauto|].
      apply bind_err_inv in E as [E|(? & _ & E)]; eauto. }
    destruct Hx as [->| ->]; by vm_compute.
Qed.
End correctness.

(** ** A concrete envelope *)

Section demo.
(** A cipher without secrecy: the text next to the data it is bound to. *)
#[local] Instance demo_gcm : AesGcm := {|
  gcm_encrypt _ _ p aad := p ++ aad;
  gcm_decrypt _ _ c aad :=
    let n := (length c - length aad)%nat in
    if bool_decide (c = take n c ++ aad) then Some (take n c) else None;
  urandom12 _ := repeat x05 12
|}.
#[local] Instance demo_replay_readers : ReplayReaders := {|
  parse_json text := read_json (str (of_utf8 text));
  py_repr _ := "[]"%string
|}.

#[local] Instance demo_gcm_laws : AesGcmLaws.
Proof.
  constructor; cbn.
  - intros _ _ p aad _ _. rewrite length_app.
    replace (length p + length aad - length aad)%nat with (length p) by lia.
    rewrite take_app_length. by rewrite bool_decide_eq_true_2.
  - intros _ _ c p aad. case_bool_decide as E; [|done]. by intros [= <-].
  - done.
Qed.

Definition demo_ring : gmap string bytes := {["k1"%string := repeat x01 32]}.
Definition demo_key_protector : protector :=
  {| pr_active_key_id := "k1"; pr_keys := demo_ring |}.
Definition demo_rotated_protector : protector :=
  {| pr_active_key_id := "k2"; pr_keys := <["k2"%string := repeat x02 32]> demo_ring |}.
Definition demo_pair : TokenPair := new_pair "access" "refresh".
Definition demo_aad : bytes := [x61; x62].

Lemma protected_payload_opens_witness :
  exists envelope,
    protect_payload demo_key_protector 0 (pair_payload demo_pair) demo_aad = Ok envelope /\
    restore_payload demo_rotated_protector envelope demo_aad ≫= pair_of_payload = Ok demo_pair.
Proof.
  destruct (protect_payload demo_key_protector 0 (pair_payload demo_pair) demo_aad) as [e|x] eqn:E;
    [|vm_compute in E; discriminate].
  destruct (protected_payload_opens "k1" demo_ring "k2" (<["k2"%string := repeat x02 32]> demo_ring)
    demo_key_protector demo_rotated_protector 0 (pair_payload demo_pair) demo_aad e)
    as (envelope & He & Hopen).
  - vm_compute. reflexivity.
  - vm_compute. reflexivity.
  - vm_compute. reflexivity.
  - cbn. repeat constructor; set_solver.
  - vm_compute. reflexivity.
  - exists e. split; [reflexivity|]. rewrite E in He. injection He as <-.
    apply Hopen; reflexivity.
Defined.

(** Under other data, or with its ciphertext changed, the envelope stays shut. *)
Lemma opened_envelope_authentic_witness :
  exists envelope,
    protect_payload demo_key_protector 0 (pair_payload demo_pair) demo_aad = Ok envelope /\
    restore_payload demo_key_protector envelope [x61; x63] =
      Err (RefreshReplayUnavailableError : exn).
Proof.
  eexists. split; [reflexivity|]. set (envelope := [_; _; _; _; _]).
  pose proof (opened_envelope_authentic demo_key_protector envelope [x61; x63]) as Ha.
  assert (E : is_ok (restore_payload demo_key_protector envelope [x61; x63]) = false)
    by (vm_compute; reflexivity).
  destruct (restore_payload demo_key_protector envelope [x61; x63]) as [payload|x];
    [discriminate|]. by rewrite Ha.
Defined.
End demo.
