(* ===== verification/OpenApi.v ===== *)
(** * The documented responses

    What the OpenAPI description of the authentication endpoints says about their
    responses ([openapi_error_responses] of
    [entrypoints/http/routers/exception_handlers.py] and the [responses] of
    [routers/v1/auth.py]), and the exceptions whose responses it describes.  That the
    endpoints answer nothing else is in [Documented]. *)

From S2P Require Import Prelude Exceptions Text Json Effects Raises AuthFlow ErrorResponses.

(** ** Descriptions *)

(** One entry of [responses]: the model, the headers and the examples by error code. *)
Record described := {
  ds_model : option string;
  ds_headers : list string;
  ds_examples : list (string * string)
}.

(** [d.setdefault(key, value)] and [d[key] = value]. *)
Fixpoint lookup {K V} `{EqDecision K} (key : K) (d : list (K * V)) : option V :=
  match d with
  | [] => None
  | (k, v) :: d => if decide (k = key) then Some v else lookup key d
  end.

Fixpoint assign {K V} `{EqDecision K} (key : K) (value : V) (d : list (K * V)) : list (K * V) :=
  match d with
  | [] => [(key, value)]
  | (k, v) :: d => if decide (k = key) then (k, value) :: d else (k, v) :: assign key value d
  end.

Section descriptions.
#[local] Open Scope string_scope.

Definition rejected : described :=
  {| ds_model := Some "ApiErrorResponse"; ds_headers := ["Cache-Control"; "Pragma"];
     ds_examples := [] |}.

(** One turn of the loop of [openapi_error_responses]. *)
Definition describe_error (responses : list (Z * described)) (error_type : exn) :
    res (list (Z * described)) :=
  spec ← spec_of HTTP_ERROR_SPECS error_type;
  let response := default rejected (lookup (es_status_code spec) responses) in
  mret (assign (es_status_code spec)
    {| ds_model := ds_model response;
       ds_headers := if decide (error_type = IdempotencyRequestInProgressError)
                     then ds_headers response ++ ["Retry-After"] else ds_headers response;
       ds_examples := assign (code_value (es_code spec)) (es_detail spec) (ds_examples response) |}
    responses).

Fixpoint describe_errors (responses : list (Z * described)) (error_types : list exn) :
    res (list (Z * described)) :=
  match error_types with
  | [] => mret responses
  | error_type :: error_types =>
      responses ← describe_error responses error_type; describe_errors responses error_types
  end.

Definition openapi_error_responses (error_types : list exn) : res (list (Z * described)) :=
  describe_errors [] error_types.

(** [_cookie_response] *)
Definition cookie_response : list (Z * described) :=
  [(204, {| ds_model := None; ds_headers := ["Set-Cookie"; "Cache-Control"]; ds_examples := [] |})].

(** [{**a, **b}]: entries of [b] replace those of [a]. *)
Definition merge (a b : list (Z * described)) : list (Z * described) :=
  foldl (fun d kv => assign kv.1 kv.2 d) a b.

(** A route: its success status, the models its annotation names and the exceptions
    and other entries its [responses] are made of. *)
Record route := {
  rte_method : string;
  rte_path : string;
  rte_status : Z;
  rte_models : list string;
  rte_described : list (Z * described);
  rte_errors : list exn
}.

Definition register_route : route := {|
  rte_method := "POST"; rte_path := "/register"; rte_status := 201;
  rte_models := ["RegisterResponse"; "PendingRegistrationResponse"];
  rte_described := [(202, {| ds_model := Some "PendingRegistrationResponse";
                            ds_headers := ["Retry-After"]; ds_examples := [] |})];
  rte_errors := [UserAlreadyExistsError : exn; ProfileProvisioningUnavailableError : exn;
                IdempotencyKeyConflictError : exn; ERequestValidation]
|}.

Definition login_route : route := {|
  rte_method := "POST"; rte_path := "/login"; rte_status := 204; rte_models := [];
  rte_described := cookie_response;
  rte_errors := [InvalidCredentialsError : exn; ERequestValidation]
|}.

Definition login_test_route : route := {|
  rte_method := "POST"; rte_path := "/login/test"; rte_status := 200;
  rte_models := ["TestLoginResponse"]; rte_described := [];
  rte_errors := [InvalidCredentialsError : exn; ERequestValidation]
|}.

Definition refresh_route : route := {|
  rte_method := "POST"; rte_path := "/refresh"; rte_status := 204; rte_models := [];
  rte_described := cookie_response;
  rte_errors := [InvalidRefreshTokenError : exn; ERequestValidation;
                IdempotencyKeyConflictError : exn; IdempotencyRequestInProgressError : exn;
                IdempotencyStorageUnavailableError : exn; RefreshReplayUnavailableError : exn]
|}.

Definition logout_route : route := {|
  rte_method := "POST"; rte_path := "/logout"; rte_status := 204; rte_models := [];
  rte_described := cookie_response; rte_errors := []
|}.

Definition me_route : route := {|
  rte_method := "GET"; rte_path := "/me"; rte_status := 200; rte_models := ["MeResponse"];
  rte_described := []; rte_errors := [InvalidTokenError : exn]
|}.

(** [responses] *)
Definition responses (rt : route) : res (list (Z * described)) :=
  errors ← openapi_error_responses (rte_errors rt);
  mret (merge (rte_described rt) errors).

(** ** Responses a description covers *)

Definition model_name (b : body) : option string :=
  match b with
  | NoBody => None
  | ApiErrorResponse _ _ => Some "ApiErrorResponse"
  | RegisterResponse _ => Some "RegisterResponse"
  | PendingRegistrationResponse _ _ _ => Some "PendingRegistrationResponse"
  | TestLoginResponse _ _ => Some "TestLoginResponse"
  | MeResponse _ => Some "MeResponse"
  end.

(** The status, the model and the retry header are described, and an error is one of
    the examples of its status. *)
Definition covers (d : described) (r : response) : bool :=
  bool_decide (ds_model d = model_name (rs_body r))
  && (is_none (rs_headers r !! "Retry-After") || bool_decide ("Retry-After" ∈ ds_headers d))
  && match rs_body r with
     | ApiErrorResponse code detail =>
         bool_decide (lookup (code_value code) (ds_examples d) = Some detail)
     | _ => true
     end.

(** The entry of the success status the framework adds from the annotation. *)
Definition success_covers (rt : route) (r : response) : bool :=
  bool_decide (rs_status r = rte_status rt)
  && match model_name (rs_body r) with
     | Some m => bool_decide (m ∈ rte_models rt)
     | None => bool_decide (rte_models rt = [])
     end
  && is_none (rs_headers r !! "Retry-After").

Definition documents (rt : route) (r : response) : bool :=
  success_covers rt r
  || match responses rt with
     | Ok d => match lookup (rs_status r) d with Some d => covers d r | None => false end
     | Err _ => false
     end.
End descriptions.

(** ** Exceptions a description covers *)

(** The codes of the exceptions a route lists. *)
Definition codes (rt : route) : list AuthApiErrorCode :=
  flat_map (fun c => match spec_of HTTP_ERROR_SPECS c with Ok s => [es_code s] | Err _ => [] end)
    (rte_errors rt).

(** [x] ends in the internal error or in one of these codes. *)
Definition permits (cs : list AuthApiErrorCode) (x : exn) : Prop :=
  match listed x with
  | [] => True
  | p :: _ => es_code p.2 ∈ cs
  end.

#[global] Instance permits_dec cs x : Decision (permits cs x).
Proof. unfold permits. destruct (listed x); apply _. Defined.

Lemma permits_translated cs : translated (permits cs).
Proof.
  split.
  - by intros [].
  - intros x Hx. destruct x; try exact Hx. cbn [translate]. unfold translate_database_error.
    repeat case_match; done.
Qed.

Lemma permits_weaken cs cs' x : cs ⊆ cs' -> permits cs x -> permits cs' x.
Proof. unfold permits. intros Hs. destruct (listed x); [done|]. apply Hs. Qed.

Definition routes : list route :=
  [register_route; login_route; login_test_route; refresh_route; logout_route; me_route].

Lemma table_documented retry_after_seconds rt p :
  rt ∈ routes -> p ∈ HTTP_ERROR_SPECS -> es_code p.2 ∈ codes rt ->
  documents rt (response_from_spec (active_spec retry_after_seconds p.1 p.2)) = true.
Proof.
  unfold active_spec. generalize (str (int_chars retry_after_seconds)). intros text.
  assert (Hall : forallb (fun rt => forallb (fun p => implb (bool_decide (es_code p.2 ∈ codes rt))
    (documents rt (response_from_spec
       (if decide (p.1 = EIdempotency IdempotencyRequestInProgressError) then
          {| es_status_code := es_status_code p.2; es_code := es_code p.2;
             es_detail := es_detail p.2;
             es_headers := es_headers p.2 ++ [("Retry-After"%string, text)] |}
        else p.2)))) HTTP_ERROR_SPECS) routes = true) by (vm_compute; reflexivity).
  rewrite forallb_forall in Hall. intros Hrt%list_elem_of_In Hp%list_elem_of_In Hc.
  specialize (Hall rt Hrt). rewrite forallb_forall in Hall. specialize (Hall p Hp).
  rewrite bool_decide_true in Hall by done. exact Hall.
Qed.

Lemma error_documented `{HandlerLaws} retry_after_seconds rt x :
  rt ∈ routes -> permits (codes rt) x ->
  documents rt (error_response retry_after_seconds x) = true \/
  error_response retry_after_seconds x = create_internal_error_response.
Proof.
  intros Hrt. pose proof (error_response_listed retry_after_seconds x) as Hr.
  unfold permits. destruct (listed x) as [|p [|]] eqn:El; [by right| |done].
  intros Hc. left. rewrite Hr. apply table_documented; [done| |done].
  apply list_elem_of_In. assert (Hp : In p (listed x)) by (rewrite El; by left).
  unfold listed in Hp. by apply List.filter_In in Hp as [Hp _].
Qed.
