(* ===== verification/Reconciler.v ===== *)
(** * The registration reconciler's loop

    [application/registration/reconciler.py], [run] and [stop], around the rounds of
    [RegisterFlow].  A stop may come at any tick; waiting for the polling interval
    only lets time pass, as one tick. *)

From S2P Require Import Prelude Exceptions Domain Retry Text Sql Registration Outbox.
From S2P Require Import Effects Accounts Database RegisterFlow.

Section loop.
Context `{EmailSyntax} `{FloatPow} `{PasswordHasher} `{ProfileProvisioner}.
Context (cfg : reg_config).
(** [self._stop_event.is_set()] at a tick. *)
Context (stopped : nat -> bool).

Definition stop_is_set : RM bool := tick (fun _ n => stopped n).

(** [run_once] inside the loop: the number of operations, zero when it failed. *)
Definition iteration (batch_size : Z) : RM Z :=
  r ← attempt (reconcile_once cfg batch_size);
  match r with
  | Ok processed => mret processed
  | Err error => if is_exception error then mret 0 else lift (raise error)
  end.

(** The loop, for at most [fuel] rounds; [None] when it has not been stopped by then. *)
Fixpoint reconcile_loop (fuel : nat) (batch_size : Z) : RM (option unit) :=
  match fuel with
  | O => mret None
  | S fuel =>
      stop ← stop_is_set;
      if stop : bool then mret (Some tt) else
      processed ← iteration batch_size;
      (if processed =? 0 then
         stop ← stop_is_set;
         if stop : bool then mret tt else tick (fun _ _ => tt)
       else mret tt);;
      reconcile_loop fuel batch_size
  end.

(** [run] *)
Definition reconcile_run (fuel : nat) (poll_interval : float) (batch_size : Z) : RM (option unit) :=
  lift (raise_if (fle poll_interval f0) EValueError);;
  reconcile_loop fuel batch_size.
End loop.

(** ** Time goes forward *)

Definition forward {DB Ev A} (m : M DB Ev A) : Prop :=
  forall e w, (w_tick w <= w_tick (m e w).2)%nat.

Definition t_forward {DB A} (m : T DB A) : Prop :=
  forall e t, (tx_tick t <= tx_tick (m e t).2)%nat.

Section forward.
Context {DB Ev : Type}.

Lemma forward_ret {A} (a : A) : forward (mret a : M DB Ev A).
Proof. by intros e w. Qed.

Lemma forward_lift {A} (r : res A) : forward (lift r : M DB Ev A).
Proof. by intros e w. Qed.

Lemma forward_bind {A B} (m : M DB Ev A) (f : A -> M DB Ev B) :
  forward m -> (forall a, forward (f a)) -> forward (m ≫= f).
Proof.
  intros Hm Hf e w. specialize (Hm e w). unfold mbind, M_bind.
  destruct (m e w) as [[a|x] w1]; [|exact Hm]. specialize (Hf a e w1). cbn in *. lia.
Qed.

Lemma forward_tick {A} (f : env DB -> nat -> A) : forward (tick f : M DB Ev A).
Proof. intros e w. cbn. lia. Qed.

Lemma forward_emit ev : forward (emit ev : M DB Ev unit).
Proof. by intros e w. Qed.

Lemma forward_attempt {A} (m : M DB Ev A) : forward m -> forward (attempt m).
Proof. intros Hm e w. specialize (Hm e w). unfold attempt. by destruct (m e w). Qed.

Lemma forward_call {A} (answer : nat -> res A) ev : forward (call answer ev : M DB Ev A).
Proof. intros e w. cbn. lia. Qed.

Lemma forward_transaction {A} (body : T DB A) : t_forward body -> forward (transaction body : M DB Ev A).
Proof.
  intros Hb e w. unfold transaction.
  match goal with |- context [body e ?t] => specialize (Hb e t) end.
  destruct (body e _) as [[a|x] t]; cbn in *; [|lia].
  destruct (commit_fault e (tx_tick t)) as [[d [|]]|]; cbn; lia.
Qed.

Lemma t_forward_ret {A} (a : A) : t_forward (mret a : T DB A).
Proof. by intros e t. Qed.

Lemma t_forward_lift {A} (r : res A) : t_forward (t_lift r : T DB A).
Proof. by intros e t. Qed.

Lemma t_forward_bind {A B} (m : T DB A) (f : A -> T DB B) :
  t_forward m -> (forall a, t_forward (f a)) -> t_forward (m ≫= f).
Proof.
  intros Hm Hf e t. specialize (Hm e t). unfold mbind, T_bind.
  destruct (m e t) as [[a|x] t1]; [|exact Hm]. specialize (Hf a e t1). cbn in *. lia.
Qed.

Lemma t_forward_tick {A} (f : env DB -> nat -> A) : t_forward (t_tick f : T DB A).
Proof. intros e t. cbn. lia. Qed.

Lemma t_forward_stmt {A} (f : datetime -> gset Z -> DB -> res (A * DB)) : t_forward (stmt f).
Proof.
  intros e t. unfold stmt, locking_stmt. destruct (statement_fault _ _); cbn; [lia|].
  destruct (f _ _ _) as [[a v]|x]; cbn; lia.
Qed.
End forward.

(** Walk through a program, its queries and its transactions. *)
Ltac forward_step :=
  lazymatch goal with
  | |- forward (mbind _ _) => apply forward_bind; [|intros ?]
  | |- forward (mret _) => apply forward_ret
  | |- forward (lift _) => apply forward_lift
  | |- forward (tick _) => apply forward_tick
  | |- forward get_now => apply forward_tick
  | |- forward get_uuid => apply forward_tick
  | |- forward get_jitter => apply forward_tick
  | |- forward (emit _) => apply forward_emit
  | |- forward (attempt _) => apply forward_attempt
  | |- forward (call _ _) => apply forward_call
  | |- forward (transaction _) => apply forward_transaction
  | |- forward (if ?b then _ else _) => destruct b
  | |- forward (match ?m with _ => _ end) => destruct m
  | |- t_forward (mbind _ _) => apply t_forward_bind; [|intros ?]
  | |- t_forward (mret _) => apply t_forward_ret
  | |- t_forward (t_lift _) => apply t_forward_lift
  | |- t_forward (t_tick _) => apply t_forward_tick
  | |- t_forward (stmt _) => apply t_forward_stmt
  | |- t_forward (query _) => apply t_forward_stmt
  | |- t_forward (on_registrations _) => apply t_forward_stmt
  | |- t_forward (on_users _) => apply t_forward_stmt
  | |- t_forward (on_outbox _) => apply t_forward_stmt
  | |- t_forward (if ?b then _ else _) => destruct b
  | |- t_forward (match ?m with _ => _ end) => destruct m
  end.

Section rounds.
Context `{EmailSyntax} `{FloatPow} `{PasswordHasher} `{ProfileProvisioner} (cfg : reg_config).

Lemma block_forward op owner error : forward (block_operation op owner error).
Proof. unfold block_operation. repeat forward_step. Qed.

Lemma retry_forward op owner error : forward (retry_or_block cfg op owner error).
Proof. unfold retry_or_block. repeat forward_step; apply block_forward. Qed.

Lemma finalize_forward op owner : forward (finalize cfg op owner).
Proof. unfold finalize, finalize_body. repeat forward_step. Qed.

Lemma resume_forward op owner : forward (resume cfg op owner).
Proof.
  unfold resume, create_profile, profile_failed, finalization_failed.
  repeat forward_step; auto using block_forward, retry_forward, finalize_forward.
Qed.

Lemma process_all_forward owner ops : forward (process_all cfg owner ops).
Proof.
  induction ops as [|op ops IH]; [apply forward_ret|]. cbn.
  apply forward_bind; [|done]. unfold process. repeat forward_step. apply resume_forward.
Qed.

Lemma reconcile_once_forward n : forward (reconcile_once cfg n).
Proof. unfold reconcile_once. repeat forward_step; apply process_all_forward. Qed.

Lemma iteration_forward n : forward (iteration cfg n).
Proof. unfold iteration. repeat forward_step. apply reconcile_once_forward. Qed.
End rounds.

(** ** Correctness *)

Section runs.
Context `{EmailLaws} `{FloatPow} `{PasswordHasher} `{ProfileProvisioner}.
Context (cfg : reg_config) (stopped : nat -> bool) (e : env database).

(** Keeping the tables needs no more than the rounds do. *)
Lemma loop_keeps d0 fuel n :
  good_env e ->
  hspec e d0 (fun _ => True) (reconcile_loop cfg stopped fuel n) (fun _ _ => True).
Proof.
  intros He. induction fuel as [|fuel IH]; [by apply h_ret|].
  eapply h_bind; [apply h_tick|]. intros [|]; [by apply h_ret|].
  eapply h_bind with (R := fun _ _ => True).
  - eapply h_bind; [apply h_attempt; by apply (reconcile_keeps cfg e He d0 n (fun _ => True))|].
    intros [k|error]; [by apply h_ret|]. destruct (is_exception error); [by apply h_ret|apply h_raise].
  - intros k. eapply h_bind with (R := fun _ _ => True); [|intros []; exact IH].
    destruct (k =? 0); [|by apply h_ret]. eapply h_bind; [apply h_tick|].
    intros [|]; [by apply h_ret|]. exact (h_tick e d0 (fun _ _ => tt) (fun _ => True)).
Qed.

Lemma reconciler_run_keeps d0 fuel poll_interval n :
  good_env e ->
  hspec e d0 (fun _ => True) (reconcile_run cfg stopped fuel poll_interval n) (fun _ _ => True).
Proof.
  intros He. eapply h_bind; [apply h_lift|]. intros ?. apply h_pure. intros _.
  by apply loop_keeps.
Qed.

(** A round that starts before the stop leaves one round less to go. *)
Lemma loop_stops k fuel n w :
  (forall m, (k <= m)%nat -> stopped m = true) -> (k <= fuel + w_tick w)%nat ->
  (reconcile_loop cfg stopped (S fuel) n e w).1 <> Ok None.
Proof.
  intros Hk. revert w. induction fuel as [|fuel IH]; intros w Hw; cbn [reconcile_loop].
  - unfold stop_is_set, tick, mbind, M_bind. rewrite Hk; [by intros [=]|]. cbn in Hw. lia.
  - unfold stop_is_set, tick. unfold mbind at 1, M_bind at 1.
    destruct (stopped (w_tick w)) eqn:Es; [by intros [=]|]. unfold mbind at 1, M_bind at 1.
    match goal with |- context [iteration cfg n e ?w1] =>
      pose proof (iteration_forward cfg n e w1) as Hf;
      destruct (iteration cfg n e w1) as [[p|x] w2] end; [|by intros [=]]. cbn in Hf.
    unfold mbind at 1, M_bind at 1.
    match goal with |- context [(if p =? 0 then ?a else ?b) e w2] =>
      assert (Hg : forward (if p =? 0 then a else b))
        by (repeat forward_step; intros ? ?; cbn; lia);
      specialize (Hg e w2); destruct ((if p =? 0 then a else b) e w2) as [[[]|x] w3] end;
      [|by intros [=]].
    cbn in Hg. apply IH. lia.
Qed.

(** A loop that fails was cancelled. *)
Lemma loop_survives fuel n w x w' :
  reconcile_loop cfg stopped fuel n e w = (Err x, w') -> is_exception x = false.
Proof.
  revert w. induction fuel as [|fuel IH]; intros w; [done|]. cbn [reconcile_loop].
  unfold stop_is_set, tick. unfold mbind at 1, M_bind at 1.
  destruct (stopped (w_tick w)); [done|]. unfold mbind at 1, M_bind at 1.
  unfold iteration at 1, attempt. unfold mbind at 1, M_bind at 1.
  destruct (reconcile_once cfg n e _) as [[p|y] w2].
  - cbn. unfold mbind, M_bind. destruct (p =? 0); cbn; [|apply IH].
    destruct (stopped (w_tick w2)); cbn; apply IH.
  - destruct (is_exception y) eqn:Ey; [|by intros [= <- _]].
    cbn. unfold mbind, M_bind. destruct (stopped (w_tick w2)); cbn; apply IH.
Qed.

(** C25. The reconciler's loop, in any environment.  It stops: if the stop flag stays set
    from some tick on, that many rounds and one more are enough for [run] to return.
    It survives: a run that fails was refused its polling interval or cancelled,
    so no failing round ends it.  And however long it runs and however it ends, the tables
    stay consistent, every completed registration with its user, and lose nothing. *)
Theorem reconciler_runs fuel poll_interval n (w : world database reg_event) :
  good_env e -> consistent Settled (w_db w) ->
  let '(r, w') := reconcile_run cfg stopped fuel poll_interval n e w in
  (forall k, (forall m, (k <= m)%nat -> stopped m = true) -> (k < fuel)%nat -> r <> Ok None) /\
  (forall x, r = Err x -> (fle poll_interval f0 = true /\ x = EValueError) \/ is_exception x = false) /\
  consistent Settled (w_db w') /\ extends (w_db w) (w_db w').
Proof.
  intros He Hc. assert (Hrun : running (w_db w) (w_db w)) by (split; auto with identity).
  unfold reconcile_run, lift, mbind, M_bind.
  destruct (fle poll_interval f0); cbn [raise_if].
  { split_and!; [done| |apply Hrun|apply Hrun]. intros x [= <-]. by left. }
  pose proof (loop_keeps (w_db w) fuel n He w (conj Hrun I)) as Hkeep.
  pose proof (loop_survives fuel n w) as Hs.
  assert (Hstop : forall k, (forall m, (k <= m)%nat -> stopped m = true) -> (k < fuel)%nat ->
    (reconcile_loop cfg stopped fuel n e w).1 <> Ok None).
  { intros k Hk Hlt. destruct fuel as [|fuel]; [lia|]. apply (loop_stops k); [done|lia]. }
  destruct (reconcile_loop cfg stopped fuel n e w) as [r w'].
  split_and!; [exact Hstop| | |].
  - intros x ->. right. by eapply Hs.
  - destruct r; apply Hkeep.
  - destruct r; apply Hkeep.
Qed.
End runs.

(** ** A concrete run *)

Section demo.
#[local] Existing Instance demo_email_syntax.
#[local] Existing Instance demo_profiles.

(** A reconciler over the demo tables that is stopped at tick 120. *)
Definition demo_reconciler : res (option unit) * world database reg_event :=
  reconcile_run demo_config (Nat.leb 120) 121 (of_Z 2) 25 (quiet_env database) demo_world.

Lemma reconciler_runs_witness :
  demo_reconciler.1 = Ok (Some tt) /\ consistent Settled (w_db demo_reconciler.2).
Proof.
  pose proof (reconciler_runs demo_config (Nat.leb 120) (quiet_env database) 121 (of_Z 2) 25
    demo_world quiet_good demo_world_consistent) as Hr.
  assert (E : is_ok demo_reconciler.1 = true) by (vm_compute; reflexivity).
  unfold demo_reconciler in *.
  destruct (reconcile_run _ _ _ _ _ _ _) as [[[[]|]|x] w'].
  - destruct Hr as (_ & _ & Hc & _). split; [reflexivity|exact Hc].
  - exfalso. destruct Hr as [Hr _]. apply (Hr 120%nat); [|apply Nat.ltb_lt; reflexivity|reflexivity].
    intros m Hm. by apply Nat.leb_le.
  - discriminate E.
Defined.
End demo.
