(* ===== verification/Metrics.v ===== *)
(** * The metrics

    The Prometheus adapters of [infrastructure/observability] behind the observers the
    coordinator and the registration handlers call: which samples a run adds to which
    counters.  [prometheus_client] is a parameter ([Metrics]) that does what it
    documents: a counter takes exactly the labels it was declared with and grows by
    amounts that are not negative. *)

From S2P Require Import Prelude Exceptions Domain Retry Text Sql Registration Effects Accounts Database.
From S2P Require Import Idempotency Coordinator RegisterFlow.

(** ** prometheus_client *)

(** [Counter(name, documentation, labelnames)] *)
Record Counter := { ct_name : string; ct_labelnames : list string }.

(** [counter.labels(...).inc(amount)] *)
Record sample := { sm_counter : Counter; sm_labels : list (string * string); sm_amount : Z }.

Class Metrics (R : Type) := {
  increment : R -> sample -> res R;
  counter_value : R -> string -> list (string * string) -> Z
}.

Definition well_labelled (s : sample) : Prop :=
  (sm_labels s).*1 = ct_labelnames (sm_counter s) /\ 0 <= sm_amount s.

(** What one sample adds to a series. *)
Definition adds (s : sample) (name : string) (labels : list (string * string)) : Z :=
  if decide (name = ct_name (sm_counter s) /\ labels = sm_labels s) then sm_amount s else 0.

Class MetricsLaws (R : Type) `{Metrics R} : Prop :=
  increment_law : forall (r : R) s, well_labelled s -> exists r',
    increment r s = Ok r' /\
    forall name labels, counter_value r' name labels = counter_value r name labels + adds s name labels.

(** ** The adapters *)

Section adapters.
#[local] Open Scope string_scope.

(** idempotency_metrics.py *)
Definition IDEMPOTENCY_OUTCOMES : Counter :=
  {| ct_name := "identity_idempotency_outcomes_total"; ct_labelnames := ["outcome"] |}.
Definition HOT_DEGRADED : Counter :=
  {| ct_name := "identity_idempotency_hot_degraded_total"; ct_labelnames := ["stage"] |}.

(** [outcome.value] *)
Definition outcome_value (o : ExecutionOutcome) : string :=
  match o with
  | EXECUTED => "EXECUTED" | REPLAY => "REPLAY"
  | CONFLICT => "CONFLICT" | IN_PROGRESS => "IN_PROGRESS"
  end.

Definition observe_outcome (outcome : string) : sample :=
  {| sm_counter := IDEMPOTENCY_OUTCOMES; sm_labels := [("outcome", outcome)]; sm_amount := 1 |}.
Definition observe_hot_degraded (stage : string) : sample :=
  {| sm_counter := HOT_DEGRADED; sm_labels := [("stage", stage)]; sm_amount := 1 |}.

(** registration_metrics.py *)
Definition REGISTRATION_OUTCOMES : Counter :=
  {| ct_name := "identity_registration_outcomes_total"; ct_labelnames := ["outcome"] |}.
Definition RECOVERY_BATCHED : Counter :=
  {| ct_name := "identity_registration_recovery_claimed_total"; ct_labelnames := [] |}.

Definition registration_outcome (outcome : string) : sample :=
  {| sm_counter := REGISTRATION_OUTCOMES; sm_labels := [("outcome", outcome)]; sm_amount := 1 |}.
Definition operation_completed : sample := registration_outcome "completed".
Definition retry_scheduled (error_class : string) : sample := registration_outcome "retry_scheduled".
Definition operation_blocked (error_class : string) : sample := registration_outcome "blocked".
Definition lost_claim : sample := registration_outcome "lost_claim".
Definition recovery_batch_claimed (count : Z) : sample :=
  {| sm_counter := RECOVERY_BATCHED; sm_labels := []; sm_amount := count |}.
End adapters.

(** Which method of its observer an event is a call of. *)
Definition PrometheusIdempotencyObserver (ev : idem_event) : option sample :=
  match ev with
  | ObserveOutcome o => Some (observe_outcome (outcome_value o))
  | ObserveHotDegraded stage => Some (observe_hot_degraded stage)
  | _ => None
  end.

Definition PrometheusRegistrationObserver (ev : reg_event) : option sample :=
  match ev with
  | CreateProfile _ _ _ => None
  | OperationCompleted => Some operation_completed
  | RetryScheduled error_class => Some (retry_scheduled error_class)
  | OperationBlocked error_class => Some (operation_blocked error_class)
  | LostClaim => Some lost_claim
  | RecoveryBatchClaimed count => Some (recovery_batch_claimed count)
  end.

(** The registry after some samples. *)
Fixpoint record `{Metrics R} (registry : R) (samples : list sample) : res R :=
  match samples with
  | [] => Ok registry
  | s :: samples => registry ← increment registry s; record registry samples
  end.

(** What some samples add to a series. *)
Fixpoint grown (samples : list sample) (name : string) (labels : list (string * string)) : Z :=
  match samples with
  | [] => 0
  | s :: samples => adds s name labels + grown samples name labels
  end.

Lemma record_grows `{MetricsLaws R} (r : R) samples :
  Forall well_labelled samples -> exists r',
    record r samples = Ok r' /\ forall name labels,
      counter_value r' name labels = counter_value r name labels + grown samples name labels.
Proof.
  intros Hs. revert r. induction Hs as [|s samples Hw _ IH]; intros r; cbn.
  { exists r. split; [done|]. intros. lia. }
  destruct (increment_law r s Hw) as (r1 & -> & H1). cbn.
  destruct (IH r1) as (r2 & -> & H2). exists r2. split; [done|].
  intros. rewrite H2, H1. lia.
Qed.

(** ** What a program counts *)

Section counts.
Context {DB Ev : Type} (e : env DB) (observer : Ev -> option sample).

(** The samples of a trace, which has the newest event first. *)
Definition samples_of (trace : list Ev) : list sample := omap observer (rev trace).

Lemma samples_of_app l2 l1 : samples_of (l2 ++ l1) = samples_of l1 ++ samples_of l2.
Proof. unfold samples_of. by rewrite rev_app_distr, omap_app. Qed.

(** [counts m P]: [P] holds of how [m] ends and of the samples it adds. *)
Definition counts {A} (m : M DB Ev A) (P : res A -> list sample -> Prop) : Prop :=
  forall w, exists l, w_trace (m e w).2 = l ++ w_trace w /\ P (m e w).1 (samples_of l).

Lemma counts_weaken {A} (m : M DB Ev A) (P Q : res A -> list sample -> Prop) :
  counts m P -> (forall r k, P r k -> Q r k) -> counts m Q.
Proof. intros Hm HQ w. destruct (Hm w) as (l & Hl & HP). exists l. split; [done|]. by apply HQ. Qed.

Lemma counts_silent {A} (m : M DB Ev A) P : silent e m -> (forall r, P r []) -> counts m P.
Proof. intros Hm HP w. exists []. split; [apply Hm|apply HP]. Qed.

Lemma counts_ret {A} (a : A) P : P (Ok a) [] -> counts (mret a) P.
Proof. intros HP w. by exists []. Qed.

Lemma counts_lift {A} (r : res A) P : P r [] -> counts (lift r) P.
Proof. intros HP w. by exists []. Qed.

Lemma counts_tick {A} (f : env DB -> nat -> A) P : (forall a, P (Ok a) []) -> counts (tick f) P.
Proof. intros HP w. exists []. split; [done|apply HP]. Qed.

Lemma counts_emit ev P : P (Ok tt) (option_list (observer ev)) -> counts (emit ev) P.
Proof. intros HP w. exists [ev]. split; [done|]. cbn. by destruct (observer ev). Qed.

Lemma counts_call {A} (answer : nat -> res A) (ev : res A -> Ev) P :
  (forall r, observer (ev r) = None) -> (forall r, P r []) -> counts (call answer ev) P.
Proof.
  intros Hev HP w. exists [ev (answer (w_tick w))]. split; [done|]. cbn. rewrite Hev. apply HP.
Qed.

Lemma counts_attempt {A} (m : M DB Ev A) P : counts m (fun r => P (Ok r)) -> counts (attempt m) P.
Proof.
  intros Hm w. destruct (Hm w) as (l & Hl & HP). exists l. unfold attempt.
  by destruct (m e w) as [r w'].
Qed.

Lemma counts_bind {A B} (m : M DB Ev A) (f : A -> M DB Ev B) P :
  counts m (fun r k => match r with
                       | Ok a => counts (f a) (fun r' k' => P r' (k ++ k'))
                       | Err x => P (Err x) k
                       end) ->
  counts (m ≫= f) P.
Proof.
  intros Hm w. destruct (Hm w) as (l & Hl & HP). unfold mbind, M_bind.
  destruct (m e w) as [[a|x] w1]; cbn in *; [|by exists l].
  destruct (HP w1) as (l' & Hl' & HP'). exists (l' ++ l).
  rewrite Hl', Hl, samples_of_app. split; [by rewrite app_assoc|done].
Qed.

(** The registry after a run. *)
Lemma counts_recorded `{MetricsLaws R} {A} (m : M DB Ev A) P w (registry : R) :
  counts m P -> (forall r k, P r k -> Forall well_labelled k) ->
  exists l registry', w_trace (m e w).2 = l ++ w_trace w /\
    record registry (samples_of l) = Ok registry' /\ P (m e w).1 (samples_of l) /\
    forall name labels, counter_value registry' name labels =
      counter_value registry name labels + grown (samples_of l) name labels.
Proof.
  intros Hm Hw. destruct (Hm w) as (l & Hl & HP).
  destruct (record_grows registry (samples_of l)) as (registry' & Hr & Hv); [by eapply Hw|].
  by exists l, registry'.
Qed.
End counts.

Lemma counts_transaction {DB Ev} (e : env DB) (observer : Ev -> option sample) {A}
    (body : T DB A) (P : res A -> list sample -> Prop) :
  (forall x, P (Err x) []) ->
  (forall a t t', body e t = (Ok a, t') -> P (Ok a) []) ->
  counts e observer (transaction body) P.
Proof.
  intros Hx Ha w. exists []. split; [apply silent_transaction|]. unfold transaction.
  destruct (body e _) as [[a|x] t'] eqn:Eb; [|apply Hx].
  destruct (commit_fault e _) as [[d applied]|]; [apply Hx|]. by eapply Ha.
Qed.

Ltac count_step :=
  lazymatch goal with
  | |- counts _ _ (mbind _ _) _ => apply counts_bind
  | |- counts _ _ (mret _) _ => apply counts_ret
  | |- counts _ _ (lift _) _ => apply counts_lift
  | |- counts _ _ (tick _) _ => apply counts_tick; intros ?
  | |- counts _ _ get_now _ => apply counts_tick; intros ?
  | |- counts _ _ get_uuid _ => apply counts_tick; intros ?
  | |- counts _ _ get_jitter _ => apply counts_tick; intros ?
  | |- counts _ _ (emit _) _ => apply counts_emit; cbn
  | |- counts _ _ (attempt _) _ => apply counts_attempt
  | |- counts _ _ (call _ _) _ => apply counts_call; [done|intros [?|?]]
  | |- counts _ _ (transaction _) _ => apply counts_transaction; [intros ?|intros ? ? ? ?]
  | |- counts _ _ (if ?b then _ else _) _ => destruct b eqn:?
  | |- counts _ _ (match ?m with _ => _ end) _ => destruct m eqn:?
  end.

(** ** The coordinator *)

(** The stages at which the durable path has to do without the hot store. *)
Definition stages (hot_store : option HotStore) : list string :=
  match hot_store with
  | None => ["disabled"]
  | Some _ => ["begin"; "abandon"; "lease"; "complete"]
  end%string.

(** The sample of the outcome a call returns. *)
Definition outcome_samples (r : res ExecutionResult) : list sample :=
  match r with
  | Ok result => [observe_outcome (outcome_value (er_outcome result))]
  | Err _ => []
  end.

(** At most one degradation, then the outcome, if there is one. *)
Definition coordinated (allowed : list string) (r : res ExecutionResult) (k : list sample) : Prop :=
  exists degraded, (length degraded <= 1)%nat /\ degraded ⊆ allowed /\
    k = map observe_hot_degraded degraded ++ outcome_samples r.

Section coordinator.
Context {DB : Type} `{HasRecords DB} (e : env DB).
Context (retention_seconds : Z) (beats : nat -> nat).
Abbreviation counts_idempotency := (counts e PrometheusIdempotencyObserver).

Lemma heartbeat_counts hs i owner lease n :
  counts_idempotency (heartbeat hs i owner lease n) (fun r k => k = []).
Proof.
  induction n as [|n IH]; cbn [heartbeat]; unfold hot_renew; repeat count_step; try done.
Qed.

Lemma degrade_counts stage (answer : nat -> res bool) ev :
  (forall a, PrometheusIdempotencyObserver (ev a) = None) ->
  counts_idempotency (degrade stage (call answer ev))
    (fun r k => k = [] \/ k = [observe_hot_degraded stage]).
Proof.
  intros Hev. unfold degrade. count_step. count_step. apply counts_call; [done|].
  intros [b|x]; repeat count_step; auto.
Qed.

Lemma coordinated_plain allowed r :
  coordinated allowed r (outcome_samples r).
Proof. exists []. cbn. split; [lia|]. split; [set_solver|done]. Qed.

Lemma coordinated_degraded allowed r stage :
  stage ∈ allowed ->
  coordinated allowed r
    (observe_hot_degraded stage :: outcome_samples r).
Proof. intros Hs. exists [stage]. cbn. split; [lia|]. split; [set_solver|done]. Qed.

Lemma told_counts allowed stage (answer : nat -> res bool) ev (result : res ExecutionResult) :
  stage ∈ allowed -> (forall a, PrometheusIdempotencyObserver (ev a) = None) ->
  counts_idempotency (degrade stage (call answer ev))
    (fun r k => match r with
                | Ok _ => forall k', k' = outcome_samples result -> coordinated allowed result (k ++ k')
                | Err x => coordinated allowed (Err x) k
                end).
Proof.
  intros Hs Hev. eapply counts_weaken; [by apply degrade_counts|].
  intros [[]|x] k [->| ->].
  - intros k' ->. apply coordinated_plain.
  - intros k' ->. by apply coordinated_degraded.
  - apply (coordinated_plain allowed (Err x)).
  - by apply (coordinated_degraded allowed (Err x)).
Qed.

Lemma degraded_counts allowed stage i h op :
  stage ∈ allowed ->
  counts_idempotency (execute_degraded retention_seconds stage i h op) (coordinated allowed).
Proof.
  intros Hs. unfold execute_degraded, observe. repeat count_step.
  apply counts_silent; [apply execute_once_silent|]. intros [result|x]; repeat count_step.
  - by apply (coordinated_degraded allowed (Ok result)).
  - by apply (coordinated_degraded allowed (Err x)).
Qed.

Lemma leased_counts hs i h op owner lease :
  counts_idempotency (execute_leased retention_seconds beats hs i h op owner lease)
    (coordinated (stages (Some hs))).
Proof.
  assert (Ha : "abandon"%string ∈ stages (Some hs)) by set_solver.
  assert (Hc : "complete"%string ∈ stages (Some hs)) by set_solver.
  assert (Hl : "lease"%string ∈ stages (Some hs)) by set_solver.
  unfold execute_leased. do 2 count_step.
  apply counts_silent; [apply execute_once_silent|]. intros outcome.
  do 3 count_step.
  eapply counts_weaken; [apply heartbeat_counts|].
  intros [lost|x] k ->; [|apply (coordinated_plain _ (Err _))]. cbn [app].
  destruct outcome as [result|x]; apply counts_bind.
  - assert (Hret : forall k, (forall k', k' = [observe_outcome (outcome_value (er_outcome result))] ->
        coordinated (stages (Some hs)) (Ok result) (k ++ k')) ->
      counts_idempotency (observe result)
        (fun r k' => coordinated (stages (Some hs)) r (k ++ k'))).
    { intros k Hk. unfold observe. repeat count_step. by apply Hk. }
    unfold hot_complete, hot_abandon. repeat count_step;
      try (eapply counts_weaken; [by apply (told_counts (stages (Some hs)) _ _ _ (Ok result))|];
           intros [[]|?] k Hk; [by apply Hret|exact Hk]).
    apply (Hret [observe_hot_degraded "lease"]). intros ? ->. by apply (coordinated_degraded _ (Ok result)).
  - unfold hot_abandon. repeat count_step; [apply (coordinated_plain _ (Err _))|].
    eapply counts_weaken; [by apply (told_counts (stages (Some hs)) _ _ _ (Err x))|].
    intros [[]|?] k Hk; [|exact Hk]. count_step. by apply Hk.
Qed.

Lemma coordinate_counts hot_store i h op lease :
  counts_idempotency (coordinate retention_seconds beats hot_store i h op lease)
    (coordinated (stages hot_store)).
Proof.
  assert (Hx : forall x : exn, coordinated (stages hot_store) (Err x) [])
    by (intros x; apply (coordinated_plain _ (Err x))).
  assert (Hobs : forall result, counts_idempotency (observe result) (coordinated (stages hot_store))).
  { intros result. unfold observe. repeat count_step. apply (coordinated_plain _ (Ok result)). }
  unfold coordinate. do 2 count_step. destruct (raise_if _ _); [|apply Hx]. cbn [app].
  do 2 count_step. destruct (raise_unless _ _); [|apply Hx].
  destruct hot_store as [hs|]; [|apply degraded_counts; set_solver]. cbn [app].
  do 2 count_step. unfold hot_begin. do 3 count_step; cbn [app]; unfold after_begin.
  - assert (Hnew : forall o c, counts_idempotency
      (result ← lift (ExecutionResult_new o c); observe result) (coordinated (stages (Some hs)))).
    { intros o c. do 2 count_step. destruct (ExecutionResult_new o c); [apply Hobs|apply Hx]. }
    destruct (br_action _); try apply Hnew; [apply leased_counts|].
    count_step. apply counts_silent; [apply find_existing_silent|].
    intros [[result|]|x]; [apply Hobs|apply Hnew|apply Hx].
  - count_step; [|count_step; apply Hx]. apply degraded_counts. set_solver.
Qed.
End coordinator.

(** ** Registrations *)

(** One attempt at an operation: what it counts tells how it ended. *)
Definition resumed (r : res RegistrationResult) (k : list sample) : Prop :=
  match r with
  | Ok result =>
      match rr_outcome result with
      | OUT_COMPLETED => k = [operation_completed]
      | OUT_PENDING => (exists c, k = [retry_scheduled c]) \/ k = [lost_claim]
      end
  | Err _ => k = [] \/ (exists c, k = [operation_blocked c]) \/ k = [lost_claim]
  end.

(** At most one outcome. *)
Definition outcomes_only (bound : nat) (k : list sample) : Prop :=
  (length k <= bound)%nat /\
  Forall (fun s => s ∈ [operation_completed; retry_scheduled ""; operation_blocked ""; lost_claim]) k.

Lemma resumed_outcome r k : resumed r k -> outcomes_only 1 k.
Proof.
  unfold resumed, outcomes_only. intros Hr.
  destruct r as [result|x]; [destruct (rr_outcome result)|]; 
    repeat match goal with H : _ \/ _ |- _ => destruct H | H : ex _ |- _ => destruct H end; subst;
    cbn; (split; [lia|]); repeat constructor; set_solver.
Qed.

Section registration.
Context `{EmailSyntax} `{FloatPow} `{PasswordHasher} `{ProfileProvisioner}.
Context (e : env database) (cfg : reg_config).
Abbreviation counts_registration := (counts e PrometheusRegistrationObserver).

Lemma block_counts op owner error :
  counts_registration (block_operation op owner error)
    (fun r k => match r with
                | Ok _ => k = [operation_blocked (class_name error)] \/ k = [lost_claim]
                | Err _ => k = []
                end).
Proof. unfold block_operation. repeat count_step; auto. Qed.

Lemma block_raise_counts op owner error x :
  counts_registration (block_operation op owner error;; lift (raise x)) resumed.
Proof.
  count_step. eapply counts_weaken; [apply block_counts|].
  intros [[]|y] k Hk; [count_step|]; cbn; rewrite ?app_nil_r; naive_solver.
Qed.

Lemma pending_resumed op now at_ c :
  resumed (Ok (pending_result op now at_)) [retry_scheduled c] /\
  resumed (Ok (pending_result op now at_)) [lost_claim].
Proof. split; cbn; eauto. Qed.

Lemma retry_counts op owner error : counts_registration (retry_or_block cfg op owner error) resumed.
Proof.
  unfold retry_or_block. count_step; [apply block_raise_counts|].
  repeat count_step; cbn; auto.
  destruct (delay_seconds _ _ _) as [delay|x]; [|by left].
  count_step. count_step; [by left|]. 
  match goal with Hb : _ = (Ok _, _) |- _ => unfold mbind, T_bind, t_lift in Hb end.
  destruct (timedelta_seconds delay) as [delta|x]; [|done].
  destruct a1; repeat count_step; cbn; eauto.
Qed.

Lemma finalize_silent op owner : silent (Ev := reg_event) e (finalize cfg op owner).
Proof.
  unfold finalize. repeat (apply silent_bind; [first [apply silent_lift|apply silent_tick]|intros ?]).
  apply silent_transaction.
Qed.

Lemma profile_failed_counts op owner error :
  counts_registration (profile_failed cfg op owner error) resumed.
Proof.
  unfold profile_failed.
  repeat (count_step; [first [apply block_raise_counts|apply retry_counts]|]).
  count_step. by left.
Qed.

Lemma finalization_failed_counts op owner error :
  counts_registration (finalization_failed cfg op owner error) resumed.
Proof.
  unfold finalization_failed. count_step; [repeat count_step; cbn; auto|].
  repeat (count_step; [first [apply block_raise_counts|apply retry_counts]|]).
  count_step. by left.
Qed.

Lemma resume_counts op owner : counts_registration (resume cfg op owner) resumed.
Proof.
  unfold resume, create_profile. do 2 count_step. destruct (raise_if _ _); [|by left]. cbn [app].
  do 3 count_step; cbn [app]; [|apply profile_failed_counts].
  do 2 count_step. apply counts_silent; [apply finalize_silent|].
  intros [user|x]; [|apply finalization_failed_counts]. repeat count_step. done.
Qed.

Lemma process_counts op owner :
  counts_registration (process cfg owner op) (fun _ k => outcomes_only 1 k).
Proof.
  unfold process. do 2 count_step. eapply counts_weaken; [apply resume_counts|].
  intros r k Hk%resumed_outcome. destruct r as [result|x]; repeat count_step; by rewrite app_nil_r.
Qed.

Lemma outcomes_only_nil n : outcomes_only n [].
Proof. split; [cbn; lia|constructor]. Qed.

Lemma outcomes_only_app n m k k' :
  outcomes_only n k -> outcomes_only m k' -> outcomes_only (n + m) (k ++ k').
Proof.
  intros [Hn Hk] [Hm Hk']. split; [rewrite length_app; lia|]. by apply Forall_app.
Qed.

Lemma process_all_counts ops owner :
  counts_registration (process_all cfg owner ops) (fun _ k => outcomes_only (length ops) k).
Proof.
  induction ops as [|op ops IH]; cbn [process_all]; [count_step; apply outcomes_only_nil|].
  count_step. eapply counts_weaken; [apply process_counts|].
  intros [[]|x] k Hk.
  - eapply counts_weaken; [apply IH|]. intros r k' Hk'. by apply (outcomes_only_app 1).
  - rewrite <- (app_nil_r k). apply (outcomes_only_app 1); [done|apply outcomes_only_nil].
Qed.

(** A round: the number of operations claimed, if any, then at most one outcome for
    each of them. *)
Definition round (r : res Z) (k : list sample) : Prop :=
  exists claimed outcomes, 0 <= claimed /\ outcomes_only (Z.to_nat claimed) outcomes /\
    k = (if claimed =? 0 then [] else [recovery_batch_claimed claimed]) ++ outcomes /\
    match r with Ok processed => processed = claimed | Err _ => True end.

Lemma round_idle r : match r with Ok processed => processed = 0 | Err _ => True end -> round r [].
Proof. intros Hr. exists 0, []. split; [done|]. split; [apply outcomes_only_nil|done]. Qed.

Lemma reconcile_counts n : counts_registration (reconcile_once cfg n) round.
Proof.
  unfold reconcile_once. do 2 count_step. destruct (raise_if _ _); [|by apply round_idle]. cbn [app].
  repeat (lazymatch goal with |- counts _ _ (match _ with _ => _ end) _ => fail | _ => count_step end).
  { by apply round_idle. }
  cbn [app]. destruct a2 as [|op ops]; [count_step; by apply round_idle|].
  set (claimed := op :: ops).
  assert (Hround : forall r k, outcomes_only (length claimed) k ->
    match r with Ok processed => processed = Z.of_nat (length claimed) | Err _ => True end ->
    round r (recovery_batch_claimed (Z.of_nat (length claimed)) :: k)).
  { intros r k Hk Hr. exists (Z.of_nat (length claimed)), k. split; [lia|]. by rewrite Nat2Z.id. }
  clearbody claimed. do 3 count_step. cbn [app]. eapply counts_weaken; [apply process_all_counts|].
  intros [[]|x] k Hk; [count_step; rewrite app_nil_r|]; by apply Hround.
Qed.

(** An attempt was made and counted, or none was. *)
Definition registered (r : res RegistrationResult) (k : list sample) : Prop :=
  resumed r k \/ k = [].

Lemma resume_existing_counts op email password :
  counts_registration (resume_existing cfg op email password) registered.
Proof.
  assert (Hn : forall r, registered r []) by (by right).
  unfold resume_existing, registered.
  repeat (lazymatch goal with
          | |- counts _ _ (resume _ _ _) _ =>
              eapply counts_weaken; [apply resume_counts|by left]
          | |- counts _ _ _ _ => count_step
          | |- context [match ?m with Ok _ => _ | Err _ => _ end] => destruct m
          end; cbn [app]; auto).
Qed.

Lemma register_counts email password key_hash :
  counts_registration (register cfg email password key_hash) registered.
Proof.
  assert (Hn : forall r, registered r []) by (by right).
  assert (Hl : forall P, (forall r, P r []) -> counts_registration (load_by_key key_hash) P).
  { intros P HP. apply counts_silent; [apply silent_transaction|done]. }
  unfold register.
  repeat (lazymatch goal with
          | |- counts _ _ (resume _ _ _) _ =>
              eapply counts_weaken; [apply resume_counts|by left]
          | |- counts _ _ (resume_existing _ _ _ _) _ => apply resume_existing_counts
          | |- counts _ _ (load_by_key _) _ => apply Hl; intros [?|?]
          | |- counts _ _ _ _ => count_step
          | |- context [match ?m with Ok _ => _ | Err _ => _ end] => destruct m
          end; cbn [app]; auto).
Qed.
End registration.

(** ** What the counters say *)

(** The series a sample may belong to. *)
Definition idempotency_series (hot_store : option HotStore) (name : string)
    (labels : list (string * string)) : Prop :=
  (name = ct_name IDEMPOTENCY_OUTCOMES /\ exists o, labels = [("outcome"%string, outcome_value o)]) \/
  (name = ct_name HOT_DEGRADED /\ exists stage, stage ∈ stages hot_store /\
     labels = [("stage"%string, stage)]).

Lemma coordinated_labelled allowed r k : coordinated allowed r k -> Forall well_labelled k.
Proof.
  intros (degraded & _ & _ & ->). apply Forall_app. split.
  - apply Forall_fmap, Forall_true. by split.
  - destruct r; repeat constructor; done.
Qed.

Lemma grown_app k k' name labels :
  grown (k ++ k') name labels = grown k name labels + grown k' name labels.
Proof. induction k as [|s k IH]; cbn; lia. Qed.

(** One call of the idempotency coordinator: its samples fit their counters, the
    outcome counter grows by exactly one under the outcome returned and not at all when
    the call raises, at most one degradation is counted, under one of the stages of the
    store's configuration, and no other series changes.  So both counters keep a fixed
    number of series. *)
Theorem coordinator_metrics `{MetricsLaws R} {DB} `{HasRecords DB} (e : env DB)
    retention_seconds beats hot_store i h op lease (w : world DB idem_event) (registry : R) :
  let '(r, w') := coordinate retention_seconds beats hot_store i h op lease e w in
  exists l registry' degraded,
    w_trace w' = l ++ w_trace w /\
    record registry (samples_of PrometheusIdempotencyObserver l) = Ok registry' /\
    (length degraded <= 1)%nat /\ degraded ⊆ stages hot_store /\
    (forall o, counter_value registry' (ct_name IDEMPOTENCY_OUTCOMES) [("outcome"%string, outcome_value o)] =
       counter_value registry (ct_name IDEMPOTENCY_OUTCOMES) [("outcome"%string, outcome_value o)] +
       match r with Ok result => if decide (er_outcome result = o) then 1 else 0 | Err _ => 0 end) /\
    (forall stage, counter_value registry' (ct_name HOT_DEGRADED) [("stage"%string, stage)] =
       counter_value registry (ct_name HOT_DEGRADED) [("stage"%string, stage)] +
       if decide (stage ∈ degraded) then 1 else 0) /\
    (forall name labels, ~ idempotency_series hot_store name labels ->
       counter_value registry' name labels = counter_value registry name labels).
Proof.
  destruct (counts_recorded e _ _ _ w registry
    (coordinate_counts e retention_seconds beats hot_store i h op lease)
    (coordinated_labelled _)) as (l & registry' & Hl & Hr & Hk & Hv).
  destruct (coordinate _ _ _ _ _ _ _ e w) as [r w']. cbn [fst snd] in *.
  destruct Hk as (degraded & Hlen & Hsub & Hk). exists l, registry', degraded.
  do 4 (split; [done|]). rewrite Hk in Hv. unfold idempotency_series.
  assert (Hd : degraded = [] \/ exists s, degraded = [s]).
  { destruct degraded as [|s [|]]; cbn in Hlen; [by left|by right; exists s|lia]. }
  split; [|split].
  - intros o. rewrite Hv, grown_app. f_equal. destruct Hd as [->|[s ->]]; cbn; unfold adds; cbn.
    all: destruct r as [result|x]; cbn; [|done]; unfold adds; cbn.
    all: by destruct (er_outcome result), o.
  - intros stage. rewrite Hv, grown_app. f_equal.
    assert (Ho : grown (outcome_samples r) (ct_name HOT_DEGRADED) [("stage"%string, stage)] = 0) by (by destruct r).
    rewrite Ho, Z.add_0_r. destruct Hd as [->|[s ->]]; cbn; [done|]. unfold adds; cbn.
    repeat case_decide; set_solver.
  - intros name labels Hn. rewrite Hv, grown_app.
    assert (Ha : forall s, (name = ct_name (sm_counter s) /\ labels = sm_labels s -> False) ->
      adds s name labels = 0) by (intros s Hs; unfold adds; by case_decide).
    assert (Ho : grown (outcome_samples r) name labels = 0).
    { destruct r; cbn; [|done]. rewrite Ha; [done|]. intros [-> ->]. apply Hn. left. eauto. }
    assert (Hg : grown (map observe_hot_degraded degraded) name labels = 0).
    { destruct Hd as [->|[s ->]]; cbn; [done|]. rewrite Ha; [done|]. intros [-> ->]. apply Hn.
      right. split; [done|]. exists s. set_solver. }
    lia.
Qed.

Definition OUTCOMES : list string := ["completed"; "retry_scheduled"; "blocked"; "lost_claim"]%string.

Definition registration_series (name : string) (labels : list (string * string)) : Prop :=
  (name = ct_name REGISTRATION_OUTCOMES /\ exists o, o ∈ OUTCOMES /\ labels = [("outcome"%string, o)]) \/
  (name = ct_name RECOVERY_BATCHED /\ labels = []).

(** What some samples add to the four outcomes. *)
Definition outcome_counts (k : list sample) : list Z :=
  map (fun o => grown k (ct_name REGISTRATION_OUTCOMES) [("outcome"%string, o)]) OUTCOMES.

(** By how much the outcomes, and the operations claimed, have grown. *)
Definition outcome_growth `{Metrics R} (before after : R) : list Z :=
  map (fun o => counter_value after (ct_name REGISTRATION_OUTCOMES) [("outcome"%string, o)] -
                counter_value before (ct_name REGISTRATION_OUTCOMES) [("outcome"%string, o)]) OUTCOMES.
Definition claimed_growth `{Metrics R} (before after : R) : Z :=
  counter_value after (ct_name RECOVERY_BATCHED) [] - counter_value before (ct_name RECOVERY_BATCHED) [].

Definition total (l : list Z) : Z := foldr Z.add 0 l.

(** The growth of completed, retry_scheduled, blocked and lost_claim after one attempt. *)
Definition attempt_growth (r : res RegistrationResult) (g : list Z) : Prop :=
  match r with
  | Ok result =>
      match rr_outcome result with
      | OUT_COMPLETED => g = [1; 0; 0; 0]
      | OUT_PENDING => g ∈ [[0; 1; 0; 0]; [0; 0; 0; 1]]
      end
  | Err _ => g ∈ [[0; 0; 0; 0]; [0; 0; 1; 0]; [0; 0; 0; 1]]
  end.

(** A run from [w] to [w'] is counted: no sample is refused, only the registration
    series change, and [P] holds of the growth of the outcomes and of the claims. *)
Definition exported `{Metrics R} (w w' : world database reg_event) (registry : R)
    (P : list Z -> Z -> Prop) : Prop :=
  exists l registry', w_trace w' = l ++ w_trace w /\
    record registry (samples_of PrometheusRegistrationObserver l) = Ok registry' /\
    P (outcome_growth registry registry') (claimed_growth registry registry') /\
    forall name labels, ~ registration_series name labels ->
      counter_value registry' name labels = counter_value registry name labels.

(** Samples of the two registration counters. *)
Definition registration_sample (s : sample) : Prop :=
  s ∈ [operation_completed; retry_scheduled ""; operation_blocked ""; lost_claim] \/
  exists n, 0 <= n /\ s = recovery_batch_claimed n.

Lemma registration_sample_ok s : registration_sample s ->
  well_labelled s /\ registration_series (ct_name (sm_counter s)) (sm_labels s).
Proof.
  unfold registration_series. intros [Hs|(n & Hn & ->)].
  - split; [|left]; repeat (apply elem_of_cons in Hs as [->|Hs]);
      try (by apply not_elem_of_nil in Hs); try by split.
    all: split; [done|]; eexists; split; [|reflexivity]; unfold OUTCOMES; set_solver.
  - split; [by split|by right].
Qed.

Lemma registration_grown_other k name labels :
  Forall registration_sample k -> ~ registration_series name labels -> grown k name labels = 0.
Proof.
  intros Hk Hn. induction Hk as [|s k Hs _ IH]; [done|]. cbn. rewrite IH. unfold adds.
  case_decide as Hd; [|done]. destruct Hd as [-> ->]. by apply registration_sample_ok in Hs as [_ ?].
Qed.

Lemma outcomes_only_sample n k : outcomes_only n k -> Forall registration_sample k.
Proof. intros [_ Hk]. eapply Forall_impl; [|exact Hk]. by left. Qed.

Lemma outcomes_only_counts n k : outcomes_only n k ->
  Forall (Z.le 0) (outcome_counts k) /\ total (outcome_counts k) = Z.of_nat (length k) /\
  grown k (ct_name RECOVERY_BATCHED) [] = 0.
Proof.
  intros [_ Hk]. induction Hk as [|s k Hs _ (Hp & Ht & Hc)]; [by repeat constructor|].
  unfold outcome_counts, OUTCOMES, total in *. cbn [map foldr grown length] in *.
  repeat match goal with H : Forall _ (_ :: _) |- _ => apply Forall_cons_iff in H as [? H] end.
  assert (Hg : Forall (Z.le 0) (outcome_counts [s]) /\ total (outcome_counts [s]) = 1 /\
    adds s (ct_name RECOVERY_BATCHED) [] = 0).
  { repeat (apply elem_of_cons in Hs as [->|Hs]); [..|by apply not_elem_of_nil in Hs];
      (split; [repeat constructor; done|done]). }
  unfold outcome_counts, OUTCOMES, total in Hg. cbn [map foldr grown] in Hg.
  destruct Hg as (Hg & ? & ?).
  repeat match goal with H : Forall _ (_ :: _) |- _ => apply Forall_cons_iff in H as [? H] end.
  split; [repeat (constructor; [lia|]); constructor|]. split; lia.
Qed.

Lemma counts_exported `{MetricsLaws R} {A} (e : env database) (m : RM A) P w (registry : R) :
  counts e PrometheusRegistrationObserver m P -> (forall r k, P r k -> Forall registration_sample k) ->
  exported w (m e w).2 registry (fun g c => exists k, P (m e w).1 k /\ g = outcome_counts k /\
    c = grown k (ct_name RECOVERY_BATCHED) []).
Proof.
  intros Hm HP. destruct (counts_recorded e _ m P w registry Hm) as (l & registry' & Hl & Hr & Hk & Hv).
  { intros r k Hk%HP. eapply Forall_impl; [|exact Hk]. by intros s [? _]%registration_sample_ok. }
  exists l, registry'. split; [done|]. split; [done|]. split.
  - eexists. split; [exact Hk|]. unfold outcome_growth, claimed_growth, outcome_counts.
    split; [apply map_ext; intros o|]; rewrite Hv; lia.
  - intros name labels Hn. rewrite Hv, (registration_grown_other _ name labels); [lia| |done].
    by eapply HP.
Qed.

Lemma exported_weaken `{Metrics R} w w' (registry : R) (P Q : list Z -> Z -> Prop) :
  exported w w' registry P -> (forall g c, P g c -> Q g c) -> exported w w' registry Q.
Proof. intros (l & registry' & ? & ? & ? & ?) HQ. exists l, registry'. auto. Qed.

Lemma resumed_growth r k : resumed r k ->
  attempt_growth r (outcome_counts k) /\ grown k (ct_name RECOVERY_BATCHED) [] = 0.
Proof.
  unfold resumed, attempt_growth. intros Hr.
  destruct r as [result|x]; [destruct (rr_outcome result)|];
    repeat match goal with H : _ \/ _ |- _ => destruct H | H : ex _ |- _ => destruct H end; subst;
    (split; [cbn; set_solver|done]).
Qed.

Lemma resumed_sample r k : resumed r k -> Forall registration_sample k.
Proof. intros Hr. eapply outcomes_only_sample, resumed_outcome, Hr. Qed.

Lemma round_sample r k : round r k -> Forall registration_sample k.
Proof.
  intros (claimed & outcomes & Hc & Ho%outcomes_only_sample & -> & _). apply Forall_app. split; [|done].
  destruct (claimed =? 0); [constructor|]. apply Forall_singleton. right. by exists claimed.
Qed.

Lemma round_growth r k : round r k ->
  Forall (Z.le 0) (outcome_counts k) /\
  total (outcome_counts k) <= grown k (ct_name RECOVERY_BATCHED) [] /\
  forall processed, r = Ok processed -> processed = grown k (ct_name RECOVERY_BATCHED) [].
Proof.
  intros (claimed & outcomes & Hc & Ho & -> & Hr). pose proof Ho as [Hlen _].
  apply outcomes_only_counts in Ho as (Hp & Ht & Hg).
  assert (He : outcome_counts ((if claimed =? 0 then [] else [recovery_batch_claimed claimed]) ++ outcomes)
    = outcome_counts outcomes).
  { unfold outcome_counts. apply map_ext. intros o. rewrite grown_app. by destruct (claimed =? 0). }
  rewrite He, grown_app, Hg, Ht.
  assert (grown (if claimed =? 0 then [] else [recovery_batch_claimed claimed])
    (ct_name RECOVERY_BATCHED) [] = claimed) as ->.
  { destruct (Z.eqb_spec claimed 0) as [->|]; [done|]. cbn. unfold adds.
    rewrite decide_True by done. cbn. lia. }
  split; [done|]. split; [lia|]. intros processed ->. lia.
Qed.

(** C28. What the registration counters say.  An attempt at an operation counts exactly
    one outcome when it returns, "completed" if and only if it returned a completed
    registration; when it raises it counts at most one, "blocked" or "lost_claim".  A
    registration request counts an attempt or nothing.  A recovery round adds to the
    claimed counter the number of operations it returns, and at most one outcome for
    each of them.  No sample is refused and no other series changes, so the counters
    keep five series whatever the errors were. *)
Theorem registration_metrics `{EmailSyntax} `{FloatPow} `{PasswordHasher} `{ProfileProvisioner}
    `{MetricsLaws R} (e : env database) cfg (w : world database reg_event) (registry : R)
    op owner email password key_hash batch_size :
  (let '(r, w') := resume cfg op owner e w in
   exported w w' registry (fun g claimed => attempt_growth r g /\ claimed = 0)) /\
  (let '(r, w') := register cfg email password key_hash e w in
   exported w w' registry (fun g claimed =>
     (attempt_growth r g \/ g = [0; 0; 0; 0]) /\ claimed = 0)) /\
  (let '(r, w') := reconcile_once cfg batch_size e w in
   exported w w' registry (fun g claimed =>
     Forall (Z.le 0) g /\ total g <= claimed /\
     forall processed, r = Ok processed -> processed = claimed)).
Proof.
  split; [|split].
  - pose proof (counts_exported e _ _ w registry (resume_counts e cfg op owner) resumed_sample) as Hx.
    destruct (resume _ _ _ _ _) as [r w']. eapply exported_weaken; [exact Hx|].
    intros g c (k & Hk%resumed_growth & -> & ->). done.
  - pose proof (counts_exported e _ _ w registry
      (register_counts e cfg email password key_hash)) as Hx.
    destruct (register _ _ _ _ _ _) as [r w']. eapply exported_weaken; [apply Hx|].
    { intros r' k [Hk%resumed_sample| ->]; [done|constructor]. }
    intros g c (k & [Hk%resumed_growth| ->] & -> & ->); [|by split; [right|]].
    destruct Hk. split; [by left|done].
  - pose proof (counts_exported e _ _ w registry (reconcile_counts e cfg batch_size) round_sample) as Hx.
    destruct (reconcile_once _ _ _ _) as [r w']. eapply exported_weaken; [exact Hx|].
    intros g c (k & Hk%round_growth & -> & ->). done.
Qed.

(** ** A registry *)

#[local] Instance demo_metrics : Metrics (gmap (string * list (string * string)) Z) := {|
  increment r s :=
    if decide ((sm_labels s).*1 = ct_labelnames (sm_counter s) /\ 0 <= sm_amount s) then
      let series := (ct_name (sm_counter s), sm_labels s) in
      Ok (<[series := default 0 (r !! series) + sm_amount s]> r)
    else Err EValueError;
  counter_value r name labels := default 0 (r !! (name, labels))
|}.

#[local] Instance demo_metrics_laws : MetricsLaws (gmap (string * list (string * string)) Z).
Proof.
  intros r s Hs. cbn. rewrite decide_True by exact Hs. eexists. split; [reflexivity|].
  intros name labels. unfold adds. case_decide as Hd.
  - destruct Hd as [-> ->]. by rewrite lookup_insert_eq.
  - rewrite lookup_insert_ne by (intros [=]; by apply Hd). lia.
Qed.

Lemma coordinator_metrics_witness :
  let registry : gmap (string * list (string * string)) Z := ∅ in
  exists registry' : gmap (string * list (string * string)) Z,
    counter_value registry' "identity_idempotency_outcomes_total" [("outcome", "EXECUTED")]%string = 1 /\
    counter_value registry' "identity_idempotency_outcomes_total" [("outcome", "REPLAY")]%string = 0.
Proof.
  pose proof (coordinator_metrics demo_quiet_env 3600 (fun _ => 2%nat) (Some granting)
    demo_identity demo_request demo_add 30 demo_coordinated
    (∅ : gmap (string * list (string * string)) Z)) as Hx.
  change (coordinate 3600 (fun _ => 2%nat) (Some granting) demo_identity demo_request demo_add
    30 demo_quiet_env demo_coordinated) with Coordinator.demo_run in Hx.
  assert (Hr : match Coordinator.demo_run.1 with Ok r => er_outcome r = EXECUTED | Err _ => False end)
    by (vm_compute; reflexivity).
  destruct Coordinator.demo_run as [[r|x] w']; [|done]. cbn in Hr.
  destruct Hx as (l & registry' & d & _ & _ & _ & _ & Ho & _). exists registry'.
  pose proof (Ho EXECUTED) as He. pose proof (Ho REPLAY) as Hp. rewrite Hr in He, Hp.
  split; [exact He|exact Hp].
Defined.

Section demo.
#[local] Existing Instance demo_email_syntax.
#[local] Existing Instance demo_profiles.

Lemma registration_metrics_witness :
  rr_outcome <$> match RegisterFlow.demo_run.1 with Ok r => Some r | Err _ => None end = Some OUT_COMPLETED /\
  exported start_world RegisterFlow.demo_run.2 (∅ : gmap (string * list (string * string)) Z)
    (fun g claimed => (g = [1; 0; 0; 0] \/ g = [0; 0; 0; 0]) /\ claimed = 0).
Proof.
  split; [vm_compute; reflexivity|].
  pose proof (registration_metrics (quiet_env database) demo_config start_world
    (∅ : gmap (string * list (string * string)) Z) RegisterFlow.demo_stored 7 "ann@x" "password"
    (demo_hash x01) 10) as (_ & Hx & _).
  assert (Hr : match RegisterFlow.demo_run.1 with Ok r => rr_outcome r = OUT_COMPLETED | Err _ => False end)
    by (vm_compute; reflexivity).
  change (register demo_config "ann@x" "password" (demo_hash x01) (quiet_env database) start_world)
    with RegisterFlow.demo_run in Hx.
  destruct RegisterFlow.demo_run as [[r|x] w']; [|done]. cbn [fst snd] in *.
  eapply exported_weaken; [exact Hx|]. intros g c [Hg ->]. cbn in Hg. rewrite Hr in Hg. done.
Defined.
End demo.
