(* ===== verification/ProfileFirst.v ===== *)
(** * The profile comes first

    What the registration handlers do to the database and to the trace of their calls,
    as a list of the changes a property has to survive ([registration_closed]), and
    the ordering that matters across the two services: no registration is completed,
    and no user exists, before the profile service has acknowledged that user. *)

From S2P Require Import Prelude Exceptions Domain Retry Text Sql Registration Outbox.
From S2P Require Import Effects Invariants Accounts Database RegisterFlow Reconciler.

(** The profile service acknowledged the profile of this operation's user. *)
Definition profile_made (trace : list reg_event) (r : RegistrationOperation) : Prop :=
  CreateProfile (ro_user_id r) (ro_created_at r) (Ok tt) ∈ trace.

Lemma profile_made_cons ev trace r : profile_made trace r -> profile_made (ev :: trace) r.
Proof. by right. Qed.

Lemma profile_made_same trace op r :
  same_request op r -> profile_made trace op -> profile_made trace r.
Proof.
  intros (_ & Hu & _ & _ & Hc) Hp. unfold profile_made in *. by rewrite Hu, Hc.
Qed.

(** [t'] completes only what [t] had completed and what [made] allows. *)
Definition completes_only (made : RegistrationOperation -> Prop) (t t' : reg_table) : Prop :=
  forall i r, t' !! i = Some r -> ro_status r = REG_COMPLETED -> t !! i = Some r \/ made r.

(** A property of the trace and the database that registering may not break: the
    environment, calls and the statements of the handlers keep it. *)
Record registration_closed `{EmailSyntax} (e : env database)
    (K : list reg_event -> database -> Prop) : Prop := {
  gc_others : stable e K;
  gc_event : forall ev tr db, K tr db -> K (ev :: tr) db;
  gc_table : forall tr db, K tr db -> reg_table_ok (registrations db);
  gc_evolves : forall tr n l db, K tr db ->
    evolves (registrations db) (registrations (others e n l db));
  gc_registrations : forall tr db t', K tr db -> reg_step (registrations db) t' ->
    completes_only (profile_made tr) (registrations db) t' -> K tr (with_registrations t' db);
  gc_users : forall tr db u o t', K tr db -> User_validate u = Ok u ->
    create_if_absent u (users db) = Ok (o, t') -> K tr (with_users t' db);
  gc_outbox : forall tr db i m, K tr db -> outbox db !! i = None ->
    om_status m = OB_PENDING -> K tr (with_outbox (<[i := m]> (outbox db)) db)
}.

(** With some operations known to be stored. *)
Definition pinned (ops : list RegistrationOperation) (K : list reg_event -> database -> Prop)
    (tr : list reg_event) (db : database) : Prop :=
  K tr db /\ forall op, op ∈ ops -> stored op db.

Lemma stored_evolves op db db' :
  evolves (registrations db) (registrations db') -> stored op db -> stored op db'.
Proof.
  intros Hr (r & Hi & Hs). destruct (Hr _ _ Hi) as (r' & Hi' & Hs' & _).
  exists r'. eauto with identity.
Qed.

Lemma pinned_closed `{EmailLaws} e ops K :
  registration_closed e K -> registration_closed e (pinned ops K).
Proof.
  intros HK. split.
  - intros tr n l db [Hk Hops]. split; [by apply (gc_others _ _ HK)|]. intros op Hop.
    eapply stored_evolves; [by eapply (gc_evolves _ _ HK)|by apply Hops].
  - intros ev tr db [Hk Hops]. split; [by apply (gc_event _ _ HK)|done].
  - intros tr db [Hk _]. by eapply (gc_table _ _ HK).
  - intros tr n l db [Hk _]. by eapply (gc_evolves _ _ HK).
  - intros tr db t' [Hk Hops] Hs Hc. split; [by apply (gc_registrations _ _ HK)|].
    intros op Hop. eapply stored_evolves; [|by apply Hops].
    by apply (reg_step_ok (registrations db) t'), Hs; eapply (gc_table _ _ HK).
  - intros tr db u o t' [Hk Hops] Hv Hcr. split; [|done].
    exact (gc_users _ _ HK tr db u o t' Hk Hv Hcr).
  - intros tr db i m [Hk Hops] Hn Hst. split; [by apply (gc_outbox _ _ HK)|done].
Qed.

(** ** Walking through the handlers *)

Section handlers.
Context `{EmailLaws} `{FloatPow} `{PasswordHasher} `{ProfileProvisioner}.
Context (cfg : reg_config) (e : env database) (He : good_env e).

Lemma good_clocks : aware_clocks e.
Proof. split; apply He. Qed.

Section closed.
Context (K : list reg_event -> database -> Prop) (HK : registration_closed e K).

Local Abbreviation keep := (keeps e K).

Lemma reg_emit ev : keep (emit ev).
Proof. apply keeps_emit, HK. Qed.

Lemma reg_statement {A} (f : datetime -> gset Z -> reg_table -> res (A * reg_table)) :
  completes_nothing f -> t_keeps e K (on_registrations f).
Proof.
  intros Hf. apply t_keeps_stmt; [apply HK|]. intros now lk tr db a db' Hn Hk Hs.
  destruct (f now lk (registrations db)) as [[b t]|] eqn:E; [|done]. injection Hs as <- <-.
  destruct (Hf _ _ _ _ _ Hn (gc_table _ _ HK _ _ Hk) E) as [Hstep Hc].
  apply (gc_registrations _ _ HK); [done..|]. intros i r Hi Hs. left. by apply Hc.
Qed.

Lemma block_safe op owner error : keep (block_operation op owner error).
Proof.
  unfold block_operation. pose proof good_clocks as Hclk. keep_step. keep_step.
  - keep_step. by apply reg_statement, block_completes_nothing.
  - case_match; apply reg_emit.
Qed.

Lemma retry_safe op owner error : keep (retry_or_block cfg op owner error).
Proof.
  unfold retry_or_block. pose proof good_clocks as Hclk.
  repeat keep_step; try apply reg_emit; try apply block_safe.
  by apply reg_statement, retry_completes_nothing.
Qed.

Lemma block_raise_safe {A} op owner error x :
  keep (block_operation op owner error;; lift (raise x) : RM A).
Proof. keep_step; [apply block_safe|apply keeps_lift]. Qed.

Lemma profile_failed_safe op owner error : keep (profile_failed cfg op owner error).
Proof.
  unfold profile_failed.
  repeat case_step; first [apply block_raise_safe|apply retry_safe|apply keeps_lift].
Qed.

Lemma finalization_failed_safe op owner error : keep (finalization_failed cfg op owner error).
Proof.
  unfold finalization_failed. pose proof good_clocks as Hclk.
  repeat case_step; first [apply block_raise_safe|apply retry_safe|idtac|apply keeps_lift].
  all: repeat keep_step; apply reg_emit.
Qed.

(** The transaction that completes [op], once its profile is made. *)
Lemma finalize_body_safe op owner at_ h user tr :
  (forall tr db, K tr db -> stored op db) -> profile_made tr op -> is_aware at_ = true ->
  User_validate (new_user op h) = Ok user ->
  t_keeps e (fun _ : list reg_event => K tr) (finalize_body cfg op owner at_ user).
Proof.
  intros Hst Hmade Ha Hv. assert (Ho : stable e (fun _ : list reg_event => K tr)).
  { intros _ n l db. apply (gc_others _ _ HK). }
  unfold finalize_body. keep_step.
  { apply t_keeps_stmt; [done|]. intros now lk _ db b db' Hn Hk Hs.
    destruct (complete _ _ _ _ _) as [[b' t]|] eqn:E; [|done]. injection Hs as <- <-.
    pose proof (gc_table _ _ HK _ _ Hk) as Hok.
    apply (gc_registrations _ _ HK); [done|by_step rs_complete|].
    apply update_one_inv in E as [(-> & r & Hi & _ & _ & ->)|[-> ->]]; [| |apply Hok].
    - intros i x [[<- <-]|[_ Hx]]%lookup_insert_Some Hxs; [right|by left].
      destruct (Hst _ _ Hk) as (r' & Hi' & Hreq). rewrite Hi in Hi'. injection Hi' as <-.
      eapply profile_made_same; [|exact Hmade]. by eapply same_request_trans; [exact Hreq|].
    - intros i x Hx _. by left. }
  keep_step; [by repeat keep_step|]. keep_step.
  { apply t_keeps_stmt; [done|]. intros now lk _ db o db' Hn Hk Hs.
    destruct (create_if_absent _ _) as [[o' t]|] eqn:E; [|done]. injection Hs as <- <-.
    destruct (stored_email op _ (gc_table _ _ HK _ _ Hk) (Hst _ _ Hk)).
    assert (user = new_user op h) as -> by by apply new_user_valid in Hv.
    by eapply (gc_users _ _ HK). }
  keep_step; [|keep_step]. keep_step; [keep_step|]. keep_step; [keep_step|].
  keep_step; [|keep_step]. apply t_keeps_stmt; [done|]. intros now lk _ db b db' Hn Hk Hs.
  cbn in Hs. destruct (publish _ _ _ _) as [t|] eqn:E; [|done]. injection Hs as <- <-.
  apply publish_ok in E as [Hfree ->]. by apply (gc_outbox _ _ HK).
Qed.

Lemma finalize_safe op owner w :
  (forall tr db, K tr db -> stored op db) -> profile_made (w_trace w) op ->
  K (w_trace w) (w_db w) ->
  let w' := (finalize cfg op owner e w).2 in
  w_trace w' = w_trace w /\ K (w_trace w') (w_db w').
Proof.
  intros Hst Hmade Hk. cbv zeta. unfold finalize, get_now, tick, lift, mbind, M_bind.
  destruct (ro_password_hash op) as [h|]; cbn; [|done].
  destruct (User_validate _) as [user|] eqn:Hv; [|done].
  set (w1 := {| w_db := w_db w; w_tick := _; w_trace := _ |}). set (body := finalize_body _ _ _ _ _).
  assert (Ht : w_trace (transaction (Ev := reg_event) body e w1).2 = w_trace w)
    by apply (silent_transaction e body w1).
  split; [exact Ht|]. rewrite Ht.
  refine (keeps_transaction e (fun _ : list reg_event => K (w_trace w)) body good_clocks _ w1 Hk).
  by eapply finalize_body_safe; [..|apply He|exact Hv].
Qed.

Lemma resume_safe op owner :
  (forall tr db, K tr db -> stored op db) -> keep (resume cfg op owner).
Proof.
  intros Hst w Hk. unfold resume, create_profile, lift, attempt, call, mbind, M_bind.
  destruct (raise_if _ _); [|done]. cbn [fst snd].
  set (w1 := {| w_db := w_db w; w_tick := _; w_trace := _ |}).
  assert (Hk1 : K (w_trace w1) (w_db w1)) by by apply (gc_event _ _ HK).
  destruct (create_profile_answer _ _ _) as [[]|error] eqn:Ea.
  2: by apply profile_failed_safe.
  destruct (finalize_safe op owner w1 Hst ltac:(by left) Hk1) as [_ Hk2].
  destruct (finalize cfg op owner e w1) as [[user|error] w2].
  - by apply (gc_event _ _ HK).
  - by apply finalization_failed_safe.
Qed.

Lemma process_safe op owner :
  (forall tr db, K tr db -> stored op db) -> keep (process cfg owner op).
Proof. intros Hst. unfold process. repeat keep_step. by apply resume_safe. Qed.

Lemma process_all_safe owner ops :
  (forall op tr db, op ∈ ops -> K tr db -> stored op db) -> keep (process_all cfg owner ops).
Proof.
  induction ops as [|op ops IH]; intros Hst; [apply keeps_ret|]. cbn [process_all].
  keep_step; [apply process_safe|apply IH]; set_solver.
Qed.
End closed.

(** ** The entry points

    What a program does once it has read some operation rests on the operation being
    stored, which the logic of [RegisterFlow] proves. *)

Section entry_points.
Context (K : list reg_event -> database -> Prop) (HK : registration_closed e K).

(** From a consistent database with [P], [m] keeps [K]. *)
Definition safe_from {A} (P : database -> Prop) (m : RM A) : Prop :=
  forall w, consistent Settled (w_db w) -> P (w_db w) -> K (w_trace w) (w_db w) ->
    K (w_trace (m e w).2) (w_db (m e w).2).

Lemma safe_keep {A} P (m : RM A) : keeps e K m -> safe_from P m.
Proof. intros Hm w _ _. apply Hm. Qed.

Lemma safe_bind {A B} P (m : RM A) (f : A -> RM B) R :
  (forall d0, hspec e d0 P m R) -> safe_from P m -> (forall a, safe_from (R a) (f a)) ->
  safe_from P (m ≫= f).
Proof.
  intros Hm Hk Hf w Hc Hp Hw. specialize (Hk w Hc Hp Hw).
  assert (Hrun : running (w_db w) (w_db w)) by (split; [done|auto with identity]).
  specialize (Hm (w_db w) w (conj Hrun Hp)). unfold mbind, M_bind.
  destruct (m e w) as [[a|x] w1]; [|done]. destruct Hm as [[Hc1 _] Hr]. by apply Hf.
Qed.

Lemma safe_pure {A} (phi : Prop) P (m : RM A) :
  (phi -> safe_from P m) -> safe_from (fun db => phi /\ P db) m.
Proof. intros Hm w Hc [Hphi Hp]. by apply Hm. Qed.

(** Effects that touch no table. *)
Lemma safe_lift {A B} P (r : res A) (f : A -> RM B) :
  (forall a, r = Ok a -> safe_from P (f a)) -> safe_from P (lift r ≫= f).
Proof.
  intros Hf. apply safe_bind with (R := fun a db => r = Ok a /\ P db).
  - intros d0. apply h_lift.
  - apply safe_keep, keeps_lift.
  - intros a. by apply safe_pure, Hf.
Qed.

Lemma safe_tick {A B} P (g : env database -> nat -> A) (f : A -> RM B) :
  (forall a, safe_from P (f a)) -> safe_from P (tick g ≫= f).
Proof.
  intros Hf. apply safe_bind with (R := fun _ => P); [intros d0; apply h_tick| |done].
  apply safe_keep, keeps_tick.
Qed.

Lemma safe_now {B} P (f : datetime -> RM B) :
  (forall a, is_aware a = true -> safe_from P (f a)) -> safe_from P (get_now ≫= f).
Proof.
  intros Hf. apply safe_bind with (R := fun a db => is_aware a = true /\ P db).
  - intros d0. by apply h_now.
  - apply safe_keep, keeps_tick.
  - intros a. by apply safe_pure, Hf.
Qed.

(** Operations that are stored stay so while the program runs. *)
Lemma safe_pinned {A} ops P (m : RM A) :
  (forall db, P db -> forall op, op ∈ ops -> stored op db) -> keeps e (pinned ops K) m ->
  safe_from P m.
Proof. intros HP Hm w _ Hp Hk. by apply (Hm w); split; [|apply HP]. Qed.

Lemma resume_stored_safe op owner : safe_from (stored op) (resume cfg op owner).
Proof.
  apply (safe_pinned [op]).
  - intros db Hs op' ->%list_elem_of_singleton. exact Hs.
  - apply resume_safe; [by apply pinned_closed|]. intros tr db [_ Hs]. apply Hs. set_solver.
Qed.

Lemma redrive_safe i : keeps e K (redrive i).
Proof.
  unfold redrive. pose proof good_clocks as Hclk. keep_step. keep_step.
  by eapply reg_statement, redrive_completes_nothing.
Qed.

(** A claim that succeeds answers a stored operation. *)
Lemma claim_stored d0 k owner now seconds P :
  is_aware now = true ->
  hspec e d0 P (transaction (
      lease ← t_lift (timedelta_seconds seconds);
      on_registrations (fun db_now _ => claim_by_key_hash db_now k owner now (dt_add now lease))))
    (fun o db => match o with Some c => stored c db | None => True end).
Proof.
  intros Ha. apply h_transaction; [done|].
  eapply tspec_weaken with (P := running d0); [|by intros db [? _]|by intros ? ? Hq; exact Hq].
  eapply tspec_bind; [by apply tspec_lift with (Q := fun _ => running d0)|]. intros lease.
  apply on_registrations_spec; [by apply others_running..|].
  intros db_now lk db o t Hn Hr Hc. pose proof (co_registrations _ _ (proj1 Hr)) as Hok.
  destruct (claim_key_completes_nothing k owner now (dt_add now lease) Ha db_now lk _ o t Hn Hok Hc).
  split; [by apply step_running|]. destruct o as [c|]; [|done].
  destruct (claim_by_key_hash_ok _ _ _ _ _ _ _ _ Hok Hc) as (_ & _ & _ & _ & _ & _ & Hi).
  by apply read_row_stored.
Qed.

Lemma load_safe k : keeps e K (load_by_key k).
Proof.
  unfold load_by_key. pose proof good_clocks as Hclk. pose proof (gc_others _ _ HK) as Ho.
  repeat keep_step.
Qed.

Lemma resume_existing_safe op email password P :
  safe_from P (resume_existing cfg op email password).
Proof.
  pose proof good_clocks as Hclk. pose proof (gc_others _ _ HK) as Ho. unfold resume_existing.
  apply safe_lift. intros _ _. apply safe_bind with (R := fun _ _ => True).
  { intros d0. by apply stored_hash_keeps. }
  { apply safe_keep. repeat keep_step. }
  intros h. apply safe_lift. intros v _. apply safe_lift. intros _ _.
  case_step; [apply safe_keep, keeps_ret|]. case_step; [apply safe_keep, keeps_lift|].
  apply safe_now. intros now Ha. apply safe_tick. intros owner. eapply safe_bind.
  { intros d0. by apply claim_stored. }
  { apply safe_keep. keep_step. keep_step; [keep_step|].
    by apply reg_statement, claim_key_completes_nothing. }
  intros [c|]; [apply resume_stored_safe|]. apply safe_keep. repeat keep_step.
Qed.

Lemma register_safe email0 email password k P :
  NormalizedEmail_new email0 = Ok email ->
  safe_from P (register cfg email password k).
Proof.
  intros Hem. pose proof good_clocks as Hclk. pose proof (gc_others _ _ HK) as Ho.
  unfold register. eapply safe_bind; [intros d0; by apply load_keeps|apply safe_keep, load_safe|].
  intros [op|]; [apply resume_existing_safe|].
  apply safe_bind with (R := fun _ _ => True).
  { intros d0. eapply h_bind; [apply h_tick|]. intros r w [Hr _]. unfold lift. by destruct r. }
  { apply safe_keep. repeat keep_step. }
  intros h. apply safe_now. intros now Ha. apply safe_tick. intros owner.
  apply safe_lift. intros lease _. apply safe_tick. intros oid. apply safe_tick. intros uid.
  apply safe_lift. intros proposed Hv.
  assert (Hp : ro_status proposed <> REG_COMPLETED).
  { unfold RegistrationOperation_validate, candidate in Hv. ok_inv. by subst proposed. }
  eapply safe_bind.
  { intros d0. by eapply create_keeps. }
  { apply safe_keep. repeat keep_step. by eapply reg_statement, try_create_completes_nothing. }
  intros [op|].
  - intros w Hc [_ Hrow]. by apply resume_stored_safe; [|apply read_row_stored].
  - eapply safe_bind; [intros d0; by apply load_keeps|apply safe_keep, load_safe|].
    intros [op|]; [apply resume_existing_safe|apply safe_keep, keeps_lift].
Qed.

Lemma reconcile_once_safe n P : safe_from P (reconcile_once cfg n).
Proof.
  pose proof good_clocks as Hclk. unfold reconcile_once.
  apply safe_lift. intros _ _. apply safe_tick. intros owner. apply safe_now. intros now Ha.
  eapply safe_bind; [intros d0; by apply claim_batch_stored| |].
  { apply safe_keep. keep_step. keep_step; [keep_step|].
    by apply reg_statement, claim_batch_completes_nothing. }
  intros ops. apply (safe_pinned ops); [done|].
  destruct ops as [|op ops]; [apply keeps_ret|].
  pose proof (pinned_closed e (op :: ops) K HK) as HK'.
  keep_step; [by apply reg_emit|]. keep_step; [|keep_step].
  apply process_all_safe; [done|]. intros op' tr db Hin [_ Hst]. by apply Hst.
Qed.

Lemma safe_attempt {A} P (m : RM A) : safe_from P m -> safe_from P (attempt m).
Proof.
  intros Hm w Hc Hp Hk. specialize (Hm w Hc Hp Hk). unfold attempt. by destruct (m e w).
Qed.

Lemma iteration_safe n P : safe_from P (iteration cfg n).
Proof.
  unfold iteration. apply safe_bind with (R := fun _ _ => True).
  - intros d0. eapply h_weaken; [apply h_attempt; by apply (reconcile_keeps cfg e He d0 n P)|done|done].
  - apply safe_attempt, reconcile_once_safe.
  - intros r. apply safe_keep. repeat keep_step.
Qed.

Lemma reconcile_loop_safe stopped fuel n P : safe_from P (reconcile_loop cfg stopped fuel n).
Proof.
  revert P. induction fuel as [|fuel IH]; intros P; [apply safe_keep, keeps_ret|].
  cbn [reconcile_loop]. apply safe_tick. intros stop.
  destruct (stop : bool); [apply safe_keep, keeps_ret|].
  apply safe_bind with (R := fun _ _ => True); [|apply iteration_safe|].
  { intros d0. unfold iteration. eapply h_bind.
    - apply h_attempt. by apply (reconcile_keeps cfg e He d0 n P).
    - intros [p|x]; [by apply h_ret|]. destruct (is_exception x); [by apply h_ret|apply h_raise]. }
  intros processed. apply safe_bind with (R := fun _ _ => True).
  - intros d0. destruct (processed =? 0); [|by apply h_ret].
    eapply h_bind; [apply h_tick|]. intros [|]; [by apply h_ret|].
    exact (h_tick e d0 (fun _ _ => tt) (fun _ => True)).
  - apply safe_keep. repeat keep_step. apply keeps_tick.
  - intros _. apply IH.
Qed.

Lemma reconcile_run_safe stopped fuel poll n P :
  safe_from P (reconcile_run cfg stopped fuel poll n).
Proof. apply safe_lift. intros _ _. apply reconcile_loop_safe. Qed.
End entry_points.
End handlers.

(** ** The order of the two services *)

(** Other processes run registration statements, and complete the operations in
    [elsewhere]: those whose profiles they saw acknowledged. *)
Record profile_env `{EmailSyntax} (elsewhere : RegistrationOperation -> Prop)
    (e : env database) : Prop := {
  pe_good : good_env e;
  pe_steps : forall n l db, rtc reg_step (registrations db) (registrations (others e n l db));
  pe_completed : forall n l db,
    completes_only elsewhere (registrations db) (registrations (others e n l db))
}.

Lemma reg_steps_ok `{EmailLaws} t t' :
  reg_table_ok t -> rtc reg_step t t' -> reg_table_ok t' /\ evolves t t'.
Proof.
  intros Ht Hs. induction Hs as [t|t t1 t2 H1 _ IH]; [split; [done|auto with identity]|].
  destruct (reg_step_ok t t1 Ht H1) as [Ht1 H01]. destruct (IH Ht1) as [Ht2 H12].
  split; [done|]. eauto with identity.
Qed.

Section order.
Context `{EmailLaws} `{FloatPow} `{PasswordHasher} `{ProfileProvisioner}.
Context (elsewhere : RegistrationOperation -> Prop) (e : env database).
Context (He : profile_env elsewhere e).

(** Since [t0], only operations with an acknowledged profile were completed. *)
Definition profiled (t0 : reg_table) (tr : list reg_event) (db : database) : Prop :=
  reg_table_ok (registrations db) /\
  completes_only (fun r => elsewhere r \/ profile_made tr r) t0 (registrations db).

Lemma profiled_closed t0 : registration_closed e (profiled t0).
Proof.
  split.
  - intros tr n l db [Hok Hc].
    split; [by eapply reg_steps_ok; [|apply (pe_steps _ _ He)]|]. intros i r Hi Hs.
    destruct (pe_completed _ _ He n l db i r Hi Hs) as [Hi'|]; [by apply (Hc i)|by right; left].
  - intros ev tr db [Hok Hc]. split; [done|]. intros i r Hi Hs.
    destruct (Hc i r Hi Hs) as [|[|]]; auto using profile_made_cons.
  - by intros tr db [Hok _].
  - intros tr n l db [Hok _]. by eapply reg_steps_ok; [|apply (pe_steps _ _ He)].
  - intros tr db t' [Hok Hc] Hs Hc'. split; [by apply (reg_step_ok _ _ Hok Hs)|].
    intros i r Hi Hst. destruct (Hc' i r Hi Hst) as [Hi'|]; [by apply (Hc i)|auto].
  - done.
  - done.
Qed.

(** A run that started in [db0] completed registrations and added users only after the
    profile service's acknowledgement. *)
Definition profile_first (db0 : database) (tr : list reg_event) (db : database) : Prop :=
  (forall i r, registrations db !! i = Some r -> ro_status r = REG_COMPLETED ->
     registrations db0 !! i = Some r \/ elsewhere r \/ profile_made tr r) /\
  (forall i u, users db !! i = Some u -> users db0 !! i = Some u \/
     exists j r, registrations db !! j = Some r /\ ro_status r = REG_COMPLETED /\
       ro_user_id r = i /\ ro_email r = u_email u /\ (elsewhere r \/ profile_made tr r)).

Lemma profiled_first db0 tr db :
  consistent Settled db0 -> consistent Settled db -> users db0 ⊆ users db ->
  profiled (registrations db0) tr db -> profile_first db0 tr db.
Proof.
  intros Hc0 Hc Hu [_ Hp]. split; [exact Hp|]. intros i u Hi.
  destruct (co_accounted _ _ Hc i u Hi) as (j & r & Hj & Hs & Hid & Hem).
  destruct (Hp j r Hj Hs) as [Hj0|Hmade]; [left|right; eauto 10].
  destruct (co_completed _ _ Hc0 j r Hj0 Hs) as (u0 & Hu0 & _); [done|].
  rewrite Hid in Hu0. pose proof (lookup_weaken _ _ _ _ Hu0 Hu) as Hi'. congruence.
Qed.

Lemma profile_run {A} P (m : RM A) (Q : A -> database -> Prop) w :
  hspec e (w_db w) (fun _ => True) m Q ->
  safe_from e (profiled (registrations (w_db w))) P m ->
  consistent Settled (w_db w) -> P (w_db w) ->
  profile_first (w_db w) (w_trace (m e w).2) (w_db (m e w).2).
Proof.
  intros Hm Hs Hc HP.
  assert (Hrun : running (w_db w) (w_db w)) by (split; [done|auto with identity]).
  pose proof (hspec_run e (w_db w) m Q w Hm Hrun) as Hr.
  specialize (Hs w Hc HP). destruct (m e w) as [r w']. destruct Hr as [[Hc' [_ Hu]] _].
  apply profiled_first; [done..|]. apply Hs. split; [apply Hc|]. intros i x Hi _. by left.
Qed.

(** C2. Accounts across two services: in every environment, whatever fails and
    wherever, a run of any registration entry point (the endpoint's handler, a resumed
    attempt, the operator's redrive, the reconciler's loop) ends with every newly
    completed registration preceded by the profile service's acknowledgement of
    that user's profile with that registration's creation instant, recorded in the
    run's trace (or seen by another process that completed it); and with no new
    user other than those of such registrations.  No account exists without
    its profile. *)
Theorem completed_only_after_profile cfg stopped w email0 email password k op owner i fuel poll n :
  consistent Settled (w_db w) -> NormalizedEmail_new email0 = Ok email -> stored op (w_db w) ->
  let first {A} (m : RM A) :=
    profile_first (w_db w) (w_trace (m e w).2) (w_db (m e w).2) in
  first (register cfg email password k) /\ first (resume cfg op owner) /\
  first (redrive i) /\ first (reconcile_run cfg stopped fuel poll n).
Proof.
  intros Hc Hem Hst first. pose proof (pe_good _ _ He) as Hg.
  pose proof (profiled_closed (registrations (w_db w))) as HK.
  split_and!.
  - eapply (profile_run (fun _ => True)); [by eapply register_keeps|by eapply register_safe|done..].
  - eapply (profile_run (stored op)); [by apply resume_keeps|by apply resume_stored_safe|done..].
  - eapply (profile_run (fun _ => True)); [by apply redrive_keeps|by apply safe_keep, redrive_safe|done..].
  - eapply (profile_run (fun _ => True)); [by apply reconciler_run_keeps|by apply reconcile_run_safe|done..].
Qed.
End order.

(** ** A concrete run *)

Section demo.
#[local] Existing Instance demo_email_syntax.
#[local] Existing Instance demo_profiles.

Lemma quiet_profile_env : profile_env (fun _ => False) (quiet_env database).
Proof. split; [apply quiet_good|done|]. intros n l db i r Hi _. by left. Qed.

(** Bob registers after Ann. *)
Definition demo_second : res RegistrationResult * world database reg_event :=
  register demo_config "bob@x" "password" (demo_hash x02) (quiet_env database) demo_world.

(** Bob's operation. *)
Definition demo_second_row : RegistrationOperation :=
  default demo_stored (head (filter (fun r => ro_email r = "bob@x"%string)
    (rows (registrations (w_db demo_second.2))))).

Lemma completed_only_after_profile_witness :
  ro_email demo_second_row = "bob@x"%string /\ ro_status demo_second_row = REG_COMPLETED /\
  profile_made (w_trace demo_second.2) demo_second_row.
Proof.
  split; [vm_compute; reflexivity|]. split; [vm_compute; reflexivity|].
  pose proof (completed_only_after_profile (fun _ => False) (quiet_env database) quiet_profile_env
    demo_config (fun _ => true) demo_world "bob@x" "bob@x" "password" (demo_hash x02) demo_stored
    7 1 0 (of_Z 2) 10 demo_world_consistent ltac:(vm_compute; reflexivity)
    (read_row_stored _ _ demo_read_row)) as [[Hr _] _].
  destruct (Hr (ro_id demo_second_row) demo_second_row) as [H|[[]|H]];
    [vm_compute; reflexivity|vm_compute; reflexivity| |exact H].
  revert H. vm_compute. intros [=].
Defined.
End demo.
