(* ===== verification/Frames.v ===== *)
(** * What signing in and refreshing leave alone

    The programs of [AuthFlow] and [Refresh] write the sessions, the refresh tokens
    and the idempotency records, and nothing else: a property of the other tables that
    other processes keep is kept by every run of them, however it ends. *)

From S2P Require Import Prelude Exceptions Domain Retry Text Json Sql Registration Effects.
From S2P Require Import Invariants Accounts Idempotency Database Coordinator Fingerprint Tokens.
From S2P Require Import Sessions AuthFlow Refresh.

(** A property of the trace and the database that does not speak of those three
    tables. *)
Record session_closed {Ev} (e : env database) (K : list Ev -> database -> Prop) : Prop := {
  sc_others : stable e K;
  sc_event : forall ev tr db, K tr db -> K (ev :: tr) db;
  sc_sessions : forall tr db t, K tr db -> K tr (with_sessions t db);
  sc_tokens : forall tr db t, K tr db -> K tr (with_tokens t db);
  sc_records : forall tr db t, K tr db -> K tr (with_records t db)
}.

Section frame.
Context {Ev : Type} (e : env database) (Hc : aware_clocks e).
Context (K : list Ev -> database -> Prop) (HK : session_closed e K).

Local Abbreviation keep := (keeps e K).
Local Abbreviation t_keep := (t_keeps e K).

Lemma frame_emit ev : keep (emit ev).
Proof. apply keeps_emit, HK. Qed.

Lemma frame_call {A} (answer : nat -> res A) (ev : res A -> Ev) : keep (call answer ev).
Proof. apply keeps_call. intros r. apply HK. Qed.

Lemma frame_query {A} (f : database -> res A) : t_keep (query f).
Proof. apply t_keeps_query, HK. Qed.

Lemma frame_select {A} lock (f : database -> res (option A)) : t_keep (select_for_update lock f).
Proof.
  apply t_keeps_locking_stmt; [apply HK|]. intros now lk tr db a db' _ Hk.
  destruct (f db); [|done]. by intros [= _ <-].
Qed.

Lemma frame_insert_session takes r :
  t_keep (locking_stmt takes (fun _ _ => insert_session r)).
Proof.
  apply t_keeps_locking_stmt; [apply HK|]. intros now lk tr db a db' _ Hk. unfold insert_session.
  destruct (negb _), (db_sessions db !! sn_id r), (users db !! sn_user_id r); try done.
  intros [= _ <-]. by apply HK.
Qed.

Lemma frame_insert_token takes t :
  t_keep (locking_stmt takes (fun _ _ => insert_token t)).
Proof.
  apply t_keeps_locking_stmt; [apply HK|]. intros now lk tr db a db' _ Hk. unfold insert_token.
  repeat case_match; try done.
  intros [= _ <-]. by apply HK.
Qed.

Lemma frame_update_session r : t_keep (stmt (fun _ _ => update_session r)).
Proof.
  apply t_keeps_stmt; [apply HK|]. intros now lk tr db a db' _ Hk. unfold update_session.
  destruct (db_sessions db !! sn_id r); [|done]. case_bool_decide; [by intros [= _ <-]|].
  destruct (negb _); [done|]. intros [= _ <-]. by apply HK.
Qed.

Lemma frame_update_token t : t_keep (stmt (fun _ _ => update_token t)).
Proof.
  apply t_keeps_stmt; [apply HK|]. intros now lk tr db a db' _ Hk. unfold update_token.
  destruct (db_tokens db !! rt_id t); [|done]. case_bool_decide; [by intros [= _ <-]|].
  destruct (negb _); [done|]. intros [= _ <-]. by apply HK.
Qed.

Lemma frame_insert_record i f :
  t_keep (stmt (fun _ _ db => '(inserted, t) ← insert_record i f (records db);
                              mret (inserted, with_records t db))).
Proof.
  apply t_keeps_stmt; [apply HK|]. intros now lk tr db a db' _ Hk.
  destruct (insert_record _ _ _) as [[b t]|]; [|done]. intros [= _ <-]. by apply HK.
Qed.
End frame.

#[export] Hint Resolve frame_emit frame_call frame_query frame_select frame_insert_session
  frame_insert_token frame_update_session frame_update_token frame_insert_record : keeps.

(** Walk to the statements, which the lemmas above know. *)
Ltac frame_step :=
  first [keep_step | solve [eauto with keeps]].
Ltac walk := repeat frame_step.

Section programs.
Context `{EmailSyntax} `{PasswordHasher} `{Sha256} `{RandomTokens} `{AccessTokenIssuer}
  `{AccessTokenVerifier} `{ReplayProtector}.
Context (ttl : Z).
Context {Ev : Type} (e : env database) (Hc : aware_clocks e).
Context (K : list Ev -> database -> Prop) (HK : session_closed e K).

Lemma save_frame s : t_keeps e K (save s).
Proof. unfold save, session_update, token_update, token_create. walk. Qed.

Lemma create_session_frame s : t_keeps e K (create_session s).
Proof. unfold create_session, session_create, token_create. walk. Qed.

Lemma session_by_hash_frame h : t_keeps e K (get_by_refresh_hash_for_update h).
Proof. unfold get_by_refresh_hash_for_update, get_by_hash_for_update. walk. Qed.

Lemma session_by_id_frame i : t_keeps e K (get_by_refresh_id i).
Proof. unfold get_by_refresh_id, token_get. walk. Qed.

Lemma issue_frame u now : t_keeps e K (issue u now).
Proof. unfold issue, codec_issue. walk. Qed.

#[local] Hint Resolve save_frame create_session_frame session_by_hash_frame session_by_id_frame
  issue_frame : keeps.

Lemma refresh_operation_frame raw identity h :
  t_keeps e K (refresh_operation ttl raw identity h).
Proof. unfold refresh_operation, refresh_found, rotate_session. walk. Qed.

Lemma login_body_frame u h : t_keeps e K (login_body ttl u h).
Proof. unfold login_body, user_for_update. walk. Qed.

Lemma logout_body_frame token : t_keeps e K (logout_body token).
Proof. unfold logout_body. walk. Qed.

Lemma replay_check_frame i : t_keeps e K (replay_check i).
Proof. unfold replay_check. walk. Qed.

(** ** The durable path *)

Lemma find_existing_frame i h : keeps e K (find_existing i h).
Proof. unfold find_existing, get_completed. walk. Qed.

Lemma execute_once_frame retention i h (op : T database StoredResult) :
  t_keeps e K op -> keeps e K (execute_once retention i h op).
Proof.
  intros Hop. pose proof find_existing_frame.
  unfold execute_once, execute_body, execution_failed, try_add_completed. walk.
Qed.
End programs.

(** ** The handlers *)

Section signing.
Context `{EmailSyntax} `{PasswordHasher} `{Sha256} `{RandomTokens} `{AccessTokenIssuer}
  `{AccessTokenVerifier}.
Context (ttl : Z) (e : env database) (Hc : aware_clocks e).
Context (K : list auth_event -> database -> Prop) (HK : session_closed e K).

#[local] Hint Resolve login_body_frame logout_body_frame : keeps.

Lemma login_frame command : keeps e K (login ttl command).
Proof. unfold login. walk. Qed.

Lemma logout_frame token : keeps e K (logout token).
Proof. unfold logout. walk. Qed.

End signing.

(** Reading the current user changes nothing at all. *)
Lemma current_user_keeps `{EmailSyntax} `{AccessTokenVerifier} e
    (K : list auth_event -> database -> Prop) token :
  aware_clocks e -> stable e K -> keeps e K (get_current_user token).
Proof. intros Hc Ho. unfold get_current_user. repeat keep_step. Qed.

Section refreshing.
Context `{EmailSyntax} `{Sha256} `{RandomTokens} `{AccessTokenIssuer} `{ReplayProtector}.
Context (ttl retention : Z) (beats : nat -> nat) (hot_store : option HotStore) (lease : Z).
Context (e : env database) (Hc : aware_clocks e).
Context (K : list idem_event -> database -> Prop) (HK : session_closed e K).

#[local] Hint Resolve find_existing_frame execute_once_frame refresh_operation_frame
  replay_check_frame : keeps.

Lemma heartbeat_frame hs i owner n : keeps e K (heartbeat hs i owner lease n).
Proof. induction n as [|n IH]; cbn [heartbeat]; unfold hot_renew; walk. Qed.

Lemma degrade_frame stage m : keeps e K m -> keeps e K (degrade stage m).
Proof. intros Hm. unfold degrade. walk. Qed.

#[local] Hint Resolve heartbeat_frame degrade_frame : keeps.

Lemma coordinate_frame i h (op : T database StoredResult) :
  t_keeps e K op -> keeps e K (coordinate retention beats hot_store i h op lease).
Proof.
  intros Hop. unfold coordinate, after_begin, execute_degraded, execute_leased, observe,
    hot_begin, hot_complete, hot_abandon. walk.
Qed.

#[local] Hint Resolve coordinate_frame : keeps.

Lemma replay_stored_frame i h stored : keeps e K (replay_stored i h stored).
Proof. unfold replay_stored, replay_body. walk. Qed.

Lemma refresh_frame command :
  keeps e K (refresh ttl retention beats hot_store lease command).
Proof. pose proof replay_stored_frame. unfold refresh. walk. Qed.
End refreshing.
