(* ===== verification/Service.v ===== *)
(** * The service as a whole

    Many processes on one database: registrations and the reconciler, sign-ins,
    refreshes and sign-outs, the relay.  A step of the service is one run of one entry
    point, among any interference its environment brings; what is assumed of that
    interference is what the runs themselves are shown to do. *)

From S2P Require Import Prelude Exceptions Domain Retry Text Sql Registration Outbox.
From S2P Require Import Effects Invariants Accounts Idempotency Database RegisterFlow Relay.
From S2P Require Import Coordinator Fingerprint Tokens Sessions AuthFlow Refresh Reconciler ProfileFirst Frames.

(** What the service is: the database, the profiles the profile service has
    acknowledged and the messages the broker has. *)
Record service := {
  sv_db : database;
  sv_profile : uuid -> datetime -> Prop;
  sv_sent : uuid -> Prop
}.

(** An environment of processes of the service: they complete registrations whose
    profiles are in [profiles] and mark as sent the messages in [sent]. *)
Record service_env `{EmailSyntax} (profiles : uuid -> datetime -> Prop) (sent : uuid -> Prop)
    (e : env database) : Prop := {
  se_profile : profile_env (fun r => profiles (ro_user_id r) (ro_created_at r)) e;
  se_auth : auth_env e;
  se_relay : relay_env sent e
}.

(** ** The invariant *)

Record service_ok `{EmailSyntax} (s : service) : Prop := {
  so_consistent : consistent Settled (sv_db s);
  so_auth : auth_ok (sv_db s);
  so_profile : forall i r, registrations (sv_db s) !! i = Some r ->
    ro_status r = REG_COMPLETED -> sv_profile s (ro_user_id r) (ro_created_at r);
  so_sent : forall i, delivered i (outbox (sv_db s)) -> sv_sent s i
}.

(** What is the same whichever process runs: since [db0], registrations were completed
    and messages marked as sent only as [profiles] and [sent] allow. *)
Record since (db0 : database) (made : RegistrationOperation -> Prop) (sent : uuid -> Prop)
    (db : database) : Prop := {
  si_completed : completes_only made (registrations db0) (registrations db);
  si_sent : forall i, delivered i (outbox db) -> delivered i (outbox db0) \/ sent i
}.

Section interference.
Context `{EmailLaws} (profiles : uuid -> datetime -> Prop) (sent : uuid -> Prop).
Context (e : env database) (He : service_env profiles sent e).

Lemma service_clocks : aware_clocks e.
Proof. apply He. Qed.

Lemma since_refl db made sent' : since db made sent' db.
Proof. split; [intros i r Hi _|]; by left. Qed.

Lemma since_others db0 (made : RegistrationOperation -> Prop) (sent' : uuid -> Prop) n l db :
  (forall r, profiles (ro_user_id r) (ro_created_at r) -> made r) ->
  (forall i, sent i -> sent' i) ->
  since db0 made sent' db -> since db0 made sent' (others e n l db).
Proof.
  intros Hm Hs [Hc Hd]. split.
  - intros i r Hi Hst. destruct (pe_completed _ _ (se_profile _ _ _ He) n l db i r Hi Hst)
      as [Hi'|]; [by apply (Hc i)|right; by apply Hm].
  - intros i Hi. destruct (re_delivered _ _ (se_relay _ _ _ He) n l db i Hi); auto.
Qed.

Lemma consistent_others n l db : consistent Settled db -> consistent Settled (others e n l db).
Proof. intros Hc. by apply (ge_others e (pe_good _ _ (se_profile _ _ _ He)) Settled). Qed.

Lemma auth_others n l db : auth_ok db -> auth_ok (others e n l db).
Proof. apply (ae_others e (se_auth _ _ _ He)). Qed.

Lemma registrations_others n l db :
  reg_table_ok (registrations db) ->
  reg_table_ok (registrations (others e n l db)) /\
  evolves (registrations db) (registrations (others e n l db)).
Proof. intros Ht. by apply reg_steps_ok; [|apply (pe_steps _ _ (se_profile _ _ _ He))]. Qed.

(** *** Registration leaves the sessions well-formed *)

Lemma auth_frame db db' :
  auth_ok db -> users_ok (users db') -> users db ⊆ users db' ->
  db_sessions db' = db_sessions db -> db_tokens db' = db_tokens db -> auth_ok db'.
Proof.
  intros Hok Hu Hsub Hs Ht. destruct Hok. split; rewrite ?Hs, ?Ht; try done.
  intros i r Hi. destruct (au_user i r Hi) as [u Hui]. exists u. by eapply lookup_weaken.
Qed.

Definition registering (db0 : database) (tr : list reg_event) (db : database) : Prop :=
  auth_ok db /\ reg_table_ok (registrations db) /\
  since db0 (fun r => profiles (ro_user_id r) (ro_created_at r) \/ profile_made tr r) sent db.

Lemma registering_closed db0 : registration_closed e (registering db0).
Proof.
  split.
  - intros tr n l db (Ha & Hr & Hs). split; [by apply auth_others|].
    split; [by apply registrations_others|]. apply since_others; auto.
  - intros ev tr db (Ha & Hr & [Hc Hd]). split; [done|]. split; [done|]. split; [|done].
    intros i r Hi Hs. destruct (Hc i r Hi Hs) as [|[|]]; auto using profile_made_cons.
  - by intros tr db (_ & Hr & _).
  - intros tr n l db (_ & Hr & _). by apply registrations_others.
  - intros tr db t' (Ha & Hr & [Hc Hd]) Hs Hc'. split; [|split; [|split; [|done]]].
    + by apply (auth_frame db); [done|apply Ha|..].
    + by apply (reg_step_ok _ _ Hr Hs).
    + intros i r Hi Hst. destruct (Hc' i r Hi Hst); [by apply (Hc i)|auto].
  - intros tr db u o t' (Ha & Hr & Hs) Hv Hcr. split; [|split; [done|by destruct Hs]].
    destruct (create_if_absent_ok _ _ _ _ (au_users _ Ha) Hv Hcr) as [Ht Ho].
    apply (auth_frame db); [done|done| |done..]. cbn. destruct o as [v|].
    + destruct Ho as (_ & Hn & ->). by apply insert_subseteq.
    + by destruct Ho as [-> _].
  - intros tr db i m (Ha & Hr & [Hc Hd]) Hn Hm. split; [|split; [done|split; [done|]]].
    + by apply (auth_frame db); [done|apply Ha|..].
    + intros j (x & Hj & Hx). cbn in Hj. apply lookup_insert_Some in Hj as [[<- <-]|[_ Hj]].
      * congruence.
      * apply Hd. by exists x.
Qed.

(** *** Sessions leave the registrations alone *)

Definition signing (db0 : database) {Ev} (_ : list Ev) (db : database) : Prop :=
  consistent Settled db /\ since db0 (fun r => profiles (ro_user_id r) (ro_created_at r)) sent db.

Lemma consistent_frame db db' :
  consistent Settled db -> users db' = users db -> registrations db' = registrations db ->
  outbox db' = outbox db -> consistent Settled db'.
Proof.
  intros [Hr Hu Ho Hc Ha [about [He1 He2]]] E1 E2 E3.
  split; rewrite ?E1, ?E2, ?E3; [done..|]. exists about.
  split; rewrite ?E1, ?E3; done.
Qed.

Lemma signing_closed db0 Ev : session_closed e (signing db0 (Ev := Ev)).
Proof.
  split; unfold signing.
  - intros tr n l db [Hc Hs]. split; [by apply consistent_others|]. by apply since_others.
  - done.
  - intros tr db t [Hc [? ?]]. split; [by apply (consistent_frame db)|by split].
  - intros tr db t [Hc [? ?]]. split; [by apply (consistent_frame db)|by split].
  - intros tr db t [Hc [? ?]]. split; [by apply (consistent_frame db)|by split].
Qed.

(** *** The relay leaves everything but the outbox alone *)

Definition relaying (db0 : database) (tr : list relay_event) (db : database) : Prop :=
  consistent Settled db /\ auth_ok db /\
  since db0 (fun r => profiles (ro_user_id r) (ro_created_at r))
    (fun i => sent i \/ Relay.acknowledged i tr) db.

(** The messages still announce the same users. *)
Lemma consistent_relays acked db t' :
  consistent Settled db -> relays acked (outbox db) t' ->
  consistent Settled (with_outbox t' db).
Proof.
  intros [Hr Hu Ho Hc Ha [about [Hm Hone]]] [Hok Hch _]. split; [done..|].
  assert (Hold : forall i m', t' !! i = Some m' -> exists m, outbox db !! i = Some m /\
    same_message m m').
  { intros i m' Hi. destruct (table_change_lookup_inv _ _ _ _ Hch Hi) as (m & Hi' & Hrow).
    exists m. split; [done|by apply row_change_same]. }
  exists about. split; cbn.
  - intros i m' Hi. destruct (Hold i m' Hi) as (m & Hi' & Hsame).
    destruct (Hm i m Hi') as (u & Hu' & (tp & pr & cid & eid & Hann) & Hn).
    exists u. split; [done|]. split; [|done]. exists tp, pr, cid, eid.
    by eapply same_message_trans.
  - intros i j [x Hx] [y Hy]. destruct (Hold i x Hx) as (? & ? & _).
    destruct (Hold j y Hy) as (? & ? & _). by apply Hone.
Qed.

Lemma relaying_closed db0 : relay_closed e (relaying db0).
Proof.
  split.
  - intros tr n l db (Hc & Ha & Hs). split; [by apply consistent_others|].
    split; [by apply auth_others|]. apply since_others; auto.
  - intros ev tr db (Hc & Ha & [Hr Hd]). split; [done|]. split; [done|]. split; [done|].
    intros i Hi. destruct (Hd i Hi) as [|[|]]; auto using acknowledged_cons.
  - by intros tr db ([_ _ Ho] & _).
  - intros tr db t' (Hc & Ha & [Hr Hd]) Hrel. split; [by eapply consistent_relays|].
    split; [by apply (auth_frame db); [done|apply Ha|..]|]. split; [done|].
    intros i Hi. destruct (rs_delivered _ _ _ Hrel i Hi) as [Hi'|]; [by apply Hd|auto].
Qed.
End interference.

(** ** Steps of the service *)

Section service.
Context `{EmailLaws} `{FloatPow} `{PasswordHasher} `{ProfileProvisioner} `{BrokerPublisher}.
Context `{Sha256} `{RandomTokens} `{AccessTokenIssuer} `{AccessTokenVerifier} `{ReplayProtector}.

Definition begin {Ev} (s : service) (n : nat) : world database Ev :=
  {| w_db := sv_db s; w_tick := n; w_trace := [] |}.

(** The service after a run: what the run and its environment were acknowledged is
    added. *)
Definition after (s : service) (profiles : uuid -> datetime -> Prop) (sent : uuid -> Prop)
    (db : database) : service := {|
  sv_db := db;
  sv_profile u t := sv_profile s u t \/ profiles u t;
  sv_sent i := sv_sent s i \/ sent i
|}.

Definition after_registration s (profiles : uuid -> datetime -> Prop) sent
    (w : world database reg_event) : service :=
  after s (fun u t => profiles u t \/ CreateProfile u t (Ok tt) ∈ w_trace w) sent (w_db w).
Definition after_relay s profiles (sent : uuid -> Prop) (w : world database relay_event) : service :=
  after s profiles (fun i => sent i \/ Relay.acknowledged i (w_trace w)) (w_db w).

(** The entry points of each kind of process, with any configuration. *)
Inductive registration_entry : forall A, RM A -> Prop :=
| en_register cfg email0 email password key :
    NormalizedEmail_new email0 = Ok email ->
    registration_entry _ (register cfg email password key)
| en_redrive i : registration_entry _ (redrive i)
| en_reconcile cfg stopped fuel poll n :
    registration_entry _ (reconcile_run cfg stopped fuel poll n).

Inductive session_entry : forall A, AM A -> Prop :=
| en_login ttl command : session_entry _ (login ttl command)
| en_logout token : session_entry _ (logout token)
| en_me token : session_entry _ (get_current_user token).

Inductive service_step (s : service) : service -> Prop :=
| step_registration A (m : RM A) profiles sent e n :
    service_env profiles sent e -> registration_entry A m ->
    service_step s (after_registration s profiles sent (m e (begin s n)).2)
| step_session A (m : AM A) profiles sent e n :
    service_env profiles sent e -> session_entry A m ->
    service_step s (after s profiles sent (w_db (m e (begin s n)).2))
| step_refresh ttl retention beats hot lease command profiles sent e n :
    service_env profiles sent e ->
    service_step s (after s profiles sent
      (w_db (refresh ttl retention beats hot lease command e (begin s n)).2))
| step_relay cfg fuel poll batch profiles sent e n :
    service_env profiles sent e ->
    service_step s (after_relay s profiles sent (run cfg fuel poll batch e (begin s n)).2).

(** ** Every step keeps the invariant *)

Lemma since_ok s profiles sent made sent' db :
  service_ok s -> consistent Settled db -> auth_ok db -> since (sv_db s) made sent' db ->
  (forall r, made r -> profiles (ro_user_id r) (ro_created_at r)) ->
  (forall i, sent' i -> sent i) ->
  service_ok (after s profiles sent db).
Proof.
  intros [_ _ Hp Hd] Hc Ha [Hr Hs] Hm Hi. split; [done|done|..]; cbn.
  - intros i r Hir Hst. destruct (Hr i r Hir Hst) as [Hold|]; [left; by eapply Hp|auto].
  - intros i Hid. destruct (Hs i Hid); auto.
Qed.

Lemma registration_run {A} P (m : RM A) Q s profiles sent e n :
  service_env profiles sent e -> service_ok s ->
  hspec e (sv_db s) (fun _ => True) m Q ->
  safe_from e (registering profiles sent (sv_db s)) P m -> P (sv_db s) ->
  service_ok (after_registration s profiles sent (m e (begin s n)).2).
Proof.
  intros He Hok Hm Hs HP.
  assert (Hrun : running (sv_db s) (sv_db s)) by (split; [apply Hok|auto with identity]).
  pose proof (hspec_run e (sv_db s) m Q (begin s n) Hm Hrun) as Hr.
  specialize (Hs (begin s n) (so_consistent _ Hok) HP).
  destruct (m e (begin s n)) as [r w']. destruct Hr as [[Hc' _] _].
  destruct Hs as (Ha & _ & Hsince).
  { split; [apply Hok|]. split; [apply Hok|]. apply since_refl. }
  eapply since_ok; [done..| |done]. intros x Hx. exact Hx.
Qed.

Lemma registration_step_ok {A} (m : RM A) s profiles sent e n :
  service_env profiles sent e -> service_ok s -> registration_entry A m ->
  service_ok (after_registration s profiles sent (m e (begin s n)).2).
Proof.
  intros He Hok Hm. pose proof (pe_good _ _ (se_profile _ _ _ He)) as Hg.
  pose proof (registering_closed profiles sent e He (sv_db s)) as HK.
  destruct Hm as [cfg email0 email password key Hem|i|cfg stopped fuel poll k].
  - eapply (registration_run (fun _ => True)); [done|done|by eapply register_keeps|
      by eapply register_safe|done].
  - eapply (registration_run (fun _ => True)); [done|done|by apply redrive_keeps|
      by apply safe_keep, redrive_safe|done].
  - eapply (registration_run (fun _ => True)); [done|done|by apply reconciler_run_keeps|
      by apply reconcile_run_safe|done].
Qed.

(** The handlers of sessions end in well-formed tables. *)
Lemma session_auth_ok {A} (m : AM A) e (w : world database auth_event) :
  auth_env e -> session_entry A m -> auth_ok (w_db w) -> auth_ok (w_db (m e w).2).
Proof.
  intros He Hm Hok. destruct Hm as [ttl command|[token|]|token].
  - pose proof (login_run ttl e He command w Hok) as Hr.
    destruct (login ttl command e w) as [[tokens|x] w']; [by destruct Hr|done].
  - pose proof (logout_run e He token w Hok) as Hr.
    destruct (logout _ e w) as [[[]|x] w']; [by destruct Hr|done].
  - done.
  - apply (current_user_keeps e (fun _ => auth_ok) token); [split; apply He| |done].
    intros _. apply He.
Qed.

Lemma session_keeps {A} (m : AM A) e K :
  aware_clocks e -> session_closed e K -> session_entry A m -> keeps e K m.
Proof.
  intros Hc HK Hm. destruct Hm.
  - by apply login_frame.
  - by apply logout_frame.
  - by apply current_user_keeps; [|apply HK].
Qed.

Lemma service_step_ok s s' : service_ok s -> service_step s s' -> service_ok s'.
Proof.
  intros Hok Hs.
  destruct Hs as [A m profiles sent e n He Hm|A m profiles sent e n He Hm|
    ttl retention beats hot lease command profiles sent e n He|
    cfg fuel poll batch profiles sent e n He].
  - by apply registration_step_ok.
  - destruct (session_keeps m e _ (service_clocks _ _ _ He)
      (signing_closed profiles sent e He (sv_db s) auth_event) Hm (begin s n)) as [Hc Hsince].
    { split; [apply Hok|apply since_refl]. }
    eapply since_ok; [done|exact Hc| |exact Hsince|done|done].
    apply session_auth_ok; [apply He|done|apply Hok].
  - destruct (refresh_frame ttl retention beats hot lease e (service_clocks _ _ _ He) _
      (signing_closed profiles sent e He (sv_db s) idem_event) command (begin s n)) as [Hc Hsince].
    { split; [apply Hok|apply since_refl]. }
    eapply since_ok; [done|exact Hc| |exact Hsince|done|done].
    pose proof (refresh_handler_spec ttl e (se_auth _ _ _ He) retention beats hot lease command
      (begin s n) (so_auth _ Hok)) as Hr.
    destruct (refresh _ _ _ _ _ _ e _) as [[tokens|x] w']; [by destruct Hr|done].
  - destruct (relay_run_keeps cfg e (service_clocks _ _ _ He) _
      (relaying_closed profiles sent e He (sv_db s)) fuel poll batch (begin s n)) as (Hc & Ha & Hsince).
    { split; [apply Hok|]. split; [apply Hok|apply since_refl]. }
    by eapply since_ok; [done|exact Hc|exact Ha|exact Hsince|..].
Qed.

(** ** What every reachable state of the service satisfies *)

(** The service as it is first deployed. *)
Definition deployed : service :=
  {| sv_db := empty_db; sv_profile _ _ := False; sv_sent _ := False |}.

Lemma empty_auth_ok : auth_ok empty_db.
Proof. split; [split|..]; cbn; unfold keyed; intros; simplify_map_eq. Qed.

Lemma deployed_ok : service_ok deployed.
Proof.
  split; [apply empty_consistent|apply empty_auth_ok|..]; cbn.
  - intros i r Hi. by rewrite lookup_empty in Hi.
  - intros i (m & Hi & _). by rewrite lookup_empty in Hi.
Qed.

Lemma reachable_ok s : rtc service_step deployed s -> service_ok s.
Proof.
  intros Hs. cut (forall s0, service_ok s0 -> rtc service_step s0 s -> service_ok s).
  { intros Hcut. by apply (Hcut deployed), Hs; apply deployed_ok. }
  intros s0 Hok Hs0. induction Hs0; [done|]. eauto using service_step_ok.
Qed.

(** [u] is the account of one registration, which is completed and whose profile the
    profile service has acknowledged. *)
Definition account_of (s : service) (u : User) : Prop :=
  exists i r, registrations (sv_db s) !! i = Some r /\ ro_status r = REG_COMPLETED /\
    ro_user_id r = u_id u /\ ro_email r = u_email u /\
    sv_profile s (ro_user_id r) (ro_created_at r) /\
    forall j r', registrations (sv_db s) !! j = Some r' -> ro_user_id r' = u_id u -> j = i.

Lemma user_account s i u : service_ok s -> users (sv_db s) !! i = Some u -> u_id u = i /\ account_of s u.
Proof.
  intros Hok Hi. pose proof (so_consistent _ Hok) as Hc.
  pose proof (us_keyed _ (co_users _ _ Hc) _ _ Hi) as Hid.
  destruct (co_accounted _ _ Hc i u Hi) as (j & r & Hj & Hs & Hu & Hem).
  split; [done|]. exists j, r. split_and!; [done..|congruence|done| |].
  - by eapply (so_profile _ Hok).
  - intros k r' Hk Hr'. eapply (rto_unique _ (co_registrations _ _ Hc)); [exact Hk|exact Hj|].
    unfold ro_conflict. rewrite (proj2 (Z.eqb_eq (ro_user_id r') (ro_user_id r))) by congruence.
    by rewrite orb_true_r.
Qed.

(** C1. End to end: start from an empty database and let any number of runs of the
    service's entry points follow one another (registrations, redrives, reconcilers,
    sign-ins and sign-outs, refreshes, relays), each with any configuration and any
    interference of others like it, failing anywhere.  In every state reached:
    every session belongs to a user, and every user is the account of exactly one
    registration, which is completed, has its e-mail address and its profile
    acknowledged; every refresh token belongs to a session that has no other
    unused token, and no two have one hash; every message in the outbox
    announces such an account and no two announce the same; and a message is
    SUCCESS only if the broker acknowledged it. *)
Theorem service_end_to_end s :
  rtc service_step deployed s ->
  (forall i u, users (sv_db s) !! i = Some u -> u_id u = i /\ account_of s u) /\
  (forall i r, db_sessions (sv_db s) !! i = Some r -> is_Some (users (sv_db s) !! sn_user_id r)) /\
  (forall i t, db_tokens (sv_db s) !! i = Some t ->
     is_Some (db_sessions (sv_db s) !! rt_session_id t) /\
     forall j t', db_tokens (sv_db s) !! j = Some t' -> i <> j ->
       rt_token_hash t <> rt_token_hash t' /\
       (rt_session_id t = rt_session_id t' -> is_used t = true \/ is_used t' = true)) /\
  (exists about, events_ok Settled about (sv_db s)) /\
  (forall i, delivered i (outbox (sv_db s)) -> sv_sent s i).
Proof.
  intros Hs. pose proof (reachable_ok s Hs) as Hok. destruct (so_auth _ Hok).
  split; [intros i u; by apply user_account|]. split; [done|]. split; [|split; [|apply Hok]].
  - intros i t Hi. split.
    + destruct (au_parent i t Hi) as (r & Hr & _). by exists r.
    + intros j t' Hj Hne. split.
      * intros Hh. by apply Hne, (au_hash i j t t').
      * intros Hsn. destruct (is_used t) eqn:E1; [by left|].
        destruct (is_used t') eqn:E2; [by right|]. by destruct Hne, (au_single i j t t').
  - apply (co_events _ _ (so_consistent _ Hok)).
Qed.
End service.

(** ** A concrete run: Ann registers, signs in, and her event is relayed *)

Section demo.
#[local] Existing Instances demo_email_syntax demo_profiles demo_pow ack_all demo_sha256
  demo_tokens demo_issuer demo_protector.
#[local] Instance no_verifier : AccessTokenVerifier := fun _ _ => Err (TokenExpiredError : exn).

Definition nobody : uuid -> datetime -> Prop := fun _ _ => False.
Definition nothing : uuid -> Prop := fun _ => False.

Lemma quiet_service_env : service_env nobody nothing (quiet_env database).
Proof. split; [apply quiet_profile_env|apply demo_auth_env|apply quiet_relay_env]. Qed.

Definition demo_registered : service :=
  after_registration deployed nobody nothing
    (register demo_config "ann@x" "password" (demo_hash x01) (quiet_env database)
       (begin deployed 0)).2.
Definition demo_in : service :=
  after demo_registered nobody nothing
    (w_db (login 1000000 {| lc_email := "ann@x"; lc_password := "password" |}
      (quiet_env database) (begin demo_registered 100)).2).
Definition demo_relayed : service :=
  after_relay demo_in nobody nothing
    (run {| rl_claim_lease_seconds := of_Z 30; rl_retry_policy := default_policy;
            rl_stopped n := Nat.leb 300 n |} 3 f1 10 (quiet_env database)
       (begin demo_in 200)).2.

Lemma demo_reachable : rtc service_step deployed demo_relayed.
Proof.
  eapply rtc_l; [|eapply rtc_l; [|apply rtc_once]].
  - apply step_registration; [apply quiet_service_env|].
    apply (en_register demo_config "ann@x"). vm_compute. reflexivity.
  - apply step_session; [apply quiet_service_env|apply en_login].
  - apply step_relay. apply quiet_service_env.
Qed.

(** One account, one session and one message, which was sent. *)
Lemma service_end_to_end_witness :
  (size (users (sv_db demo_relayed)), size (db_sessions (sv_db demo_relayed)),
   om_status <$> rows (outbox (sv_db demo_relayed))) = (1%nat, 1%nat, [OB_SUCCESS]) /\
  forall i u, users (sv_db demo_relayed) !! i = Some u -> u_id u = i /\ account_of demo_relayed u.
Proof.
  split; [vm_compute; reflexivity|]. exact (proj1 (service_end_to_end demo_relayed demo_reachable)).
Defined.
End demo.
