(* ===== verification/Passwords.v ===== *)
(** * Password hashing

    [infrastructure/security/password_hasher.py]: the adapter behind
    [PasswordHasher], and the semaphore that bounds how many calls are at work.  A
    call is a task: it sleeps for the jitter, queues for the semaphore, waits for a
    worker thread and gives its slot back.  Argon2 is a parameter. *)

From S2P Require Import Prelude Exceptions Domain Sql Registration Accounts.

(** What pwdlib raises. *)
Inductive kdf_error : Set :=
| HashingError
| UnknownHashError
| KdfRaised (error : exn).

Class Argon2 := {
  argon2_hash : nat -> string -> result kdf_error string;
  argon2_verify : string -> string -> result kdf_error bool
}.

Record hasher_config := {
  hc_max_concurrency : Z;
  hc_jitter_min_ms : Z;
  hc_jitter_max_ms : Z
}.

(** [Argon2PasswordHasher.__init__] *)
Definition hasher_init (cfg : hasher_config) : res hasher_config :=
  raise_if (hc_max_concurrency cfg <=? 0) EValueError;;
  raise_if ((hc_jitter_min_ms cfg <? 0) || (hc_jitter_max_ms cfg <? hc_jitter_min_ms cfg))
    EValueError;;
  mret cfg.

(** [_sleep_jitter]: [random_below] is given the window and answers below it; the
    milliseconds slept, if any. *)
Definition sleep_jitter (cfg : hasher_config) (random_below : Z -> Z) : option Z :=
  let window_ms := hc_jitter_max_ms cfg - hc_jitter_min_ms cfg + 1 in
  let delay_ms := hc_jitter_min_ms cfg + random_below window_ms in
  if 0 <? delay_ms then Some delay_ms else None.

Section adapter.
Context `{Argon2}.

Definition raised (error : kdf_error) : exn :=
  match error with HashingError | UnknownHashError => EException | KdfRaised e => e end.

Definition value_or_runtime_error (error : kdf_error) : bool :=
  match error with
  | KdfRaised e => isinstance e EValueError || isinstance e ERuntimeError
  | _ => false
  end.

(** [hash] and [verify], inside the semaphore. *)
Definition hash (n : nat) (password : string) : res string :=
  match argon2_hash n password with
  | Ok h => mret h
  | Err error =>
      if match error with HashingError => true | _ => value_or_runtime_error error end
      then raise PasswordHashingError else raise (raised error)
  end.

Definition verify (password password_hash : string) : res bool :=
  match argon2_verify password password_hash with
  | Ok b => mret b
  | Err error =>
      if match error with UnknownHashError => true | _ => value_or_runtime_error error end
      then raise PasswordHashingError else raise (raised error)
  end.

Definition argon2_hasher : PasswordHasher :=
  {| hash_password := hash; verify_password := verify |}.
End adapter.

(** ** The semaphore *)

Record pool := {
  (** the semaphore's value *)
  slots : Z;
  sleeping : gset nat;
  (** the waiters, first come, first served *)
  queued : list nat;
  (** tasks inside [async with self._semaphore] *)
  working : gset nat;
  (** worker threads that compute a hash *)
  threads : gset nat;
  ended : gset nat
}.

Definition pool_init (cfg : hasher_config) : pool :=
  {| slots := hc_max_concurrency cfg; sleeping := ∅; queued := []; working := ∅; threads := ∅;
     ended := ∅ |}.

(** Tasks that have called. *)
Definition known (p : pool) : gset nat :=
  sleeping p ∪ list_to_set (queued p) ∪ working p ∪ threads p ∪ ended p.

Inductive pool_step : Set :=
| Call (t : nat)
| Wake (t : nat)
| Acquire (t : nat)
| ThreadDone (t : nat)
| Cancel (t : nat).

(** A cancellation is delivered to the task that awaits the thread; the thread itself
    runs on. *)
Definition step (s : pool_step) (p : pool) : option pool :=
  match s with
  | Call t =>
      if decide (t ∈ known p) then None
      else Some {| slots := slots p; sleeping := {[t]} ∪ sleeping p; queued := queued p;
                   working := working p; threads := threads p; ended := ended p |}
  | Wake t =>
      if decide (t ∈ sleeping p)
      then Some {| slots := slots p; sleeping := sleeping p ∖ {[t]};
                   queued := queued p ++ [t]; working := working p; threads := threads p;
                   ended := ended p |}
      else None
  | Acquire t =>
      if decide (head (queued p) = Some t /\ 0 < slots p)
      then Some {| slots := slots p - 1; sleeping := sleeping p; queued := tail (queued p);
                   working := {[t]} ∪ working p; threads := {[t]} ∪ threads p;
                   ended := ended p |}
      else None
  | ThreadDone t =>
      if decide (t ∈ threads p) then
        if decide (t ∈ working p)
        then Some {| slots := slots p + 1; sleeping := sleeping p; queued := queued p;
                     working := working p ∖ {[t]}; threads := threads p ∖ {[t]};
                     ended := {[t]} ∪ ended p |}
        else Some {| slots := slots p; sleeping := sleeping p; queued := queued p;
                     working := working p; threads := threads p ∖ {[t]}; ended := ended p |}
      else None
  | Cancel t =>
      if decide (t ∈ working p)
      then Some {| slots := slots p + 1; sleeping := sleeping p; queued := queued p;
                   working := working p ∖ {[t]}; threads := threads p;
                   ended := {[t]} ∪ ended p |}
      else if decide (t ∈ sleeping p \/ t ∈ queued p)
      then Some {| slots := slots p; sleeping := sleeping p ∖ {[t]};
                   queued := filter (fun u => u <> t) (queued p);
                   working := working p; threads := threads p; ended := {[t]} ∪ ended p |}
      else None
  end.

Fixpoint steps (l : list pool_step) (p : pool) : option pool :=
  match l with
  | [] => Some p
  | s :: l => p ← step s p; steps l p
  end.

(** ** Correctness *)

(** Cancellations that a schedule delivers to tasks at work. *)
Fixpoint orphaned (l : list pool_step) (p : pool) : nat :=
  match l with
  | [] => 0
  | s :: l =>
      let k := match s with Cancel t => if decide (t ∈ working p) then 1%nat else 0%nat | _ => 0%nat end in
      match step s p with Some p => k + orphaned l p | None => k end
  end.

(** Slots in use and free add up; every task at work waits for a thread. *)
Record pool_ok (cfg : hasher_config) (p : pool) : Prop := {
  po_slots : slots p + Z.of_nat (size (working p)) = hc_max_concurrency cfg;
  po_free : 0 <= slots p;
  po_working : working p ⊆ threads p;
  po_nodup : NoDup (queued p);
  po_queued : list_to_set (queued p) ## threads p;
  po_sleeping : sleeping p ## threads p ∪ list_to_set (queued p)
}.

Lemma size_insert (t : nat) (X : gset nat) : t ∉ X -> size ({[t]} ∪ X) = S (size X).
Proof. intros Ht. rewrite size_union by set_solver. by rewrite size_singleton. Qed.

Lemma size_remove (t : nat) (X : gset nat) : t ∈ X -> S (size (X ∖ {[t]})) = size X.
Proof.
  intros Ht. rewrite <- (size_insert t) by set_solver.
  by rewrite <- union_difference_L by set_solver.
Qed.

Lemma step_ok cfg s p p' : pool_ok cfg p -> step s p = Some p' -> pool_ok cfg p'.
Proof.
  intros [Hs Hf Hw Hd Hq Hz]. destruct s as [t|t|t|t|t]; cbn; intros Hp.
  - case_decide as Ht; simplify_eq/=. unfold known in Ht. constructor; cbn; try done; set_solver.
  - case_decide as Ht; simplify_eq/=. constructor; cbn; try done; try set_solver.
    apply list.NoDup_app. split; [done|]. split; [set_solver|apply NoDup_singleton].
  - case_decide as Ht; simplify_eq/=. destruct Ht as [Ht Hlt].
    destruct (queued p) as [|u q]; simplify_eq/=. apply list.NoDup_cons in Hd as [Hu Hd].
    constructor; cbn; try done; try lia; try set_solver.
    rewrite size_insert by set_solver. lia.
  - repeat case_decide; simplify_eq/=; constructor; cbn; try done; try lia; try set_solver.
    pose proof (size_remove t (working p) ltac:(done)). lia.
  - case_decide as Ht; [|case_decide as Hw']; simplify_eq/=.
    + constructor; cbn; try done; try lia; try set_solver.
      pose proof (size_remove t (working p) ltac:(done)). lia.
    + assert (Hsub : list_to_set (filter (fun u => u <> t) (queued p)) ⊆
        (list_to_set (queued p) : gset nat)).
      { intros u. rewrite !elem_of_list_to_set, list_elem_of_filter. tauto. }
      constructor; cbn; [done|done|done|by apply list.NoDup_filter|set_solver..].
Qed.

(** Threads that no task waits for. *)
Definition abandoned (p : pool) : gset nat := threads p ∖ working p.

Lemma steps_abandoned cfg l p p' :
  pool_ok cfg p -> steps l p = Some p' ->
  pool_ok cfg p' /\ (size (abandoned p') <= size (abandoned p) + orphaned l p)%nat.
Proof.
  revert p. induction l as [|s l IH]; intros p Hp; cbn [steps orphaned].
  { intros [= <-]. split; [done|lia]. }
  destruct (step s p) as [p1|] eqn:E; [|done]. cbn [mbind option_bind]. intros Hl.
  pose proof (step_ok cfg s p p1 Hp E) as Hp1. destruct (IH p1 Hp1 Hl) as [Hok Hle].
  split; [done|]. enough (size (abandoned p1) <= size (abandoned p) +
    match s with Cancel t => if decide (t ∈ working p) then 1 else 0 | _ => 0 end)%nat by lia.
  destruct Hp as [Hs Hf Hw _ Hq Hz]. unfold abandoned.
  destruct s as [t|t|t|t|t]; cbn in E; repeat case_decide; simplify_eq/=; try lia.
  - apply Nat.le_trans with (size (threads p ∖ working p)); [|lia].
    apply subseteq_size. set_solver.
  - apply Nat.le_trans with (size (threads p ∖ working p)); [|lia].
    apply subseteq_size. set_solver.
  - apply Nat.le_trans with (size (threads p ∖ working p)); [|lia].
    apply subseteq_size. set_solver.
  - apply Nat.le_trans with (size ({[t]} ∪ (threads p ∖ working p))).
    + apply subseteq_size. intros x Hx. destruct (decide (x = t)); set_solver.
    + rewrite size_union_alt. pose proof (size_singleton t (C := gset nat)).
      pose proof (subseteq_size ((threads p ∖ working p) ∖ {[t]}) (threads p ∖ working p) ltac:(set_solver)).
      lia.
Qed.

(** The pool of password work, under every schedule of calls, wake-ups, finished
    threads and cancellations.  No slot is ever lost or made up: the free slots and
    the tasks at work add up to the configured bound, so at most that many tasks
    are at work, and whenever fewer are, the first in the queue can start.  The bound is on
    tasks, though: a task that is cancelled while its thread computes gives its slot
    back at once, so the threads at work can exceed the bound, by at most the
    number of those cancellations. *)
Theorem password_pool_bounded cfg l p :
  hasher_init cfg = Ok cfg -> steps l (pool_init cfg) = Some p ->
  slots p + Z.of_nat (size (working p)) = hc_max_concurrency cfg /\
  Z.of_nat (size (working p)) <= hc_max_concurrency cfg /\
  (forall t, head (queued p) = Some t -> Z.of_nat (size (working p)) < hc_max_concurrency cfg ->
     is_Some (step (Acquire t) p)) /\
  Z.of_nat (size (threads p)) <=
    hc_max_concurrency cfg + Z.of_nat (orphaned l (pool_init cfg)).
Proof.
  intros Hinit Hl.
  assert (Hok0 : pool_ok cfg (pool_init cfg)).
  { unfold hasher_init in Hinit. ok_inv. bools. constructor; cbn; try set_solver.
    - rewrite size_empty. lia.
    - lia.
    - constructor. }
  destruct (steps_abandoned cfg l _ _ Hok0 Hl) as [[Hs Hf Hw Hd Hq Hz] Habandoned].
  split; [done|]. split; [lia|]. split.
  - intros t Ht Hlt. cbn. rewrite decide_True by (split; [done|lia]). by eexists.
  - unfold abandoned in *. cbn in Habandoned.
    assert (Hsize : size (threads p) = (size (working p) + size (threads p ∖ working p))%nat).
    { rewrite <- size_union by set_solver. by rewrite <- union_difference_L. }
    replace (size (∅ ∖ ∅ : gset nat)) with 0%nat in Habandoned by done. lia.
Qed.

Definition demo_hasher_config : hasher_config :=
  {| hc_max_concurrency := 2; hc_jitter_min_ms := 20; hc_jitter_max_ms := 80 |}.

(** Two calls at work, one of them cancelled, and a third that takes its slot: three
    threads compute at once. *)
Definition demo_schedule : list pool_step :=
  [Call 1; Call 2; Call 3; Wake 1; Wake 2; Wake 3; Acquire 1; Acquire 2; Cancel 1; Acquire 3].

Lemma password_pool_bounded_witness :
  exists p, steps demo_schedule (pool_init demo_hasher_config) = Some p /\
    size (threads p) = 3%nat /\ slots p = 0 /\
    Z.of_nat (size (working p)) <= 2.
Proof.
  eexists. split; [vm_compute; reflexivity|]. split; [vm_compute; reflexivity|].
  split; [reflexivity|].
  eapply (password_pool_bounded demo_hasher_config demo_schedule); vm_compute; reflexivity.
Defined.

(** ** The jitter and the errors *)

(** The jitter stays in its configured range, and the library's failures in the
    service's vocabulary: whatever a hash or a verification runs into (the
    library's own error, a [ValueError] or a [RuntimeError]) is a
    [PasswordHashingError], everything else is passed on as it is. *)
Theorem password_errors `{Argon2} cfg random_below n password password_hash error :
  hasher_init cfg = Ok cfg ->
  (forall k, 0 < k -> 0 <= random_below k < k) ->
  (forall ms, sleep_jitter cfg random_below = Some ms ->
     hc_jitter_min_ms cfg <= ms <= hc_jitter_max_ms cfg /\ 0 < ms) /\
  let outcome := if isinstance error EValueError || isinstance error ERuntimeError
                 then PasswordHashingError : exn else error in
  (argon2_hash n password = Err (KdfRaised error) -> hash n password = Err outcome) /\
  (argon2_verify password password_hash = Err (KdfRaised error) ->
     verify password password_hash = Err outcome).
Proof.
  intros Hinit Hr. split.
  - unfold hasher_init in Hinit. ok_inv. bools. unfold sleep_jitter. intros ms.
    pose proof (Hr (hc_jitter_max_ms cfg - hc_jitter_min_ms cfg + 1) ltac:(lia)).
    case_match eqn:E; [|done]. bools. intros [= <-]. lia.
  - split; intros E; [unfold hash|unfold verify]; rewrite E; cbn;
      by destruct (isinstance error EValueError || isinstance error ERuntimeError).
Qed.
