(* ===== verification/Documented.v ===== *)
(** * What the endpoints raise

    Every endpoint of [routers/v1/auth.py] answers only what its OpenAPI description
    announces, or the internal error: the exceptions of its handler, of the
    repositories and of the unit of work are followed through every [except] clause,
    for every environment and every collaborator that raises what its adapter does. *)

From S2P Require Import Prelude Exceptions Domain Retry Text Json Sql Registration Outbox Effects.
From S2P Require Import Raises Accounts Idempotency Database RegisterFlow Coordinator Fingerprint.
From S2P Require Import Tokens Sessions AuthFlow Refresh ErrorResponses Endpoints CircuitBreaker.
From S2P Require Import Profile AccessTokens ReplayProtection HotStore Passwords OpenApi.

(** ** What the handlers raise *)

(** Every call of a collaborator raises an exception of one of these codes, or one the
    table does not list. *)
Record behaved `{PasswordHasher} `{AccessTokenIssuer} `{AccessTokenVerifier} `{ReplayProtector}
    `{ProfileProvisioner} : Prop := {
  bh_hash : forall n password, fails (permits []) (hash_password n password);
  bh_verify : forall password h, fails (permits []) (verify_password password h);
  bh_issue : forall principal now jti, fails (permits []) (access_issue principal now jti);
  bh_token : forall now token, fails (permits [INVALID_TOKEN]) (access_verify now token);
  bh_protect : forall n payload aad,
    fails (permits [REFRESH_REPLAY_UNAVAILABLE]) (protect n payload aad);
  bh_restore : forall envelope aad,
    fails (permits [REFRESH_REPLAY_UNAVAILABLE]) (restore envelope aad);
  bh_profile : forall n user_id registered_at,
    fails (permits [PROFILE_PROVISIONING_UNAVAILABLE])
      (create_profile_answer n user_id registered_at)
}.

Record hot_behaved (hs : HotStore) : Prop := {
  hb_begin : forall n i h owner lease,
    fails (permits [IDEMPOTENCY_UNAVAILABLE]) (hs_begin hs n i h owner lease);
  hb_complete : forall n i owner c,
    fails (permits [IDEMPOTENCY_UNAVAILABLE]) (hs_complete hs n i owner c);
  hb_abandon : forall n i owner,
    fails (permits [IDEMPOTENCY_UNAVAILABLE]) (hs_abandon hs n i owner)
}.

Section repositories.
Context `{EmailSyntax} (cs : list AuthApiErrorCode).
Abbreviation X := (permits cs).

Let Htr : translated X := permits_translated cs.

Lemma user_validate_fails u :
  fails (fun x => isinstance x InvalidDomainStateError || isinstance x EValidationError = true \/ X x)
    (User_validate u).
Proof.
  unfold User_validate, NormalizedEmail_new, PasswordHash_new, validate_created_at,
    validate_updated_at, require_aware. repeat raise_step.
Qed.

Lemma token_validate_fails t : fails X (RefreshToken_validate t).
Proof.
  unfold RefreshToken_validate, validate_created_at, validate_used_at, require_aware.
  repeat raise_step.
Qed.

Lemma session_validate_fails s : fails X (AuthSession_validate s).
Proof.
  unfold AuthSession_validate, validate_created_at, validate_lifecycle, check_owned_token,
    require_aware. repeat raise_step.
Qed.

Lemma user_to_domain_fails u : fails X (user_to_domain u).
Proof. apply fails_stored_state; [apply user_validate_fails|done]. Qed.

Lemma fails_stored {A} (r : res A) : fails X r -> fails X (stored_state r).
Proof. intros Hr. apply fails_stored_state; [|done]. eapply fails_weaken; [|exact Hr]. by right. Qed.

#[local] Hint Resolve fails_stored token_validate_fails session_validate_fails
  user_to_domain_fails : raises.

Lemma one_or_none_fails {A} (l : list A) : fails X (one_or_none l).
Proof. unfold one_or_none. repeat raise_step. Qed.
#[local] Hint Resolve one_or_none_fails : raises.

Lemma one_user_fails l : fails X (one_user l).
Proof. unfold one_user. repeat raise_step. Qed.

Lemma user_get_fails i t : fails X (user_get i t).
Proof. unfold user_get. repeat raise_step. Qed.

Lemma found_token_fails o : fails X (found_token o).
Proof. unfold found_token, token_to_domain. destruct o; [|done]. repeat raise_step. Qed.

Lemma with_token_fails o t : fails X (with_token o t).
Proof.
  unfold with_token. destruct o as [r|]; [|done].
  assert (Hv : fails X (AuthSession_validate (session_of r None);;
    AuthSession_validate (session_of r (Some t)))) by repeat raise_step.
  destruct (AuthSession_validate (session_of r None);; _) as [s|x]; [done|]. by destruct (isinstance _ _).
Qed.
#[local] Hint Resolve one_user_fails user_get_fails found_token_fails with_token_fails : raises.

Lemma session_update_raises s : t_raises X (session_update s).
Proof.
  unfold session_update, select_for_update, update_session, session_to_domain.
  repeat raise_step.
Qed.

Lemma token_update_raises t : t_raises X (token_update t).
Proof.
  unfold token_update, select_for_update, update_token, token_to_domain.
  repeat raise_step.
Qed.

Lemma session_create_raises s : t_raises X (session_create s).
Proof.
  unfold session_create, insert_session, session_to_domain.
  repeat raise_step.
Qed.

Lemma token_create_raises t : t_raises X (token_create t).
Proof.
  unfold token_create, insert_token, token_to_domain.
  repeat raise_step.
Qed.
#[local] Hint Resolve session_update_raises token_update_raises session_create_raises
  token_create_raises : raises.

Lemma save_raises s : t_raises X (save s).
Proof. unfold save. repeat raise_step. Qed.

Lemma create_session_raises s : t_raises X (create_session s).
Proof. unfold create_session. repeat raise_step. Qed.

Lemma session_by_hash_raises h : t_raises X (get_by_refresh_hash_for_update h).
Proof.
  unfold get_by_refresh_hash_for_update, get_by_hash_for_update, select_for_update.
  repeat raise_step.
Qed.

Lemma session_by_id_raises i : t_raises X (get_by_refresh_id i).
Proof. unfold get_by_refresh_id, token_get. repeat raise_step. Qed.
End repositories.

#[export] Hint Resolve permits_translated fails_stored token_validate_fails session_validate_fails
  user_to_domain_fails one_or_none_fails one_user_fails user_get_fails save_raises
  create_session_raises session_by_hash_raises session_by_id_raises : raises.

Lemma fails_permits {A} cs cs' (r : res A) :
  fails (permits cs) r -> cs ⊆ cs' -> fails (permits cs') r.
Proof. intros Hr Hs. eapply fails_weaken; [|exact Hr]. intros x. by apply permits_weaken. Qed.

(** The exceptions of a collaborator are among those a route describes. *)
Ltac collaborator H :=
  eapply fails_permits; [apply H|apply (bool_decide_unpack _); vm_compute; exact I].

Section sign_in.
Context `{EmailSyntax} `{PasswordHasher} `{Sha256} `{RandomTokens} `{AccessTokenIssuer}
  `{AccessTokenVerifier} `{ReplayProtector} `{ProfileProvisioner}.
Context (Hb : behaved) (settings : SecuritySettings).

Lemma issue_raises cs user now : t_raises (permits cs) (issue (DB := database) user now).
Proof.
  unfold issue, codec_issue, IssuedRefreshToken_new. repeat raise_step.
  eapply fails_permits; [apply Hb|apply list_subseteq_nil].
Qed.

Lemma start_fails cs session_id token_id user_id h now ttl :
  fails (permits cs) (start session_id token_id user_id h now ttl).
Proof. unfold start, validate_ttl. repeat raise_step. Qed.

Lemma credentials_fails lo payload :
  fails (permits [VALIDATION_ERROR]) (credentials_request lo payload).
Proof. unfold credentials_request, NormalizedEmail_new. repeat raise_step. Qed.

Lemma login_raises ttl command : raises (permits (codes login_route)) (login ttl command).
Proof.
  pose proof (permits_translated (codes login_route)) as Htr.
  unfold login, verify_or_dummy, login_body, user_for_update, select_for_update, user_by_email,
    user_get_for_update.
  repeat raise_step; try collaborator Hb; auto using start_fails, issue_raises.
Qed.

Lemma sign_in_raises payload : raises (permits (codes login_route)) (sign_in settings payload).
Proof.
  unfold sign_in, LoginCommand_new, NormalizedEmail_new.
  repeat raise_step; try collaborator credentials_fails; auto using login_raises.
Qed.
End sign_in.

Section sessions.
Context `{EmailSyntax} `{PasswordHasher} `{Sha256} `{RandomTokens} `{AccessTokenIssuer}
  `{AccessTokenVerifier} `{ReplayProtector} `{ProfileProvisioner}.
Context (Hb : behaved).

Lemma revoke_fails cs s now : fails (permits cs) (revoke s now).
Proof. unfold revoke. repeat raise_step. Qed.

Lemma logout_raises token : raises (permits (codes logout_route)) (logout token).
Proof.
  pose proof (permits_translated (codes logout_route)) as Htr.
  unfold logout, logout_body. repeat raise_step. auto using revoke_fails.
Qed.

(** What is read from the table has a normalised address. *)
Definition normalized (u : User) : Prop := NormalizedEmail_new (u_email u) = Ok (u_email u).

Lemma user_get_gives `{!EmailLaws} cs i t :
  gives (permits cs) (fun o => forall u, o = Some u -> normalized u) (user_get i t).
Proof.
  unfold user_get. destruct (t !! i) as [r|]; [|done].
  pose proof (user_to_domain_fails cs r) as Hf. unfold user_to_domain, stored_state in *.
  destruct (User_validate r) as [u|x] eqn:Hv; cbn; [|by destruct (_ || _)].
  intros v [= <-]. unfold User_validate in Hv. ok_inv. subst u.
  unfold normalized. cbn. by eapply normalized_stable.
Qed.

Lemma current_user_yields `{!EmailLaws} token :
  yields (permits (codes me_route)) (fun c => NormalizedEmail_new (cu_email c) = Ok (cu_email c))
    (get_current_user token).
Proof.
  pose proof (permits_translated (codes me_route)) as Htr. unfold get_current_user.
  apply (yields_bind _ (fun _ => True)); [done|]. intros now _.
  apply (yields_bind _ (fun _ => True)); [apply yields_raises; raise_step; collaborator Hb|].
  intros claims _. apply (yields_bind _ normalized).
  - apply yields_transaction; [done|]. eapply t_yields_bind.
    { apply t_yields_query; [done|]. intros db. apply user_get_gives. }
    intros [u|] Hu; [|intros e t; cbn; allowed].
    destruct (can_authenticate u); intros e t; [by apply Hu|cbn; allowed].
  - intros u Hu e w. unfold lift, CurrentUser_of. cbn [fst]. unfold normalized in Hu. by rewrite Hu.
Qed.
End sessions.

Section refresh.
Context `{EmailSyntax} `{PasswordHasher} `{Sha256} `{RandomTokens} `{AccessTokenIssuer}
  `{AccessTokenVerifier} `{ReplayProtector} `{ProfileProvisioner}.
Context (Hb : behaved) (ttl retention : Z) (beats : nat -> nat) (hot : option HotStore) (lease : Z).
Context (Hhot : forall hs, hot = Some hs -> hot_behaved hs).
Abbreviation X := (permits (codes refresh_route)).

Let Htr : translated X := permits_translated _.

Lemma result_new_fails outcome c : fails X (ExecutionResult_new outcome c).
Proof. unfold ExecutionResult_new. repeat raise_step. Qed.
#[local] Hint Resolve result_new_fails : raises.

Lemma record_completed_fails row : fails X (record_completed row).
Proof.
  unfold record_completed.
  assert (Hc : fails X (CompletedIdempotencyResult_new (ir_request_hash row) (ir_stored row))).
  { unfold CompletedIdempotencyResult_new, StoredResult_validate. repeat raise_step. }
  destruct (CompletedIdempotencyResult_new _ _) as [c|x]; [done|]. by destruct (isinstance _ _).
Qed.
#[local] Hint Resolve record_completed_fails : raises.

Lemma find_existing_raises i h :
  raises X (find_existing (Ev := idem_event) (DB := database) i h).
Proof.
  unfold find_existing, validate_digest, get_completed, classify. repeat raise_step.
Qed.
#[local] Hint Resolve find_existing_raises : raises.

Lemma execute_once_raises i h (op : T database StoredResult) :
  t_raises X op -> raises X (execute_once (Ev := idem_event) retention i h op).
Proof.
  intros Hop. unfold execute_once, execution_failed, execute_body, validate_digest,
    CompletedIdempotencyResult_new, StoredResult_validate, try_add_completed, insert_record.
  repeat raise_step.
Qed.
#[local] Hint Resolve execute_once_raises : raises.

Lemma degrade_raises stage (m : M database idem_event bool) : raises X m -> raises X (degrade stage m).
Proof. intros Hm. unfold degrade. repeat raise_step. Qed.

Lemma heartbeat_raises hs i owner n : raises X (heartbeat (DB := database) hs i owner lease n).
Proof.
  induction n as [|n IH]; [done|]. cbn [heartbeat].
  apply (raises_attempt X (fun _ => True)); [|by intros []|done].
  intros e w. by destruct (hot_renew hs i owner lease e w) as [[]].
Qed.

Lemma execute_leased_raises hs i h (op : T database StoredResult) owner :
  hot_behaved hs -> t_raises X op -> raises X (execute_leased retention beats hs i h op owner lease).
Proof.
  intros Hh Hop.
  assert (Ha : raises X (degrade "abandon" (hot_abandon (DB := database) hs i owner))).
  { apply degrade_raises, raises_call. intros n. collaborator Hh. }
  assert (Hc : forall c, raises X (degrade "complete" (hot_complete (DB := database) hs i owner c))).
  { intros c. apply degrade_raises, raises_call. intros n. collaborator Hh. }
  unfold execute_leased, observe. repeat raise_step; auto using heartbeat_raises.
Qed.

Lemma coordinate_raises i h (op : T database StoredResult) :
  t_raises X op -> raises X (coordinate retention beats hot i h op lease).
Proof.
  intros Hop. unfold coordinate, after_begin, execute_degraded, observe, hot_begin.
  repeat raise_step; try (collaborator Hhot; done); auto using execute_leased_raises.
Qed.

Lemma accepts_fails s now b : fails X (accepts_refresh s now b).
Proof. unfold accepts_refresh, require_token, is_active, require_aware. repeat raise_step; apply revoke_fails. Qed.

Lemma rotate_fails s i now h : fails X (rotate s i now ttl h).
Proof.
  unfold rotate, validate_ttl, require_token, is_active, require_aware, consumed.
  repeat raise_step.
Qed.

Lemma refresh_operation_raises raw i h : t_raises X (refresh_operation ttl raw i h).
Proof.
  unfold refresh_operation, refresh_found, rotate_session, rejected_result, success_result,
    StoredResult_validate.
  repeat raise_step; first [apply accepts_fails|apply rotate_fails|by apply issue_raises|collaborator Hb].
Qed.

Lemma replay_stored_raises i h stored : raises X (replay_stored i h stored).
Proof.
  unfold replay_stored, replay_body, replay_check, can_replay, require_token, is_active,
    require_aware, pair_of_payload.
  repeat raise_step; collaborator Hb.
Qed.

Lemma refresh_raises command : raises X (refresh ttl retention beats hot lease command).
Proof.
  assert (Hh : fails X (refresh_request_hash (rc_refresh_token command))) by done.
  unfold refresh, refresh_identity, IdempotencyIdentity_validate.
  repeat raise_step; auto using coordinate_raises, refresh_operation_raises, replay_stored_raises.
Qed.
End refresh.

Section register.
Context `{EmailSyntax} `{FloatPow} `{PasswordHasher} `{AccessTokenIssuer} `{AccessTokenVerifier}
  `{ReplayProtector} `{ProfileProvisioner}.
Context (Hb : behaved) (cfg : reg_config).
Abbreviation X := (permits (codes register_route)).

Let Htr : translated X := permits_translated _.

Lemma operation_to_domain_fails op : fails X (ro_to_domain op).
Proof.
  apply fails_stored_state; [|done].
  unfold RegistrationOperation_validate, NormalizedEmail_new, ro_validate_lifecycle.
  repeat raise_step.
Qed.

Lemma timedelta_fails x : fails X (timedelta_seconds x).
Proof. unfold timedelta_seconds. repeat raise_step. Qed.

Lemma delay_fails p n jitter : fails X (delay_seconds p n jitter).
Proof. unfold delay_seconds. repeat raise_step. Qed.
#[local] Hint Resolve operation_to_domain_fails timedelta_fails delay_fails : raises.

Lemma sql_update_fails {R} ck p set (t : gmap Z R) : fails X (sql_update ck p set t).
Proof. unfold sql_update. repeat raise_step. Qed.
#[local] Hint Resolve sql_update_fails : raises.

Lemma update_raises (f : datetime -> reg_table -> res (bool * reg_table)) :
  (forall now t, fails X (f now t)) -> t_raises X (on_registrations (fun now _ => f now)).
Proof. intros Hf. unfold on_registrations. repeat raise_step. Qed.

Lemma update_one_fails {R} ck pk i cond set (t : gmap Z R) : fails X (update_one ck pk i cond set t).
Proof. unfold update_one. repeat raise_step. Qed.
#[local] Hint Resolve update_one_fails : raises.

Lemma block_raises op owner error : raises X (block_operation op owner error).
Proof.
  unfold block_operation, block. repeat raise_step.
  apply update_raises. intros. apply update_one_fails.
Qed.

Lemma retry_raises op owner error : raises X (retry_or_block cfg op owner error).
Proof.
  unfold retry_or_block, Registration.schedule_retry. repeat raise_step; try apply block_raises.
  apply update_raises. intros. apply update_one_fails.
Qed.

Lemma finalize_raises op owner : raises X (finalize cfg op owner).
Proof.
  assert (Hv : forall u, fails X (User_validate u)).
  { intros u. unfold User_validate, NormalizedEmail_new, PasswordHash_new, validate_created_at,
      validate_updated_at, require_aware. repeat raise_step. }
  unfold finalize, finalize_body, on_users, on_outbox, create_if_absent, publish.
  repeat raise_step.
  apply update_raises. intros. apply update_one_fails.
Qed.

Lemma resume_raises op owner : raises X (resume cfg op owner).
Proof.
  unfold resume, profile_failed, finalization_failed, create_profile.
  repeat raise_step; auto using block_raises, retry_raises, finalize_raises.
  collaborator Hb.
Qed.

Lemma resume_existing_raises op email password : raises X (resume_existing cfg op email password).
Proof.
  unfold resume_existing, on_registrations, claim_by_key_hash, validate_claim_window.
  repeat raise_step; auto using resume_raises. collaborator Hb.
Qed.

Lemma register_raises email password key_hash : raises X (register cfg email password key_hash).
Proof.
  assert (Hl : raises X (load_by_key key_hash)).
  { unfold load_by_key, get_by_key_hash. repeat raise_step. }
  assert (Hv : forall op, fails X (RegistrationOperation_validate op)).
  { intros op. unfold RegistrationOperation_validate, NormalizedEmail_new, ro_validate_lifecycle.
    repeat raise_step. }
  unfold register, on_registrations, user_by_email, try_create.
  repeat raise_step; auto using resume_raises, resume_existing_raises. collaborator Hb.
Qed.
End register.

(** ** Responses *)

(** Every answer is described, or the internal error. *)
Definition documented {DB Ev} (rt : route) (m : M DB Ev response) : Prop :=
  forall e w, match (m e w).1 with
              | Ok r => documents rt r = true \/ r = create_internal_error_response
              | Err x => is_exception x = false
              end.

Lemma respond_documented `{HandlerLaws} {DB Ev} n rt (m : M DB Ev response) :
  rt ∈ routes -> yields (permits (codes rt)) (fun r => documents rt r = true) m ->
  documented rt (respond n m).
Proof.
  intros Hrt Hm e w. rewrite respond_eq. specialize (Hm e w).
  unfold gives in Hm. destruct (m e w) as [[r|x] w']; cbn [fst] in *; [by left|].
  destruct (is_exception x) eqn:Ex; [|done]. by apply error_documented.
Qed.

(** A program whose last step builds the response. *)
Lemma yields_map {DB Ev A B} X (Q : B -> Prop) (m : M DB Ev A) (f : A -> B) :
  raises X m -> (forall a, Q (f a)) -> yields X Q (a ← m; mret (f a)).
Proof. intros Hm Hf. apply (yields_bind _ (fun _ => True)); [done|]. intros a _ e w. apply Hf. Qed.

Lemma register_response_documented result :
  documents register_route (register_response result) = true.
Proof.
  unfold register_response. destruct (rr_outcome result).
  - generalize (str (int_chars match rr_retry_after_seconds result with
                              | Some n => if n =? 0 then 1 else n | None => 1 end)).
    intros text. vm_compute. reflexivity.
  - vm_compute. reflexivity.
Qed.

Section endpoints.
Context `{EmailSyntax} `{PasswordHasher} `{Sha256} `{RandomTokens} `{AccessTokenIssuer}
  `{AccessTokenVerifier} `{ReplayProtector} `{FloatPow} `{ProfileProvisioner} `{HandlerLaws}.
Context `{!EmailLaws} (settings : SecuritySettings) (n : Z).

Lemma submit_raises cfg payload header :
  behaved -> raises (permits (codes register_route)) (submit_registration cfg payload header).
Proof.
  intros Hb. unfold submit_registration, register_request, idempotency_key_header,
    hash_idempotency_key, RegisterUserCommand_new, NormalizedEmail_new,
    validate_registration_password.
  repeat raise_step; first [by apply register_raises|collaborator credentials_fails].
Qed.

Lemma refresh_documented retention beats hot lease cookie header :
  behaved -> (forall hs, hot = Some hs -> hot_behaved hs) ->
  documented refresh_route (refresh_endpoint settings n retention beats hot lease cookie header).
Proof.
  intros Hb Hh. apply respond_documented; [repeat constructor|].
  apply (yields_bind _ (fun _ => True)).
  { unfold idempotency_key_header. apply yields_raises. repeat raise_step. }
  intros key _. destruct cookie as [token|]; [|apply yields_raise; allowed].
  apply (yields_attempt _ (permits (codes refresh_route))).
  - change (raises (permits (codes refresh_route)) (
      key_hash ← lift (hash_idempotency_key (str (Tokens.strip Domain.is_space (chars key))));
      command ← lift (RefreshCommand_new token key_hash);
      refresh (AUTH_SESSION_IDLE_TTL_SECONDS settings * 1000000) retention beats hot lease command)).
    unfold hash_idempotency_key, RefreshCommand_new. repeat raise_step. by apply refresh_raises.
  - intros tokens. by apply yields_ret.
  - intros x Hx. destruct (isinstance x InvalidRefreshTokenError); [|by apply yields_raise].
    intros e w. vm_compute. reflexivity.
Qed.

(** C13. The API's description is complete.  Whatever the environment does, every
    answer of every authentication endpoint is one its OpenAPI description announces:
    the status is described, with this model, with [Retry-After] whenever the answer has
    one, and an error's code and text are an example of its status; the only
    other answer is the internal error.  In particular no exception of the domain, the
    repositories, the unit of work or the coordinator reaches a client under a code
    the endpoint does not document, as long as the collaborators raise what their
    adapters raise. *)
Theorem responses_documented cfg payload header cookie credentials retention beats hot lease :
  behaved -> (forall hs, hot = Some hs -> hot_behaved hs) ->
  documented register_route (register_endpoint n cfg payload header) /\
  documented login_route (login_endpoint settings n payload) /\
  documented login_test_route (login_test_endpoint settings n payload) /\
  documented refresh_route
    (refresh_endpoint settings n retention beats hot lease cookie header) /\
  documented logout_route (logout_endpoint settings n cookie) /\
  documented me_route (me_endpoint n credentials).
Proof.
  intros Hb Hh. split_and!; [apply respond_documented; [repeat constructor|]..| | |].
  - apply yields_map; [by apply submit_raises|apply register_response_documented].
  - apply yields_map; [by apply sign_in_raises|by intros [? ? ?]].
  - apply (yields_map (permits (codes login_test_route))); [by apply sign_in_raises|by intros [? ? ?]].
  - by apply refresh_documented.
  - apply respond_documented; [repeat constructor|].
    apply (yields_bind _ (fun _ => True)); [by apply logout_raises|]. intros _ _.
    by apply yields_ret.
  - apply respond_documented; [repeat constructor|].
    destruct credentials as [token|]; [|apply yields_raise; allowed].
    eapply yields_bind; [by apply current_user_yields|]. intros c Hc. rewrite Hc.
    intros e w. reflexivity.
Qed.
End endpoints.

(** ** The adapters *)

(** What the libraries below the adapters raise under other classes than their own is
    not in the table. *)
Record libraries_behaved `{Argon2} (answers : nat -> uuid -> nat -> put_answer) : Prop := {
  lb_hash : forall k password x, argon2_hash k password = Err (KdfRaised x) -> permits [] x;
  lb_verify : forall password h x, argon2_verify password h = Err (KdfRaised x) -> permits [] x;
  lb_put : forall k u j x, answers k u j = PutRaised x -> permits [] x
}.

(** The profile service behind its adapter: what the breaker and the client do at each
    tick. *)
Definition http_provisioner `{FloatText} (cfg : provisioner_config) (admitted : nat -> nat -> bool)
    (answers : nat -> uuid -> nat -> put_answer) : ProfileProvisioner :=
  fun k u t => (provision cfg u t (admitted k) (answers k u)).1.

Section adapters.
Context `{Argon2} `{Jwt} `{LaxReaders} `{AesGcm} `{ReplayReaders} `{FloatText}.
Context (i : jwt_issuer) (v : jwt_verifier) (p : protector) (cfg : provisioner_config).
Context (admitted : nat -> nat -> bool) (answers : nat -> uuid -> nat -> put_answer).

Lemma attempts_fails u payload adm ans remaining attempt :
  (forall j x, ans j = PutRaised x -> permits [] x) ->
  fails (permits [PROFILE_PROVISIONING_UNAVAILABLE])
    (attempts cfg u payload adm ans remaining attempt).1.
Proof.
  intros Ha. revert attempt. induction remaining as [|m IH]; intros k; [cbn [attempts fst]; raise_step|].
  cbn [attempts]. destruct (adm k); cbn [negb]; [|cbn [fst]; raise_step].
  destruct (put_profile (ans k)) as [[]|[[] after|x]] eqn:Ep; cbn [fst]; [done| | |].
  - destruct m as [|m]; [cbn [fst]; raise_step|]. specialize (IH (S k)).
    by destruct (attempts cfg u payload adm ans (S m) (S k)).
  - raise_step.
  - unfold put_profile in Ep. destruct (ans k) as [status after| |y] eqn:Ea; [by case_match|done|].
    injection Ep as <-. eapply permits_weaken; [apply list_subseteq_nil|by apply (Ha k)].
Qed.

(** The service's adapters raise what the handlers' theorem asks of collaborators. *)
Lemma adapters_behaved :
  libraries_behaved answers ->
  @behaved argon2_hasher (issue_access_token i) (verify_access_token v) (aes_gcm_protector p)
    (http_provisioner cfg admitted answers).
Proof.
  intros [Lh Lv Lp]. split.
  - intros k password. unfold hash_password, argon2_hasher, Passwords.hash.
    specialize (Lh k password). destruct (argon2_hash k password) as [|[| |x]]; [done|by vm_compute..|].
    destruct (value_or_runtime_error _); [by vm_compute|]. by apply Lh.
  - intros password h. unfold verify_password, argon2_hasher, Passwords.verify.
    specialize (Lv password h). destruct (argon2_verify password h) as [|[| |x]]; [done|by vm_compute..|].
    destruct (value_or_runtime_error _); [by vm_compute|]. by apply Lv.
  - intros principal now jti. unfold access_issue, issue_access_token. repeat raise_step.
  - intros now token. unfold access_verify, verify_access_token, select_public_key.
    apply fails_bind; [repeat raise_step|]. intros key. destruct (jwt_decode _ _ _ _); [|raise_step..].
    destruct (claims_validate _) as [c|x] eqn:Ec; [done|].
    destruct (claims_validate_err _ _ Ec) as [->| ->]; repeat raise_step.
  - intros k payload aad. unfold protect, aes_gcm_protector, protect_payload. repeat raise_step.
  - intros envelope aad. unfold restore, aes_gcm_protector, restore_payload.
    assert (Ho : fails (fun x => x = EKeyError \/ x = EValueError) (open_envelope p envelope aad)).
    { unfold open_envelope, item_of, or_value_error. repeat raise_step. }
    destruct (open_envelope p envelope aad) as [|x]; [done|]. destruct Ho as [->| ->]; repeat raise_step.
  - intros k u t. unfold create_profile_answer, http_provisioner, provision.
    destruct (pc_configured cfg); cbn [negb fst]; [|raise_step]. apply attempts_fails. intros j x. apply Lp.
Qed.

(** So does the hot store. *)
Lemma hot_store_behaved `{Sha256} `{JsonReader} namespace ttl
    (eval : nat -> string -> request -> Z -> option reply) (ok : nat -> bool) :
  hot_behaved (circuit_breaking_store ok (valkey_store namespace ttl eval)).
Proof.
  split; intros; cbn [hs_begin hs_complete hs_abandon circuit_breaking_store valkey_store];
    unfold breaker_guarded, valkey_begin, valkey_complete, valkey_abandon, answered;
    repeat raise_step.
Qed.
End adapters.

(** ** Concrete answers *)

Section demo.
#[local] Existing Instances demo_email_syntax AuthFlow.demo_hasher demo_sha256 demo_tokens
  demo_issuer demo_protector demo_profiles demo_pow demo_lookup demo_handler_laws demo_verifier.

Lemma demo_behaved : behaved.
Proof.
  split; intros; try exact I.
  - unfold access_verify, demo_verifier. raise_step.
  - unfold restore, demo_protector. repeat raise_step.
Qed.

(** Nobody has this account: the 401 the description announces. *)
Lemma responses_documented_witness :
  summary (login_endpoint demo_settings 5 (Some ("bob@x", "wrong")%string) (quiet_env database)
    demo_auth_world) = Some (401, []) /\
  documented login_route (login_endpoint demo_settings 5 (Some ("bob@x", "wrong")%string)).
Proof.
  split; [vm_compute; reflexivity|].
  apply (responses_documented demo_settings 5 demo_config (Some ("bob@x", "wrong")%string) None None
    None 3600 (fun _ => 0%nat) None 30 demo_behaved). intros hs [=].
Defined.
End demo.
