(* ===== verification/Settings.v ===== *)
(** * Settings

    [core/settings]: the groups, what their validators refuse and normalise, the
    routing of flat keys to groups, and the contract across groups.  How pydantic
    reads a field's type from the text of the environment is not modelled: a group is
    the record of its typed fields.  Where several fields of a group, or several
    groups, are refused at once, pydantic raises one error for them; the model
    raises the first. *)

From S2P Require Import Prelude Exceptions Domain Retry Text Json Tokens AccessTokens.
From Stdlib Require Import SpecFloat.

(** ** Text *)

(** [s.split(sep)] for a one-character separator. *)
Fixpoint split_on (sep : Ascii.ascii) (l : list Ascii.ascii) : list (list Ascii.ascii) :=
  match l with
  | [] => [[]]
  | c :: l =>
      if Ascii.eqb c sep then [] :: split_on sep l
      else match split_on sep l with
           | [] => [[c]]
           | item :: items => (c :: item) :: items
           end
  end.

Definition py_split (sep : Ascii.ascii) (s : string) : list string := str <$> split_on sep (chars s).

(** [s.partition(sep)]: [None] when [sep] does not occur. *)
Fixpoint partition_chars (sep : Ascii.ascii) (l : list Ascii.ascii) :
    option (list Ascii.ascii * list Ascii.ascii) :=
  match l with
  | [] => None
  | c :: l =>
      if Ascii.eqb c sep then Some ([], l)
      else '(before, after) ← partition_chars sep l; Some (c :: before, after)
  end.

Definition partition (sep : Ascii.ascii) (s : string) : option (string * string) :=
  '(before, after) ← partition_chars sep (chars s); Some (str before, str after).

Fixpoint join (sep : string) (items : list string) : string :=
  match items with
  | [] => ""
  | [item] => item
  | item :: items => (item +:+ sep +:+ join sep items)%string
  end.

Definition COMMA : Ascii.ascii := ch 44.
Definition EQUALS : Ascii.ascii := ch 61.

Definition in_range (a b : nat) (c : Ascii.ascii) : bool :=
  let n := Ascii.nat_of_ascii c in (a <=? n)%nat && (n <=? b)%nat.

Definition shift_char (d : Z) (c : Ascii.ascii) : Ascii.ascii :=
  ch (Z.to_nat (Z.of_nat (Ascii.nat_of_ascii c) + d)).

(** [str.lower] and [str.upper]; the two letters whose capitals lie beyond the
    model's code points (U+00B5 and U+00FF) are kept. *)
Definition lower_char (c : Ascii.ascii) : Ascii.ascii :=
  if in_range 65 90 c || in_range 192 214 c || in_range 216 222 c then shift_char 32 c else c.

Definition upper_char (c : Ascii.ascii) : list Ascii.ascii :=
  if in_range 223 223 c then chars "SS"
  else if in_range 97 122 c || in_range 224 246 c || in_range 248 254 c
  then [shift_char (-32) c] else [c].

Definition py_lower (s : string) : string := str (lower_char <$> chars s).
Definition py_upper (s : string) : string := str (chars s ≫= upper_char).

(** [tuple(item.strip() for item in value.split(",") if item.strip())] *)
Definition comma_items (value : string) : list string :=
  List.filter (fun item => negb (is_empty item)) (py_strip <$> py_split COMMA value).

(** ** base.py *)

Definition read_bool (raw : option string) (default_value : bool) : res bool :=
  match raw with
  | None => mret default_value
  | Some raw =>
      let normalized := py_lower (py_strip raw) in
      if bool_decide (normalized ∈ ["1"; "true"; "yes"; "on"]%string) then mret true
      else if bool_decide (normalized ∈ ["0"; "false"; "no"; "off"]%string) then mret false
      else raise EValueError
  end.

Definition read_mute_loggers (raw : option string) : list string :=
  comma_items (default ""%string raw).

(** ** The constraints of [Field] *)

(** pydantic's float constraints; on a NaN they are its own business. *)
Class FloatBounds := {
  field_gt : float -> float -> bool;
  field_ge : float -> float -> bool;
  field_le : float -> float -> bool
}.

Definition not_nan (x : float) : bool := match x with S754_nan => false | _ => true end.

Class FloatBoundsLaws `{FloatBounds} : Prop := {
  gt_compares b x : not_nan x = true -> field_gt b x = flt b x;
  ge_compares b x : not_nan x = true -> field_ge b x = fle b x;
  le_compares b x : not_nan x = true -> field_le b x = fle x b
}.

(** A constraint that fails is a [ValidationError], and so is a [ValueError] raised
    inside a validator; other exceptions of a validator pass. *)
Definition field (holds : bool) : res unit := raise_unless holds EValidationError.

Definition in_validator {A} (r : res A) : res A :=
  match r with
  | Err error => if isinstance error EValueError then raise EValidationError else raise error
  | Ok a => mret a
  end.

Definition int_between (low high n : Z) : bool := (low <=? n) && (n <=? high).

(** The [non_blank] validators: the stripped text. *)
Definition non_blank (value : string) : res string :=
  let value := py_strip value in
  in_validator (raise_if (is_empty value) EValueError;; mret value).

(** ** The groups *)

Inductive environment : Set := development | test | production.
#[global] Instance environment_eq_dec : EqDecision environment.
Proof. solve_decision. Defined.

Record AppSettings := {
  SERVICE_NAME : string;
  APP_VERSION : string;
  APP_ENVIRONMENT : environment;
  HOST : string;
  PORT : Z;
  DEV_LOGS : bool;
  LOG_LEVEL : string;
  MUTE_LOGGERS : list string
}.

Definition default_app : AppSettings :=
  {| SERVICE_NAME := "andruha-identity-service"; APP_VERSION := "0.1.0";
     APP_ENVIRONMENT := development; HOST := "0.0.0.0"; PORT := 8001; DEV_LOGS := true;
     LOG_LEVEL := "INFO"; MUTE_LOGGERS := ["uvicorn.access"; "sqlalchemy"] |}.

(** Text is a comma-separated list. *)
Definition normalize_mute_loggers (value : string + list string) : list string :=
  match value with inl text => comma_items text | inr items => items end.

(** The group, from the values given for the two fields its [before] validators read. *)
Definition validate_app (log_level : string) (mute_loggers : string + list string)
    (s : AppSettings) : res AppSettings :=
  field (int_between 1 65535 (PORT s));;
  service_name ← non_blank (SERVICE_NAME s);
  mret {| SERVICE_NAME := service_name; APP_VERSION := APP_VERSION s;
          APP_ENVIRONMENT := APP_ENVIRONMENT s; HOST := HOST s; PORT := PORT s;
          DEV_LOGS := DEV_LOGS s; LOG_LEVEL := py_upper log_level;
          MUTE_LOGGERS := normalize_mute_loggers mute_loggers |}.

Record PostgresSettings := {
  DATABASE_HOST : string;
  DATABASE_PORT : Z;
  DATABASE_USER : string;
  DATABASE_PASSWORD : string;
  DATABASE_NAME : string;
  RUN_MIGRATIONS : bool;
  DATABASE_POOL_SIZE : Z;
  DATABASE_MAX_OVERFLOW : Z;
  DATABASE_POOL_TIMEOUT : float;
  DATABASE_POOL_RECYCLE : Z
}.

Definition default_postgres : PostgresSettings :=
  {| DATABASE_HOST := "identity-postgres"; DATABASE_PORT := 5432;
     DATABASE_USER := "andruha_identity"; DATABASE_PASSWORD := "identity-local-only";
     DATABASE_NAME := "andruha_identity"; RUN_MIGRATIONS := false; DATABASE_POOL_SIZE := 10;
     DATABASE_MAX_OVERFLOW := 20; DATABASE_POOL_TIMEOUT := of_Z 30;
     DATABASE_POOL_RECYCLE := 1800 |}.

Record ValkeySettings := {
  VALKEY_HOST : string;
  VALKEY_PORT : Z;
  VALKEY_DB : Z;
  VALKEY_KEY_NAMESPACE : string;
  VALKEY_MAX_CONNECTIONS : Z;
  VALKEY_SOCKET_TIMEOUT : float;
  VALKEY_SOCKET_CONNECT_TIMEOUT : float;
  VALKEY_HEALTH_CHECK_INTERVAL : Z
}.

Definition default_valkey : ValkeySettings :=
  {| VALKEY_HOST := "valkey"; VALKEY_PORT := 6379; VALKEY_DB := 0;
     VALKEY_KEY_NAMESPACE := "andruha-identity-service:idempotency:v1";
     VALKEY_MAX_CONNECTIONS := 50; VALKEY_SOCKET_TIMEOUT := of_Z 2;
     VALKEY_SOCKET_CONNECT_TIMEOUT := of_Z 2; VALKEY_HEALTH_CHECK_INTERVAL := 30 |}.

Definition VALKEY_URL (s : ValkeySettings) : string :=
  ("redis://" +:+ VALKEY_HOST s +:+ ":" +:+ str (int_chars (VALKEY_PORT s)) +:+ "/"
   +:+ str (int_chars (VALKEY_DB s)) +:+ "?socket_connect_timeout=2&socket_timeout=2")%string.

Record KafkaSettings := {
  KAFKA_BOOTSTRAP_SERVERS : string;
  KAFKA_CLIENT_ID : string;
  KAFKA_USER_REGISTERED_TOPIC : string;
  KAFKA_GROUP_ID : string;
  KAFKA_AUTO_OFFSET_RESET : string
}.

Definition default_kafka : KafkaSettings :=
  {| KAFKA_BOOTSTRAP_SERVERS := "kafka:29092"; KAFKA_CLIENT_ID := "andruha-identity-service";
     KAFKA_USER_REGISTERED_TOPIC := "identity.user-registered.v1";
     KAFKA_GROUP_ID := "andruha-identity-service"; KAFKA_AUTO_OFFSET_RESET := "earliest" |}.

Definition validate_kafka (s : KafkaSettings) : res KafkaSettings :=
  bootstrap_servers ← non_blank (KAFKA_BOOTSTRAP_SERVERS s);
  client_id ← non_blank (KAFKA_CLIENT_ID s);
  mret {| KAFKA_BOOTSTRAP_SERVERS := bootstrap_servers; KAFKA_CLIENT_ID := client_id;
          KAFKA_USER_REGISTERED_TOPIC := KAFKA_USER_REGISTERED_TOPIC s;
          KAFKA_GROUP_ID := KAFKA_GROUP_ID s;
          KAFKA_AUTO_OFFSET_RESET := KAFKA_AUTO_OFFSET_RESET s |}.

Record OutboxSettings := {
  OUTBOX_POLL_INTERVAL_SECONDS : float;
  OUTBOX_BATCH_SIZE : Z;
  OUTBOX_CLAIM_LEASE_SECONDS : float;
  OUTBOX_RETRY_INITIAL_SECONDS : float;
  OUTBOX_RETRY_MAX_SECONDS : float;
  OUTBOX_RETRY_EXPONENT : float;
  OUTBOX_RETRY_JITTER_RATIO : float;
  OUTBOX_RETRY_MAX_ATTEMPTS : Z;
  OUTBOX_SHUTDOWN_TIMEOUT_SECONDS : float
}.

Definition default_outbox : OutboxSettings :=
  {| OUTBOX_POLL_INTERVAL_SECONDS := of_Z 2; OUTBOX_BATCH_SIZE := 50;
     OUTBOX_CLAIM_LEASE_SECONDS := of_Z 30; OUTBOX_RETRY_INITIAL_SECONDS := f1;
     OUTBOX_RETRY_MAX_SECONDS := of_Z 60; OUTBOX_RETRY_EXPONENT := of_Z 2;
     OUTBOX_RETRY_JITTER_RATIO := f0_2; OUTBOX_RETRY_MAX_ATTEMPTS := 10;
     OUTBOX_SHUTDOWN_TIMEOUT_SECONDS := of_Z 10 |}.

Record RegistrationSettings := {
  REGISTRATION_POLL_INTERVAL_SECONDS : float;
  REGISTRATION_BATCH_SIZE : Z;
  REGISTRATION_CLAIM_LEASE_SECONDS : float;
  REGISTRATION_RETRY_INITIAL_SECONDS : float;
  REGISTRATION_RETRY_MAX_SECONDS : float;
  REGISTRATION_RETRY_EXPONENT : float;
  REGISTRATION_RETRY_JITTER_RATIO : float;
  REGISTRATION_RETRY_MAX_ATTEMPTS : Z;
  REGISTRATION_SHUTDOWN_TIMEOUT_SECONDS : float
}.

Definition default_registration : RegistrationSettings :=
  {| REGISTRATION_POLL_INTERVAL_SECONDS := of_Z 2; REGISTRATION_BATCH_SIZE := 25;
     REGISTRATION_CLAIM_LEASE_SECONDS := of_Z 30; REGISTRATION_RETRY_INITIAL_SECONDS := f1;
     REGISTRATION_RETRY_MAX_SECONDS := of_Z 60; REGISTRATION_RETRY_EXPONENT := of_Z 2;
     REGISTRATION_RETRY_JITTER_RATIO := f0_2; REGISTRATION_RETRY_MAX_ATTEMPTS := 10;
     REGISTRATION_SHUTDOWN_TIMEOUT_SECONDS := of_Z 30 |}.

Record IdempotencySettings := {
  IDEMPOTENCY_LEASE_SECONDS : Z;
  IDEMPOTENCY_RESULT_TTL_SECONDS : Z;
  IDEMPOTENCY_CB_FAILURES : Z;
  IDEMPOTENCY_CB_RECOVERY_SECONDS : float
}.

Definition default_idempotency : IdempotencySettings :=
  {| IDEMPOTENCY_LEASE_SECONDS := 30; IDEMPOTENCY_RESULT_TTL_SECONDS := 300;
     IDEMPOTENCY_CB_FAILURES := 3; IDEMPOTENCY_CB_RECOVERY_SECONDS := of_Z 10 |}.

(** What the validator asks of a pydantic URL. *)
Record http_url := {
  url_text : string;
  url_username : option string;
  url_password : option string;
  url_query : option string;
  url_fragment : option string;
  url_path : option string
}.

Record ProfileServiceSettings := {
  PROFILE_SERVICE_URL : http_url;
  PROFILE_SERVICE_TOKEN : option string;
  PROFILE_SERVICE_TIMEOUT_SECONDS : float;
  PROFILE_SERVICE_RETRY_DELAY_SECONDS : float;
  PROFILE_SERVICE_RETRY_MAX_DELAY_SECONDS : float;
  PROFILE_SERVICE_CB_FAILURES : Z;
  PROFILE_SERVICE_CB_RECOVERY_SECONDS : float
}.

Definition default_profile_service : ProfileServiceSettings :=
  {| PROFILE_SERVICE_URL := {| url_text := "http://user-profile-service:8002/";
       url_username := None; url_password := None; url_query := None; url_fragment := None;
       url_path := Some "/"%string |};
     PROFILE_SERVICE_TOKEN := None; PROFILE_SERVICE_TIMEOUT_SECONDS := of_Z 3;
     PROFILE_SERVICE_RETRY_DELAY_SECONDS := f0_1;
     PROFILE_SERVICE_RETRY_MAX_DELAY_SECONDS := f1; PROFILE_SERVICE_CB_FAILURES := 5;
     PROFILE_SERVICE_CB_RECOVERY_SECONDS := of_Z 30 |}.

(** [if value.username]: present and not empty. *)
Definition truthy (o : option string) : bool :=
  match o with Some s => negb (is_empty s) | None => false end.

Definition validate_origin (value : http_url) : res http_url :=
  raise_if (truthy (url_username value) || truthy (url_password value)
            || truthy (url_query value) || truthy (url_fragment value)) EValueError;;
  raise_unless (bool_decide (url_path value ∈ [None; Some "/"%string])) EValueError;;
  mret value.

Definition is_ascii (c : Ascii.ascii) : bool := (Ascii.nat_of_ascii c <? 128)%nat.

Definition validate_token (value : option string) : res (option string) :=
  match value with
  | None => mret None
  | Some token =>
      raise_if (is_empty token || negb (forallb is_ascii (chars token))
                || existsb Domain.is_space (chars token)) EValueError;;
      mret (Some token)
  end.

Section numeric.
Context `{FloatBounds}.

Definition validate_postgres (s : PostgresSettings) : res PostgresSettings :=
  field (int_between 1 65535 (DATABASE_PORT s));;
  field (int_between 1 100 (DATABASE_POOL_SIZE s));;
  field (int_between 0 100 (DATABASE_MAX_OVERFLOW s));;
  field (field_ge f0_1 (DATABASE_POOL_TIMEOUT s));;
  field (1 <=? DATABASE_POOL_RECYCLE s);;
  mret s.

Definition validate_valkey (s : ValkeySettings) : res ValkeySettings :=
  field (int_between 1 65535 (VALKEY_PORT s));;
  field (0 <=? VALKEY_DB s);;
  key_namespace ← non_blank (VALKEY_KEY_NAMESPACE s);
  field (1 <=? VALKEY_MAX_CONNECTIONS s);;
  field (field_ge f0_1 (VALKEY_SOCKET_TIMEOUT s));;
  field (field_ge f0_1 (VALKEY_SOCKET_CONNECT_TIMEOUT s));;
  field (0 <=? VALKEY_HEALTH_CHECK_INTERVAL s);;
  mret {| VALKEY_HOST := VALKEY_HOST s; VALKEY_PORT := VALKEY_PORT s; VALKEY_DB := VALKEY_DB s;
          VALKEY_KEY_NAMESPACE := key_namespace;
          VALKEY_MAX_CONNECTIONS := VALKEY_MAX_CONNECTIONS s;
          VALKEY_SOCKET_TIMEOUT := VALKEY_SOCKET_TIMEOUT s;
          VALKEY_SOCKET_CONNECT_TIMEOUT := VALKEY_SOCKET_CONNECT_TIMEOUT s;
          VALKEY_HEALTH_CHECK_INTERVAL := VALKEY_HEALTH_CHECK_INTERVAL s |}.

(** Its [validate_max_retry_seconds] returns the value it is given. *)
Definition validate_outbox (s : OutboxSettings) : res OutboxSettings :=
  field (field_gt f0 (OUTBOX_POLL_INTERVAL_SECONDS s));;
  field (0 <? OUTBOX_BATCH_SIZE s);;
  field (field_gt f0 (OUTBOX_CLAIM_LEASE_SECONDS s));;
  field (field_gt f0 (OUTBOX_RETRY_INITIAL_SECONDS s));;
  field (field_gt f0 (OUTBOX_RETRY_MAX_SECONDS s));;
  field (field_ge f1 (OUTBOX_RETRY_EXPONENT s));;
  field (field_ge f0 (OUTBOX_RETRY_JITTER_RATIO s) && field_le f1 (OUTBOX_RETRY_JITTER_RATIO s));;
  field (0 <? OUTBOX_RETRY_MAX_ATTEMPTS s);;
  field (field_gt f0 (OUTBOX_SHUTDOWN_TIMEOUT_SECONDS s));;
  mret s.

Definition validate_registration (s : RegistrationSettings) : res RegistrationSettings :=
  field (field_gt f0 (REGISTRATION_POLL_INTERVAL_SECONDS s));;
  field (int_between 1 500 (REGISTRATION_BATCH_SIZE s));;
  field (field_gt f0 (REGISTRATION_CLAIM_LEASE_SECONDS s));;
  field (field_gt f0 (REGISTRATION_RETRY_INITIAL_SECONDS s));;
  field (field_gt f0 (REGISTRATION_RETRY_MAX_SECONDS s));;
  field (field_ge f1 (REGISTRATION_RETRY_EXPONENT s));;
  field (field_ge f0 (REGISTRATION_RETRY_JITTER_RATIO s)
         && field_le f1 (REGISTRATION_RETRY_JITTER_RATIO s));;
  field (0 <? REGISTRATION_RETRY_MAX_ATTEMPTS s);;
  field (field_gt f0 (REGISTRATION_SHUTDOWN_TIMEOUT_SECONDS s));;
  in_validator (raise_if (flt (REGISTRATION_RETRY_MAX_SECONDS s)
                              (REGISTRATION_RETRY_INITIAL_SECONDS s)) EValueError);;
  mret s.

Definition validate_idempotency (s : IdempotencySettings) : res IdempotencySettings :=
  field (0 <? IDEMPOTENCY_LEASE_SECONDS s);;
  field (0 <? IDEMPOTENCY_RESULT_TTL_SECONDS s);;
  field (0 <? IDEMPOTENCY_CB_FAILURES s);;
  field (field_gt f0 (IDEMPOTENCY_CB_RECOVERY_SECONDS s));;
  mret s.

Definition validate_profile_service (s : ProfileServiceSettings) : res ProfileServiceSettings :=
  in_validator (validate_origin (PROFILE_SERVICE_URL s));;
  in_validator (validate_token (PROFILE_SERVICE_TOKEN s));;
  field (field_gt f0 (PROFILE_SERVICE_TIMEOUT_SECONDS s)
         && field_le (of_Z 30) (PROFILE_SERVICE_TIMEOUT_SECONDS s));;
  field (field_ge f0 (PROFILE_SERVICE_RETRY_DELAY_SECONDS s)
         && field_le (of_Z 5) (PROFILE_SERVICE_RETRY_DELAY_SECONDS s));;
  field (field_gt f0 (PROFILE_SERVICE_RETRY_MAX_DELAY_SECONDS s)
         && field_le (of_Z 30) (PROFILE_SERVICE_RETRY_MAX_DELAY_SECONDS s));;
  field (int_between 1 100 (PROFILE_SERVICE_CB_FAILURES s));;
  field (field_gt f0 (PROFILE_SERVICE_CB_RECOVERY_SECONDS s)
         && field_le (of_Z 300) (PROFILE_SERVICE_CB_RECOVERY_SECONDS s));;
  in_validator (raise_if (flt (PROFILE_SERVICE_RETRY_MAX_DELAY_SECONDS s)
                              (PROFILE_SERVICE_RETRY_DELAY_SECONDS s)) EValueError);;
  mret s.
End numeric.

(** ** security.py *)

Inductive samesite : Set := lax | strict | none.
#[global] Instance samesite_eq_dec : EqDecision samesite.
Proof. solve_decision. Defined.

Record SecuritySettings := {
  AUTH_COOKIE_SECURE : bool;
  AUTH_COOKIE_SAMESITE : samesite;
  AUTH_TEST_TOKEN_ENDPOINT_ENABLED : bool;
  JWT_PRIVATE_KEY_PATH : string;
  JWT_PUBLIC_KEY_PATH : string;
  JWT_ACTIVE_KEY_ID : string;
  JWT_ISSUER : string;
  JWT_SERVICE_AUDIENCE : string;
  jwt_audiences_raw : string;
  JWT_CLOCK_SKEW_SECONDS : Z;
  ACCESS_TOKEN_TTL_SECONDS : Z;
  AUTH_SESSION_IDLE_TTL_SECONDS : Z;
  REPLAY_ENCRYPTION_ACTIVE_KEY_ID : string;
  replay_key_paths_raw : string
}.

Definition default_security : SecuritySettings :=
  {| AUTH_COOKIE_SECURE := true; AUTH_COOKIE_SAMESITE := lax;
     AUTH_TEST_TOKEN_ENDPOINT_ENABLED := false;
     JWT_PRIVATE_KEY_PATH := "/run/secrets/identity_jwt_private_key";
     JWT_PUBLIC_KEY_PATH := "/run/configs/identity_jwt_public_key";
     JWT_ACTIVE_KEY_ID := "identity-v1"; JWT_ISSUER := "andruha-identity-service";
     JWT_SERVICE_AUDIENCE := "andruha-identity-service";
     jwt_audiences_raw := join "," ["andruha-identity-service"; "andruha-api-gateway";
       "andruha-user-profile-service"; "andruha-messages-dialogues-service";
       "andruha-websocket-gateway-service"; "andruha-object-storage-service"];
     JWT_CLOCK_SKEW_SECONDS := 30; ACCESS_TOKEN_TTL_SECONDS := 900;
     AUTH_SESSION_IDLE_TTL_SECONDS := 2592000; REPLAY_ENCRYPTION_ACTIVE_KEY_ID := "replay-v1";
     replay_key_paths_raw := "replay-v1=/run/secrets/identity_replay_key" |}.

(** [_normalize_audiences] and [_normalize_replay_paths]: collections become text. *)
Definition normalize_audiences (value : string + list string) : string :=
  match value with inl text => text | inr items => join "," items end.

Definition normalize_replay_paths (value : string + list (string * string)) : string :=
  match value with
  | inl text => text
  | inr items => join "," ((fun kv => kv.1 +:+ "=" +:+ kv.2)%string <$> items)
  end.

(** A set, in the order of the text. *)
Definition JWT_AUDIENCES (s : SecuritySettings) : list string :=
  remove_dups (comma_items (jwt_audiences_raw s)).

(** [d[key] = value] on an insertion-ordered dict. *)
Fixpoint dict_set {A} (key : string) (value : A) (d : list (string * A)) : list (string * A) :=
  match d with
  | [] => [(key, value)]
  | (k, v) :: d => if String.eqb k key then (k, value) :: d else (k, v) :: dict_set key value d
  end.

Fixpoint dict_get {A} (key : string) (d : list (string * A)) : option A :=
  match d with
  | [] => None
  | (k, v) :: d => if String.eqb k key then Some v else dict_get key d
  end.

Fixpoint replay_pairs (items : list string) (pairs : list (string * string)) :
    res (list (string * string)) :=
  match items with
  | [] => mret pairs
  | item :: items =>
      match partition EQUALS (py_strip item) with
      | None => raise EValueError
      | Some (key_id, path) =>
          raise_if (is_empty key_id || is_empty path) EValueError;;
          replay_pairs items (dict_set key_id path pairs)
      end
  end.

Definition REPLAY_ENCRYPTION_KEY_PATHS (s : SecuritySettings) : res (list (string * string)) :=
  replay_pairs (py_split COMMA (replay_key_paths_raw s)) [].

Definition validate_security_invariants (s : SecuritySettings) : res SecuritySettings :=
  raise_unless (bool_decide (JWT_SERVICE_AUDIENCE s ∈ JWT_AUDIENCES s))
    InvalidTokenConfigurationError;;
  paths ← REPLAY_ENCRYPTION_KEY_PATHS s;
  raise_unless (is_some (dict_get (REPLAY_ENCRYPTION_ACTIVE_KEY_ID s) paths)) EValueError;;
  raise_if (bool_decide (AUTH_COOKIE_SAMESITE s = none) && negb (AUTH_COOKIE_SECURE s)) EValueError;;
  mret s.

(** The group, from the values given for the two fields its [before] validators read. *)
Definition validate_security (audiences : string + list string)
    (replay_paths : string + list (string * string)) (s : SecuritySettings) :
    res SecuritySettings :=
  key_id ← non_blank (JWT_ACTIVE_KEY_ID s);
  issuer ← non_blank (JWT_ISSUER s);
  audience ← non_blank (JWT_SERVICE_AUDIENCE s);
  field (0 <=? JWT_CLOCK_SKEW_SECONDS s);;
  field (0 <? ACCESS_TOKEN_TTL_SECONDS s);;
  field (0 <? AUTH_SESSION_IDLE_TTL_SECONDS s);;
  replay_key_id ← non_blank (REPLAY_ENCRYPTION_ACTIVE_KEY_ID s);
  in_validator (validate_security_invariants
    {| AUTH_COOKIE_SECURE := AUTH_COOKIE_SECURE s; AUTH_COOKIE_SAMESITE := AUTH_COOKIE_SAMESITE s;
       AUTH_TEST_TOKEN_ENDPOINT_ENABLED := AUTH_TEST_TOKEN_ENDPOINT_ENABLED s;
       JWT_PRIVATE_KEY_PATH := JWT_PRIVATE_KEY_PATH s;
       JWT_PUBLIC_KEY_PATH := JWT_PUBLIC_KEY_PATH s;
       JWT_ACTIVE_KEY_ID := key_id; JWT_ISSUER := issuer; JWT_SERVICE_AUDIENCE := audience;
       jwt_audiences_raw := normalize_audiences audiences;
       JWT_CLOCK_SKEW_SECONDS := JWT_CLOCK_SKEW_SECONDS s;
       ACCESS_TOKEN_TTL_SECONDS := ACCESS_TOKEN_TTL_SECONDS s;
       AUTH_SESSION_IDLE_TTL_SECONDS := AUTH_SESSION_IDLE_TTL_SECONDS s;
       REPLAY_ENCRYPTION_ACTIVE_KEY_ID := replay_key_id;
       replay_key_paths_raw := normalize_replay_paths replay_paths |}).

(** ** main.py *)

Record Settings := {
  app : AppSettings;
  postgres : PostgresSettings;
  valkey : ValkeySettings;
  kafka : KafkaSettings;
  outbox : OutboxSettings;
  security : SecuritySettings;
  idempotency : IdempotencySettings;
  profile_service : ProfileServiceSettings;
  registration : RegistrationSettings
}.

Definition default_settings : Settings :=
  {| app := default_app; postgres := default_postgres; valkey := default_valkey;
     kafka := default_kafka; outbox := default_outbox; security := default_security;
     idempotency := default_idempotency; profile_service := default_profile_service;
     registration := default_registration |}.

Definition test_token_endpoint_enabled (s : Settings) : bool :=
  negb (bool_decide (APP_ENVIRONMENT (app s) = production))
  && AUTH_TEST_TOKEN_ENDPOINT_ENABLED (security s).

(** [2 * PROFILE_SERVICE_TIMEOUT_SECONDS + PROFILE_SERVICE_RETRY_MAX_DELAY_SECONDS] *)
Definition maximum_profile_attempt_seconds (s : ProfileServiceSettings) : float :=
  fadd (fmul (of_Z 2) (PROFILE_SERVICE_TIMEOUT_SECONDS s))
    (PROFILE_SERVICE_RETRY_MAX_DELAY_SECONDS s).

Definition validate_security_contract (s : Settings) : res Settings :=
  raise_if (bool_decide (APP_ENVIRONMENT (app s) = production)
            && AUTH_TEST_TOKEN_ENDPOINT_ENABLED (security s)) InvalidTokenConfigurationError;;
  raise_if (fle (REGISTRATION_CLAIM_LEASE_SECONDS (registration s))
                (maximum_profile_attempt_seconds (profile_service s))) EValueError;;
  mret s.

(** [Settings()]: the groups' values before validation, with the four values the
    [before] validators read. *)
Record settings_input := {
  in_log_level : string;
  in_mute_loggers : string + list string;
  in_audiences : string + list string;
  in_replay_paths : string + list (string * string);
  in_groups : Settings
}.

Definition validate_settings `{FloatBounds} (i : settings_input) : res Settings :=
  let s := in_groups i in
  app ← validate_app (in_log_level i) (in_mute_loggers i) (app s);
  postgres ← validate_postgres (postgres s);
  valkey ← validate_valkey (valkey s);
  kafka ← validate_kafka (kafka s);
  outbox ← validate_outbox (outbox s);
  security ← validate_security (in_audiences i) (in_replay_paths i) (security s);
  idempotency ← validate_idempotency (idempotency s);
  profile_service ← validate_profile_service (profile_service s);
  registration ← validate_registration (registration s);
  in_validator (validate_security_contract
    {| app := app; postgres := postgres; valkey := valkey; kafka := kafka; outbox := outbox;
       security := security; idempotency := idempotency; profile_service := profile_service;
       registration := registration |}).

(** ** _route_flat_data *)

(** A value given to [Settings]: a dict or something else. *)
Inductive setting : Type :=
| Nested (fields : list (string * setting))
| Leaf (text : string).

(** A group's fields by name, with the alias where one is declared. *)
Definition plain (names : list string) : list (string * string) := (fun n => (n, n)) <$> names.

Definition security_fields : list (string * string) :=
  plain ["AUTH_COOKIE_SECURE"; "AUTH_COOKIE_SAMESITE"; "AUTH_TEST_TOKEN_ENDPOINT_ENABLED";
    "JWT_PRIVATE_KEY_PATH"; "JWT_PUBLIC_KEY_PATH"; "JWT_ACTIVE_KEY_ID"; "JWT_ISSUER";
    "JWT_SERVICE_AUDIENCE"]%string
  ++ [("jwt_audiences_raw", "JWT_AUDIENCES")]%string
  ++ plain ["JWT_CLOCK_SKEW_SECONDS"; "ACCESS_TOKEN_TTL_SECONDS";
       "AUTH_SESSION_IDLE_TTL_SECONDS"; "REPLAY_ENCRYPTION_ACTIVE_KEY_ID"]%string
  ++ [("replay_key_paths_raw", "REPLAY_ENCRYPTION_KEY_PATHS")]%string.

Definition model_fields : list (string * list (string * string)) := [
  ("app", plain ["SERVICE_NAME"; "APP_VERSION"; "APP_ENVIRONMENT"; "HOST"; "PORT"; "DEV_LOGS";
     "LOG_LEVEL"; "MUTE_LOGGERS"]);
  ("postgres", plain ["DATABASE_HOST"; "DATABASE_PORT"; "DATABASE_USER"; "DATABASE_PASSWORD";
     "DATABASE_NAME"; "RUN_MIGRATIONS"; "DATABASE_POOL_SIZE"; "DATABASE_MAX_OVERFLOW";
     "DATABASE_POOL_TIMEOUT"; "DATABASE_POOL_RECYCLE"]);
  ("valkey", plain ["VALKEY_HOST"; "VALKEY_PORT"; "VALKEY_DB"; "VALKEY_KEY_NAMESPACE";
     "VALKEY_MAX_CONNECTIONS"; "VALKEY_SOCKET_TIMEOUT"; "VALKEY_SOCKET_CONNECT_TIMEOUT";
     "VALKEY_HEALTH_CHECK_INTERVAL"]);
  ("kafka", plain ["KAFKA_BOOTSTRAP_SERVERS"; "KAFKA_CLIENT_ID"; "KAFKA_USER_REGISTERED_TOPIC";
     "KAFKA_GROUP_ID"; "KAFKA_AUTO_OFFSET_RESET"]);
  ("outbox", plain ["OUTBOX_POLL_INTERVAL_SECONDS"; "OUTBOX_BATCH_SIZE";
     "OUTBOX_CLAIM_LEASE_SECONDS"; "OUTBOX_RETRY_INITIAL_SECONDS"; "OUTBOX_RETRY_MAX_SECONDS";
     "OUTBOX_RETRY_EXPONENT"; "OUTBOX_RETRY_JITTER_RATIO"; "OUTBOX_RETRY_MAX_ATTEMPTS";
     "OUTBOX_SHUTDOWN_TIMEOUT_SECONDS"]);
  ("security", security_fields);
  ("idempotency", plain ["IDEMPOTENCY_LEASE_SECONDS"; "IDEMPOTENCY_RESULT_TTL_SECONDS";
     "IDEMPOTENCY_CB_FAILURES"; "IDEMPOTENCY_CB_RECOVERY_SECONDS"]);
  ("profile_service", plain ["PROFILE_SERVICE_URL"; "PROFILE_SERVICE_TOKEN";
     "PROFILE_SERVICE_TIMEOUT_SECONDS"; "PROFILE_SERVICE_RETRY_DELAY_SECONDS";
     "PROFILE_SERVICE_RETRY_MAX_DELAY_SECONDS"; "PROFILE_SERVICE_CB_FAILURES";
     "PROFILE_SERVICE_CB_RECOVERY_SECONDS"]);
  ("registration", plain ["REGISTRATION_POLL_INTERVAL_SECONDS"; "REGISTRATION_BATCH_SIZE";
     "REGISTRATION_CLAIM_LEASE_SECONDS"; "REGISTRATION_RETRY_INITIAL_SECONDS";
     "REGISTRATION_RETRY_MAX_SECONDS"; "REGISTRATION_RETRY_EXPONENT";
     "REGISTRATION_RETRY_JITTER_RATIO"; "REGISTRATION_RETRY_MAX_ATTEMPTS";
     "REGISTRATION_SHUTDOWN_TIMEOUT_SECONDS"])
]%string.

(** [aliases[name.lower()] = aliases[canonical.lower()] = canonical] *)
Definition add_alias (aliases : list (string * string)) (f : string * string) :
    list (string * string) :=
  dict_set (py_lower f.2) f.2 (dict_set (py_lower f.1) f.2 aliases).

Definition aliases_of (fields : list (string * string)) : list (string * string) :=
  foldl add_alias [] fields.

(** The dict comprehension: the last of several spellings of a field counts. *)
Definition flat_of (aliases : list (string * string)) (data : list (string * setting)) :
    list (string * setting) :=
  foldl (fun flat kv =>
    match dict_get (py_lower kv.1) aliases with
    | Some canonical => dict_set canonical kv.2 flat
    | None => flat
    end) [] data.

(** [{**nested, **flat}] *)
Definition dict_merge (nested flat : list (string * setting)) : list (string * setting) :=
  foldl (fun d kv => dict_set kv.1 kv.2 d) nested flat.

Definition route_group (data result : list (string * setting))
    (group : string * list (string * string)) : list (string * setting) :=
  let flat := flat_of (aliases_of group.2) data in
  match default (Nested []) (dict_get group.1 result) with
  | Leaf _ => result
  | Nested nested =>
      if bool_decide (length flat = 0%nat) then result
      else dict_set group.1 (Nested (dict_merge nested flat)) result
  end.

(** [_route_flat_data], of what [Settings] was given. *)
Definition route_flat_data (data : setting) : setting :=
  match data with
  | Leaf text => Leaf text
  | Nested data => Nested (foldl (route_group data) data model_fields)
  end.

(** ** Dictionaries *)

Lemma dict_get_set {A} key key' (value : A) d :
  dict_get key' (dict_set key value d) =
    if String.eqb key key' then Some value else dict_get key' d.
Proof.
  induction d as [|[k v] d IH]; cbn; [done|].
  destruct (String.eqb_spec k key) as [->|Hk]; cbn; [by destruct (String.eqb key key')|].
  rewrite IH. destruct (String.eqb_spec k key') as [->|]; [|done].
  destruct (String.eqb_spec key key') as [->|]; [done|done].
Qed.

Lemma dict_get_merge nested flat key :
  NoDup flat.*1 ->
  dict_get key (dict_merge nested flat) =
    match dict_get key flat with Some value => Some value | None => dict_get key nested end.
Proof.
  unfold dict_merge. revert nested. induction flat as [|[k v] flat IH]; intros nested Hn; [done|].
  cbn [fmap list_fmap fst] in Hn. apply list.NoDup_cons in Hn as [Hk Hn].
  cbn [foldl fst snd]. rewrite IH by done. rewrite dict_get_set. cbn [dict_get].
  destruct (String.eqb_spec k key) as [->|]; [|done].
  enough (dict_get key flat = None) as -> by done.
  clear -Hk. induction flat as [|[k' v'] flat IH]; [done|]. cbn in *.
  destruct (String.eqb_spec k' key) as [->|]; set_solver.
Qed.

Lemma dict_set_keys {A} key (value : A) d :
  NoDup d.*1 -> NoDup (dict_set key value d).*1 /\ forall k, k ∈ (dict_set key value d).*1 -> k = key \/ k ∈ d.*1.
Proof.
  induction d as [|[k v] d IH]; intros Hn; cbn.
  { split; [apply NoDup_singleton|set_solver]. }
  cbn in Hn. apply list.NoDup_cons in Hn as [Hk Hn]. destruct (IH Hn) as [IHn IHk].
  destruct (String.eqb_spec k key) as [->|Hne]; cbn.
  - split; [by apply list.NoDup_cons|set_solver].
  - split; [|set_solver]. apply list.NoDup_cons. split; [|done].
    intros [->|]%IHk; done.
Qed.

(** ** Routing *)

(** The value [data] gives for a field, under any spelling: the last one counts. *)
Definition given (f : string * string) (data : list (string * setting)) : option setting :=
  foldl (fun o kv =>
    if bool_decide (py_lower kv.1 ∈ [py_lower f.1; py_lower f.2]) then Some kv.2 else o)
    None data.

Lemma flat_keys aliases data : NoDup (flat_of aliases data).*1.
Proof.
  induction data as [|kv data IH] using rev_ind; [constructor|].
  unfold flat_of. rewrite foldl_snoc. fold (flat_of aliases data).
  destruct (dict_get _ aliases); [|done]. by apply dict_set_keys.
Qed.

(** The aliases of a group name its fields and nothing else. *)
Definition aliases_exact (fields : list (string * string)) : Prop :=
  forall f key, f ∈ fields ->
    dict_get key (aliases_of fields) = Some f.2 <-> key ∈ [py_lower f.1; py_lower f.2].

Lemma flat_given fields f data :
  aliases_exact fields -> f ∈ fields ->
  dict_get f.2 (flat_of (aliases_of fields) data) = given f data.
Proof.
  intros Hex Hf. induction data as [|kv data IH] using rev_ind; [done|].
  unfold flat_of, given. rewrite !foldl_snoc. fold (flat_of (aliases_of fields) data).
  fold (given f data). specialize (Hex f (py_lower kv.1) Hf).
  destruct (dict_get (py_lower kv.1) (aliases_of fields)) as [c|] eqn:E.
  - rewrite dict_get_set. destruct (String.eqb_spec c f.2) as [->|Hc].
    + rewrite bool_decide_true; [done|]. by apply Hex.
    + rewrite bool_decide_false; [done|]. intros Hin%Hex. congruence.
  - rewrite bool_decide_false; [done|]. intros Hin%Hex. congruence.
Qed.

Lemma dict_get_elem {A} key (value : A) d : dict_get key d = Some value -> (key, value) ∈ d.
Proof.
  induction d as [|[k v] d IH]; cbn; [done|].
  destruct (String.eqb_spec k key) as [->|]; [intros [= ->]; by left|]. intros H. right. auto.
Qed.

Definition exact_check (fields : list (string * string)) : bool :=
  let aliases := aliases_of fields in
  forallb (fun f =>
    forallb (fun a => negb (String.eqb a.2 f.2) || bool_decide (a.1 ∈ [py_lower f.1; py_lower f.2]))
      aliases
    && bool_decide (dict_get (py_lower f.1) aliases = Some f.2)
    && bool_decide (dict_get (py_lower f.2) aliases = Some f.2)) fields.

Lemma exact_check_sound fields : exact_check fields = true -> aliases_exact fields.
Proof.
  unfold exact_check. intros Hc f key Hf. rewrite forallb_forall in Hc.
  apply list_elem_of_In in Hf. specialize (Hc f Hf). rewrite !andb_true_iff in Hc.
  destruct Hc as [[Ha H1] H2].
  apply bool_decide_eq_true in H1, H2. rewrite forallb_forall in Ha. split.
  - intros Hg%dict_get_elem%list_elem_of_In%Ha. cbn in Hg.
    rewrite String.eqb_refl in Hg. by apply bool_decide_eq_true in Hg.
  - intros [->|[->|[]%not_elem_of_nil]%elem_of_cons]%elem_of_cons; done.
Qed.

Lemma model_aliases_exact group : group ∈ model_fields -> aliases_exact group.2.
Proof.
  intros Hg. apply exact_check_sound.
  assert (Hall : forallb (fun g => exact_check g.2) model_fields = true) by (vm_compute; reflexivity).
  rewrite forallb_forall in Hall. apply list_elem_of_In in Hg. exact (Hall group Hg).
Qed.

Lemma model_fields_get group :
  group ∈ model_fields -> dict_get group.1 model_fields = Some group.2.
Proof.
  intros Hg. assert (Hall : forallb (fun g => bool_decide (dict_get g.1 model_fields = Some g.2))
    model_fields = true) by (vm_compute; reflexivity).
  rewrite forallb_forall in Hall. apply list_elem_of_In in Hg.
  specialize (Hall group Hg). by apply bool_decide_eq_true in Hall.
Qed.

(** What becomes of one entry of the data. *)
Definition routed (data : list (string * setting)) (fields : list (string * string))
    (entry : option setting) : option setting :=
  let flat := flat_of (aliases_of fields) data in
  match default (Nested []) entry with
  | Leaf _ => entry
  | Nested nested =>
      if bool_decide (length flat = 0%nat) then entry
      else Some (Nested (dict_merge nested flat))
  end.

Lemma route_group_get data result group key :
  dict_get key (route_group data result group) =
    if String.eqb group.1 key then routed data group.2 (dict_get key result)
    else dict_get key result.
Proof.
  unfold route_group, routed. destruct (String.eqb_spec group.1 key) as [<-|Hk].
  - destruct (default _ _); [|done]. case_bool_decide; [done|].
    by rewrite dict_get_set, String.eqb_refl.
  - destruct (default _ _); [|done]. case_bool_decide; [done|].
    rewrite dict_get_set. by destruct (String.eqb_spec group.1 key).
Qed.

Lemma route_groups_get data groups result key :
  NoDup groups.*1 ->
  dict_get key (foldl (route_group data) result groups) =
    match dict_get key groups with
    | Some fields => routed data fields (dict_get key result)
    | None => dict_get key result
    end.
Proof.
  revert result. induction groups as [|[g fields] groups IH]; intros result Hn; [done|].
  cbn [fmap list_fmap fst] in Hn. apply list.NoDup_cons in Hn as [Hg Hn].
  cbn [foldl dict_get]. rewrite IH by done. rewrite route_group_get. cbn [fst snd].
  destruct (String.eqb_spec g key) as [->|]; [|done].
  destruct (dict_get key groups) as [fields'|] eqn:E; [|done].
  apply dict_get_elem in E. destruct Hg. apply list_elem_of_fmap. by exists (key, fields').
Qed.

(** C0. Flat settings reach their group.  Whatever dict [Settings] is given: a group whose
    entry is missing or a dict ends up with, for each of its fields, the last value
    given for it at the top level under any spelling of its name or alias (case
    apart), and with its own entry's value where the top level gives none; an entry
    that is not a dict is left for validation to refuse, and every key that is not a
    group's stays as it is. *)
Theorem flat_settings_routed data :
  let result := route_flat_data (Nested data) in
  exists entries, result = Nested entries /\
  (forall key, key ∉ model_fields.*1 -> dict_get key entries = dict_get key data) /\
  forall group f, group ∈ model_fields -> f ∈ group.2 ->
    match default (Nested []) (dict_get group.1 data) with
    | Leaf text => dict_get group.1 entries = Some (Leaf text)
    | Nested nested =>
        exists fields, default (Nested []) (dict_get group.1 entries) = Nested fields /\
          dict_get f.2 fields =
            match given f data with Some value => Some value | None => dict_get f.2 nested end
    end.
Proof.
  eexists. split; [reflexivity|].
  assert (Hn : NoDup model_fields.*1) by (eapply (proj1 (bool_decide_eq_true _)); vm_compute; reflexivity).
  split.
  - intros key Hkey. rewrite route_groups_get by done.
    destruct (dict_get key model_fields) as [fields|] eqn:E; [|done].
    apply dict_get_elem in E. destruct Hkey. apply list_elem_of_fmap. by exists (key, fields).
  - intros group f Hg Hf. rewrite route_groups_get by done.
    rewrite (model_fields_get group Hg).
    unfold routed. pose proof (flat_given group.2 f data (model_aliases_exact group Hg) Hf) as Hgiven.
    destruct (dict_get group.1 data) as [[nested|text]|] eqn:E; cbn [default option_map from_option id];
      [|done|].
    + case_bool_decide as Hl.
      * apply nil_length_inv in Hl. rewrite Hl in Hgiven. rewrite <- Hgiven. eauto.
      * eexists. split; [done|]. rewrite dict_get_merge by apply flat_keys. by rewrite Hgiven.
    + case_bool_decide as Hl.
      * apply nil_length_inv in Hl. rewrite Hl in Hgiven. rewrite <- Hgiven. eauto.
      * eexists. split; [done|]. rewrite dict_get_merge by apply flat_keys. by rewrite Hgiven.
Qed.

(** ** Collections written as text *)

Lemma strip_left_id f l :
  Tokens.strip_left f l = l <-> forall c, head l = Some c -> f c = false.
Proof.
  destruct l as [|c l]; cbn; [done|]. destruct (f c) eqn:E; split.
  - intros Hl%(f_equal length). exfalso. revert Hl. cbn.
    enough (length (Tokens.strip_left f l) <= length l)%nat by lia.
    clear. induction l as [|c l IH]; cbn; [done|]. destruct (f c); cbn; lia.
  - intros Hc. specialize (Hc c eq_refl). congruence.
  - intros _ c' [= <-]. done.
  - done.
Qed.

Lemma strip_left_suffix f l : exists k, l = k ++ Tokens.strip_left f l.
Proof.
  induction l as [|c l [k IH]]; [by exists []|]. cbn. destruct (f c).
  - exists (c :: k). cbn. by rewrite <- IH.
  - by exists [].
Qed.

Lemma strip_left_idem f l : Tokens.strip_left f (Tokens.strip_left f l) = Tokens.strip_left f l.
Proof. induction l as [|c l IH]; [done|]. cbn. destruct (f c) eqn:E; [done|]. cbn. by rewrite E. Qed.

(** Nothing to strip: neither end is white space. *)
Lemma strip_id f l :
  Tokens.strip f l = l <->
  (forall c, head l = Some c -> f c = false) /\ (forall c, head (rev l) = Some c -> f c = false).
Proof.
  rewrite <- !strip_left_id. unfold Tokens.strip. split.
  - intros H. destruct (strip_left_suffix f l) as [k Hk].
    destruct (strip_left_suffix f (rev (Tokens.strip_left f l))) as [k' Hk'].
    pose proof (f_equal length H) as L1. pose proof (f_equal length Hk) as L2.
    pose proof (f_equal length Hk') as L3.
    rewrite length_rev in L1. rewrite length_app in L2. rewrite length_app, length_rev in L3.
    destruct k; [|cbn [length] in L2; lia]. cbn in Hk. split; [done|].
    rewrite <- Hk in H.
    apply (f_equal (@rev _)) in H. by rewrite rev_involutive in H.
  - intros [H1 H2]. by rewrite H1, H2, rev_involutive.
Qed.

Lemma strip_idem f l : Tokens.strip f (Tokens.strip f l) = Tokens.strip f l.
Proof.
  apply strip_id. unfold Tokens.strip. rewrite rev_involutive. split.
  - destruct (strip_left_suffix f (rev (Tokens.strip_left f l))) as [k Hk].
    apply (f_equal (@rev _)) in Hk. rewrite rev_involutive, rev_app_distr in Hk.
    intros c Hc. apply (proj1 (strip_left_id f (Tokens.strip_left f l)) (strip_left_idem f l)).
    rewrite Hk. by destruct (rev (Tokens.strip_left f (rev (Tokens.strip_left f l)))).
  - apply strip_left_id, strip_left_idem.
Qed.

Lemma py_strip_idem s : py_strip (py_strip s) = py_strip s.
Proof. unfold py_strip. by rewrite chars_str, strip_idem. Qed.

Lemma py_strip_id s : py_strip s = s <-> Tokens.strip Domain.is_space (chars s) = chars s.
Proof.
  unfold py_strip. split; [|intros ->; apply str_chars].
  intros H%(f_equal chars). by rewrite chars_str in H.
Qed.

Lemma chars_app a b : chars (a +:+ b)%string = chars a ++ chars b.
Proof.
  unfold chars. induction a as [|c a IH]; [done|].
  change (c :: String.list_ascii_of_string (a +:+ b) = c :: (String.list_ascii_of_string a ++ String.list_ascii_of_string b)).
  by rewrite IH.
Qed.

Lemma split_on_app sep l r :
  sep ∉ l -> split_on sep (l ++ sep :: r) = l :: split_on sep r.
Proof.
  induction l as [|c l IH]; intros Hs; cbn.
  { by rewrite Ascii.eqb_refl. }
  destruct (Ascii.eqb_spec c sep) as [->|]; [set_solver|]. rewrite IH by set_solver. done.
Qed.

Lemma split_on_none sep l : sep ∉ l -> split_on sep l = [l].
Proof.
  induction l as [|c l IH]; intros Hs; [done|]. cbn.
  destruct (Ascii.eqb_spec c sep) as [->|]; [set_solver|]. by rewrite IH by set_solver.
Qed.

(** Splitting undoes joining. *)
Lemma split_join items :
  items <> [] -> (forall s, s ∈ items -> COMMA ∉ chars s) ->
  py_split COMMA (join "," items) = items.
Proof.
  intros Hne Hc. unfold py_split. enough (split_on COMMA (chars (join "," items)) = chars <$> items) as ->.
  { rewrite <- list_fmap_compose. rewrite <- (list_fmap_id items) at 2.
    apply list_fmap_ext. intros i s _. apply str_chars. }
  induction items as [|s items IH]; [done|]. destruct items as [|s' items].
  { cbn [join fmap list_fmap]. apply split_on_none. set_solver. }
  change (join "," (s :: s' :: items)) with (s +:+ "," +:+ join "," (s' :: items))%string.
  rewrite !chars_app. change (chars "," ++ ?l) with (COMMA :: l).
  rewrite split_on_app by set_solver. rewrite IH by set_solver. done.
Qed.

Lemma partition_at k p :
  EQUALS ∉ chars k -> partition EQUALS (k +:+ "=" +:+ p)%string = Some (k, p).
Proof.
  intros Hk. unfold partition. rewrite !chars_app. change (chars "=") with [EQUALS].
  enough (partition_chars EQUALS (chars k ++ [EQUALS] ++ chars p) = Some (chars k, chars p)) as ->.
  { cbn. by rewrite !str_chars. }
  induction (chars k) as [|c l IH]; [done|]. cbn.
  destruct (Ascii.eqb_spec c EQUALS) as [->|]; [set_solver|].
  change (EQUALS :: chars p) with ([EQUALS] ++ chars p). rewrite IH by set_solver. done.
Qed.

(** Text that survives: not blank, no white space at either end, and no separator. *)
Definition tidy (s : string) : Prop := s <> ""%string /\ py_strip s = s /\ COMMA ∉ chars s.

Lemma comma_items_join items :
  (forall s, s ∈ items -> tidy s) -> comma_items (join "," items) = items.
Proof.
  intros Ht. destruct (decide (items = [])) as [->|Hne]; [done|].
  unfold comma_items. rewrite split_join; [|done|intros s Hs; by apply Ht].
  clear Hne. induction items as [|s items IH]; [done|]. destruct (Ht s) as (Hne & Hs & _); [by left|].
  cbn [fmap list_fmap List.filter]. rewrite Hs. unfold is_empty at 1.
  rewrite bool_decide_false by done. cbn. f_equal. apply IH. set_solver.
Qed.

Lemma dict_set_new {A} key (value : A) d : key ∉ d.*1 -> dict_set key value d = d ++ [(key, value)].
Proof.
  induction d as [|[k v] d IH]; intros Hk; [done|]. cbn in *.
  destruct (String.eqb_spec k key) as [->|]; [set_solver|]. by rewrite IH by set_solver.
Qed.

(** One entry of the key ring, as text. *)
Definition entry_text (kv : string * string) : string := (kv.1 +:+ "=" +:+ kv.2)%string.

Lemma entry_strip k p :
  k <> ""%string -> p <> ""%string -> py_strip k = k -> py_strip p = p ->
  py_strip (entry_text (k, p)) = entry_text (k, p).
Proof.
  rewrite !py_strip_id. unfold entry_text. cbn [fst snd]. rewrite !strip_id, !chars_app.
  intros Hk Hp [Hk1 _] [_ Hp2]. change (chars "=") with [EQUALS]. split.
  - intros c. destruct (chars k) as [|a l] eqn:E; [|exact (Hk1 c)].
    apply (f_equal str) in E. rewrite str_chars in E. done.
  - intros c. rewrite !rev_app_distr. destruct (rev (chars p)) as [|a l] eqn:E; [|exact (Hp2 c)].
    apply (f_equal (@rev _)) in E. rewrite rev_involutive in E.
    apply (f_equal str) in E. rewrite str_chars in E. done.
Qed.

Lemma replay_pairs_entries items pairs :
  NoDup (pairs ++ items).*1 ->
  (forall kv, kv ∈ items -> tidy kv.1 /\ tidy kv.2 /\ EQUALS ∉ chars kv.1) ->
  replay_pairs (entry_text <$> items) pairs = Ok (pairs ++ items).
Proof.
  revert pairs. induction items as [|[k p] items IH]; intros pairs Hn Ht.
  { cbn. by rewrite app_nil_r. }
  destruct (Ht (k, p)) as ((Hk & Hks & _) & (Hp & Hps & _) & Hke); [by left|]. cbn [fst snd] in *.
  cbn [fmap list_fmap replay_pairs]. rewrite entry_strip by done.
  unfold entry_text at 1. cbn [fst snd]. rewrite partition_at by done.
  unfold is_empty. rewrite !bool_decide_false by done. cbn [orb raise_if]. cbn [mbind result_bind].
  rewrite fmap_app in Hn. apply list.NoDup_app in Hn as (Hn1 & Hd & Hn2).
  assert (Hnew : k ∉ pairs.*1) by (intros Hin; apply (Hd k Hin); apply elem_of_cons; auto).
  rewrite (dict_set_new k p pairs Hnew), IH.
  - by rewrite <- app_assoc.
  - rewrite <- app_assoc, fmap_app. apply list.NoDup_app. auto.
  - intros kv Hkv. apply Ht. by right.
Qed.

(** C0. Collections in settings survive their passage through text: audiences given as a
    collection are read back as that set, and a key ring given as a dict is read
    back as that dict, in its order, as long as no name or path is blank, is padded with
    white space or holds a comma, and no key holds an equals sign. *)
Theorem collections_read_back s audiences ring :
  (forall a, a ∈ audiences -> tidy a) ->
  ring <> [] -> NoDup ring.*1 ->
  (forall kv, kv ∈ ring -> tidy kv.1 /\ tidy kv.2 /\ EQUALS ∉ chars kv.1) ->
  jwt_audiences_raw s = normalize_audiences (inr audiences) ->
  replay_key_paths_raw s = normalize_replay_paths (inr ring) ->
  (forall a, a ∈ JWT_AUDIENCES s <-> a ∈ audiences) /\ NoDup (JWT_AUDIENCES s) /\
  REPLAY_ENCRYPTION_KEY_PATHS s = Ok ring.
Proof.
  intros Ha Hne Hn Hr Ea Er. unfold JWT_AUDIENCES, REPLAY_ENCRYPTION_KEY_PATHS.
  rewrite Ea, Er. cbn [normalize_audiences normalize_replay_paths].
  rewrite comma_items_join by done. split; [intros a; apply elem_of_remove_dups|].
  split; [apply NoDup_remove_dups|].
  change (fun kv => _) with entry_text. rewrite split_join.
  - by apply (replay_pairs_entries ring []).
  - by destruct ring.
  - intros t (kv & -> & Hkv)%list_elem_of_fmap. destruct (Hr kv Hkv) as ((_ & _ & H1) & (_ & _ & H2) & _).
    unfold entry_text. rewrite !chars_app. change (chars "=") with [EQUALS].
    rewrite !elem_of_app, list_elem_of_singleton. intros [|[|]]; done.
Qed.

(** ** A key ring *)

#[global] Instance tidy_dec s : Decision (tidy s).
Proof. unfold tidy. apply _. Defined.

Definition demo_ring_entries : list (string * string) :=
  [("k2", "/run/secrets/new key"); ("k1", "/run/secrets/old=1")]%string.

Definition demo_security : SecuritySettings :=
  {| AUTH_COOKIE_SECURE := true; AUTH_COOKIE_SAMESITE := strict;
     AUTH_TEST_TOKEN_ENDPOINT_ENABLED := false;
     JWT_PRIVATE_KEY_PATH := "/p"; JWT_PUBLIC_KEY_PATH := "/q"; JWT_ACTIVE_KEY_ID := "k";
     JWT_ISSUER := "identity"; JWT_SERVICE_AUDIENCE := "identity";
     jwt_audiences_raw := normalize_audiences (inr ["identity"; "gateway"]%string);
     JWT_CLOCK_SKEW_SECONDS := 30; ACCESS_TOKEN_TTL_SECONDS := 900;
     AUTH_SESSION_IDLE_TTL_SECONDS := 2592000; REPLAY_ENCRYPTION_ACTIVE_KEY_ID := "k2";
     replay_key_paths_raw := normalize_replay_paths (inr demo_ring_entries) |}.

Lemma collections_read_back_witness :
  "gateway"%string ∈ JWT_AUDIENCES demo_security /\
  REPLAY_ENCRYPTION_KEY_PATHS demo_security = Ok demo_ring_entries.
Proof.
  assert (Ha : Forall tidy ["identity"; "gateway"]%string)
    by (apply (bool_decide_unpack _); vm_compute; exact I).
  assert (Hr : Forall (fun kv => tidy kv.1 /\ tidy kv.2 /\ EQUALS ∉ chars kv.1) demo_ring_entries)
    by (apply (bool_decide_unpack _); vm_compute; exact I).
  assert (Hn : NoDup demo_ring_entries.*1) by (apply (bool_decide_unpack _); vm_compute; exact I).
  destruct (collections_read_back demo_security ["identity"; "gateway"]%string demo_ring_entries
    (proj1 (list.Forall_forall _ _) Ha) ltac:(done) Hn (proj1 (list.Forall_forall _ _) Hr)
    eq_refl eq_refl) as (H & _ & Hring).
  split; [|exact Hring]. apply H. right. left.
Defined.
