(* ===== verification/Container.v ===== *)
(** * The container

    [infrastructure/di]: what every provider of [create_container] provides, from what
    and for how long, and what the endpoints and the processes ask for.  The
    container that runs them is a library's: it calls the provider of a type with the
    objects of the types it needs, once per scope, and on closing a scope runs what
    the generators of that scope left to do.  That the graph it is given makes sense
    is a fact of the service, and so is who closes it. *)

From S2P Require Import Prelude Settings.

(** Application objects live as long as the process, request objects as long as one
    request or one transaction of a worker. *)
Inductive lifetime : Set := APP | REQUEST.

(** The types that are provided. *)
Inductive component : Set :=
| AsyncContainer
(* settings *)
| Settings | AppSettings | PostgresSettings | ValkeySettings | KafkaSettings | OutboxSettings
| SecuritySettings | IdempotencySettings | ProfileServiceSettings | RegistrationSettings
(* database *)
| AsyncEngine | SessionMaker | AsyncSession | AsyncUOW
(* security *)
| RSAKeyPair | AccessTokenIssuer | AccessTokenVerifier | PasswordHasher | RefreshTokenCodec
| ReplayResultProtector
(* idempotency *)
| IdempotencyObserver | Redis | IdempotencyCircuitBreaker | HotIdempotencyStore
| IdempotencyRecordRepository | DurableExecution | IdempotencyCoordinator
(* repositories *)
| UserRepository | AuthSessionRepository | OutboxRepository | RegistrationOperationRepository
| UserRegisteredPublisher
(* services *)
| TokenPairIssuer | TransactionalRefreshOperation | RefreshHandler | LoginHandler | LogoutHandler
| GetCurrentUserHandler
(* messaging *)
| KafkaBroker | BrokerPublisher | OutboxScopeFactory | OutboxRelayService
(* profiles *)
| ProfileCircuitBreaker | ProfileProvisioner
(* registration *)
| RegistrationObserver | RegistrationScopeFactory | ResumeRegistrationHandler
| RegisterUserHandler | RedriveRegistrationHandler | RegistrationReconciler.

#[global] Instance component_eq_dec : EqDecision component.
Proof. solve_decision. Defined.
#[global] Instance lifetime_eq_dec : EqDecision lifetime.
Proof. solve_decision. Defined.

(** What the body of a provider returns, as an expression over its parameters: one of
    them, an attribute of one, a construction with its arguments by keyword (or by
    position: the empty name), or something computed from others. *)
Inductive expr :=
| Object (c : component)
| Attribute (c : component) (name : string)
| Construct (class : string) (args : list (string * expr))
| Computed (how : string) (from : list expr)
| Literal (text : string).

Abbreviation seconds e := (Construct "timedelta" [("seconds", e)])%string.

(** A method of a provider class: its return type, the class's scope, its parameters'
    types, what it returns, and whether it is a generator, with something to do when
    the scope closes. *)
Record provider := Provide {
  pv_provides : component;
  pv_scope : lifetime;
  pv_needs : list component;
  pv_returns : expr;
  pv_closes : bool
}.

Section providers.
#[local] Open Scope string_scope.

(** A group of the settings. *)
Definition settings_group (c : component) (name : string) : provider :=
  Provide c APP [Settings] (Attribute Settings name) false.

Definition SettingsProvider : list provider :=
  [Provide Settings APP [] (Construct "get_settings" []) false;
   settings_group AppSettings "app";
   settings_group PostgresSettings "postgres";
   settings_group ValkeySettings "valkey";
   settings_group KafkaSettings "kafka";
   settings_group OutboxSettings "outbox";
   settings_group SecuritySettings "security";
   settings_group IdempotencySettings "idempotency";
   settings_group ProfileServiceSettings "profile_service";
   settings_group RegistrationSettings "registration"].

Definition DatabaseAppProvider : list provider :=
  [Provide AsyncEngine APP [PostgresSettings]
     (Construct "create_async_engine"
        [("", Attribute PostgresSettings "DATABASE_URL");
         ("pool_pre_ping", Literal "True");
         ("hide_parameters", Literal "True");
         ("pool_size", Attribute PostgresSettings "DATABASE_POOL_SIZE");
         ("max_overflow", Attribute PostgresSettings "DATABASE_MAX_OVERFLOW");
         ("pool_timeout", Attribute PostgresSettings "DATABASE_POOL_TIMEOUT");
         ("pool_recycle", Attribute PostgresSettings "DATABASE_POOL_RECYCLE")]) true;
   Provide SessionMaker APP [AsyncEngine]
     (Construct "async_sessionmaker"
        [("", Object AsyncEngine); ("expire_on_commit", Literal "False")]) false].

Definition DatabaseRequestProvider : list provider :=
  [Provide AsyncSession REQUEST [SessionMaker] (Computed "__call__" [Object SessionMaker]) true;
   Provide AsyncUOW REQUEST [AsyncSession]
     (Construct "SQLAlchemyAsyncUOW" [("", Object AsyncSession)]) false].

Definition SecurityProvider : list provider :=
  [Provide RSAKeyPair APP [SecuritySettings]
     (Construct "load_rsa_key_pair"
        [("private_key_path", Attribute SecuritySettings "JWT_PRIVATE_KEY_PATH");
         ("public_key_path", Attribute SecuritySettings "JWT_PUBLIC_KEY_PATH")]) false;
   Provide AccessTokenIssuer APP [SecuritySettings; RSAKeyPair]
     (Construct "PyJWTAccessTokenIssuer"
        [("private_key", Attribute RSAKeyPair "private_key");
         ("key_id", Attribute SecuritySettings "JWT_ACTIVE_KEY_ID");
         ("issuer", Attribute SecuritySettings "JWT_ISSUER");
         ("audiences", Attribute SecuritySettings "JWT_AUDIENCES");
         ("access_token_ttl", seconds (Attribute SecuritySettings "ACCESS_TOKEN_TTL_SECONDS"))])
     false;
   Provide AccessTokenVerifier APP [SecuritySettings; RSAKeyPair]
     (Construct "PyJWTAccessTokenVerifier"
        [("public_keys", Computed "{key: value}"
            [Attribute SecuritySettings "JWT_ACTIVE_KEY_ID"; Attribute RSAKeyPair "public_key"]);
         ("issuer", Attribute SecuritySettings "JWT_ISSUER");
         ("audience", Attribute SecuritySettings "JWT_SERVICE_AUDIENCE");
         ("leeway", seconds (Attribute SecuritySettings "JWT_CLOCK_SKEW_SECONDS"))]) false;
   Provide PasswordHasher APP [] (Construct "Argon2PasswordHasher" []) false;
   Provide RefreshTokenCodec APP [] (Construct "SHA256OpaqueRefreshTokenCodec" []) false;
   Provide ReplayResultProtector APP [SecuritySettings]
     (Construct "AESGCMReplayResultProtector"
        [("active_key_id", Attribute SecuritySettings "REPLAY_ENCRYPTION_ACTIVE_KEY_ID");
         ("keys", Computed "{key_id: load_replay_key(path) for key_id, path in ...items()}"
            [Attribute SecuritySettings "REPLAY_ENCRYPTION_KEY_PATHS"])]) false].

Definition IdempotencyAppProvider : list provider :=
  [Provide IdempotencyObserver APP [] (Construct "PrometheusIdempotencyObserver" []) false;
   Provide Redis APP [ValkeySettings]
     (Construct "Redis.from_url"
        [("", Attribute ValkeySettings "VALKEY_URL");
         ("decode_responses", Literal "False");
         ("max_connections", Attribute ValkeySettings "VALKEY_MAX_CONNECTIONS");
         ("socket_timeout", Attribute ValkeySettings "VALKEY_SOCKET_TIMEOUT");
         ("socket_connect_timeout", Attribute ValkeySettings "VALKEY_SOCKET_CONNECT_TIMEOUT");
         ("health_check_interval", Attribute ValkeySettings "VALKEY_HEALTH_CHECK_INTERVAL")])
     true;
   Provide IdempotencyCircuitBreaker APP [IdempotencySettings]
     (Construct "IdempotencyCircuitBreaker"
        [("", Attribute IdempotencySettings "IDEMPOTENCY_CB_FAILURES");
         ("", Attribute IdempotencySettings "IDEMPOTENCY_CB_RECOVERY_SECONDS");
         ("", Literal "identity-idempotency-valkey")]) false;
   Provide HotIdempotencyStore APP
     [Redis; IdempotencyCircuitBreaker; IdempotencySettings; ValkeySettings]
     (Construct "CircuitBreakingHotStore"
        [("", Construct "ValkeyHotIdempotencyStore"
            [("", Object Redis);
             ("result_ttl_seconds", Attribute IdempotencySettings "IDEMPOTENCY_RESULT_TTL_SECONDS");
             ("key_namespace", Attribute ValkeySettings "VALKEY_KEY_NAMESPACE")]);
         ("", Object IdempotencyCircuitBreaker)]) false].

Definition IdempotencyRequestProvider : list provider :=
  [Provide IdempotencyRecordRepository REQUEST [AsyncSession; IdempotencySettings]
     (Construct "IdempotencyRecordRepository"
        [("", Object AsyncSession);
         ("retention_seconds", Attribute IdempotencySettings "IDEMPOTENCY_RESULT_TTL_SECONDS")])
     false;
   Provide DurableExecution REQUEST [IdempotencyRecordRepository; AsyncUOW]
     (Construct "DurableExecutionService"
        [("", Object IdempotencyRecordRepository); ("", Object AsyncUOW)]) false;
   Provide IdempotencyCoordinator REQUEST
     [HotIdempotencyStore; DurableExecution; IdempotencyObserver]
     (Construct "IdempotencyCoordinator"
        [("", Object HotIdempotencyStore); ("", Object DurableExecution);
         ("observer", Object IdempotencyObserver)]) false].

(** [OutboxRepository(...)], which two methods return, under the types of two protocols. *)
Definition outbox_repository : expr :=
  Construct "OutboxRepository"
    [("session", Object AsyncSession);
     ("topic", Attribute KafkaSettings "KAFKA_USER_REGISTERED_TOPIC");
     ("producer", Attribute AppSettings "SERVICE_NAME")].

Definition RepositoriesProvider : list provider :=
  [Provide UserRepository REQUEST [AsyncSession]
     (Construct "UserRepository" [("", Object AsyncSession)]) false;
   Provide AuthSessionRepository REQUEST [AsyncSession]
     (Construct "AuthSessionRepository" [("", Object AsyncSession)]) false;
   Provide OutboxRepository REQUEST [AsyncSession; KafkaSettings; AppSettings]
     outbox_repository false;
   Provide RegistrationOperationRepository REQUEST [AsyncSession]
     (Construct "RegistrationOperationRepository" [("", Object AsyncSession)]) false;
   Provide UserRegisteredPublisher REQUEST [AsyncSession; KafkaSettings; AppSettings]
     outbox_repository false].

Definition ServicesProvider : list provider :=
  [Provide TokenPairIssuer REQUEST [AccessTokenIssuer; RefreshTokenCodec]
     (Construct "TokenPairIssuer" [("", Object AccessTokenIssuer); ("", Object RefreshTokenCodec)])
     false;
   Provide TransactionalRefreshOperation REQUEST
     [UserRepository; AuthSessionRepository; TokenPairIssuer; RefreshTokenCodec;
      ReplayResultProtector; SecuritySettings]
     (Construct "TransactionalRefreshOperation"
        [("users", Object UserRepository);
         ("sessions", Object AuthSessionRepository);
         ("issuer", Object TokenPairIssuer);
         ("codec", Object RefreshTokenCodec);
         ("protector", Object ReplayResultProtector);
         ("session_idle_ttl",
            seconds (Attribute SecuritySettings "AUTH_SESSION_IDLE_TTL_SECONDS"))]) false;
   Provide RefreshHandler REQUEST
     [IdempotencyCoordinator; TransactionalRefreshOperation; AuthSessionRepository;
      RefreshTokenCodec; ReplayResultProtector; AsyncUOW; IdempotencySettings]
     (Construct "RefreshHandler"
        [("coordinator", Object IdempotencyCoordinator);
         ("operation", Object TransactionalRefreshOperation);
         ("sessions", Object AuthSessionRepository);
         ("codec", Object RefreshTokenCodec);
         ("protector", Object ReplayResultProtector);
         ("uow", Object AsyncUOW);
         ("lease_seconds", Attribute IdempotencySettings "IDEMPOTENCY_LEASE_SECONDS")]) false;
   Provide LoginHandler REQUEST
     [UserRepository; AuthSessionRepository; AsyncUOW; PasswordHasher; TokenPairIssuer;
      SecuritySettings]
     (Construct "LoginHandler"
        [("users", Object UserRepository);
         ("sessions", Object AuthSessionRepository);
         ("uow", Object AsyncUOW);
         ("password_hasher", Object PasswordHasher);
         ("issuer", Object TokenPairIssuer);
         ("session_idle_ttl",
            seconds (Attribute SecuritySettings "AUTH_SESSION_IDLE_TTL_SECONDS"))]) false;
   Provide LogoutHandler REQUEST [AuthSessionRepository; RefreshTokenCodec; AsyncUOW]
     (Construct "LogoutHandler"
        [("sessions", Object AuthSessionRepository); ("codec", Object RefreshTokenCodec);
         ("uow", Object AsyncUOW)]) false;
   Provide GetCurrentUserHandler REQUEST [UserRepository; AccessTokenVerifier; AsyncUOW]
     (Construct "GetCurrentUserHandler"
        [("users", Object UserRepository); ("verifier", Object AccessTokenVerifier);
         ("uow", Object AsyncUOW)]) false].

Definition MessagingProvider : list provider :=
  [Provide KafkaBroker APP [KafkaSettings]
     (Construct "KafkaBroker"
        [("bootstrap_servers", Attribute KafkaSettings "KAFKA_BOOTSTRAP_SERVERS")]) false;
   Provide BrokerPublisher APP [KafkaBroker]
     (Construct "FastStreamKafkaPublisher" [("broker", Object KafkaBroker)]) false;
   Provide OutboxScopeFactory APP [AsyncContainer]
     (Computed "factory" [Object AsyncContainer]) false;
   Provide OutboxRelayService APP [BrokerPublisher; OutboxScopeFactory; OutboxSettings]
     (Construct "OutboxRelayService"
        [("publisher", Object BrokerPublisher);
         ("scope_factory", Object OutboxScopeFactory);
         ("claim_lease_seconds", Attribute OutboxSettings "OUTBOX_CLAIM_LEASE_SECONDS");
         ("retry_policy", Construct "OutboxRetryPolicy"
            [("initial_seconds", Attribute OutboxSettings "OUTBOX_RETRY_INITIAL_SECONDS");
             ("max_seconds", Attribute OutboxSettings "OUTBOX_RETRY_MAX_SECONDS");
             ("exponent", Attribute OutboxSettings "OUTBOX_RETRY_EXPONENT");
             ("jitter_ratio", Attribute OutboxSettings "OUTBOX_RETRY_JITTER_RATIO");
             ("max_attempts", Attribute OutboxSettings "OUTBOX_RETRY_MAX_ATTEMPTS")])]) false].

(** The provisioner is returned from within [async with AsyncClient(...) as client]. *)
Definition ProfilesProvider : list provider :=
  [Provide ProfileCircuitBreaker APP [ProfileServiceSettings]
     (Construct "ProfileCircuitBreaker"
        [("fail_max", Attribute ProfileServiceSettings "PROFILE_SERVICE_CB_FAILURES");
         ("recovery_timeout",
            Attribute ProfileServiceSettings "PROFILE_SERVICE_CB_RECOVERY_SECONDS")]) false;
   Provide ProfileProvisioner APP [ProfileServiceSettings; ProfileCircuitBreaker]
     (Construct "HTTPProfileProvisioner"
        [("", Construct "AsyncClient"
            [("base_url", Computed "str" [Attribute ProfileServiceSettings "PROFILE_SERVICE_URL"]);
             ("headers", Computed "{X-Service-Token: token} if token else {}"
                [Attribute ProfileServiceSettings "PROFILE_SERVICE_TOKEN"]);
             ("timeout", Attribute ProfileServiceSettings "PROFILE_SERVICE_TIMEOUT_SECONDS");
             ("follow_redirects", Literal "False");
             ("trust_env", Literal "False")]);
         ("configured", Computed "is not None"
            [Attribute ProfileServiceSettings "PROFILE_SERVICE_TOKEN"]);
         ("circuit_breaker", Object ProfileCircuitBreaker);
         ("retry_delay_seconds",
            Attribute ProfileServiceSettings "PROFILE_SERVICE_RETRY_DELAY_SECONDS");
         ("retry_max_delay_seconds",
            Attribute ProfileServiceSettings "PROFILE_SERVICE_RETRY_MAX_DELAY_SECONDS")]) true].

Definition RegistrationProvider : list provider :=
  [Provide RegistrationObserver APP [] (Construct "PrometheusRegistrationObserver" []) false;
   Provide RegistrationScopeFactory APP [AsyncContainer]
     (Computed "factory" [Object AsyncContainer]) false;
   Provide ResumeRegistrationHandler APP
     [RegistrationScopeFactory; ProfileProvisioner; RegistrationObserver; RegistrationSettings]
     (Construct "ResumeRegistrationHandler"
        [("scope_factory", Object RegistrationScopeFactory);
         ("profile_provisioner", Object ProfileProvisioner);
         ("observer", Object RegistrationObserver);
         ("retry_policy", Construct "RegistrationRetryPolicy"
            [("initial_seconds",
                Attribute RegistrationSettings "REGISTRATION_RETRY_INITIAL_SECONDS");
             ("max_seconds", Attribute RegistrationSettings "REGISTRATION_RETRY_MAX_SECONDS");
             ("exponent", Attribute RegistrationSettings "REGISTRATION_RETRY_EXPONENT");
             ("jitter_ratio", Attribute RegistrationSettings "REGISTRATION_RETRY_JITTER_RATIO");
             ("max_attempts",
                Attribute RegistrationSettings "REGISTRATION_RETRY_MAX_ATTEMPTS")])]) false;
   Provide RegisterUserHandler APP
     [RegistrationScopeFactory; PasswordHasher; ResumeRegistrationHandler; RegistrationSettings]
     (Construct "RegisterUserHandler"
        [("scope_factory", Object RegistrationScopeFactory);
         ("password_hasher", Object PasswordHasher);
         ("resume", Object ResumeRegistrationHandler);
         ("claim_lease_seconds",
            Attribute RegistrationSettings "REGISTRATION_CLAIM_LEASE_SECONDS")]) false;
   Provide RedriveRegistrationHandler APP [RegistrationScopeFactory]
     (Construct "RedriveRegistrationHandler" [("", Object RegistrationScopeFactory)]) false;
   Provide RegistrationReconciler APP
     [RegistrationScopeFactory; ResumeRegistrationHandler; RegistrationObserver;
      RegistrationSettings]
     (Construct "RegistrationReconcilerService"
        [("scope_factory", Object RegistrationScopeFactory);
         ("attempt", Object ResumeRegistrationHandler);
         ("observer", Object RegistrationObserver);
         ("claim_lease_seconds",
            Attribute RegistrationSettings "REGISTRATION_CLAIM_LEASE_SECONDS")]) false].

Definition create_container : list provider :=
  SettingsProvider ++ DatabaseAppProvider ++ DatabaseRequestProvider ++ SecurityProvider
  ++ IdempotencyAppProvider ++ IdempotencyRequestProvider ++ RepositoriesProvider
  ++ ServicesProvider ++ MessagingProvider ++ ProfilesProvider ++ RegistrationProvider.
End providers.

(** ** What the bodies mention *)

(** The parameters an expression mentions. *)
Fixpoint objects (e : expr) : list component :=
  match e with
  | Object c | Attribute c _ => [c]
  | Construct _ args => flat_map (fun a => objects a.2) args
  | Computed _ from => flat_map objects from
  | Literal _ => []
  end.

(** The attributes it reads. *)
Fixpoint reads (e : expr) : list (component * string) :=
  match e with
  | Attribute c name => [(c, name)]
  | Construct _ args => flat_map (fun a => reads a.2) args
  | Computed _ from => flat_map reads from
  | Object _ | Literal _ => []
  end.

(** The arguments passed under a keyword, by a construction or one inside it. *)
Fixpoint arguments (name : string) (e : expr) : list expr :=
  match e with
  | Construct _ args =>
      flat_map (fun a => (if String.eqb a.1 name then [a.2] else []) ++ arguments name a.2) args
  | _ => []
  end.

(** Those the provider of a type passes. *)
Definition passes (c : component) (name : string) : list expr :=
  flat_map (fun p => arguments name (pv_returns p))
    (filter (fun p => pv_provides p = c) create_container).

Section attributes.
#[local] Open Scope string_scope.

(** The group of a settings class. *)
Definition group_of (c : component) : option string :=
  match c with
  | AppSettings => Some "app" | PostgresSettings => Some "postgres"
  | ValkeySettings => Some "valkey" | KafkaSettings => Some "kafka"
  | OutboxSettings => Some "outbox" | SecuritySettings => Some "security"
  | IdempotencySettings => Some "idempotency" | ProfileServiceSettings => Some "profile_service"
  | RegistrationSettings => Some "registration"
  | _ => None
  end.

Definition fields (c : component) : list string :=
  match group_of c with
  | Some g => fst <$> default [] (dict_get g model_fields)
  | None => []
  end.

(** The properties of a class and the fields they read. *)
Definition properties (c : component) : list (string * list (component * string)) :=
  match c with
  | Settings =>
      [("test_token_endpoint_enabled",
         [(AppSettings, "APP_ENVIRONMENT"); (SecuritySettings, "AUTH_TEST_TOKEN_ENDPOINT_ENABLED")])]
  | PostgresSettings =>
      [("DATABASE_URL", (fun f => (PostgresSettings, f)) <$>
         ["DATABASE_USER"; "DATABASE_PASSWORD"; "DATABASE_HOST"; "DATABASE_PORT"; "DATABASE_NAME"])]
  | ValkeySettings =>
      [("VALKEY_URL", (fun f => (ValkeySettings, f)) <$> ["VALKEY_HOST"; "VALKEY_PORT"; "VALKEY_DB"])]
  | SecuritySettings =>
      [("JWT_AUDIENCES", [(SecuritySettings, "jwt_audiences_raw")]);
       ("REPLAY_ENCRYPTION_KEY_PATHS", [(SecuritySettings, "replay_key_paths_raw")])]
  | _ => []
  end.

(** What an object of a type has to read. *)
Definition attributes (c : component) : list string :=
  match c with
  | Settings => (fst <$> model_fields) ++ (fst <$> properties Settings)
  | RSAKeyPair => ["private_key"; "public_key"]
  | _ => fields c ++ (fst <$> properties c)
  end.

(** What the entry points, the cookies and the logging read of the settings. *)
Definition read_elsewhere : list (component * string) :=
  [(AppSettings, "APP_VERSION"); (Settings, "test_token_endpoint_enabled");
   (IdempotencySettings, "IDEMPOTENCY_LEASE_SECONDS"); (AppSettings, "APP_ENVIRONMENT");
   (KafkaSettings, "KAFKA_BOOTSTRAP_SERVERS"); (OutboxSettings, "OUTBOX_POLL_INTERVAL_SECONDS");
   (OutboxSettings, "OUTBOX_BATCH_SIZE"); (OutboxSettings, "OUTBOX_SHUTDOWN_TIMEOUT_SECONDS");
   (RegistrationSettings, "REGISTRATION_POLL_INTERVAL_SECONDS");
   (RegistrationSettings, "REGISTRATION_BATCH_SIZE");
   (RegistrationSettings, "REGISTRATION_SHUTDOWN_TIMEOUT_SECONDS");
   (SecuritySettings, "AUTH_COOKIE_SECURE"); (SecuritySettings, "AUTH_COOKIE_SAMESITE");
   (SecuritySettings, "ACCESS_TOKEN_TTL_SECONDS");
   (SecuritySettings, "AUTH_SESSION_IDLE_TTL_SECONDS"); (AppSettings, "LOG_LEVEL");
   (AppSettings, "SERVICE_NAME"); (AppSettings, "DEV_LOGS"); (AppSettings, "MUTE_LOGGERS")].

(** The fields that are read in the end. *)
Definition fields_read : list (component * string) :=
  flat_map (fun a => default [a] (dict_get a.2 (properties a.1)))
    (flat_map (fun p => reads (pv_returns p)) create_container ++ read_elsewhere).

(** The fields of a group that nothing in the service reads. *)
Definition unread (c : component) : list string :=
  filter (fun f => (c, f) ∉ fields_read) (fields c).
End attributes.

(** ** What is asked for *)

(** The scopes a worker opens around one transaction: [RegistrationScope], [OutboxScope]. *)
Definition RegistrationScope : list component :=
  [AsyncUOW; RegistrationOperationRepository; UserRepository; UserRegisteredPublisher].
Definition OutboxScope : list component := [AsyncUOW; OutboxRepository].

(** The parameters an endpoint has injected, in the scope of its request. *)
Definition injected : list (string * list component) :=
  [("register", [RegisterUserHandler]);
   ("login", [LoginHandler; SecuritySettings]);
   ("login_test", [LoginHandler]);
   ("refresh", [RefreshHandler; SecuritySettings]);
   ("logout", [LogoutHandler; SecuritySettings]);
   ("me", [GetCurrentUserHandler]);
   ("ready", [AsyncEngine; Redis])]%string.

(** The three processes. *)
Inductive service_process : Set := HttpProcess | RelayProcess | ReconcilerProcess.

(** What a process has the container make in application scope, in order: the HTTP
    application when it starts, the workers in [main]. *)
Definition resolved (p : service_process) : list component :=
  match p with
  | HttpProcess => [AccessTokenIssuer; AccessTokenVerifier; ReplayResultProtector; AsyncEngine;
                    Redis; HotIdempotencyStore]
  | RelayProcess => [Settings; KafkaBroker; OutboxRelayService]
  | ReconcilerProcess => [Settings; RegistrationReconciler]
  end.

(** What it may ask for later, while it works. *)
Definition requested (p : service_process) : list component :=
  match p with
  | HttpProcess => concat (snd <$> injected) ++ RegistrationScope
  | RelayProcess => OutboxScope
  | ReconcilerProcess => RedriveRegistrationHandler :: RegistrationScope
  end.

(** [await container.close()] in a [finally]: the workers' [main] has it, the
    application's [lifespan] does not. *)
Definition closes_container (p : service_process) : bool :=
  match p with
  | HttpProcess => false
  | RelayProcess | ReconcilerProcess => true
  end.

(** ** Graphs of providers *)

(** An object of a longer-lived scope may be used in a shorter-lived one. *)
Definition outlives (a b : lifetime) : bool :=
  match a, b with REQUEST, APP => false | _, _ => true end.

Section graph.
Context (g : list provider).

(** The typing judgement: an object of this type can be made in this scope.  The
    container itself is in every scope; a provider makes its object in its own scope
    from objects that can be made there.  A derivation is finite, so no provider
    needs itself. *)
Inductive makes (s : lifetime) : component -> Prop :=
| makes_container : makes s AsyncContainer
| makes_provided p :
    p ∈ g -> outlives (pv_scope p) s = true ->
    (forall c, c ∈ pv_needs p -> makes (pv_scope p) c) -> makes s (pv_provides p).

(** The checker. *)
Fixpoint makes_within (fuel : nat) (s : lifetime) (c : component) : bool :=
  match fuel with
  | O => false
  | S fuel =>
      if decide (c = AsyncContainer) then true
      else existsb (fun p =>
             if decide (pv_provides p = c)
             then if outlives (pv_scope p) s
                  then forallb (makes_within fuel (pv_scope p)) (pv_needs p) else false
             else false) g
  end.

Lemma makes_within_sound fuel s c : makes_within fuel s c = true -> makes s c.
Proof.
  revert s c. induction fuel as [|fuel IH]; intros s c; [done|]. cbn [makes_within].
  destruct (decide (c = AsyncContainer)) as [->|_]; [constructor|].
  intros (p & Hp & Hn)%existsb_exists. destruct (decide (pv_provides p = c)) as [<-|]; [|done].
  destruct (outlives (pv_scope p) s) eqn:Hs; [|done]. apply makes_provided; [by apply list_elem_of_In|done|]. intros c Hc. apply IH.
  rewrite forallb_forall in Hn. by apply Hn, list_elem_of_In.
Qed.

(** What the objects of a type are made from, directly and in the end. *)
Definition needs (c : component) : list component :=
  concat (pv_needs <$> filter (fun p => pv_provides p = c) g).

Definition part_of (d c : component) : Prop := rtc (fun a b => b ∈ needs a) c d.

Fixpoint parts (fuel : nat) (c : component) : list component :=
  match fuel with
  | O => [c]
  | S fuel => c :: concat (parts fuel <$> needs c)
  end.

Lemma elem_of_parts fuel c d : d ∈ parts fuel c -> part_of d c.
Proof.
  revert c. induction fuel as [|fuel IH]; intros c; cbn [parts].
  - intros ->%list_elem_of_singleton. apply rtc_refl.
  - intros [->|Hd]%elem_of_cons; [apply rtc_refl|].
    apply list_elem_of_In, in_concat in Hd as (l & Hl & Hd).
    apply list_elem_of_In, list_elem_of_fmap in Hl as (b & -> & Hb). apply list_elem_of_In in Hd.
    eapply rtc_l; [exact Hb|by apply IH].
Qed.

(** A set of types closed under [needs] has all the parts of its members. *)
Lemma closed_parts (l : list component) c d :
  (forall a b, a ∈ l -> b ∈ needs a -> b ∈ l) -> c ∈ l -> part_of d c -> d ∈ l.
Proof. intros Hl Hc Hp. induction Hp; eauto. Qed.
End graph.

(** ** The service's graph *)

Abbreviation made_in := (makes create_container).

(** The types whose objects hold a database session. *)
Definition on_session : list component :=
  [AsyncUOW; UserRepository; AuthSessionRepository; OutboxRepository;
   RegistrationOperationRepository; UserRegisteredPublisher; IdempotencyRecordRepository].

(** Arguments that must be the same for two components to work together. *)
Definition agreeing : list (component * string * (component * string)) :=
  [(LoginHandler, "session_idle_ttl", (TransactionalRefreshOperation, "session_idle_ttl"));
   (IdempotencyRecordRepository, "retention_seconds",
      (HotIdempotencyStore, "result_ttl_seconds"));
   (RegisterUserHandler, "claim_lease_seconds", (RegistrationReconciler, "claim_lease_seconds"));
   (AccessTokenIssuer, "issuer", (AccessTokenVerifier, "issuer"));
   (OutboxRepository, "topic", (UserRegisteredPublisher, "topic"))]%string.

(** Nothing a process keeps between requests. *)
Definition application_types : list component :=
  AsyncContainer :: (pv_provides <$> filter (fun p => pv_scope p = APP) create_container).

(** What a process has made by its start and never closes. *)
Definition left_open (p : service_process) : list component :=
  if closes_container p then [] else
  filter (fun c => existsb (fun q => bool_decide (pv_provides q = c) && pv_closes q) create_container)
    (remove_dups (concat (parts create_container 5 <$> resolved p))).

Lemma component_in_graph p : p ∈ create_container -> made_in (pv_scope p) (pv_provides p).
Proof.
  intros Hp. apply (makes_within_sound _ 10).
  assert (Hall : forallb (fun p => makes_within create_container 10 (pv_scope p) (pv_provides p))
    create_container = true) by (vm_compute; reflexivity).
  rewrite forallb_forall in Hall. by apply Hall, list_elem_of_In.
Qed.

Lemma application_types_closed a b :
  a ∈ application_types -> b ∈ needs create_container a -> b ∈ application_types.
Proof.
  assert (Hall : forallb (fun a => forallb (fun b => bool_decide (b ∈ application_types))
    (needs create_container a)) application_types = true) by (vm_compute; reflexivity).
  rewrite forallb_forall in Hall. intros Ha%list_elem_of_In Hb%list_elem_of_In.
  specialize (Hall a Ha). rewrite forallb_forall in Hall.
  exact (bool_decide_eq_true_1 _ (Hall b Hb)).
Qed.

Lemma uses_its_parameters p c :
  p ∈ create_container -> c ∈ objects (pv_returns p) <-> c ∈ pv_needs p.
Proof.
  assert (Hall : forallb (fun p =>
    forallb (fun c => bool_decide (c ∈ pv_needs p)) (objects (pv_returns p)) &&
    forallb (fun c => bool_decide (c ∈ objects (pv_returns p))) (pv_needs p)) create_container
    = true) by (vm_compute; reflexivity).
  rewrite forallb_forall in Hall. intros Hp%list_elem_of_In.
  destruct (andb_prop _ _ (Hall p Hp)) as [H1 H2]. rewrite forallb_forall in H1, H2.
  split; intros Hc%list_elem_of_In.
  - exact (bool_decide_eq_true_1 _ (H1 c Hc)).
  - exact (bool_decide_eq_true_1 _ (H2 c Hc)).
Qed.

Lemma reads_attributes p c name :
  p ∈ create_container -> (c, name) ∈ reads (pv_returns p) -> name ∈ attributes c.
Proof.
  assert (Hall : forallb (fun p => forallb (fun a => bool_decide (a.2 ∈ attributes a.1))
    (reads (pv_returns p))) create_container = true) by (vm_compute; reflexivity).
  rewrite forallb_forall in Hall. intros Hp%list_elem_of_In Ha%list_elem_of_In.
  specialize (Hall p Hp). rewrite forallb_forall in Hall.
  exact (bool_decide_eq_true_1 _ (Hall (c, name) Ha)).
Qed.

Lemma agreeing_pass c name c' name' :
  (c, name, (c', name')) ∈ agreeing ->
  length (passes c name) = 1%nat /\ passes c name = passes c' name'.
Proof.
  unfold agreeing. rewrite !elem_of_cons, elem_of_nil.
  intros Hin. repeat (destruct Hin as [[= -> -> -> ->]|Hin]; [by vm_compute|]). done.
Qed.

(** C34. The wiring of the service is well-typed.  Every type has one provider; every
    provider's object can be made, from objects that live at least as long, with no
    circle; so can everything the processes ask for when they start, the endpoints
    have injected and the workers' transactions open, in the scope they ask in.  A
    database session belongs to one request or one transaction: no application object
    has one among its parts, while the unit of work and every repository of a scope are
    made on that scope's one session, which is what puts a handler's statements into its
    transaction.  Every provider uses the parameters it declares and no others, and
    reads only attributes their classes have.  What two components must agree on comes
    from one setting: the lifetime of sessions, of results and of leases, the issuer,
    the topic.  Of the Kafka settings the service reads the servers and the topic and
    nothing else.  The workers close the container on every way out; the HTTP process
    never does, and leaves the engine and the Valkey client it made open. *)
Theorem container_wired :
  NoDup (pv_provides <$> create_container) /\
  (forall p, p ∈ create_container -> made_in (pv_scope p) (pv_provides p)) /\
  (forall p c, c ∈ resolved p -> made_in APP c) /\
  (forall p c, c ∈ requested p -> made_in REQUEST c) /\
  (forall p, p ∈ create_container -> pv_scope p = APP ->
     ~ part_of create_container AsyncSession (pv_provides p)) /\
  (forall c, c ∈ on_session -> part_of create_container AsyncSession c) /\
  (forall p c, p ∈ create_container -> c ∈ objects (pv_returns p) <-> c ∈ pv_needs p) /\
  (forall p c name, p ∈ create_container -> (c, name) ∈ reads (pv_returns p) ->
     name ∈ attributes c) /\
  (forall c name c' name', (c, name, (c', name')) ∈ agreeing ->
     length (passes c name) = 1%nat /\ passes c name = passes c' name') /\
  unread KafkaSettings = ["KAFKA_CLIENT_ID"; "KAFKA_GROUP_ID"; "KAFKA_AUTO_OFFSET_RESET"]%string /\
  left_open RelayProcess = [] /\ left_open ReconcilerProcess = [] /\
  left_open HttpProcess = [AsyncEngine; Redis].
Proof.
  split_and!.
  - apply (bool_decide_unpack _). vm_compute. exact I.
  - apply component_in_graph.
  - intros p c Hc. apply (makes_within_sound _ 10). revert Hc.
    assert (Hall : forallb (makes_within create_container 10 APP) (resolved p) = true)
      by (destruct p; vm_compute; reflexivity).
    rewrite forallb_forall in Hall. intros Hc. by apply Hall, list_elem_of_In.
  - intros p c Hc. apply (makes_within_sound _ 10). revert Hc.
    assert (Hall : forallb (makes_within create_container 10 REQUEST) (requested p) = true)
      by (destruct p; vm_compute; reflexivity).
    rewrite forallb_forall in Hall. intros Hc. by apply Hall, list_elem_of_In.
  - intros p Hp Hs Hpart.
    assert (Hin : AsyncSession ∈ application_types).
    { apply (closed_parts create_container _ (pv_provides p)); [apply application_types_closed| |done].
      right. apply list_elem_of_fmap. exists p. split; [done|]. by apply list_elem_of_filter. }
    revert Hin. apply (bool_decide_unpack _). vm_compute. exact I.
  - intros c Hc.
    assert (Hall : forallb (fun c => bool_decide (AsyncSession ∈ parts create_container 1 c)) on_session
      = true) by (vm_compute; reflexivity).
    rewrite forallb_forall in Hall. apply list_elem_of_In in Hc.
    apply (elem_of_parts _ 1). exact (bool_decide_eq_true_1 _ (Hall c Hc)).
  - apply uses_its_parameters.
  - apply reads_attributes.
  - apply agreeing_pass.
  - vm_compute. reflexivity.
  - reflexivity.
  - reflexivity.
  - vm_compute. reflexivity.
Qed.
