(* ===== verification/Wiring.v ===== *)
(** * From settings to components

    [infrastructure/di]: the providers that build the components from the settings,
    as far as the settings decide whether a constructor accepts what it is given.
    What every provider passes on, and the scopes, are in [Container]. *)

From S2P Require Import Prelude Exceptions Domain Retry Text Json Tokens Relay CircuitBreaker.
From S2P Require Import Profile AccessTokens ReplayProtection Settings.
From Stdlib Require Import SpecFloat.

(** ** messaging.py, registration.py *)

Definition outbox_policy (s : OutboxSettings) : RetryPolicy :=
  {| initial_seconds := OUTBOX_RETRY_INITIAL_SECONDS s;
     max_seconds := OUTBOX_RETRY_MAX_SECONDS s;
     exponent := OUTBOX_RETRY_EXPONENT s;
     jitter_ratio := OUTBOX_RETRY_JITTER_RATIO s;
     max_attempts := OUTBOX_RETRY_MAX_ATTEMPTS s |}.

(** [outbox_relay_service]; the relay stops when it is told to. *)
Definition provide_outbox_relay (s : OutboxSettings) (stopped : nat -> bool) : res relay_config :=
  policy ← post_init (outbox_policy s);
  relay_init (OUTBOX_CLAIM_LEASE_SECONDS s);;
  mret {| rl_claim_lease_seconds := OUTBOX_CLAIM_LEASE_SECONDS s; rl_retry_policy := policy;
          rl_stopped := stopped |}.

Definition registration_policy (s : RegistrationSettings) : RegistrationRetryPolicy :=
  {| initial_seconds := REGISTRATION_RETRY_INITIAL_SECONDS s;
     max_seconds := REGISTRATION_RETRY_MAX_SECONDS s;
     exponent := REGISTRATION_RETRY_EXPONENT s;
     jitter_ratio := REGISTRATION_RETRY_JITTER_RATIO s;
     max_attempts := REGISTRATION_RETRY_MAX_ATTEMPTS s |}.

(** [resume_handler] *)
Definition provide_resume (s : RegistrationSettings) : res RegistrationRetryPolicy :=
  post_init (registration_policy s).

(** The lease check of [RegisterUserHandler] and of [RegistrationReconcilerService]. *)
Definition lease_init (claim_lease_seconds : float) : res float :=
  raise_if (fle claim_lease_seconds f0) EValueError;; mret claim_lease_seconds.

(** [register_handler] and [reconciler] *)
Definition provide_register (s : RegistrationSettings) : res float :=
  lease_init (REGISTRATION_CLAIM_LEASE_SECONDS s).

(** ** idempotency.py, profiles.py *)

Definition provide_circuit_breaker (s : IdempotencySettings) : option breaker :=
  breaker_init {| cb_fail_max := IDEMPOTENCY_CB_FAILURES s;
                  cb_recovery_timeout := IDEMPOTENCY_CB_RECOVERY_SECONDS s |}.

(** [ValkeyHotIdempotencyStore.__init__]: the lifetime and the namespace. *)
Definition hot_store_init (result_ttl_seconds : Z) (key_namespace : string) : res (Z * string) :=
  raise_if (result_ttl_seconds <=? 0) EValueError;;
  raise_if (is_empty key_namespace) EValueError;;
  mret (result_ttl_seconds, key_namespace).

Definition provide_hot_store (i : IdempotencySettings) (v : ValkeySettings) : res (Z * string) :=
  hot_store_init (IDEMPOTENCY_RESULT_TTL_SECONDS i) (VALKEY_KEY_NAMESPACE v).

Definition provide_profile_breaker (s : ProfileServiceSettings) : option breaker :=
  breaker_init {| cb_fail_max := PROFILE_SERVICE_CB_FAILURES s;
                  cb_recovery_timeout := PROFILE_SERVICE_CB_RECOVERY_SECONDS s |}.

Definition provide_provisioner (s : ProfileServiceSettings) : res provisioner_config :=
  provisioner_init {| pc_configured := is_some (PROFILE_SERVICE_TOKEN s);
                      pc_retry_delay_seconds := PROFILE_SERVICE_RETRY_DELAY_SECONDS s;
                      pc_retry_max_delay_seconds := PROFILE_SERVICE_RETRY_MAX_DELAY_SECONDS s |}.

(** ** security.py *)

Definition token_settings_of (s : SecuritySettings) : token_settings :=
  {| AccessTokens.JWT_PRIVATE_KEY_PATH := JWT_PRIVATE_KEY_PATH s;
     AccessTokens.JWT_PUBLIC_KEY_PATH := JWT_PUBLIC_KEY_PATH s;
     AccessTokens.JWT_ACTIVE_KEY_ID := JWT_ACTIVE_KEY_ID s;
     AccessTokens.JWT_ISSUER := JWT_ISSUER s;
     AccessTokens.JWT_SERVICE_AUDIENCE := JWT_SERVICE_AUDIENCE s;
     AccessTokens.JWT_AUDIENCES := JWT_AUDIENCES s;
     AccessTokens.JWT_CLOCK_SKEW_SECONDS := JWT_CLOCK_SKEW_SECONDS s;
     AccessTokens.JWT_TTL_SECONDS := ACCESS_TOKEN_TTL_SECONDS s |}.

Section keys.
Context `{Jwt} `{LaxReaders} `{FileSystem}.

(** [{key_id: load_replay_key(path) for ...}] *)
Fixpoint load_ring (paths : list (string * string)) (keys : gmap string bytes) :
    res (gmap string bytes) :=
  match paths with
  | [] => mret keys
  | (key_id, path) :: paths =>
      match read_bytes path with
      | None => raise EOSError
      | Some raw => key ← load_replay_key raw; load_ring paths (<[key_id := key]> keys)
      end
  end.

(** [replay_protector] *)
Definition provide_protector (s : SecuritySettings) : res protector :=
  paths ← REPLAY_ENCRYPTION_KEY_PATHS s;
  keys ← load_ring paths ∅;
  protector_init (REPLAY_ENCRYPTION_ACTIVE_KEY_ID s) keys.
End keys.

(** ** Floats *)

Lemma SFcompare_swap x y : SFcompare y x = option_map CompOpp (SFcompare x y).
Proof.
  destruct x as [[]|[]| |[] m e], y as [[]|[]| |[] m' e']; try done; cbn;
    rewrite (Z.compare_antisym e' e); destruct (Z.compare e' e) eqn:E; try done; cbn;
    change (Pos.compare_cont Eq) with Pos.compare;
    rewrite (Pos.compare_antisym m m'); by destruct (Pos.compare m m').
Qed.

Lemma flt_fle x y : flt x y = true -> fle y x = false.
Proof.
  unfold flt, fle, SFltb, SFleb. rewrite (SFcompare_swap x y).
  by destruct (SFcompare x y) as [[]|].
Qed.

Lemma fle_flt x y : fle x y = true -> flt y x = false.
Proof.
  unfold flt, fle, SFltb, SFleb. rewrite (SFcompare_swap x y).
  by destruct (SFcompare x y) as [[]|].
Qed.

(** ** What validation establishes *)

Lemma field_ok b x : field b = Ok x -> b = true.
Proof. unfold field. apply raise_unless_ok. Qed.

Lemma in_validator_ok {A} (r : res A) a : in_validator r = Ok a <-> r = Ok a.
Proof. destruct r as [|error]; cbn; [done|]. by destruct (isinstance error EValueError). Qed.

Lemma non_blank_ok s t : non_blank s = Ok t -> t = py_strip s /\ t <> ""%string.
Proof.
  unfold non_blank. intros H. apply (proj1 (in_validator_ok _ _)) in H. ok_inv. subst. split; [done|].
  intros E. unfold is_empty in *. by rewrite E in *.
Qed.

(** Split a successful validation into the checks it passed. *)
Ltac checks :=
  ok_inv;
  repeat match goal with
  | H : field _ = Ok _ |- _ => apply field_ok in H
  | H : in_validator _ = Ok _ |- _ => apply (proj1 (in_validator_ok _ _)) in H
  | H : non_blank _ = Ok _ |- _ => apply non_blank_ok in H
  end; ok_inv.

(** The fields that are compared with each other or handed to a constructor. *)
Definition numbers (s : Settings) : list float :=
  [OUTBOX_CLAIM_LEASE_SECONDS (outbox s); OUTBOX_RETRY_INITIAL_SECONDS (outbox s);
   OUTBOX_RETRY_MAX_SECONDS (outbox s); OUTBOX_RETRY_EXPONENT (outbox s);
   OUTBOX_RETRY_JITTER_RATIO (outbox s); REGISTRATION_CLAIM_LEASE_SECONDS (registration s);
   REGISTRATION_RETRY_INITIAL_SECONDS (registration s);
   REGISTRATION_RETRY_MAX_SECONDS (registration s);
   REGISTRATION_RETRY_EXPONENT (registration s);
   REGISTRATION_RETRY_JITTER_RATIO (registration s);
   IDEMPOTENCY_CB_RECOVERY_SECONDS (idempotency s);
   PROFILE_SERVICE_RETRY_DELAY_SECONDS (profile_service s);
   PROFILE_SERVICE_RETRY_MAX_DELAY_SECONDS (profile_service s);
   PROFILE_SERVICE_CB_RECOVERY_SECONDS (profile_service s)].

Section validated.
Context `{FloatBoundsLaws}.

Lemma positive_ok x : not_nan x = true -> field_gt f0 x = true -> fle x f0 = false.
Proof. intros Hx. rewrite gt_compares by done. apply flt_fle. Qed.

Lemma at_least_ok b x : not_nan x = true -> field_ge b x = true -> flt x b = false.
Proof. intros Hx. rewrite ge_compares by done. apply fle_flt. Qed.

(** The retry policies' constructor adds one check to those of the fields. *)
Lemma policy_ok p :
  not_nan (initial_seconds p) = true -> not_nan (exponent p) = true ->
  not_nan (jitter_ratio p) = true ->
  field_gt f0 (initial_seconds p) = true -> field_ge f1 (exponent p) = true ->
  field_ge f0 (jitter_ratio p) && field_le f1 (jitter_ratio p) = true ->
  (0 <? max_attempts p) = true ->
  post_init p = (raise_if (flt (max_seconds p) (initial_seconds p)) EValueError;; mret p).
Proof.
  intros N1 N2 N3 Hi He Hj Ha. unfold post_init.
  rewrite (positive_ok _ N1 Hi), (at_least_ok _ _ N2 He). cbn [raise_if mbind result_bind].
  destruct (flt (max_seconds p) (initial_seconds p)); [done|]. cbn [raise_if mbind result_bind].
  apply andb_true_iff in Hj as [Hj1 Hj2].
  rewrite ge_compares in Hj1 by done. rewrite le_compares in Hj2 by done. rewrite Hj1, Hj2. cbn.
  apply Z.ltb_lt in Ha. assert ((max_attempts p <=? 0) = false) as -> by lia. done.
Qed.

Lemma outbox_valid o s :
  validate_outbox o = Ok s -> not_nan (OUTBOX_CLAIM_LEASE_SECONDS s) = true ->
  not_nan (OUTBOX_RETRY_INITIAL_SECONDS s) = true -> not_nan (OUTBOX_RETRY_EXPONENT s) = true ->
  not_nan (OUTBOX_RETRY_JITTER_RATIO s) = true ->
  relay_init (OUTBOX_CLAIM_LEASE_SECONDS s) = Ok tt /\
  post_init (outbox_policy s) =
    (raise_if (flt (OUTBOX_RETRY_MAX_SECONDS s) (OUTBOX_RETRY_INITIAL_SECONDS s)) EValueError;;
     mret (outbox_policy s)).
Proof.
  unfold validate_outbox. intros Hv N1 N2 N3 N4. checks. subst o. split.
  - unfold relay_init. by rewrite positive_ok.
  - by apply policy_ok.
Qed.

Lemma registration_valid r s :
  validate_registration r = Ok s -> not_nan (REGISTRATION_CLAIM_LEASE_SECONDS s) = true ->
  not_nan (REGISTRATION_RETRY_INITIAL_SECONDS s) = true ->
  not_nan (REGISTRATION_RETRY_EXPONENT s) = true ->
  not_nan (REGISTRATION_RETRY_JITTER_RATIO s) = true ->
  provide_resume s = Ok (registration_policy s) /\
  provide_register s = Ok (REGISTRATION_CLAIM_LEASE_SECONDS s).
Proof.
  unfold validate_registration. intros Hv N1 N2 N3 N4. checks. subst r. split.
  - unfold provide_resume. rewrite policy_ok by done. cbn.
    match goal with E : flt _ _ = false |- _ => by rewrite E end.
  - unfold provide_register, lease_init. by rewrite positive_ok.
Qed.

Lemma idempotency_valid i s :
  validate_idempotency i = Ok s -> not_nan (IDEMPOTENCY_CB_RECOVERY_SECONDS s) = true ->
  is_Some (provide_circuit_breaker s) /\ 0 < IDEMPOTENCY_RESULT_TTL_SECONDS s.
Proof.
  unfold validate_idempotency. intros Hv N1. checks. subst i. bools. split; [|lia].
  unfold provide_circuit_breaker, breaker_init. cbn [cb_fail_max cb_recovery_timeout].
  rewrite positive_ok by done. assert ((IDEMPOTENCY_CB_FAILURES s <=? 0) = false) as -> by lia. done.
Qed.

Lemma profile_valid p s :
  validate_profile_service p = Ok s ->
  not_nan (PROFILE_SERVICE_RETRY_DELAY_SECONDS s) = true ->
  not_nan (PROFILE_SERVICE_RETRY_MAX_DELAY_SECONDS s) = true ->
  not_nan (PROFILE_SERVICE_CB_RECOVERY_SECONDS s) = true ->
  is_Some (provide_profile_breaker s) /\ is_ok (provide_provisioner s) = true.
Proof.
  unfold validate_profile_service. intros Hv N1 N2 N3. checks. subst p.
  repeat match goal with E : _ && _ = true |- _ => apply andb_true_iff in E as [? ?] end.
  unfold int_between in *. split.
  - unfold provide_profile_breaker, breaker_init. cbn [cb_fail_max cb_recovery_timeout].
    rewrite positive_ok by done.
    assert ((PROFILE_SERVICE_CB_FAILURES s <=? 0) = false) as -> by lia. done.
  - unfold provide_provisioner, provisioner_init. cbn [pc_retry_delay_seconds pc_retry_max_delay_seconds].
    rewrite positive_ok, (at_least_ok f0) by done. cbn [raise_if mbind result_bind].
    match goal with E : flt _ _ = false |- _ => by rewrite E end.
Qed.
End validated.

Lemma not_empty s : s <> ""%string -> is_empty s = false.
Proof. apply bool_decide_eq_false. Qed.

Lemma hot_store_valid `{FloatBounds} d v i s :
  validate_idempotency d = Ok i -> validate_valkey v = Ok s ->
  provide_hot_store i s = Ok (IDEMPOTENCY_RESULT_TTL_SECONDS i, VALKEY_KEY_NAMESPACE s).
Proof.
  unfold validate_idempotency, validate_valkey. intros Hd Hv. checks. subst. bools.
  unfold provide_hot_store, hot_store_init. cbn [VALKEY_KEY_NAMESPACE].
  match goal with E : _ = py_strip _ /\ _ |- _ => destruct E as [_ Hne] end.
  rewrite (not_empty _ Hne).
  by assert ((IDEMPOTENCY_RESULT_TTL_SECONDS i <=? 0) = false) as -> by lia.
Qed.

Section security.
Context `{Jwt} `{LaxReaders} `{FileSystem}.

#[local] Arguments py_strip : simpl never.
#[local] Arguments JWT_AUDIENCES : simpl never.
#[local] Arguments REPLAY_ENCRYPTION_KEY_PATHS : simpl never.

Record secure (s : SecuritySettings) : Prop := {
  sv_key_id : py_strip (JWT_ACTIVE_KEY_ID s) = JWT_ACTIVE_KEY_ID s /\ JWT_ACTIVE_KEY_ID s <> ""%string;
  sv_issuer : py_strip (JWT_ISSUER s) = JWT_ISSUER s /\ JWT_ISSUER s <> ""%string;
  sv_audience : py_strip (JWT_SERVICE_AUDIENCE s) = JWT_SERVICE_AUDIENCE s /\
                JWT_SERVICE_AUDIENCE s <> ""%string;
  sv_own_audience : JWT_SERVICE_AUDIENCE s ∈ JWT_AUDIENCES s;
  sv_skew : 0 <= JWT_CLOCK_SKEW_SECONDS s;
  sv_ttl : 0 < ACCESS_TOKEN_TTL_SECONDS s;
  sv_ring : exists paths, REPLAY_ENCRYPTION_KEY_PATHS s = Ok paths /\
            is_Some (dict_get (REPLAY_ENCRYPTION_ACTIVE_KEY_ID s) paths)
}.

Lemma security_valid audiences paths s0 s : validate_security audiences paths s0 = Ok s -> secure s.
Proof.
  unfold validate_security. intros Hv. checks. unfold validate_security_invariants in Hv. checks.
  repeat match goal with E : _ /\ _ |- _ => destruct E end. subst. bools.
  match goal with E : bool_decide (_ ∈ _) = true |- _ => apply bool_decide_eq_true in E end.
  split; cbn in *; rewrite ?py_strip_idem; try done; try lia.
  eexists. split; [done|].
  match goal with E : is_some ?o = true |- _ => by destruct o end.
Qed.

(** The audiences are stripped and not blank. *)
Lemma audience_tidy s a : a ∈ JWT_AUDIENCES s -> py_strip a = a /\ a <> ""%string.
Proof.
  unfold JWT_AUDIENCES, comma_items. rewrite elem_of_remove_dups, list_elem_of_In.
  intros (Hin & Hne)%filter_In. apply list_elem_of_In, list_elem_of_fmap in Hin as (b & -> & _).
  split; [apply py_strip_idem|]. apply negb_true_iff in Hne. unfold is_empty in Hne.
  by apply bool_decide_eq_false in Hne.
Qed.

Lemma load_public_size private_path public_path keys :
  load_rsa_key_pair private_path public_path = Ok keys ->
  MIN_RSA_KEY_SIZE_BITS <= public_key_size keys.2.
Proof.
  unfold load_rsa_key_pair. intros Hk. ok_inv. subst keys. cbn [snd].
  match goal with E : load_rsa_public_key _ = Ok _ |- _ => rename E into Hp end.
  unfold load_rsa_public_key, load_key in Hp. destruct (read_bytes public_path); [|done].
  destruct (load_pem_public_key _) as [| |k]; [done|done|]. ok_inv. subst.
  bools. lia.
Qed.

Lemma provide_tokens_ok s keys :
  secure s -> load_rsa_key_pair (JWT_PRIVATE_KEY_PATH s) (JWT_PUBLIC_KEY_PATH s) = Ok keys ->
  exists i v, provide_tokens (token_settings_of s) = Ok (i, v) /\ ve_audience v ∈ is_audiences i.
Proof.
  intros [[Kk Kn] [Ik In] [Ak An] Hown Hskew Httl _] Hkeys. unfold provide_tokens.
  cbn [token_settings_of AccessTokens.JWT_PRIVATE_KEY_PATH AccessTokens.JWT_PUBLIC_KEY_PATH
    AccessTokens.JWT_ACTIVE_KEY_ID AccessTokens.JWT_ISSUER AccessTokens.JWT_SERVICE_AUDIENCE
    AccessTokens.JWT_AUDIENCES AccessTokens.JWT_CLOCK_SKEW_SECONDS AccessTokens.JWT_TTL_SECONDS].
  rewrite Hkeys. cbn [mbind result_bind].
  assert (Hsize : (public_key_size keys.2 <? MIN_RSA_KEY_SIZE_BITS) = false).
  { apply Z.ltb_ge. by eapply load_public_size. }
  assert (Hin : JWT_SERVICE_AUDIENCE s ∈ remove_dups (py_strip <$> JWT_AUDIENCES s)).
  { apply elem_of_remove_dups, list_elem_of_fmap. eauto. }
  assert (Hi : issuer_init keys.1 (JWT_ACTIVE_KEY_ID s) (JWT_ISSUER s) (JWT_AUDIENCES s)
    (ACCESS_TOKEN_TTL_SECONDS s * 1000000) = Ok
    {| is_private_key := keys.1; is_key_id := JWT_ACTIVE_KEY_ID s; is_issuer := JWT_ISSUER s;
       is_audiences := remove_dups (py_strip <$> JWT_AUDIENCES s);
       is_access_token_ttl := ACCESS_TOKEN_TTL_SECONDS s * 1000000 |}).
  { unfold issuer_init. rewrite Kk, Ik, (not_empty _ Kn), (not_empty _ In).
    cbn [raise_if mbind result_bind]. rewrite (bool_decide_false (_ = [])).
    2: { intros E. rewrite E in Hin. by apply not_elem_of_nil in Hin. }
    assert (existsb is_empty (remove_dups (py_strip <$> JWT_AUDIENCES s)) = false) as ->.
    { apply not_true_iff_false. intros (a & Ha & Hae)%existsb_exists.
      apply list_elem_of_In, elem_of_remove_dups, list_elem_of_fmap in Ha as (b & -> & Hb).
      apply audience_tidy in Hb as [Hb1 Hb2]. rewrite Hb1 in Hae. by apply bool_decide_eq_true in Hae. }
    cbn [orb raise_if mbind result_bind].
    assert ((ACCESS_TOKEN_TTL_SECONDS s * 1000000 <=? 0) = false) as -> by lia. done. }
  rewrite Hi. cbn [mbind result_bind]. unfold verifier_init. cbn [default option_map from_option].
  rewrite Ik, Ak, (not_empty _ In), (not_empty _ An).
  cbn [orb raise_if mbind result_bind id].
  assert ((JWT_CLOCK_SKEW_SECONDS s * 1000000 <? 0) = false) as -> by lia.
  cbn [id raise_if mbind result_bind normalize_keys]. rewrite Kk, (not_empty _ Kn).
  cbn [raise_if mbind result_bind].
  rewrite lookup_empty, Hsize. cbn. eexists _, _. split; [reflexivity|]. exact Hin.
Qed.
Lemma load_replay_key_size raw key : load_replay_key raw = Ok key -> length key = 32%nat.
Proof.
  unfold load_replay_key. destruct (Nat.eqb_spec (length raw) 32); [by intros [= <-]|].
  destruct (b64_bytes _) as [l|]; [|done]. destruct (Nat.eqb_spec (length l) 32); [by intros [= <-]|done].
Qed.

Lemma load_ring_ok paths keys0 keys :
  load_ring paths keys0 = Ok keys -> map_Forall (fun _ key => length key = 32%nat) keys0 ->
  map_Forall (fun _ key => length key = 32%nat) keys /\
  (forall k, is_Some (dict_get k paths) \/ is_Some (keys0 !! k) -> is_Some (keys !! k)).
Proof.
  revert keys0. induction paths as [|[k p] paths IH]; intros keys0 Hl H32; cbn [load_ring] in Hl.
  { injection Hl as <-. split; [done|]. by intros k [[? [=]]|]. }
  destruct (read_bytes p) as [raw|]; [|done]. ok_inv.
  match goal with E : load_replay_key _ = Ok ?a |- _ => rename E into Hk, a into key end.
  destruct (IH _ Hl) as [Hall Hin].
  { apply map_Forall_insert_2; [by eapply load_replay_key_size|done]. }
  split; [done|]. intros k' Hk'. apply Hin. cbn [dict_get] in Hk'.
  destruct (String.eqb_spec k k') as [->|Hne].
  - right. rewrite lookup_insert_eq. eauto.
  - rewrite lookup_insert_ne by done. exact Hk'.
Qed.

Lemma provide_protector_ok s paths keys :
  secure s -> REPLAY_ENCRYPTION_KEY_PATHS s = Ok paths -> load_ring paths ∅ = Ok keys ->
  provide_protector s =
    Ok {| pr_active_key_id := REPLAY_ENCRYPTION_ACTIVE_KEY_ID s; pr_keys := keys |}.
Proof.
  intros Hs Hp Hl. unfold provide_protector. rewrite Hp. cbn [mbind result_bind].
  rewrite Hl. cbn [mbind result_bind]. destruct (sv_ring s Hs) as (paths' & Hp' & Hactive).
  assert (paths' = paths) as -> by congruence.
  destruct (load_ring_ok _ _ _ Hl) as [Hall Hin]; [apply map_Forall_empty|].
  destruct (Hin (REPLAY_ENCRYPTION_ACTIVE_KEY_ID s)) as [key Hkey]; [by left|].
  unfold protector_init. rewrite Hkey. cbn [is_none is_some negb orb].
  assert (forallb (fun kv => (length kv.2 =? 32)%nat) (map_to_list keys) = true) as ->; [|done].
  apply forallb_forall. intros [k v] Hkv%list_elem_of_In%elem_of_map_to_list.
  apply Nat.eqb_eq. exact (Hall k v Hkv).
Qed.
End security.

(** ** The contract across groups *)

Lemma validate_settings_inv `{FloatBounds} i s :
  validate_settings i = Ok s ->
  (exists o, validate_outbox o = Ok (outbox s)) /\
  (exists r, validate_registration r = Ok (registration s)) /\
  (exists d, validate_idempotency d = Ok (idempotency s)) /\
  (exists p, validate_profile_service p = Ok (profile_service s)) /\
  (exists v, validate_valkey v = Ok (valkey s)) /\
  (exists a p c, validate_security a p c = Ok (security s)) /\
  validate_security_contract s = Ok s.
Proof.
  unfold validate_settings. cbv zeta. intros Hv. ok_inv.
  apply (proj1 (in_validator_ok _ _)) in Hv. pose proof Hv as Hc.
  unfold validate_security_contract in Hv. ok_inv. subst s. cbn [outbox registration idempotency
    profile_service valkey security] in *. split_and!; eauto.
Qed.

(** C36. Settings that validate configure a service that starts.  When none of the compared
    numbers is a NaN: the registration components, both circuit breakers, the profile
    client and the hot store accept what their providers hand them; with key files
    that load, the tokens' issuer and verifier are built and the verifier's audience is
    one of the issuer's, and the replay protector is built with the active key in
    its ring; the token test endpoint is off in production; and the claim lease of
    a registration exceeds two profile requests and the longest pause between them.
    The outbox relay is the exception: its settings never compare the two retry delays,
    so the provider fails exactly when the longest delay is below the first one. *)
Theorem settings_wire `{FloatBoundsLaws} `{Jwt} `{LaxReaders} `{FileSystem} i s :
  validate_settings i = Ok s -> forallb not_nan (numbers s) = true ->
  provide_resume (registration s) = Ok (registration_policy (registration s)) /\
  provide_register (registration s) = Ok (REGISTRATION_CLAIM_LEASE_SECONDS (registration s)) /\
  is_Some (provide_circuit_breaker (idempotency s)) /\
  is_ok (provide_hot_store (idempotency s) (valkey s)) = true /\
  is_Some (provide_profile_breaker (profile_service s)) /\
  is_ok (provide_provisioner (profile_service s)) = true /\
  (forall keys,
     load_rsa_key_pair (JWT_PRIVATE_KEY_PATH (security s)) (JWT_PUBLIC_KEY_PATH (security s)) = Ok keys ->
     exists issuer verifier, provide_tokens (token_settings_of (security s)) = Ok (issuer, verifier) /\
       ve_audience verifier ∈ is_audiences issuer) /\
  (forall paths ring, REPLAY_ENCRYPTION_KEY_PATHS (security s) = Ok paths ->
     load_ring paths ∅ = Ok ring -> is_ok (provide_protector (security s)) = true) /\
  (APP_ENVIRONMENT (app s) = production -> AUTH_TEST_TOKEN_ENDPOINT_ENABLED (security s) = false) /\
  fle (REGISTRATION_CLAIM_LEASE_SECONDS (registration s))
    (maximum_profile_attempt_seconds (profile_service s)) = false /\
  (forall stopped, is_ok (provide_outbox_relay (outbox s) stopped) =
     negb (flt (OUTBOX_RETRY_MAX_SECONDS (outbox s)) (OUTBOX_RETRY_INITIAL_SECONDS (outbox s)))).
Proof.
  intros Hv Hn. destruct (validate_settings_inv i s Hv) as
    ([o Ho] & [r Hr] & [d Hd] & [p Hp] & [v Hvk] & (a & pp & c & Hs) & Hc).
  cbn [forallb numbers] in Hn. repeat apply andb_true_iff in Hn as [? Hn].
  destruct (registration_valid _ _ Hr) as [Hr1 Hr2]; try done.
  destruct (idempotency_valid _ _ Hd) as [Hd1 Hd2]; [done|].
  destruct (profile_valid _ _ Hp) as [Hp1 Hp2]; try done.
  destruct (outbox_valid _ _ Ho) as [Ho1 Ho2]; try done.
  pose proof (security_valid _ _ _ _ Hs) as Hsec.
  unfold validate_security_contract in Hc. ok_inv.
  split_and!; try done.
  - by rewrite (hot_store_valid _ _ _ _ Hd Hvk).
  - intros keys. by apply provide_tokens_ok.
  - intros paths ring Hpaths Hring. by rewrite (provide_protector_ok _ _ _ Hsec Hpaths Hring).
  - intros Henv. rewrite Henv in *. by destruct (AUTH_TEST_TOKEN_ENDPOINT_ENABLED (security s)).
  - intros stopped. unfold provide_outbox_relay. rewrite Ho2.
    destruct (flt _ _); [done|]. cbn [raise_if mbind result_bind]. by rewrite Ho1.
Qed.

(** ** A configuration *)

(** Bounds that compare, NaN included. *)
Definition demo_bounds : FloatBounds :=
  {| field_gt b x := flt b x; field_ge b x := fle b x; field_le b x := fle x b |}.

Lemma demo_bounds_laws : @FloatBoundsLaws demo_bounds.
Proof. by split. Qed.

(** The defaults, but with a first outbox delay of two minutes. *)
Definition demo_input : settings_input :=
  {| in_log_level := "info"; in_mute_loggers := inr [];
     in_audiences := inr ["andruha-identity-service"; "andruha-api-gateway"]%string;
     in_replay_paths := inr [("replay-v1", "/run/secrets/identity_replay_key")]%string;
     in_groups := {|
       app := default_app; postgres := default_postgres; valkey := default_valkey;
       kafka := default_kafka;
       outbox := {| OUTBOX_POLL_INTERVAL_SECONDS := of_Z 2; OUTBOX_BATCH_SIZE := 50;
         OUTBOX_CLAIM_LEASE_SECONDS := of_Z 30; OUTBOX_RETRY_INITIAL_SECONDS := of_Z 120;
         OUTBOX_RETRY_MAX_SECONDS := of_Z 60; OUTBOX_RETRY_EXPONENT := of_Z 2;
         OUTBOX_RETRY_JITTER_RATIO := f0_2; OUTBOX_RETRY_MAX_ATTEMPTS := 10;
         OUTBOX_SHUTDOWN_TIMEOUT_SECONDS := of_Z 10 |};
       security := default_security; idempotency := default_idempotency;
       profile_service := default_profile_service; registration := default_registration |} |}.

Lemma settings_wire_witness :
  exists s, @validate_settings demo_bounds demo_input = Ok s /\
    provide_resume (registration s) = Ok (registration_policy (registration s)) /\
    is_ok (provide_outbox_relay (outbox s) (fun _ => true)) = false.
Proof.
  eexists. split; [vm_compute; reflexivity|]. split; [vm_compute; reflexivity|].
  pose proof (@settings_wire demo_bounds demo_bounds_laws AccessTokens.demo_keys
    AccessTokens.demo_jwt AccessTokens.demo_readers AccessTokens.demo_files demo_input _
    ltac:(vm_compute; reflexivity) ltac:(vm_compute; reflexivity)) as H.
  destruct H as (_ & _ & _ & _ & _ & _ & _ & _ & _ & _ & H).
  rewrite H. vm_compute. reflexivity.
Defined.
