(* ===== verification/Logging.v ===== *)
(** * Logging

    [core/logging.py]: the level, the service context, the exception chain that is
    logged instead of messages and source lines, the levels of the muted loggers,
    and the chain of processors every log line goes through.  The processors and
    renderers of structlog are parameters ([LogLibrary], [LogLaws]). *)

From S2P Require Import Prelude Exceptions Retry Text Settings.

(** [logging.getLevelNamesMapping()] *)
Definition level_names : list (string * Z) :=
  [("CRITICAL", 50); ("FATAL", 50); ("ERROR", 40); ("WARN", 30); ("WARNING", 30); ("INFO", 20);
   ("DEBUG", 10); ("NOTSET", 0)]%string.

Definition WARNING : Z := 30.
Definition NOTSET : Z := 0.

(** [_log_level] *)
Definition log_level (s : AppSettings) : res Z :=
  match dict_get (LOG_LEVEL s) level_names with
  | Some level => mret level
  | None => raise EValueError
  end.

(** ** Events *)

(** An exception object: the class, the frames of its traceback, the text of the
    exception, and its links to other objects. *)
Record frame := { fr_file : string; fr_line : Z; fr_function : string }.

Record exc_object := {
  ex_type : string;
  ex_frames : list frame;
  ex_message : string;
  ex_cause : option nat;
  ex_suppress_context : bool;
  ex_context : option nat
}.

Abbreviation exc_heap := (gmap nat exc_object).

Record chain_entry := { ce_type : string; ce_frames : list frame }.

(** What an event may carry. *)
Inductive event_value : Type :=
| Text (text : string)
| Null
| Exc (id : nat)
(** a tuple whose second item is an exception, or is not *)
| Tuple (second : option nat)
| Truthy
| Chain (chain : list chain_entry).

Abbreviation event_dict := (list (string * event_value)).

Definition environment_value (e : environment) : string :=
  match e with development => "development" | test => "test" | production => "production" end.

(** [event_dict.setdefault(key, value)] *)
Definition set_default (key : string) (value : event_value) (d : event_dict) : event_dict :=
  match dict_get key d with Some _ => d | None => dict_set key value d end.

(** [_service_context] *)
Definition add_service_context (s : AppSettings) (d : event_dict) : event_dict :=
  set_default "environment" (Text (environment_value (APP_ENVIRONMENT s)))
    (set_default "version" (Text (APP_VERSION s))
      (set_default "service" (Text (SERVICE_NAME s)) d)).

(** [event.pop(key, None)] *)
Fixpoint dict_pop {A} (key : string) (d : list (string * A)) : list (string * A) :=
  match d with
  | [] => []
  | (k, v) :: d => if String.eqb k key then d else (k, v) :: dict_pop key d
  end.

(** [error.__cause__ or (None if error.__suppress_context__ else error.__context__)] *)
Definition next_error (x : exc_object) : option nat :=
  match ex_cause x with
  | Some cause => Some cause
  | None => if ex_suppress_context x then None else ex_context x
  end.

(** The loop over the chain, for at most [fuel] objects; [None] when it has not ended by
    then. *)
Fixpoint walk (heap : exc_heap) (fuel : nat) (seen : gset nat) (error : option nat) :
    option (list (nat * chain_entry)) :=
  match fuel with
  | O => None
  | S fuel =>
      match error with
      | None => Some []
      | Some id =>
          if decide (id ∈ seen) then Some [] else
          match heap !! id with
          | None => Some []
          | Some x =>
              rest ← walk heap fuel ({[id]} ∪ seen) (next_error x);
              Some ((id, {| ce_type := ex_type x; ce_frames := ex_frames x |}) :: rest)
          end
      end
  end.

(** [bool(info)], and the exception it stands for. *)
Definition truthy_value (info : event_value) : bool :=
  match info with
  | Null => false
  | Text text => negb (bool_decide (text = ""%string))
  | Chain chain => negb (bool_decide (length chain = 0%nat))
  | _ => true
  end.

Definition error_of (current : option nat) (info : event_value) : option nat :=
  match info with Exc id => Some id | Tuple second => second | _ => current end.

(** [_safe_exception_info]; [current] is [sys.exc_info()[1]].  One step more than the
    heap has objects is fuel enough. *)
Definition safe_exception_info (heap : exc_heap) (current : option nat) (event : event_dict) :
    option event_dict :=
  let rest := dict_pop "exc_info" event in
  let info := default Null (dict_get "exc_info" event) in
  if negb (truthy_value info) then Some rest
  else
    chain ← walk heap (S (size heap)) ∅ (error_of current info);
    Some (dict_set "exception_chain" (Chain chain.*2) rest).

(** ** The loggers *)

(** [any(name == muted or name.startswith(f"{muted}."))] *)
Definition is_muted (muted_loggers : list string) (name : string) : bool :=
  existsb (fun muted => String.eqb name muted || String.prefix (muted +:+ ".")%string name)
    muted_loggers.

Record logger := { lg_handlers : nat; lg_propagate : bool; lg_level : Z }.

Definition fresh_logger : logger := {| lg_handlers := 0; lg_propagate := true; lg_level := NOTSET |}.

(** The last loop of [setup_logging]: every logger that exists or is muted. *)
Definition configure_loggers (s : AppSettings) (level : Z) (loggers : gmap string logger) :
    gmap string logger :=
  let muted_loggers := MUTE_LOGGERS s ++ ["sqlalchemy"%string] in
  foldr (fun name => <[name :=
      {| lg_handlers := 0; lg_propagate := true;
         lg_level := if is_muted muted_loggers name then Z.max level WARNING else NOTSET |}]>)
    loggers ((map_to_list loggers).*1 ++ muted_loggers).

(** [setup_logging]: the root logger's level and the other loggers. *)
Definition setup_logging (s : AppSettings) (loggers : gmap string logger) :
    res (Z * gmap string logger) :=
  level ← log_level s;
  mret (level, configure_loggers s level loggers).

(** ** The chain of processors *)

(** The processors of structlog that the configuration names. *)
Inductive library_processor : Set :=
| merge_contextvars
| add_logger_name
| add_log_level
| TimeStamper
| StackInfoRenderer
| wrap_for_formatter
| remove_processors_meta.

Inductive processor : Set :=
| Library (p : library_processor)
| ServiceContext
| SafeExceptionInfo.

Inductive renderer_kind : Set :=
| ConsoleRenderer
| JSONRenderer.

(** What [structlog.configure] and [dictConfig] are given: the processors of structlog's
    own loggers, and the formatter of the root's handler. *)
Record log_config := {
  lc_raise_exceptions : bool;
  lc_processors : list processor;
  lc_foreign_pre_chain : list processor;
  lc_formatter_processors : list processor;
  lc_renderer : renderer_kind;
  lc_disable_existing_loggers : bool;
  lc_root_handlers : list string;
  lc_root_level : Z
}.

Definition shared_processors : list processor :=
  [Library merge_contextvars; ServiceContext; Library add_logger_name; Library add_log_level;
   Library TimeStamper; Library StackInfoRenderer; SafeExceptionInfo].

Definition log_configuration (s : AppSettings) (level : Z) : log_config :=
  {| lc_raise_exceptions := false;
     lc_processors := shared_processors ++ [Library wrap_for_formatter];
     lc_foreign_pre_chain := shared_processors;
     lc_formatter_processors := [Library remove_processors_meta];
     lc_renderer := if DEV_LOGS s then ConsoleRenderer else JSONRenderer;
     lc_disable_existing_loggers := false;
     lc_root_handlers := ["default"%string];
     lc_root_level := level |}.

(** structlog: each processor as a function of the event, and the text a renderer gives
    an event whose values may be exception objects. *)
Class LogLibrary := {
  run_library : library_processor -> event_dict -> event_dict;
  render : renderer_kind -> exc_heap -> event_dict -> string
}.

Section Pipeline.
Context `{LogLibrary} (s : AppSettings) (heap : exc_heap) (current : option nat).

Definition run_processor (p : processor) (event : event_dict) : option event_dict :=
  match p with
  | Library p => Some (run_library p event)
  | ServiceContext => Some (add_service_context s event)
  | SafeExceptionInfo => safe_exception_info heap current event
  end.

Fixpoint run_processors (l : list processor) (event : event_dict) : option event_dict :=
  match l with
  | [] => Some event
  | p :: l => event ← run_processor p event; run_processors l event
  end.

(** The text of a record: one of structlog's own loggers runs its processors when the
    event is logged, any other record runs the formatter's [foreign_pre_chain];
    then the formatter's processors and its renderer. *)
Definition record_text (cfg : log_config) (from_structlog : bool) (event : event_dict) : option string :=
  event ← run_processors (if from_structlog then lc_processors cfg else lc_foreign_pre_chain cfg) event;
  event ← run_processors (lc_formatter_processors cfg) event;
  Some (render (lc_renderer cfg) heap event).
End Pipeline.

(** [setup_logging]: the configuration and the other loggers. *)
Definition setup_pipeline (s : AppSettings) (loggers : gmap string logger) :
    res (log_config * gmap string logger) :=
  '(level, loggers) ← setup_logging s loggers;
  mret (log_configuration s level, loggers).

(** ** Correctness *)

(** The chain follows the links of the objects. *)
Fixpoint follows (heap : exc_heap) (error : option nat) (chain : list (nat * chain_entry)) : Prop :=
  match chain with
  | [] => True
  | (id, entry) :: chain =>
      error = Some id /\
      exists x, heap !! id = Some x /\
        entry = {| ce_type := ex_type x; ce_frames := ex_frames x |} /\
        follows heap (next_error x) chain
  end.

(** The object the chain would go on with. *)
Fixpoint after (heap : exc_heap) (error : option nat) (chain : list (nat * chain_entry)) : option nat :=
  match chain with
  | [] => error
  | (id, _) :: chain => after heap (x ← heap !! id; next_error x) chain
  end.

Lemma walk_spec heap fuel seen error :
  seen ⊆ dom heap -> (size heap < fuel + size seen)%nat ->
  exists chain, walk heap fuel seen error = Some chain /\
    NoDup chain.*1 /\ (forall id, id ∈ chain.*1 -> id ∉ seen) /\
    follows heap error chain /\
    (forall id, after heap error chain = Some id ->
       id ∈ seen \/ id ∈ chain.*1 \/ id ∉ dom heap).
Proof.
  revert seen error. induction fuel as [|fuel IH]; intros seen error Hs Hf.
  { apply subseteq_size in Hs. rewrite size_dom in Hs. lia. }
  assert (Hstop : forall o, (forall id, o = Some id -> id ∈ seen \/ id ∉ dom heap) ->
    exists chain : list (nat * chain_entry), Some [] = Some chain /\ NoDup chain.*1 /\
      (forall id, id ∈ chain.*1 -> id ∉ seen) /\ follows heap o chain /\
      (forall id, after heap o chain = Some id -> id ∈ seen \/ id ∈ chain.*1 \/ id ∉ dom heap)).
  { intros o Ho. exists []. split_and!; [done|constructor|set_solver|done|].
    intros id Hid. cbn in Hid. destruct (Ho id Hid); auto. }
  cbn [walk]. destruct error as [id|]; [|by apply Hstop].
  case_decide as Hseen; [apply Hstop; intros ? [= <-]; auto|].
  destruct (heap !! id) as [x|] eqn:E.
  2: { apply Hstop. intros ? [= <-]. right. by apply not_elem_of_dom. }
  assert (Hid : id ∈ dom heap) by by apply elem_of_dom_2 in E.
  destruct (IH ({[id]} ∪ seen) (next_error x)) as (chain & -> & Hn & Hc & Hfo & Ha).
  - set_solver.
  - rewrite size_union by set_solver. rewrite size_singleton. lia.
  - eexists. split; [reflexivity|]. cbn. split; [|split; [|split]].
    + apply list.NoDup_cons. split; [|done]. intros Hin%Hc. set_solver.
    + intros k [->|Hk]%elem_of_cons; [done|]. apply Hc in Hk. set_solver.
    + eauto.
    + intros k. rewrite E. cbn. intros Hk%Ha. set_solver.
Qed.

(** The objects without their messages. *)
Definition silent (x : exc_object) : exc_object :=
  {| ex_type := ex_type x; ex_frames := ex_frames x; ex_message := ""; ex_cause := ex_cause x;
     ex_suppress_context := ex_suppress_context x; ex_context := ex_context x |}.

Lemma walk_silent heap fuel seen error : walk (silent <$> heap) fuel seen error = walk heap fuel seen error.
Proof.
  revert seen error. induction fuel as [|fuel IH]; intros seen [id|]; try done. cbn [walk].
  case_decide; [done|]. rewrite lookup_fmap. destruct (heap !! id) as [x|]; [|done].
  cbn [fmap option_fmap option_map]. rewrite IH. done.
Qed.

Lemma dict_get_pop {A} key key' (d : list (string * A)) :
  NoDup d.*1 ->
  dict_get key' (dict_pop key d) = if String.eqb key key' then None else dict_get key' d.
Proof.
  induction d as [|[k v] d IH]; intros Hn; cbn; [by destruct (String.eqb key key')|].
  cbn in Hn. apply list.NoDup_cons in Hn as [Hk Hn].
  destruct (String.eqb_spec k key) as [->|Hne].
  - destruct (String.eqb_spec key key') as [->|]; [|done].
    destruct (dict_get key' d) as [w|] eqn:E; [|done].
    apply dict_get_elem in E. destruct Hk. apply list_elem_of_fmap. by exists (key', w).
  - cbn. rewrite IH by done. destruct (String.eqb_spec k key') as [->|]; [|done].
    destruct (String.eqb_spec key key') as [->|]; done.
Qed.

(** What a log event says of an exception.  The processor always ends, also when the
    causes and contexts form a cycle.  It removes [exc_info] and leaves the other keys
    alone; when there was an exception it adds its chain: from the given object
    along explicit causes, or contexts that are not suppressed, each object once,
    until there is no further object or the next was already listed, with the
    class and the frames of each.  Nothing it adds depends on the text of any
    exception. *)
Theorem exception_chain_safe heap current event :
  NoDup event.*1 ->
  let info := default Null (dict_get "exc_info" event) in
  exists out, safe_exception_info heap current event = Some out /\
  dict_get "exc_info" out = None /\
  (forall key, key <> "exc_info"%string -> key <> "exception_chain"%string ->
     dict_get key out = dict_get key event) /\
  (truthy_value info = true ->
     exists chain, dict_get "exception_chain" out = Some (Chain chain.*2) /\
       NoDup chain.*1 /\ follows heap (error_of current info) chain /\
       (forall id, after heap (error_of current info) chain = Some id ->
          id ∈ chain.*1 \/ id ∉ dom heap)) /\
  (forall heap', silent <$> heap' = silent <$> heap ->
     safe_exception_info heap' current event = Some out).
Proof.
  intros Hn info. unfold safe_exception_info. fold info.
  destruct (walk_spec heap (S (size heap)) ∅ (error_of current info)) as
    (chain & Hw & Hnd & _ & Hf & Ha); [set_solver|rewrite size_empty; lia|].
  destruct (truthy_value info) eqn:Et; cbn [negb].
  2: { eexists. split; [reflexivity|]. split_and!; try done.
       - by rewrite dict_get_pop.
       - intros key Hk _. rewrite dict_get_pop by done.
         by destruct (String.eqb_spec "exc_info" key) as [<-|]. }
  rewrite Hw. cbn [mbind option_bind]. eexists. split; [reflexivity|]. split_and!.
  - rewrite dict_get_set, dict_get_pop by done. done.
  - intros key Hk Hk'. rewrite dict_get_set, dict_get_pop by done.
    destruct (String.eqb_spec "exception_chain" key) as [<-|]; [done|].
    by destruct (String.eqb_spec "exc_info" key) as [<-|].
  - intros _. exists chain. rewrite dict_get_set. cbn. split_and!; try done.
    intros id Hid. destruct (Ha id Hid) as [|[|]]; [set_solver|auto..].
  - intros heap' E. rewrite <- (walk_silent heap'), E, walk_silent.
    assert (size heap' = size heap) as ->.
    { rewrite <- (map_size_fmap silent heap'), E. apply map_size_fmap. }
    by rewrite Hw.
Qed.

(** Two exceptions that are each other's context, the second of them raised again. *)
Definition demo_exceptions : exc_heap :=
  {[ 1%nat := {| ex_type := "ValueError"; ex_frames := []; ex_message := "secret";
                 ex_cause := None; ex_suppress_context := false; ex_context := Some 2%nat |};
     2%nat := {| ex_type := "KeyError"; ex_frames := [{| fr_file := "a.py"; fr_line := 3;
                 fr_function := "f" |}]; ex_message := "token";
                 ex_cause := Some 1%nat; ex_suppress_context := true; ex_context := None |} ]}.

Lemma exception_chain_safe_witness :
  let event := [("event", Text "failed"); ("exc_info", Truthy)]%string in
  exists out, safe_exception_info demo_exceptions (Some 2%nat) event = Some out /\
    dict_get "exception_chain" out =
      Some (Chain [{| ce_type := "KeyError"; ce_frames := [{| fr_file := "a.py"; fr_line := 3;
                      fr_function := "f" |}] |}; {| ce_type := "ValueError"; ce_frames := [] |}]) /\
    dict_get "exc_info" out = None.
Proof.
  assert (Hn : NoDup ["event"; "exc_info"]%string) by (apply (bool_decide_unpack _); vm_compute; exact I).
  destruct (exception_chain_safe demo_exceptions (Some 2%nat)
    [("event", Text "failed"); ("exc_info", Truthy)]%string Hn) as (out & Hout & Hnone & _).
  exists out. split; [exact Hout|]. split; [|exact Hnone].
  assert (Some out = Some _) as [= ->] by (rewrite <- Hout; vm_compute; reflexivity). reflexivity.
Defined.

(** ** Levels *)

(** A muted logger and everything below it log warnings and worse; a logger that is not
    muted defers to the root, at the configured level; all of them propagate to the
    root's only handler. *)
Theorem muted_loggers_quiet s loggers level out name l :
  setup_logging s loggers = Ok (level, out) -> out !! name = Some l ->
  lg_handlers l = 0%nat /\ lg_propagate l = true /\
  lg_level l = (if is_muted (MUTE_LOGGERS s ++ ["sqlalchemy"%string]) name
                then Z.max level WARNING else NOTSET).
Proof.
  unfold setup_logging. intros Hs. ok_inv. simplify_eq/=. unfold configure_loggers.
  set (names := (map_to_list loggers).*1 ++ _). intros Hl.
  assert (Hin : name ∈ names \/ loggers !! name = None).
  { destruct (loggers !! name) as [l0|] eqn:E; [left|by right]. apply elem_of_app. left.
    apply list_elem_of_fmap. exists (name, l0). split; [done|]. by apply elem_of_map_to_list. }
  clearbody names. induction names as [|n names IH]; cbn [foldr] in Hl.
  - destruct Hin as [Hin|Hin]; [by apply not_elem_of_nil in Hin|congruence].
  - destruct (decide (n = name)) as [->|Hne].
    + rewrite lookup_insert_eq in Hl. by injection Hl as <-.
    + rewrite lookup_insert_ne in Hl by done. apply IH; [done|].
      destruct Hin as [[->|Hin]%elem_of_cons|Hin]; [done|by left|by right].
Qed.

(** ** Log lines *)

(** The text of such a value does not depend on an exception object. *)
Definition plain_value (v : event_value) : Prop :=
  match v with Exc _ | Tuple _ => False | _ => True end.

(** No value but [exc_info] is an exception. *)
Definition plain_event (d : event_dict) : Prop :=
  forall key v, key <> "exc_info"%string -> dict_get key d = Some v -> plain_value v.

Definition context_keys : list string := ["service"; "version"; "environment"]%string.

(** What structlog documents.  A processor keeps the values that are there, adds no
    exception object, and nothing under the service's keys or the chain's (the context variables
    the service binds are a request's id); the last two add no [exc_info]; a
    renderer prints the values of the event, and looks at an exception only where
    one is a value. *)
Class LogLaws `{LogLibrary} := {
  library_keys p d : NoDup d.*1 -> NoDup (run_library p d).*1;
  library_plain p d : plain_event d -> plain_event (run_library p d);
  library_keeps p d key :
    key ∈ "exc_info"%string :: context_keys -> is_Some (dict_get key d) ->
    dict_get key (run_library p d) = dict_get key d;
  library_adds p d key : key ∈ context_keys -> dict_get key d = None -> dict_get key (run_library p d) = None;
  library_last p d :
    p = wrap_for_formatter \/ p = remove_processors_meta -> dict_get "exc_info" d = None ->
    dict_get "exc_info" (run_library p d) = None /\
    dict_get "exception_chain" (run_library p d) = dict_get "exception_chain" d;
  render_values kind heap heap' d :
    (forall key v, dict_get key d = Some v -> plain_value v) ->
    render kind heap d = render kind heap' d
}.

(** The value the settings give for a key of the context. *)
Definition context_value (s : AppSettings) (key : string) : option event_value :=
  if String.eqb "service" key then Some (Text (SERVICE_NAME s))
  else if String.eqb "version" key then Some (Text (APP_VERSION s))
  else if String.eqb "environment" key then Some (Text (environment_value (APP_ENVIRONMENT s)))
  else None.

Lemma get_set_default key key' v d :
  dict_get key' (set_default key v d) =
    match dict_get key' d with Some w => Some w | None => if String.eqb key key' then Some v else None end.
Proof.
  unfold set_default. destruct (dict_get key d) as [w|] eqn:E.
  - destruct (dict_get key' d) eqn:E'; [done|]. by destruct (String.eqb_spec key key') as [<-|]; [congruence|].
  - rewrite dict_get_set. destruct (String.eqb_spec key key') as [<-|]; [by rewrite E|].
    by destruct (dict_get key' d).
Qed.

Lemma get_service_context s d key :
  dict_get key (add_service_context s d) =
    match dict_get key d with Some v => Some v | None => context_value s key end.
Proof.
  unfold add_service_context, context_value. rewrite !get_set_default.
  destruct (dict_get key d); [done|].
  by destruct (String.eqb "service" key), (String.eqb "version" key), (String.eqb "environment" key).
Qed.

Lemma service_context_keys s d : NoDup d.*1 -> NoDup (add_service_context s d).*1.
Proof.
  assert (Hset : forall key v d, NoDup d.*1 -> NoDup (set_default key v d).*1).
  { intros key v d' Hn. unfold set_default. destruct (dict_get key d'); [done|]. by apply dict_set_keys. }
  intros Hn. by do 3 apply Hset.
Qed.

Lemma service_context_plain s d : plain_event d -> plain_event (add_service_context s d).
Proof.
  intros Hp key v Hk. rewrite get_service_context. destruct (dict_get key d) eqn:E.
  - intros [= <-]. by apply (Hp key).
  - unfold context_value. by repeat case_match; intros; simplify_eq.
Qed.

Section Lines.
Context `{Hlaws : LogLaws} (s : AppSettings).

(** What holds of an event between two processors: [extra] is what has been filled in
    for the keys of the context. *)
Record between (extra : string -> option event_value) (event d : event_dict) : Prop := {
  bt_keys : NoDup d.*1;
  bt_plain : plain_event d;
  bt_info : is_Some (dict_get "exc_info" event) -> dict_get "exc_info" d = dict_get "exc_info" event;
  bt_context key : key ∈ context_keys ->
    dict_get key d = match dict_get key event with Some v => Some v | None => extra key end
}.

Lemma library_context p d key :
  key ∈ context_keys -> dict_get key (run_library p d) = dict_get key d.
Proof using Hlaws.
  intros Hk. destruct (dict_get key d) as [v|] eqn:E; [|by apply library_adds].
  rewrite <- E. apply library_keeps; [set_solver|by rewrite E].
Qed.

Lemma between_library extra event d p :
  between extra event d -> between extra event (run_library p d).
Proof using Hlaws.
  intros [Hn Hp Hi Hc]. split; [by apply library_keys|by apply library_plain| |].
  - intros Hs. rewrite library_keeps; [auto|set_solver|]. by rewrite Hi.
  - intros key Hk. rewrite library_context by done. auto.
Qed.

Lemma between_context event d :
  between (fun _ => None) event d -> between (context_value s) event (add_service_context s d).
Proof using.
  intros [Hn Hp Hi Hc]. split; [by apply service_context_keys|by apply service_context_plain| |].
  - intros Hs. rewrite get_service_context, Hi by done. by destruct Hs as [v ->].
  - intros key Hk. rewrite get_service_context, Hc by done. by destruct (dict_get key event).
Qed.

(** The event before [_safe_exception_info]. *)
Lemma shared_prefix heap current event :
  NoDup event.*1 -> plain_event event ->
  exists d, run_processors s heap current shared_processors event = safe_exception_info heap current d /\
    (forall heap', run_processors s heap' current shared_processors event =
       safe_exception_info heap' current d) /\
    between (context_value s) event d.
Proof using Hlaws.
  intros Hn Hp.
  exists (run_library StackInfoRenderer (run_library TimeStamper (run_library add_log_level
    (run_library add_logger_name (add_service_context s (run_library merge_contextvars event)))))).
  assert (Hend : forall o : option event_dict, o ≫= (fun d => Some d) = o) by (by intros []).
  split; [apply Hend|]. split; [intros heap'; apply Hend|].
  do 4 apply between_library. apply between_context, between_library.
  split; [done|done|done|]. intros key _. by destruct (dict_get key event).
Qed.

(** After it: an event without [exc_info] that differs from [d] in no key of the context
    and not in its chain. *)
Record finished (d d' : event_dict) : Prop := {
  fi_info : dict_get "exc_info" d' = None;
  fi_plain : plain_event d';
  fi_chain : dict_get "exception_chain" d' = dict_get "exception_chain" d;
  fi_context key : key ∈ context_keys -> dict_get key d' = dict_get key d
}.

Lemma finished_library p d d' :
  p = wrap_for_formatter \/ p = remove_processors_meta ->
  finished d d' -> finished d (run_library p d').
Proof using Hlaws.
  intros Hl [Hi Hp Hc Hk]. destruct (library_last p d' Hl Hi) as [Hi' Hc'].
  split; [done|by apply library_plain|by rewrite Hc'|].
  intros key Hkey. rewrite library_context by done. auto.
Qed.

Lemma finished_values d d' : finished d d' -> forall key v, dict_get key d' = Some v -> plain_value v.
Proof using.
  intros [Hi Hp _ _] key v Hv. apply (Hp key); [|done]. intros ->. congruence.
Qed.

(** The processors after [_safe_exception_info] and the renderer. *)
Lemma line_tail heap current level event d d' fs :
  run_processors s heap current shared_processors event = Some d ->
  finished d' d ->
  exists out, record_text s heap current (log_configuration s level) fs event =
      Some (render (if DEV_LOGS s then ConsoleRenderer else JSONRenderer) heap out) /\
    finished d' out /\
    (forall heap', run_processors s heap' current shared_processors event = Some d ->
       record_text s heap' current (log_configuration s level) fs event =
       record_text s heap current (log_configuration s level) fs event).
Proof using Hlaws.
  intros Hrun Hd.
  assert (Happ : forall heap', run_processors s heap' current shared_processors event = Some d ->
    run_processors s heap' current (shared_processors ++ [Library wrap_for_formatter]) event =
    Some (run_library wrap_for_formatter d)).
  { clear. intros heap'. generalize event as e. induction shared_processors as [|p l IH]; intros e.
    - by intros [= ->].
    - cbn. destruct (run_processor s heap' current p e) as [e'|]; [|done]. apply IH. }
  set (last := if fs then run_library wrap_for_formatter d else d).
  assert (Hline : forall heap', run_processors s heap' current shared_processors event = Some d ->
    record_text s heap' current (log_configuration s level) fs event =
    Some (render (if DEV_LOGS s then ConsoleRenderer else JSONRenderer) heap'
      (run_library remove_processors_meta last))).
  { intros heap' E. unfold record_text, last. destruct fs; cbn [lc_processors lc_foreign_pre_chain log_configuration].
    - by rewrite (Happ _ E).
    - by rewrite E. }
  assert (Hfin : finished d' (run_library remove_processors_meta last)).
  { apply finished_library; [by right|]. unfold last. destruct fs; [|done]. apply finished_library; [by left|done]. }
  eexists. split; [by apply Hline|]. split; [done|]. intros heap' E. rewrite !Hline by done.
  f_equal. apply render_values. exact (finished_values _ _ Hfin).
Qed.
End Lines.

(** What [_safe_exception_info] leaves of an event of plain values. *)
Lemma safe_exception_info_finished heap current d d' :
  NoDup d.*1 -> plain_event d -> safe_exception_info heap current d = Some d' -> plain_event d'.
Proof.
  intros Hn Hp. unfold safe_exception_info. destruct (negb _).
  - intros [= <-] key v Hk. rewrite dict_get_pop by done.
    destruct (String.eqb_spec "exc_info" key) as [<-|]; [done|by apply Hp].
  - destruct (walk _ _ _ _) as [chain|]; cbn [mbind option_bind]; [|done]. intros [= <-] key v Hk.
    rewrite dict_get_set, dict_get_pop by done.
    destruct (String.eqb_spec "exception_chain" key); [by intros [= <-]|].
    destruct (String.eqb_spec "exc_info" key) as [<-|]; [done|by apply Hp].
Qed.

Lemma setup_pipeline_config s loggers cfg out :
  setup_pipeline s loggers = Ok (cfg, out) -> exists level, cfg = log_configuration s level.
Proof.
  unfold setup_pipeline. destruct (setup_logging s loggers) as [[level ls]|]; [|done].
  intros [= <- _]. by exists level.
Qed.

(** C39. What a line of the log is made of.  Once logging is set up, every record, from the
    service's own loggers or from any other, has a line: the configured renderer's
    text of an event that has no [exc_info] and no exception among its values, that
    names the service, its version and environment (unless the record has these keys itself), and
    that has, for a record with an exception, the chain of that exception: its
    causes, or contexts that are not suppressed, each once, as classes and frames.
    The line is the same whatever texts the exceptions carry. *)
Theorem log_lines_carry_no_message `{LogLaws} s loggers cfg out heap current fs event :
  setup_pipeline s loggers = Ok (cfg, out) -> NoDup event.*1 -> plain_event event ->
  exists d,
    record_text s heap current cfg fs event =
      Some (render (if DEV_LOGS s then ConsoleRenderer else JSONRenderer) heap d) /\
    dict_get "exc_info" d = None /\
    (forall key v, dict_get key d = Some v -> plain_value v) /\
    (forall key, key ∈ context_keys ->
       dict_get key d = match dict_get key event with Some v => Some v | None => context_value s key end) /\
    (forall info, dict_get "exc_info" event = Some info -> truthy_value info = true ->
       exists chain, dict_get "exception_chain" d = Some (Chain chain.*2) /\
         NoDup chain.*1 /\ follows heap (error_of current info) chain /\
         (forall id, after heap (error_of current info) chain = Some id ->
            id ∈ chain.*1 \/ id ∉ dom heap)) /\
    (forall heap', silent <$> heap' = silent <$> heap ->
       record_text s heap' current cfg fs event = record_text s heap current cfg fs event).
Proof.
  intros Hs Hn Hp. apply setup_pipeline_config in Hs as [level ->].
  destruct (shared_prefix s heap current event Hn Hp) as (d & Hrun & Hruns & Hb).
  destruct (exception_chain_safe heap current d (bt_keys _ _ _ Hb))
    as (d' & Hd' & Hinfo & Hkeys & Hchain & Hsilent).
  rewrite Hd' in Hrun.
  destruct (line_tail s heap current level event d' d' fs Hrun) as (e & Hline & Hfin & Hheap).
  { split; [done| |done|done].
    by apply (safe_exception_info_finished _ _ _ _ (bt_keys _ _ _ Hb) (bt_plain _ _ _ Hb) Hd'). }
  exists e. split; [done|]. split; [by apply Hfin|]. split; [exact (finished_values _ _ Hfin)|].
  split; [|split].
  - intros key Hk. rewrite (fi_context _ _ Hfin) by done.
    rewrite Hkeys by (intros ->; set_solver). by apply Hb.
  - intros info Hi Ht. rewrite (fi_chain _ _ Hfin).
    assert (Hd : dict_get "exc_info" d = Some info) by (rewrite (bt_info _ _ _ Hb), Hi; [done|by rewrite Hi]).
    rewrite Hd in Hchain. by apply Hchain.
  - intros heap' E. apply Hheap. by rewrite Hruns, Hsilent.
Qed.

(** A library: levels and times are added, and a renderer would print the message of an exception it meets. *)
Definition demo_value (heap : exc_heap) (v : option event_value) : string :=
  match v with
  | Some (Text text) => text
  | Some (Exc id) => from_option ex_message "" (heap !! id)
  | Some (Chain chain) => foldr (fun e rest => ce_type e +:+ ";" +:+ rest)%string ""%string chain
  | _ => ""
  end.

#[local] Instance demo_log_library : LogLibrary := {|
  run_library p d :=
    match p with
    | add_log_level => dict_set "level" (Text "error") d
    | TimeStamper => dict_set "timestamp" (Text "now") d
    | _ => d
    end;
  render _ heap d :=
    foldr (fun key rest => key +:+ "=" +:+ demo_value heap (dict_get key d) +:+ " " +:+ rest)%string
      ""%string d.*1
|}.

Lemma dict_get_set_value (P : event_value -> Prop) key key' v (d : event_dict) w :
  dict_get key' (dict_set key v d) = Some w -> P v -> (dict_get key' d = Some w -> P w) -> P w.
Proof. rewrite dict_get_set. destruct (String.eqb key key'); [by intros [= <-]|auto]. Qed.

Lemma demo_log_set p d key : key <> "level"%string -> key <> "timestamp"%string ->
  dict_get key (run_library p d) = dict_get key d.
Proof.
  intros Hl Ht. destruct p; cbn; try done; rewrite dict_get_set.
  - by destruct (String.eqb_spec "level" key) as [<-|].
  - by destruct (String.eqb_spec "timestamp" key) as [<-|].
Qed.

#[local] Instance demo_log_laws : LogLaws.
Proof.
  assert (Hctx : forall key, key ∈ "exc_info"%string :: context_keys ->
    key <> "level"%string /\ key <> "timestamp"%string).
  { intros key Hk. unfold context_keys in Hk.
    repeat (apply elem_of_cons in Hk as [->|Hk]; [done|]). by apply not_elem_of_nil in Hk. }
  split.
  - intros p d Hn. destruct p; cbn; try done; by apply dict_set_keys.
  - intros p d Hp key v Hk. destruct p; cbn; try by apply Hp.
    all: intros Hv; apply (dict_get_set_value _ _ _ _ _ _ Hv); [done|by apply Hp].
  - intros p d key Hk _. by apply demo_log_set; apply Hctx.
  - intros p d key Hk Hd. rewrite demo_log_set; [done|apply Hctx; by right..].
  - intros p d [-> | ->] Hd; done.
  - intros kind heap heap' d Hp. cbn. induction d.*1 as [|key keys IH]; cbn; [done|].
    rewrite IH. do 3 f_equal. destruct (dict_get key d) as [v|] eqn:E; [|done].
    specialize (Hp key v E). by destruct v.
Qed.

(** The exception's message is nowhere in the line. *)
Lemma log_lines_carry_no_message_witness :
  let event := [("event", Text "failed"); ("exc_info", Exc 2%nat)]%string in
  exists cfg out, setup_pipeline default_app ∅ = Ok (cfg, out) /\
    record_text default_app demo_exceptions None cfg true event = Some
      "event=failed service=andruha-identity-service version=0.1.0 environment=development level=error timestamp=now exception_chain=KeyError;ValueError; "%string /\
    record_text default_app (silent <$> demo_exceptions) None cfg true event =
    record_text default_app demo_exceptions None cfg true event.
Proof.
  assert (E : setup_pipeline default_app ∅ =
    Ok (log_configuration default_app 20, configure_loggers default_app 20 ∅)) by reflexivity.
  exists (log_configuration default_app 20), (configure_loggers default_app 20 ∅). split; [exact E|].
  assert (Hn : NoDup ["event"; "exc_info"]%string) by (apply (bool_decide_unpack _); vm_compute; exact I).
  assert (Hp : plain_event [("event", Text "failed"); ("exc_info", Exc 2%nat)]%string).
  { intros key v Hk. cbn [dict_get]. destruct (String.eqb_spec "event" key); [intros [= <-]; exact I|].
    destruct (String.eqb_spec "exc_info" key) as [E'|]; [by destruct Hk|discriminate]. }
  destruct (log_lines_carry_no_message default_app ∅ _ _ demo_exceptions None true
    [("event", Text "failed"); ("exc_info", Exc 2%nat)]%string E Hn Hp) as (d & _ & _ & _ & _ & _ & Hheap).
  split; [|apply Hheap; vm_compute; reflexivity].
  vm_compute. reflexivity.
Defined.
