(* ===== verification/Workers.v ===== *)
(** * The worker processes

    [entrypoints/messaging/relay.py] and [entrypoints/maintenance/registration_reconciler.py]:
    how the main coroutine, the background task, the signal handler and the shutdown
    timeout interleave, as a step function on what a schedule delivers.  The loops
    themselves are those of [Relay] and [Reconciler]; here the task ends when the
    schedule says so, with the result the schedule gives. *)

From S2P Require Import Prelude Exceptions Domain Retry Text Sql Registration Outbox.
From S2P Require Import Effects Accounts Database RegisterFlow Tokens.

(** The background task: it may be asked to cancel while it runs. *)
Inductive task : Set :=
| Running
| Cancelling
| Ended (result : res unit).

(** Where the main coroutine is: waiting for the shutdown event, waiting for the task
    with the timeout, or finished. *)
Inductive phase : Set :=
| Waiting
| Draining
| Exited (result : res unit).

Record worker := {
  wk_task : task;
  wk_phase : phase;
  (** [shutdown_event], set together with the loop's stop event *)
  wk_signalled : bool;
  (** the connection to the broker, held by [async with broker] *)
  wk_broker_open : bool;
  wk_container_open : bool
}.

Inductive worker_step : Set :=
(** a SIGINT or SIGTERM *)
| Signal
| TaskEnds (result : res unit)
(** [wait_for]'s timeout *)
| Timeout
(** the event loop resumes the main coroutine *)
| Resume.

Inductive program : Set := RelayMain | ReconcilerMain.

(** The process up to the task's creation: a container, a broker or settings that fail
    end it at once. *)
Definition launch (p : program) (start : res unit) : worker :=
  match start with
  | Err error => {| wk_task := Ended (Ok tt); wk_phase := Exited (Err error);
      wk_signalled := false; wk_broker_open := false; wk_container_open := false |}
  | Ok _ => {| wk_task := Running; wk_phase := Waiting; wk_signalled := false;
      wk_broker_open := match p with RelayMain => true | ReconcilerMain => false end;
      wk_container_open := true |}
  end.

(** Leaving the [async with] and the [finally]. *)
Definition leave (w : worker) (result : res unit) : worker :=
  {| wk_task := wk_task w; wk_phase := Exited result; wk_signalled := wk_signalled w;
     wk_broker_open := false; wk_container_open := false |}.

Definition drain (w : worker) : worker :=
  {| wk_task := wk_task w; wk_phase := Draining; wk_signalled := wk_signalled w;
     wk_broker_open := wk_broker_open w; wk_container_open := wk_container_open w |}.

(** The [except] clauses around [wait_for], on the way the task ended: a cancelled task
    (which a timeout leaves behind) is swallowed by both programs; a [TimeoutError] of
    the task itself is swallowed by the relay's, while the reconciler's awaits the task
    again and so raises it. *)
Definition drained (p : program) (result : res unit) : res unit :=
  match result with
  | Ok _ => Ok tt
  | Err error =>
      if decide (error = ECancelled) then Ok tt
      else match p with
           | RelayMain => if isinstance error TimeoutError then Ok tt else Err error
           | ReconcilerMain => Err error
           end
  end.

(** The main coroutine, when what it awaits is there. *)
Definition resume_main (p : program) (w : worker) : option worker :=
  match wk_phase w, wk_task w with
  | Waiting, Ended result =>
      match p with
      | RelayMain => if wk_signalled w then Some (drain w) else None
      | ReconcilerMain => Some (leave w result)
      end
  | Waiting, _ => if wk_signalled w then Some (drain w) else None
  | Draining, Ended result => Some (leave w (drained p result))
  | _, _ => None
  end.

Definition with_task (t : task) (w : worker) : worker :=
  {| wk_task := t; wk_phase := wk_phase w; wk_signalled := wk_signalled w;
     wk_broker_open := wk_broker_open w; wk_container_open := wk_container_open w |}.

(** [_handle_signal] *)
Definition handle_signal (w : worker) : worker :=
  {| wk_task := wk_task w; wk_phase := wk_phase w; wk_signalled := true;
     wk_broker_open := wk_broker_open w; wk_container_open := wk_container_open w |}.

Definition worker_run_step (p : program) (s : worker_step) (w : worker) : option worker :=
  match s with
  | Signal => Some (handle_signal w)
  | TaskEnds result =>
      match wk_task w with Ended _ => None | _ => Some (with_task (Ended result) w) end
  | Timeout =>
      match wk_phase w, wk_task w with
      | Draining, Running => Some (with_task Cancelling w)
      | _, _ => None
      end
  | Resume => resume_main p w
  end.

Fixpoint worker_run (p : program) (l : list worker_step) (w : worker) : option worker :=
  match l with
  | [] => Some w
  | s :: l => w ← worker_run_step p s w; worker_run p l w
  end.

(** [main(redrive_operation_id=...)] *)
Definition redrive_main (redrive_operation_id : string) : RM bool :=
  operation_id ← lift (match uuid_parse redrive_operation_id with
                       | Some operation_id => mret operation_id
                       | None => raise EValueError
                       end);
  redrive operation_id.

(** ** Correctness *)

Definition exited (w : worker) : bool :=
  match wk_phase w with Exited _ => true | _ => false end.

Definition task_ended (w : worker) : bool :=
  match wk_task w with Ended _ => true | _ => false end.

Record worker_ok (p : program) (signalled : bool) (w : worker) : Prop := {
  wo_resources : wk_container_open w = negb (exited w) /\ (exited w = true -> wk_broker_open w = false);
  wo_task : exited w = true -> task_ended w = true;
  wo_signal : wk_signalled w = signalled;
  wo_draining : wk_phase w = Draining -> signalled = true;
  wo_cancelling : wk_task w = Cancelling -> wk_phase w = Draining;
  wo_relay : p = RelayMain -> exited w = true -> signalled = true
}.

Definition is_signal (s : worker_step) : bool := match s with Signal => true | _ => false end.

Lemma worker_step_ok p signalled s w w' :
  worker_ok p signalled w -> worker_run_step p s w = Some w' ->
  worker_ok p (signalled || is_signal s) w'.
Proof.
  intros [[Hr1 Hr2] Ht Hs Hd Hc Hre] Hstep. subst signalled.
  destruct w as [t ph sg br co]; cbn in *. destruct s as [|r| |]; cbn in Hstep.
  - simplify_eq/=. rewrite orb_true_r. by split.
  - rewrite orb_false_r. destruct t; simplify_eq/=; split; cbn; try done.
  - rewrite orb_false_r. destruct ph, t; simplify_eq/=; split; cbn; try done; eauto.
  - rewrite orb_false_r. unfold resume_main in Hstep. cbn in Hstep.
    destruct ph, t, p, sg; simplify_eq/=; split; cbn; try done; eauto.
Qed.

Lemma worker_run_ok p l signalled w w' :
  worker_ok p signalled w -> worker_run p l w = Some w' ->
  worker_ok p (signalled || existsb is_signal l) w'.
Proof.
  revert signalled w. induction l as [|s l IH]; intros signalled w Hw; cbn [worker_run existsb].
  { intros [= <-]. by rewrite orb_false_r. }
  destruct (worker_run_step p s w) as [w1|] eqn:E; [|done]. cbn [mbind option_bind].
  rewrite orb_assoc. apply IH. by eapply worker_step_ok.
Qed.

Lemma worker_run_app p l l' w :
  worker_run p (l ++ l') w = (w ← worker_run p l w; worker_run p l' w).
Proof.
  revert w. induction l as [|s l IH]; intros w; [done|]. cbn [app worker_run].
  destruct (worker_run_step p s w); [apply IH|done].
Qed.

Lemma launch_ok p : worker_ok p false (launch p (Ok tt)).
Proof. split; by destruct p. Qed.

(** What is left to do after a signal: go over to waiting with the timeout, let it fire, let
    the cancelled task end, leave. *)
Definition wind_down (p : program) (w : worker) : list worker_step :=
  match wk_phase w, wk_task w with
  | Exited _, _ => []
  | Waiting, Ended _ => match p with RelayMain => [Resume; Resume] | ReconcilerMain => [Resume] end
  | Waiting, _ => [Resume; Timeout; TaskEnds (Err ECancelled); Resume]
  | Draining, Ended _ => [Resume]
  | Draining, Running => [Timeout; TaskEnds (Err ECancelled); Resume]
  | Draining, Cancelling => [TaskEnds (Err ECancelled); Resume]
  end.

Lemma wind_down_exits p w :
  worker_ok p true w -> exists w', worker_run p (wind_down p w) w = Some w' /\ exited w' = true.
Proof.
  intros [_ _ Hs _ Hc _]. destruct w as [t ph sg br co]; cbn in *. subst sg.
  destruct ph as [| |r], t as [| |r'];
    try (destruct p; eexists; split; reflexivity).
  by discriminate (Hc eq_refl).
Qed.

(** The worker processes.  However signals, the end of the task, the timeout and the event
    loop interleave: a process that ends has given back the broker connection and the
    container and leaves no task running; it gives them back only then; the relay's
    process ends only after a signal, even if its task has already failed, while the
    reconciler's also ends, with the task's result, as soon as its task does; and
    once a signal has come the process needs no other one to end, even if its task has to be
    cancelled by the timeout. *)
Theorem worker_lifecycle p l w :
  worker_run p l (launch p (Ok tt)) = Some w ->
  (exited w = true -> task_ended w = true /\ wk_broker_open w = false) /\
  wk_container_open w = negb (exited w) /\
  (p = RelayMain -> exited w = true -> existsb is_signal l = true) /\
  (forall result, p = ReconcilerMain -> wk_phase w = Waiting -> wk_task w = Ended result ->
     exists w', worker_run_step p Resume w = Some w' /\ wk_phase w' = Exited result) /\
  (existsb is_signal l = true ->
     exists l' w', worker_run p (l ++ l') (launch p (Ok tt)) = Some w' /\
       existsb is_signal l' = false /\ exited w' = true).
Proof.
  intros Hl. pose proof (worker_run_ok p l false _ w (launch_ok p) Hl) as Hw. cbn [orb] in Hw.
  pose proof Hw as [[Hr1 Hr2] Ht Hs Hd Hc Hre]. split_and!; try done.
  - intros He. by split; [apply Ht|apply Hr2].
  - intros result -> Hp He. cbn. unfold resume_main. rewrite Hp, He. by eexists.
  - intros Hsig. rewrite Hsig in Hw. destruct (wind_down_exits p w Hw) as (w' & Hl' & Hex).
    exists (wind_down p w), w'. rewrite worker_run_app, Hl. split; [exact Hl'|]. split; [|done].
    unfold wind_down. by destruct (wk_phase w), (wk_task w), p.
Qed.

(** The relay's task fails, and nothing happens until the signal comes. *)
Lemma worker_lifecycle_witness :
  exists w, worker_run RelayMain [TaskEnds (Err EException)] (launch RelayMain (Ok tt)) = Some w /\
    worker_run_step RelayMain Resume w = None /\ exited w = false /\
    exists w', worker_run RelayMain [TaskEnds (Err EException); Signal; Resume; Resume]
                 (launch RelayMain (Ok tt)) = Some w' /\
      wk_phase w' = Exited (Err EException) /\ wk_container_open w' = false.
Proof.
  eexists. split; [vm_compute; reflexivity|]. split; [reflexivity|]. split; [reflexivity|].
  eexists. split; [vm_compute; reflexivity|]. split; [reflexivity|].
  destruct (worker_lifecycle RelayMain [TaskEnds (Err EException); Signal; Resume; Resume] _
    ltac:(vm_compute; reflexivity)) as (_ & H & _). exact H.
Defined.
