(* ===== verification/HttpApp.v ===== *)
(** * The HTTP application

    [entrypoints/http/main.py], the routers' [__init__.py] and [routers/health.py]: which
    routes an application has under which settings, what its start-up resolves, and
    the health checks.  FastAPI's own routes (documentation, the mounted metrics
    application) are not modelled; the container is in [Container]. *)

From S2P Require Import Prelude Exceptions Retry Text Json Tokens ErrorResponses AccessTokens.
From S2P Require Import ReplayProtection Settings Wiring.

(** ** routers/health.py *)

(** [check_postgres] and [check_valkey], on what the connection or the ping answers. *)
Definition check_postgres (answer : res unit) : res bool :=
  match answer with
  | Ok _ => mret true
  | Err error => if is_exception error then mret false else raise error
  end.

Definition check_valkey (answer : res bool) : res bool :=
  match answer with
  | Ok pong => mret pong
  | Err error => if is_exception error then mret false else raise error
  end.

Record health_report := {
  hr_status_code : Z;
  hr_status : string;
  hr_postgres : string;
  hr_valkey : string
}.

(** [asyncio.gather] raises what either check raises. *)
Definition ready (postgres_answer : res unit) (valkey_answer : res bool) : res health_report :=
  postgres_ok ← check_postgres postgres_answer;
  valkey_ok ← check_valkey valkey_answer;
  mret {| hr_status_code := if postgres_ok : bool then 200 else 503;
          hr_status := if postgres_ok : bool then "ready" else "unavailable";
          hr_postgres := if postgres_ok : bool then "ok" else "unavailable";
          hr_valkey := if valkey_ok : bool then "ok" else "degraded" |}.

Definition live : list (string * string) := [("status", "ok")]%string.

(** ** Routers *)

Abbreviation route := (string * string)%type.

(** [include_router] under a prefix. *)
Definition prefixed (prefix : string) (routes : list route) : list route :=
  (fun r => (r.1, prefix +:+ r.2)%string) <$> routes.

Definition create_auth_router (include_test_token_endpoint : bool) : list route :=
  prefixed "/auth"
    ([("POST", "/register"); ("POST", "/login")]%string
     ++ (if include_test_token_endpoint then [("POST", "/login/test")]%string else [])
     ++ [("POST", "/refresh"); ("POST", "/logout"); ("GET", "/me")]%string).

Definition create_v1_router (include_test_token_endpoint : bool) : list route :=
  prefixed "/v1" (create_auth_router include_test_token_endpoint).

Definition create_api_router (include_test_token_endpoint : bool) : list route :=
  prefixed "/api" (create_v1_router include_test_token_endpoint).

Definition health_router : list route :=
  prefixed "/health" [("GET", "/live"); ("GET", "/ready")]%string.

(** ** main.py *)

Record application := {
  ap_routes : list route;
  (** the exception handlers, by class *)
  ap_handlers : list (exn * HttpErrorSpec)
}.

(** [create_app] *)
Definition create_app (s : Settings) : application :=
  {| ap_routes := health_router ++ create_api_router (test_token_endpoint_enabled s);
     ap_handlers := registered_handlers (IDEMPOTENCY_LEASE_SECONDS (idempotency s)) |}.

Section lifespan.
Context `{Jwt} `{LaxReaders} `{FileSystem}.

(** [lifespan], before the first request: the components it resolves.  Creating the
    engine and the Valkey client opens no connection. *)
Definition lifespan (s : Settings) : res (jwt_issuer * jwt_verifier * protector) :=
  tokens ← provide_tokens (token_settings_of (security s));
  p ← provide_protector (security s);
  provide_hot_store (idempotency s) (valkey s);;
  mret (tokens.1, tokens.2, p).
End lifespan.

(** ** Correctness *)

(** Readiness is PostgreSQL's alone: 503 exactly when its check fails, whatever Valkey
    answers, and Valkey's failure only shows in the report. *)
Theorem readiness postgres_answer valkey_answer report :
  ready postgres_answer valkey_answer = Ok report ->
  (hr_status_code report = 200 <-> postgres_answer = Ok tt) /\
  (hr_status_code report = 503 <-> exists error, postgres_answer = Err error /\ is_exception error = true) /\
  (hr_valkey report = "ok"%string <-> valkey_answer = Ok true).
Proof.
  unfold ready, check_postgres, check_valkey. intros Hr.
  destruct postgres_answer as [[]|e]; cbn in Hr; [|destruct (is_exception e) eqn:E; [|done]];
    destruct valkey_answer as [[]|e']; cbn in Hr;
    try (destruct (is_exception e') eqn:E'; [|done]); injection Hr as <-; cbn;
    (split; [|split]); split; intros; try done; naive_solver.
Qed.

(** C0. The application that validated settings give.  Its routes are distinct; the token
    test endpoint is one of them exactly when its flag is set outside production, so
    in production it never is.  With key files that load, start-up succeeds, with a
    verifier that accepts the issuer's audiences.  A request that is already in
    progress is answered with the configured lease as its delay. *)
Theorem application_assembled `{FloatBounds} `{Jwt} `{LaxReaders} `{FileSystem} i s :
  validate_settings i = Ok s ->
  let routes := ap_routes (create_app s) in
  NoDup routes /\
  (("POST", "/api/v1/auth/login/test")%string ∈ routes <->
     test_token_endpoint_enabled s = true) /\
  (APP_ENVIRONMENT (app s) = production -> ("POST", "/api/v1/auth/login/test")%string ∉ routes) /\
  (forall keys paths ring,
     load_rsa_key_pair (JWT_PRIVATE_KEY_PATH (security s)) (JWT_PUBLIC_KEY_PATH (security s)) = Ok keys ->
     REPLAY_ENCRYPTION_KEY_PATHS (security s) = Ok paths -> load_ring paths ∅ = Ok ring ->
     exists issuer verifier p, lifespan s = Ok (issuer, verifier, p) /\
       ve_audience verifier ∈ is_audiences issuer /\ pr_keys p = ring) /\
  exists spec, (IdempotencyRequestInProgressError : exn, spec) ∈ ap_handlers (create_app s) /\
    ("Retry-After"%string, str (int_chars (IDEMPOTENCY_LEASE_SECONDS (idempotency s)))) ∈ es_headers spec.
Proof.
  intros Hv routes.
  assert (Hroutes : ("POST", "/api/v1/auth/login/test")%string ∈ routes <->
    test_token_endpoint_enabled s = true).
  { unfold routes, create_app. cbn [ap_routes]. destruct (test_token_endpoint_enabled s).
    - split; [done|]. intros _. apply (bool_decide_unpack _). vm_compute. exact I.
    - split; [|done]. intros Hin. exfalso. revert Hin. apply (bool_decide_unpack _). vm_compute. exact I. }
  destruct (validate_settings_inv i s Hv) as (_ & _ & [d Hd] & _ & [v Hvk] & (a & pp & c & Hs) & Hc).
  pose proof (security_valid _ _ _ _ Hs) as Hsec.
  split; [|split; [done|split; [|split]]].
  - unfold routes, create_app. cbn [ap_routes].
    destruct (test_token_endpoint_enabled s); apply (bool_decide_unpack _); vm_compute; exact I.
  - intros Henv Hin%Hroutes. unfold test_token_endpoint_enabled in Hin. by rewrite Henv in Hin.
  - intros keys paths ring Hkeys Hpaths Hring.
    destruct (provide_tokens_ok _ _ Hsec Hkeys) as (issuer & verifier & Ht & Ha).
    exists issuer, verifier. eexists. unfold lifespan. rewrite Ht. cbn [mbind result_bind].
    rewrite (provide_protector_ok _ _ _ Hsec Hpaths Hring). cbn [mbind result_bind].
    by rewrite (hot_store_valid _ _ _ _ Hd Hvk).
  - assert (exists spec0, (IdempotencyRequestInProgressError : exn, spec0) ∈ HTTP_ERROR_SPECS) as [spec0 H0'].
    { eexists. unfold HTTP_ERROR_SPECS.
      repeat first [apply list_elem_of_here | apply list_elem_of_further]. }
    exists (active_spec (IDEMPOTENCY_LEASE_SECONDS (idempotency s)) IdempotencyRequestInProgressError spec0).
    split; [apply list_elem_of_fmap; by exists (IdempotencyRequestInProgressError : exn, spec0)|].
    unfold active_spec. cbn [fst snd]. rewrite decide_True by done. cbn [es_headers].
    apply elem_of_app. right. by apply list_elem_of_singleton.
Qed.

(** The default settings, in production. *)
Definition demo_production : settings_input :=
  {| in_log_level := "INFO"; in_mute_loggers := inr [];
     in_audiences := inl (jwt_audiences_raw default_security);
     in_replay_paths := inl (replay_key_paths_raw default_security);
     in_groups := {|
       app := {| SERVICE_NAME := "identity"; APP_VERSION := "0.1.0"; APP_ENVIRONMENT := production;
                 HOST := "0.0.0.0"; PORT := 8001; DEV_LOGS := false; LOG_LEVEL := "INFO";
                 MUTE_LOGGERS := [] |};
       postgres := default_postgres; valkey := default_valkey; kafka := default_kafka;
       outbox := default_outbox; security := default_security;
       idempotency := default_idempotency; profile_service := default_profile_service;
       registration := default_registration |} |}.

Lemma application_assembled_witness :
  exists s, @validate_settings demo_bounds demo_production = Ok s /\
    ("POST", "/api/v1/auth/login/test")%string ∉ ap_routes (create_app s) /\
    length (ap_routes (create_app s)) = 7%nat.
Proof.
  eexists. split; [vm_compute; reflexivity|]. split; [|vm_compute; reflexivity].
  pose proof (@application_assembled demo_bounds AccessTokens.demo_keys
    AccessTokens.demo_jwt AccessTokens.demo_readers AccessTokens.demo_files demo_production _
    ltac:(vm_compute; reflexivity)) as H.
  destruct H as (_ & _ & H & _). apply H. reflexivity.
Defined.
